(* ===== verification/_CoqProject ===== *)
-Q . S2P
Prelude.v
Programs.v
Json.v
Canonical.v
Names.v
Regex.v
Secrets.v
Redact.v
Machine.v
Choices.v
Time.v
Station.v
Checkpoint.v
Gateway.v
RouteGuard.v
IpAddress.v
Policy.v
PrivateNetworks.v
Ssrf.v
ConfigSet.v
Endpoint.v
CurlArgs.v
PolicyMerge.v
McpPolicy.v
SessionData.v
SessionParse.v
Events.v
SessionStore.v
Recovery.v
Runtime.v
Runner.v
Recreate.v
CheckpointRecord.v
WatcherLease.v
Registry.v
PolicyExclusions.v
RegistryLock.v
Bootstrap.v
ConfigMerge.v
