(* ===== verification/Prelude.v ===== *)
(** * Verification of the NemoClaw onboarding core

    NemoClaw installs and operates sandboxes for agents.  The part of it that has to be
    right whatever the host does is the durable onboarding core: the session file a run
    leaves behind, the state machine it drives, the checkpoint a resumed run works from,
    the journal under which a sandbox is replaced, the lease on the gateway's watcher and
    the registry of sandboxes.  Around it are the guards: the redaction of secrets in what
    is written, logged or backed up, the guard of the inference route that the sandboxes of
    a gateway share, the checks that keep an endpoint a user names off the private
    networks, the policies that say which hosts a sandbox may reach, and the refusals of a
    configuration write.  This library models that core
    from its TypeScript sources and proves what each part promises to the others.

    ** How the parts interact

    A run is driven by the runner (machine/runner.ts): it calls the handler of the
    current state and gives the results to the runtime (machine/runtime.ts), which checks
    them against the transition table (machine/transitions.ts) and records them in the
    session file (state/onboard-session.ts).  Every session that enters or leaves the
    file crosses [normalizeSession], which contains the parser of the versioned checkpoint
    (state/onboard-checkpoint.ts), of the express intents (station-express-resume.ts) and
    of the recorded choices.  A resumed run first re-seats the machine
    (session-recovery.ts) and decides from the checkpoint which effects may be skipped
    (checkpoint-record.ts, checkpoint-replay.ts).  Replacing a sandbox keeps a transaction
    in the checkpoint (sandbox-recreate-transaction.ts); replacing a gateway takes the
    watcher's lease (podman-watcher-lease.ts); both meet the registry (state/registry.ts).
    Before the route of a gateway is changed, the guard (gateway-route-compatibility.ts)
    compares it with the registry's rows, whose gateway gateway-binding.ts resolves.  What
    the session keeps of an error goes through the redactor (security/redact.ts), a backup
    through the credential filter (credential-filter.ts); both share the patterns of
    secret-patterns.ts.  An endpoint the user names is classified by one parser of
    addresses and one list of private networks (private-networks.ts), which the checks of
    the plugin, of the trusted private endpoints, of a configuration value and of a probe
    all consult; a checked endpoint is a capability with the addresses that were checked,
    and the probe's curl command line may carry them only as a pin.

    The network policy of a running sandbox is a YAML document at the gateway.  Presets are
    merged into it (policy/index.ts), reviewed entries of the agent's baseline are excluded
    from it (baseline-exclusion.ts), and the Shields replace it by a permissive document or
    restore a saved one (shields/mcp-policy-transition.ts, permissive-runtime.ts).  An
    exclusion changes the policy and the row in the registry together; its transaction uses
    the journal of the registry's row.  The digests of exclusions and of the recreate
    transaction hash the same canonical texts ([Canonical]).

    ** Files, in dependency order

    Paths are under src/src/lib unless they say otherwise.
    - [Prelude]: [result] for code that throws, the monad notations, functional record
      update ([Eta], [Upd]), Latin-1 string operations, [bools] and the hint databases.
    - [Programs]: programs as trees of calls ([ProgOf]), their runs against an environment,
      and the weakest precondition the protocol theorems are proved with.
    - [Json]: values of [JSON.parse], property reads, and the loose readers.
    - [Canonical]: [JSON.stringify] and the canonical form with sorted keys that digests
      hash; equality up to the order of keys.
    - [Names]: nemoclaw/src/shared/sandbox-name.cts, name-validation.ts.
    - [Regex]: the sources' part of ECMAScript's regular expressions: a backtracking
      matcher, the relation it implements ([lang]), global replacement, and what a
      replacement by marks does to the matches of a token pattern.
    - [Secrets]: security/secret-patterns.ts and credential-filter.ts.
    - [Redact]: security/redact.ts, with the values of the log in a store of objects.
    - [Machine]: onboard/machine/definition.ts, types.ts, transitions.ts, progress.ts and
      state/onboard-step-state.ts: the states, the edges, their assertions.
    - [Choices]: web search, tool disclosure, reasoning effort, serving profiles.
    - [Time]: the strings that [toISOString] gives.
    - [Station]: onboard/station-express-resume.ts: express intents and the environment.
    - [Checkpoint]: the checkpoint's data, parsers, version dispatch and serializer.
    - [Gateway]: core/ports.ts and onboard/gateway-binding.ts.
    - [RouteGuard]: inference/gateway-route-compatibility.ts and the endpoints of
      core/url-utils.ts.
    - [IpAddress]: the texts of addresses as Node's [isIP], [BlockList] and the sources'
      own parser read them.
    - [Policy]: policy/preset-parsing.ts and baseline-exclusion.ts: what a policy is, and
      the exclusion of reviewed entries from a baseline.
    - [PrivateNetworks]: nemoclaw/src/shared/private-networks.cts and its host names.
    - [Ssrf]: nemoclaw/src/blueprint/ssrf.ts, the plugin's check of an endpoint.
    - [ConfigSet]: sandbox/config.ts, the key, value and URL checks of a configuration
      write and the write itself.
    - [Endpoint]: adapters/http/trusted-private-endpoint.ts: address specifications, the
      preflight and the capability it issues.
    - [CurlArgs]: adapters/http/curl-args.ts, the command line of a probe.
    - [PolicyMerge]: nemoclaw/src/shared/openshell-policy-boundary.cts, the merge and removal
      of presets in policy/index.ts, gateway-state.ts, preset-ownership.ts and
      semantic-validation.ts.
    - [McpPolicy]: shields/mcp-policy-transition.ts and the permissive document of
      shields/permissive-runtime.ts.
    - [SessionData], [SessionParse]: the session, [createSession] and [normalizeSession].
    - [Events]: the redacted events of machine/events.ts.
    - [SessionStore]: the file ([Disk]), the operations over it and the terminal
      operations.  [World] is the file, the clock readings so far, the emitted events and
      the receipt store; an operation is a [World]-passing function that may throw, and
      keeps what it wrote before throwing.
    - [Recovery]: state/onboard-checkpoint-migrate.ts, session-recovery.ts and the
      resume repair policy.
    - [Runtime]: machine/runtime.ts, result.ts, result-events.ts, runtime-boundary.ts.
    - [Runner]: machine/runner.ts, sequence-runner.ts, prerequisite-repair.ts, against the
      class [RunnerRuntime]; [Runtime] is its instance.
    - [Recreate]: the recreate transaction, its recovery plan, its runtime, and the two
      journals that open it (onboard-recreate-journal.ts, rebuild-recreate-journal.ts).
    - [CheckpointRecord]: onboard/checkpoint-record.ts and checkpoint-replay.ts.
    - [WatcherLease]: onboard/managed-bootstrap/podman-watcher-lease.ts, as programs that
      call their dependencies against an arbitrary environment.
    - [Registry]: state/registry.ts, registry-reversible-removal.ts,
      registry-normalization.ts, extra-providers.ts and the save of
      registry/persistence.ts, which normalises the baseline exclusions of every row.
    - [PolicyExclusions]: the transactions of policy/index.ts that exclude and restore
      baseline entries, as programs over the live policy and the row's journal.
    - [RegistryLock]: registry/lock.ts, as programs of system calls that any number of
      processes interleave over one directory, clock and process table ([System]).
    - [Bootstrap]: onboard/session-bootstrap.ts, the fresh and the resumed start.
    - [ConfigMerge]: state/openclaw-config-merge.ts and the managed channel names.

    ** What the theorems show

    - The file: what a load accepts is well formed and loads back unchanged
      ([normalizeSession_establishes_invariant], [session_survives_save],
      [checkpoint_survives_save], [checkpoint_version_dispatch],
      [intent_survives_persistence], [derived_checkpoint_loads]); the operations implement
      a register that is written whole or not at all ([updateSession_is_a_register],
      [step_operations_atomic], [safe_updates_three_valued],
      [markStepSkipped_keeps_outcomes]).
    - The machine: results are applied only along the table ([applyResult_follows_table],
      [preflight_exact], [machine_terminality], [completed_step_follows_graph]); a run
      ends within its limit ([runner_terminates]), and a run of the onboarding sequence,
      with the context updates that its results carry, stays on the table and leaves the
      file at the machine it returns ([run_follows_table]; [sequence_threads_context],
      [repair_results_validated]); it
      fails once and completes durably ([failure_recorded_once],
      [finalize_records_one_failure], [complete_only_from_the_end],
      [completeSession_durable]).
    - Resuming: [resume_reopens_session] (which files a resumed start refuses, and what it
      does to the others), [resume_checkpoint_belongs],
      [provider_ownership_map] (the two provider groups as one
      abstract map), [resume_environment_restored].
    - Replacing a sandbox: [crash_recovery_exact] (the plan from every state a crash can
      leave, and with whatever sandbox and row others put there),
      [replacement_writes_ahead], [journal_only_advances].
    - The lease: [watcher_lease_protocol] over every environment, [resume_wait_bounded].
    - The registry: [default_restored_by_revision] across any operations of other
      commands, [baseline_journal_refines] (an abstract map with one staged transition,
      whose entries are normalised or refused);
      its lock excludes ([registry_lock_exclusive]) and never wedges
      ([abandoned_lock_recovered]).
    - Restoring a sandbox's openclaw.json: the merge is an ownership contract on paths
      ([restore_respects_ownership] for what the rebuild decides,
      [restore_keeps_user_settings] for the user's rest, the agents and their models
      included), with its model and plugin lists
      ([restored_models_reconciled], [restored_plugin_lists]); it is refused exactly when
      an input is no object or the plugin provenance is incomplete ([merge_defined]).
    - Secrets: [redacted_text_no_token] (no token of the fifteen patterns without word
      boundaries is left in any text, by any of the four redactions, and a Telegram token
      that is), [redact_for_log_ends_clean] (values with cycles
      included), [strip_credentials_safe], [sanitized_env_file],
      [config_files_fail_closed].
    - The shared route: [route_guard_exact] (the guard accepts exactly what the other rows
      agree with, so a guarded change keeps every gateway's rows in agreement),
      the names of a gateway are canonical ([gateway_names_canonical]).
    - Endpoints: a host is private exactly when its text reads as an address of the list
      or is one of the names ([private_hosts_exact]; [plugin_list_current] for the plugin's
      copy); the plugin's endpoint resolves to public addresses only
      ([downstream_endpoint_public]); a probe connects only to what a preflight checked
      ([preflight_reaches_checked], no loopback and no link-local address of either
      family), whose capability stands for exactly the pins issued
      ([capability_proves_exact_pins], [preflight_pins_accepted]), and its command line,
      read as curl reads it, is of the allowed uses alone ([curl_line_allowed];
      [CurlArgs.form_reads_more] shows a file that passes).
    - Network policies: an exclusion removes exactly the approved entries
      ([exclusions_exact]), whose approval stands for their content
      ([approval_binds_content]); a merge and a removal of a preset are exact and never
      carry what a provider composed ([preset_merge_exact]); however an exclusion or a
      restoration of a running sandbox fails, the committed exclusions hold in the live
      policy unless the journal shows a restoration under way
      ([exclusion_transactions_safe]); a restored policy has
      the entries of the bridges that exist now and of no other ([managed_restore_exact]);
      a permissive one takes no path from the sandbox ([permissive_keeps_paths]).
    - Configuration writes: [config_set_exact], a write happens exactly when every check
      passes, the consent to a new key included, and the value and nothing else is written;
      [ConfigSet.slashless_url_unchecked] and
      [ConfigSet.inherited_key_not_new] show two things the checks let
      through.
    - Names and choices: [suggestNameSlug_correct], [diagnosticPreview_safe],
      [resolveSandboxToolDisclosure_respects_record], [reasoning_effort_env_roundtrip].
    - [bound_selection_restart_resets], [stale_lock_break_race], [CurlArgs.form_reads_more],
      [Registry.prototype_name_not_restored] and
      [Redact.sensitive_text_again] record places where the code does not do what it
      means to.

    ** Bounds and fuel

    The runner's loop gets its transition limit plus two as fuel; every turn applies a
    result or ends the run, and [runner_terminates] proves that the fuel never runs out.
    The visit of a logged value gets one more than the number of objects, and
    [redact_for_log_ends_clean] proves that it ends.  A repetition of a pattern gets its
    minimum and the length of the rest ([rm_correct] proves the matcher complete), a
    global replacement the length of the text ([scan_scanned]), [replaceAll] likewise
    ([replace_text_pieces]).  The wait of the lease is structural on its attempts.
    Numbers are [Z] with JavaScript's safe-integer bound written where the code relies
    on it ([MAX_SAFE_INTEGER], [js_succ], the registry's exhausted revision); the lock's
    120 retries of 100 ms outlast its stale limit of 10 s, which is why it never wedges.  Strings
    are byte strings read as Latin-1; the code only compares, trims and matches ASCII
    patterns in what is modelled.

    ** Assumptions

    The platform and the collaborators are classes and parameters: [Host] (clock, random
    ids, SHA-256, redaction, the messaging plan validator, the URL parser), [UrlParser]
    and [Codec] (the URL parser of the route guard, the JSON and YAML parsers and
    printers), the redaction of URL tokens,
    [ReceiptStore] (the installer receipts and the onboard lock), [Collation]
    ([localeCompare]), [Uuids], [inherited] (lookups in [Object.prototype]).  The laws
    the theorems use are named and discharged for a concrete instance by the witnesses:
    [url_origin_law] (an origin parses to itself), [clock_law] (the clock prints canonical
    timestamps), redaction has the session's texts as fixed points, as it has most of what
    it returned ([Redact.sensitive_text_again] shows one text it has not), and the plan
    validator what it accepted, a digest is 64 hexadecimal digits, a printed URL parses to
    itself ([url_laws]), a resolver answers with addresses ([dns_law]), and a YAML document
    prints to a text that parses to it ([yaml_law]; parsed documents are trees, without
    aliases).  That a digest tells two texts apart is a hypothesis about those texts.  The
    world of [PolicyExclusions] lets every call fail, before or after its effect, and any
    call be the last.  [Promise.all]
    over lookups throws the first failure in order of the list; a property named
    [__proto__] is never assigned by the code modelled.  Commands that change shared
    state hold the onboarding or the registry lock, so an operation is one step of an
    interleaving.

    ** Not modelled

    The phases of onboarding (onboard/machine/handlers/, preflight.ts, onboard.ts), gateway
    and container management, the inference probes, the sandbox lifecycle commands and the
    command line orchestrate processes, prompts and remote services, and leave the state
    modelled here; so do the commands of the Shields, with their lock, timer and transition
    (shields/index.ts), of which the documents are modelled, and the code of the plugin that
    only connects it to its host.  The compiler of messaging plans and, for the session, the
    redactor are operations of [Host].

    Of the parts that are modelled: the redaction of URLs (redact-url.ts, over the URL
    parser), the texts of the route guard's refusals, the onboarding lock, the session's
    debug summary, the retirement claims on disk, the privileged execution that reads and
    writes a configuration with config get, token rotation and the migrations, the applying
    of presets at the gateway and the prompts of policy/index.ts, the row that
    [registerSandbox] builds from its argument, and the clones of the custom policies and of
    the messaging, workload, serving-profile and MCP parts of a row. *)

From stdpp Require Export base gmap strings list option relations pretty.
From Stdlib Require Export Ascii String ZArith Lia.

#[export] Set Default Proof Using "Type".
#[export] Set Default Goal Selector "!".

(** ** Automation

    [nemo] collects the lemmas that close the routine side goals of the
    components; [nemo_simpl] the rewrite rules. *)
Create HintDb nemo.
Create Rewrite HintDb nemo_simpl.

Declare Scope nemo_scope.
Delimit Scope nemo_scope with nemo.
Open Scope nemo_scope.

(** ** Fallible code

    A TypeScript function that may throw returns a [result]; the error type
    is the component's own enumeration of what it throws. *)
Inductive result (E A : Type) : Type :=
| Ok (a : A)
| Throw (e : E).
Arguments Ok {E A} a.
Arguments Throw {E A} e.

#[export] Instance result_ret E : MRet (result E) := λ A a, Ok a.
#[export] Instance result_bind E : MBind (result E) := λ A B f m,
  match m with Ok a => f a | Throw e => Throw e end.
#[export] Instance result_fmap E : FMap (result E) := λ A B f m,
  match m with Ok a => Ok (f a) | Throw e => Throw e end.

Definition is_ok {E A} (r : result E A) : bool :=
  match r with Ok _ => true | Throw _ => false end.

(** [throw_unless b e] is [if (!b) throw e]. *)
Definition throw_unless {E} (b : bool) (e : E) : result E unit :=
  if b then Ok tt else Throw e.

Definition of_option {E A} (e : E) (o : option A) : result E A :=
  match o with Some a => Ok a | None => Throw e end.

(** ** Effectful code

    Code that reads and writes a world [S] and may throw.  The world reached
    so far is kept when it throws, as a mutation before a [throw] is. *)
Definition ST (S E A : Type) : Type := S → result E A * S.

#[export] Instance ST_ret S E : MRet (ST S E) := λ A a s, (Ok a, s).
#[export] Instance ST_bind S E : MBind (ST S E) := λ A B f m s,
  match m s with
  | (Ok a, s') => f a s'
  | (Throw e, s') => (Throw e, s')
  end.

Definition st_get {S E} : ST S E S := λ s, (Ok s, s).
Definition st_modify {S E} (f : S → S) : ST S E unit := λ s, (Ok tt, f s).
Definition st_lift {S E A} (r : result E A) : ST S E A := λ s, (r, s).
Definition st_throw {S E A} (e : E) : ST S E A := λ s, (Throw e, s).

(** ** Record update

    [r <| f := v |>] is the object spread [{ ...r, f: v }].  A record type
    declares its eta expansion once, and the update of each field is derived
    from it by [derive_upd]. *)
Class Eta (R : Type) := eta_expand : R → R.
Class Upd {R T : Type} (proj : R → T) := upd : (T → T) → R → R.
Arguments upd {_ _} _ {_} _ _ /.

Ltac derive_upd :=
  match goal with
  | |- @Upd ?R ?T ?p =>
      let i := constr:(_ : Eta R) in
      let i := lazymatch i with
               | (?x : _) => x
               | ?x => x
               end in
      let e := eval red in i in
      let e := eval pattern p in e in
      lazymatch e with
      | ?f _ =>
          let t := constr:(λ (u : T → T) (r : R), f (λ r', u (p r')) r) in
          let t := eval cbv beta in t in
          exact t
      end
  end.
#[export] Hint Extern 1 (@Upd _ _ _) => derive_upd : typeclass_instances.

Notation "x <| p := v |>" := (upd p (λ _, v) x)
  (at level 12, left associativity, p at next level) : nemo_scope.

(** ** Numbers

    A JavaScript number is an IEEE double.  The program only ever does
    arithmetic on integers, so a number is either an integer or one of the
    values [Number.isInteger] refuses: a finite fraction (named by its
    decimal literal), or [NaN] and the infinities, named the same way. *)
Inductive jsnum : Type :=
| NInt (z : Z)
| NFrac (literal : string)
| NNonFinite (literal : string).
#[export] Instance jsnum_eq_dec : EqDecision jsnum.
Proof. solve_decision. Defined.

Definition MAX_SAFE_INTEGER : Z := (2 ^ 53 - 1)%Z.

(** [z + 1] in double arithmetic, for an integral double [z >= 0]: exact
    below 2^53; between 2^53 and 2^54 the doubles are the even integers and
    the tie rounds to the one with an even significand; above 2^54 the
    increment is lost. *)
Definition js_succ (z : Z) : Z :=
  if (z <? 2 ^ 53)%Z then (z + 1)%Z
  else if (z <? 2 ^ 54)%Z then (if Z.even (z / 2) then z else z + 2)%Z
  else z.

Lemma js_succ_le z : (z ≤ js_succ z)%Z.
Proof. unfold js_succ. repeat case_match; lia. Qed.

Lemma js_succ_lt z : (z ≤ MAX_SAFE_INTEGER)%Z → js_succ z = (z + 1)%Z.
Proof. unfold js_succ, MAX_SAFE_INTEGER. intros. case_match; lia. Qed.

Lemma js_succ_nonneg z : (0 ≤ z)%Z → (0 ≤ js_succ z)%Z.
Proof. pose proof (js_succ_le z). lia. Qed.

#[export] Hint Resolve js_succ_le js_succ_nonneg : nemo.

(** ** Strings

    A JavaScript string is a sequence of UTF-16 code units; the model covers
    the strings whose units are below 256 (Latin-1), one [ascii] each. *)
Notation "a =s b" := (String.eqb a b) (at level 70, no associativity) : nemo_scope.

Definition chars (s : string) : list ascii := list_ascii_of_string s.
Definition of_chars (l : list ascii) : string := string_of_list_ascii l.
Definition code (c : ascii) : N := N_of_ascii c.
Definition in_range (lo hi : N) (c : ascii) : bool := (lo <=? code c)%N && (code c <=? hi)%N.

Definition is_digit : ascii → bool := in_range 48 57.
Definition is_lower : ascii → bool := in_range 97 122.
Definition is_upper : ascii → bool := in_range 65 90.
Definition is_alpha (c : ascii) : bool := is_lower c || is_upper c.
Definition is_alnum (c : ascii) : bool := is_alpha c || is_digit c.
Definition is_lower_hex (c : ascii) : bool := is_digit c || in_range 97 102 c.
Definition is_hex (c : ascii) : bool := is_lower_hex c || in_range 65 70 c.
Definition one_of (set : string) (c : ascii) : bool := existsb (Ascii.eqb c) (chars set).

(** The Latin-1 part of WhiteSpace and LineTerminator: TAB LF VT FF CR SP NBSP. *)
Definition is_space (c : ascii) : bool :=
  in_range 9 13 c || (code c =? 32)%N || (code c =? 160)%N.

Definition to_lower_char (c : ascii) : ascii :=
  if is_upper c || (in_range 192 222 c && negb (code c =? 215)%N)
  then ascii_of_N (code c + 32) else c.

(** [String.prototype.toLowerCase] on Latin-1. *)
Definition js_lower (s : string) : string := of_chars (map to_lower_char (chars s)).

Fixpoint drop_while {A} (p : A → bool) (l : list A) : list A :=
  match l with
  | [] => []
  | x :: l' => if p x then drop_while p l' else l
  end.
Definition drop_while_end {A} (p : A → bool) (l : list A) : list A :=
  rev (drop_while p (rev l)).

(** [String.prototype.trim]. *)
Definition js_trim (s : string) : string :=
  of_chars (drop_while_end is_space (drop_while is_space (chars s))).

Definition starts_with (p s : string) : bool := String.prefix p s.
Definition ends_with (p s : string) : bool :=
  String.prefix (of_chars (rev (chars p))) (of_chars (rev (chars s))).

(** [Array.prototype.join] and [String.prototype.split] on a one-character separator. *)
Definition js_join (sep : string) (l : list string) : string := String.concat sep l.
Fixpoint split_chars (sep : ascii) (l : list ascii) (cur : list ascii) : list string :=
  match l with
  | [] => [of_chars (rev cur)]
  | c :: l' => if Ascii.eqb c sep then of_chars (rev cur) :: split_chars sep l' []
               else split_chars sep l' (c :: cur)
  end.
Definition js_split (sep : ascii) (s : string) : list string := split_chars sep (chars s) [].

(** *** Characters, and texts joined by a separator *)

Lemma chars_of_chars l : chars (of_chars l) = l.
Proof. apply list_ascii_of_string_of_list_ascii. Qed.

Lemma of_chars_chars s : of_chars (chars s) = s.
Proof. apply string_of_list_ascii_of_string. Qed.

Lemma length_chars s : List.length (chars s) = String.length s.
Proof. induction s; simpl; congruence. Qed.

Lemma length_of_chars l : String.length (of_chars l) = List.length l.
Proof. by rewrite <- length_chars, chars_of_chars. Qed.

Lemma chars_app a b : chars (a +:+ b) = chars a ++ chars b.
Proof. induction a as [|c a IH]; [done|]. exact (f_equal (cons c) IH). Qed.

Lemma existsb_rev {A} (p : A → bool) l : existsb p (rev l) = existsb p l.
Proof.
  induction l as [|x l IH]; [done|]. cbn [rev existsb]. rewrite existsb_app, IH. cbn [existsb].
  by destruct (p x), (existsb p l).
Qed.

(** The separator, as a string, and the texts without it. *)
Definition one_char (c : ascii) : string := String c EmptyString.
Definition sep_free (sep : ascii) (s : string) : bool := negb (existsb (Ascii.eqb sep) (chars s)).

Lemma split_chars_app sep n l cur :
  existsb (Ascii.eqb sep) n = false →
  split_chars sep (n ++ l) cur = split_chars sep l (rev n ++ cur).
Proof.
  revert cur. induction n as [|c n IH]; intros cur; [done|]. cbn [existsb app split_chars rev].
  intros [E1 E2]%orb_false_iff. rewrite Ascii.eqb_sym, E1, IH by done. by rewrite <- app_assoc.
Qed.

Section Joined.
Context (sep : ascii).

Lemma join_chars n m l :
  chars (js_join (one_char sep) (n :: m :: l)) = chars n ++ sep :: chars (js_join (one_char sep) (m :: l)).
Proof. unfold js_join. cbn [String.concat]. rewrite !chars_app. done. Qed.

Lemma split_join names :
  names ≠ [] → Forall (λ n, sep_free sep n = true) names → js_split sep (js_join (one_char sep) names) = names.
Proof.
  unfold js_split, sep_free. intros Hne Hc.
  induction Hc as [|n l Hn Hl IH]; [done|]. apply negb_true_iff in Hn. destruct l as [|m l].
  - unfold js_join. cbn [String.concat]. rewrite <- (app_nil_r (chars n)), split_chars_app by done.
    cbn [split_chars]. by rewrite app_nil_r, rev_involutive, of_chars_chars.
  - rewrite join_chars, split_chars_app by done. cbn [split_chars]. rewrite Ascii.eqb_refl.
    rewrite app_nil_r, rev_involutive, of_chars_chars. f_equal. by apply IH.
Qed.

Lemma split_chars_pieces l cur :
  existsb (Ascii.eqb sep) cur = false →
  Forall (λ n, existsb (Ascii.eqb sep) (chars n) = false) (split_chars sep l cur).
Proof.
  revert cur. induction l as [|c l IH]; intros cur Hc; cbn [split_chars].
  - constructor; [|done]. by rewrite chars_of_chars, existsb_rev.
  - destruct (Ascii.eqb c sep) eqn:E.
    + constructor; [by rewrite chars_of_chars, existsb_rev|]. by apply IH.
    + apply IH. cbn [existsb]. by rewrite Ascii.eqb_sym, E.
Qed.

Lemma split_pieces s : Forall (λ n, sep_free sep n = true) (js_split sep s).
Proof.
  unfold js_split. eapply Forall_impl; [by apply split_chars_pieces|]. intros n Hn. unfold sep_free.
  by rewrite Hn.
Qed.

Lemma split_chars_join l cur :
  chars (js_join (one_char sep) (split_chars sep l cur)) = rev cur ++ l.
Proof.
  revert cur. induction l as [|c l IH]; intros cur; cbn [split_chars].
  - unfold js_join. cbn [String.concat]. by rewrite chars_of_chars, app_nil_r.
  - destruct (Ascii.eqb_spec c sep) as [->|_].
    + assert (H : ∃ m r, split_chars sep l [] = m :: r).
      { clear IH. generalize (@nil ascii). induction l as [|d l IHl]; intros cur'; cbn [split_chars]; [eauto|].
        destruct (Ascii.eqb d sep); eauto. }
      destruct H as (m & r & H). specialize (IH []). rewrite H in *. rewrite join_chars, IH.
      by rewrite chars_of_chars.
    + rewrite IH. cbn [rev]. by rewrite <- app_assoc.
Qed.

Lemma join_split s : js_join (one_char sep) (js_split sep s) = s.
Proof.
  rewrite <- (of_chars_chars (js_join _ _)). unfold js_split. rewrite split_chars_join. cbn [rev app].
  apply of_chars_chars.
Qed.

Lemma split_not_nil s : js_split sep s ≠ [].
Proof.
  unfold js_split. generalize (@nil ascii). induction (chars s) as [|c l IH]; intros cur; cbn [split_chars]; [done|].
  by destruct (Ascii.eqb c sep).
Qed.
End Joined.

(** [Array.prototype.includes] on strings. *)
Definition includes (l : list string) (s : string) : bool := existsb (String.eqb s) l.

Lemma includes_spec l s : includes l s = true ↔ s ∈ l.
Proof.
  unfold includes. rewrite existsb_exists. split.
  - intros (x & Hin & Heq). apply String.eqb_eq in Heq as ->. by apply list_elem_of_In.
  - intros Hin. exists s. split; [by apply list_elem_of_In | apply String.eqb_refl].
Qed.

(** [new Set(l).size === l.length]. *)
Definition no_dup_b (l : list string) : bool := bool_decide (NoDup l).

(** [[...new Set(l)]]. *)
Definition distinct (l : list string) : list string :=
  fold_right (λ x acc, x :: List.filter (λ y, negb (y =s x)) acc) [] l.

Fixpoint insert_sorted (s : string) (l : list string) : list string :=
  match l with
  | [] => [s]
  | x :: l' => if String.leb s x then s :: l else x :: insert_sorted s l'
  end.
(** [Array.prototype.sort] with the default comparison. *)
Fixpoint sort_strings (l : list string) : list string :=
  match l with [] => [] | x :: l' => insert_sorted x (sort_strings l') end.

Lemma string_leb_total x y : String.leb x y = true ∨ String.leb y x = true.
Proof. unfold String.leb. rewrite (String.compare_antisym y x). destruct (String.compare x y); [by left..|by right]. Qed.

Lemma insert_sorted_perm x l : insert_sorted x l ≡ₚ x :: l.
Proof. induction l as [|y l IH]; [done|]. cbn. destruct (String.leb x y); [done|]. rewrite IH. constructor. Qed.
Lemma sort_strings_perm l : sort_strings l ≡ₚ l.
Proof. induction l as [|x l IH]; [done|]. cbn. by rewrite insert_sorted_perm, IH. Qed.

(** A list no element of which is below its predecessor. *)
Fixpoint ascending (l : list string) : bool :=
  match l with
  | x :: (y :: _) as l' => String.leb x y && ascending l'
  | _ => true
  end.
Lemma insert_sorted_ascending x l : ascending l = true → ascending (insert_sorted x l) = true.
Proof.
  induction l as [|y l IH]; [done|]. intros Hl. cbn [insert_sorted]. destruct (String.leb x y) eqn:E.
  - change (ascending (x :: y :: l)) with (String.leb x y && ascending (y :: l)). by rewrite E.
  - destruct (string_leb_total x y) as [|Hyx]; [congruence|]. destruct l as [|z l].
    + cbn. by rewrite Hyx.
    + apply andb_true_iff in Hl as [Hyz Hl]. specialize (IH Hl). cbn [insert_sorted] in *.
      destruct (String.leb x z); [|by apply andb_true_iff].
      change (String.leb y x && ascending (x :: z :: l) = true). by rewrite Hyx.
Qed.
Lemma sort_strings_ascending l : ascending (sort_strings l) = true.
Proof. induction l as [|x l IH]; [done|]. by apply insert_sorted_ascending. Qed.
Lemma sort_ascending l : ascending l = true → sort_strings l = l.
Proof.
  induction l as [|x l IH]; [done|]. intros Hl. cbn [sort_strings]. destruct l as [|y l]; [done|].
  apply andb_true_iff in Hl as [Hxy Hl]. rewrite IH by done. cbn [insert_sorted]. by rewrite Hxy.
Qed.

Lemma elem_of_distinct l x : x ∈ distinct l ↔ x ∈ l.
Proof.
  induction l as [|y l IH]; [done|]. cbn [distinct fold_right]. rewrite !elem_of_cons.
  rewrite !list_elem_of_In, filter_In, <- !list_elem_of_In, negb_true_iff. fold (distinct l). rewrite IH.
  destruct (String.eqb_spec x y) as [->|]; [split; intros; by left|]. naive_solver.
Qed.
Lemma NoDup_distinct l : NoDup (distinct l).
Proof.
  induction l as [|y l IH]; [constructor|]. cbn [distinct fold_right]. fold (distinct l). constructor.
  - rewrite list_elem_of_In, filter_In, negb_true_iff. intros [_ H]. by rewrite String.eqb_refl in H.
  - apply NoDup_ListNoDup, List.NoDup_filter. by apply NoDup_ListNoDup.
Qed.
Lemma distinct_NoDup l : NoDup l → distinct l = l.
Proof.
  induction 1 as [|y l Hy Hl IH]; [done|]. cbn [distinct fold_right]. fold (distinct l). rewrite IH. f_equal.
  clear IH Hl. induction l as [|z l IHl]; [done|]. cbn. apply not_elem_of_cons in Hy as [Hne Hy].
  destruct (String.eqb_spec z y) as [->|]; [done|]. cbn. by rewrite IHl.
Qed.

Lemma to_lower_char_idem c : to_lower_char (to_lower_char c) = to_lower_char c.
Proof. destruct c as [[] [] [] [] [] [] [] []]; vm_compute; done. Qed.

Lemma js_lower_idem s : js_lower (js_lower s) = js_lower s.
Proof.
  unfold js_lower. rewrite chars_of_chars, map_map. f_equal. apply map_ext, to_lower_char_idem.
Qed.

(** A name ends with a suffix. *)
Lemma prefix_spec p s : String.prefix p s = true ↔ ∃ t, s = p +:+ t.
Proof.
  revert s. induction p as [|c p IH]; intros s; [by destruct s; (split; [by eexists|])|].
  destruct s as [|d s]; cbn [String.prefix].
  - split; [done|]. by intros [t [=]].
  - destruct (Ascii.ascii_dec c d) as [<-|Hne].
    + rewrite IH. split; intros [t Ht]; exists t; [by rewrite Ht|by injection Ht].
    + split; [done|]. by intros [t [= E _]].
Qed.

Lemma chars_inj s t : chars s = chars t → s = t.
Proof. intros E. by rewrite <- (of_chars_chars s), E, of_chars_chars. Qed.

Lemma ends_with_spec suffix s : ends_with suffix s = true ↔ ∃ t, chars s = t ++ chars suffix.
Proof.
  unfold ends_with. rewrite prefix_spec. split.
  - intros [t E]. exists (rev (chars t)). apply (f_equal chars) in E. rewrite chars_app, !chars_of_chars in E.
    apply (f_equal (@rev ascii)) in E. by rewrite rev_app_distr, !rev_involutive in E.
  - intros [t E]. exists (of_chars (rev t)). apply chars_inj. rewrite chars_app, !chars_of_chars, E.
    by rewrite rev_app_distr.
Qed.

Lemma js_lower_app a b : js_lower (a +:+ b) = js_lower a +:+ js_lower b.
Proof. apply chars_inj. unfold js_lower. by rewrite !chars_app, !chars_of_chars, map_app. Qed.

Lemma js_trim_idem s : js_trim (js_trim s) = js_trim s.
Proof.
  assert (Hd : ∀ l : list ascii, drop_while is_space (drop_while is_space l) = drop_while is_space l).
  { intros l. induction l as [|c l IH]; [done|]. cbn. destruct (is_space c) eqn:E; [done|]. cbn. by rewrite E. }
  unfold js_trim. rewrite chars_of_chars. f_equal. unfold drop_while_end.
  set (m := drop_while is_space (rev (drop_while is_space (chars s)))).
  assert (Hm : drop_while is_space m = m) by apply Hd.
  assert (drop_while is_space (rev m) = rev m) as ->; [|by rewrite rev_involutive, Hm].
  destruct (rev m) as [|c l] eqn:E; [done|]. cbn. destruct (is_space c) eqn:Ec; [|done]. exfalso.
  pose proof (Hd (chars s)) as H0. set (t := drop_while is_space (chars s)) in *.
  assert (Ht : ∃ z, t = rev m ++ z).
  { clear -m. assert (∀ l : list ascii, ∃ z, l = z ++ drop_while is_space l) as Hs.
    { intros l. induction l as [|d l [z IH]]; [by exists []|]. cbn. destruct (is_space d); [|by exists []].
      exists (d :: z). cbn. by rewrite <- IH. }
    destruct (Hs (rev t)) as [z Hz]. exists (rev z). apply (f_equal (@rev ascii)) in Hz.
    by rewrite rev_involutive, rev_app_distr in Hz. }
  destruct Ht as [z Hz]. rewrite E in Hz. rewrite Hz in H0. cbn in H0. rewrite Ec in H0.
  assert (List.length (drop_while is_space (l ++ z)) ≤ List.length (l ++ z)).
  { clear. induction (l ++ z) as [|d k IH]; cbn; [lia|]. destruct (is_space d); cbn; lia. }
  apply (f_equal List.length) in H0. cbn in H0. lia.
Qed.

(** Truthiness of a string, and of a [string | null]. *)
Definition truthy (s : string) : bool := negb (s =s "").
Definition truthy_opt (s : option string) : bool := from_option truthy false s.

Lemma truthy_true s : truthy s = true ↔ s ≠ "".
Proof. unfold truthy. rewrite negb_true_iff. apply String.eqb_neq. Qed.

#[global] Arguments js_lower : simpl never.
#[global] Arguments js_trim : simpl never.
#[global] Arguments js_split : simpl never.
#[global] Arguments includes : simpl never.

(** ** Tactics shared by the components *)

(** Clears the bookkeeping a chain of guards leaves behind. *)
Ltac simpl_res :=
  repeat match goal with
  | H : Ok _ = Ok _ |- _ => injection H; clear H; intros; subst
  | H : Throw _ = Throw _ |- _ => injection H; clear H; intros; subst
  | H : Ok _ = Throw _ |- _ => discriminate H
  | H : Throw _ = Ok _ |- _ => discriminate H
  | H : (_, _) = (_, _) |- _ => injection H; clear H; intros; subst
  | H : Some _ = Some _ |- _ => injection H; clear H; intros; subst
  | H : None = Some _ |- _ => discriminate H
  | H : Some _ = None |- _ => discriminate H
  | H : true = false |- _ => discriminate H
  | H : false = true |- _ => discriminate H
  end.

(** Boolean guards as propositions. *)
Ltac bools :=
  repeat match goal with
  | H : negb _ = true |- _ => apply negb_true_iff in H
  | H : negb _ = false |- _ => apply negb_false_iff in H
  | H : _ && _ = true |- _ => apply andb_true_iff in H as [? ?]
  | H : _ || _ = false |- _ => apply orb_false_iff in H as [? ?]
  | H : (_ =s _) = true |- _ => apply String.eqb_eq in H
  | H : (_ =s _) = false |- _ => apply String.eqb_neq in H
  | H : truthy _ = true |- _ => apply truthy_true in H
  | H : includes _ _ = true |- _ => apply includes_spec in H
  | H : bool_decide _ = true |- _ => apply bool_decide_eq_true in H
  | H : bool_decide _ = false |- _ => apply bool_decide_eq_false in H
  | H : (_ <=? _)%Z = true |- _ => apply Z.leb_le in H
  | H : (_ <=? _)%Z = false |- _ => apply Z.leb_gt in H
  | H : (_ <? _)%Z = true |- _ => apply Z.ltb_lt in H
  | H : (_ <? _)%Z = false |- _ => apply Z.ltb_ge in H
  | H : (_ =? _)%Z = true |- _ => apply Z.eqb_eq in H
  | H : (_ =? _)%Z = false |- _ => apply Z.eqb_neq in H
  end.

(** Case analysis on the first match of a hypothesis, repeated. *)
Ltac cases_in H :=
  repeat (simplify_eq/=; simpl_res;
          match type of H with
          | context [match ?x with _ => _ end] => destruct x eqn:?; try discriminate H
          end);
  simplify_eq/=; simpl_res.

(** Inverts a chain of optional binds and guards that returned [Some]. *)
Ltac opt_inv H :=
  repeat match type of H with
  | mbind _ ?e = Some _ => let E := fresh "E" in
      destruct e eqn:E; cbn [mbind option_bind] in H; [|discriminate H]
  | fmap _ ?e = Some _ => let E := fresh "E" in
      destruct e eqn:E; cbn [fmap option_fmap option_map] in H; [|discriminate H]
  | (if ?b then None else _) = Some _ => let E := fresh "E" in
      destruct b eqn:E; [discriminate H|]
  | (if ?b then _ else None) = Some _ => let E := fresh "E" in
      destruct b eqn:E; [|discriminate H]
  | mret _ = Some _ => unfold mret, option_ret in H
  | Some _ = Some _ => injection H; clear H; intros; subst
  | None = Some _ => discriminate H
  end.

(** The guards of optional values that are there. *)
Lemma if_some {A} (b : bool) (x y : A) : (if b then Some x else None) = Some y → b = true ∧ x = y.
Proof. destruct b; [|done]. by intros [= ->]. Qed.
Ltac if_somes :=
  repeat match goal with
  | H : (if _ then Some _ else None) = Some _ |- _ => apply if_some in H as [H _]
  end.

(** Rewrites with every boolean fact in the context. *)
Ltac rewrite_bools :=
  repeat match goal with
  | H : ?b = true |- context [?b] => lazymatch b with true => fail | _ => rewrite H end
  | H : ?b = false |- context [?b] => lazymatch b with false => fail | _ => rewrite H end
  end.

(** Inverts a chain of binds that returned [Ok]. *)
Lemma result_bind_ok {E A B} (m : result E A) (f : A → result E B) b :
  m ≫= f = Ok b → ∃ a, m = Ok a ∧ f a = Ok b.
Proof. destruct m as [a|e]; [eauto|done]. Qed.
Lemma of_option_ok {E A} (e : E) (o : option A) a : of_option e o = Ok a → o = Some a.
Proof. by destruct o as [x|]; [intros [= ->]|]. Qed.
Lemma throw_unless_ok {E} (b : bool) (e : E) u : throw_unless b e = Ok u → b = true.
Proof. by destruct b. Qed.
Ltac res_inv H :=
  repeat match type of H with
  | mbind _ _ = Ok _ =>
      let a := fresh "a" in let Ha := fresh "Ha" in
      apply result_bind_ok in H as (a & Ha & H); cbn beta in H;
      first [apply of_option_ok in Ha | apply throw_unless_ok in Ha | idtac]
  | Ok _ = Ok _ => injection H; clear H; intros H
  | Throw _ = Ok _ => discriminate H
  end.
