(* ===== verification/Programs.v ===== *)
(** * Programs that call their dependencies

    A function of the program that does nothing but call dependencies (files, processes,
    the sandbox, a clock) is a tree of calls: [Return] of a result, or a [Call] whose
    continuation takes whatever the call answered or threw.  Two semantics are given.  An
    environment answers by the history alone, and [always] is the weakest precondition
    against every environment.  A world is changed by each call in one of the ways a step
    relation allows, with any of the outcomes it allows, and [safe] is the weakest
    precondition with an invariant that holds after each single call: a crash may stop the
    program there. *)

From S2P Require Import Prelude.

Section Programs.
Context {Dep : Type} (answer : Dep → Type) (X : Type).

(** An outcome of a call: what it returned, or what it threw. *)
Definition outcome_of (d : Dep) : Type := result X (answer d).
Inductive event_of : Type := Ev (d : Dep) (o : outcome_of d).

Inductive ProgOf (E A : Type) : Type :=
| Return (r : result E A)
| Call (d : Dep) (k : outcome_of d → ProgOf E A).
Arguments Return {E A} r.
Arguments Call {E A} d k.

Fixpoint prog_bind {E A B} (f : A → ProgOf E B) (p : ProgOf E A) : ProgOf E B :=
  match p with
  | Return (Ok a) => f a
  | Return (Throw e) => Return (Throw e)
  | Call d k => Call d (λ o, prog_bind f (k o))
  end.
(** [try { p } catch (e) { h(e) }]. *)
Fixpoint prog_catch {E A} (p : ProgOf E A) (h : E → ProgOf E A) : ProgOf E A :=
  match p with
  | Return (Ok a) => Return (Ok a)
  | Return (Throw e) => h e
  | Call d k => Call d (λ o, prog_catch (k o) h)
  end.
(** [p] as a value: its exception becomes a result to inspect. *)
Fixpoint prog_try {E E' A} (p : ProgOf E A) : ProgOf E' (result E A) :=
  match p with
  | Return r => Return (Ok r)
  | Call d k => Call d (λ o, prog_try (k o))
  end.
(** [try { p } finally { q }], for a [q] whose own exception wins. *)
Definition prog_finally {E A} (p : ProgOf E A) (q : ProgOf E unit) : ProgOf E A :=
  prog_bind (λ r, prog_bind (λ _, Return r) q) (prog_try p).

(** An environment answers by the history so far, newest first. *)
Definition EnvironmentOf : Type := ∀ (history : list event_of) (d : Dep), outcome_of d.
Fixpoint play {E A} (env : EnvironmentOf) (p : ProgOf E A) (h : list event_of)
    : result E A * list event_of :=
  match p with
  | Return r => (r, h)
  | Call d k => play env (k (env h d)) (Ev d (env h d) :: h)
  end.

(** ** Every environment *)

Fixpoint always {E A} (p : ProgOf E A) (h : list event_of)
    (Q : list event_of → result E A → Prop) : Prop :=
  match p with
  | Return r => Q h r
  | Call d k => ∀ o, always (k o) (Ev d o :: h) Q
  end.
End Programs.
Arguments Ev {Dep answer X} d o.
Arguments Return {Dep answer X E A} r.
Arguments Call {Dep answer X E A} d k.
Arguments prog_bind {Dep answer X E A B} f p.
Arguments prog_catch {Dep answer X E A} p h.
Arguments prog_try {Dep answer X E E' A} p.
Arguments prog_finally {Dep answer X E A} p q.
Arguments play {Dep answer X E A} env p h.
Arguments always {Dep answer X E A} p h Q.

#[export] Instance Prog_ret {Dep} (answer : Dep → Type) X E : MRet (ProgOf answer X E) :=
  λ A a, Return (Ok a).
#[export] Instance Prog_bind {Dep} (answer : Dep → Type) X E : MBind (ProgOf answer X E) :=
  λ A B, prog_bind.

Section Laws.
Context {Dep : Type} {answer : Dep → Type} {X : Type}.
Notation Prog := (ProgOf answer X).
Notation event := (event_of answer X).
Implicit Types (h : list event) (env : EnvironmentOf answer X).

Lemma always_play {E A} env (p : Prog E A) h Q :
  always p h Q → Q (play env p h).2 (play env p h).1.
Proof.
  revert h. induction p as [r|d k IH]; intros h H; cbn [play always] in *; [done|]. by apply IH.
Qed.

Lemma always_mono {E A} (p : Prog E A) h (Q Q' : list event → result E A → Prop) :
  (∀ h r, Q h r → Q' h r) → always p h Q → always p h Q'.
Proof.
  intros HQ. revert h. induction p as [r|d k IH]; intros h H; cbn [always] in *; eauto.
Qed.

Lemma always_bind {E A B} (f : A → Prog E B) p h Q :
  always p h (λ h' r, match r with Ok a => always (f a) h' Q | Throw e => Q h' (Throw e) end) →
  always (mbind f p) h Q.
Proof.
  unfold mbind, Prog_bind. revert h. induction p as [[a|e]|d k IH]; intros h H; cbn in *; eauto.
Qed.

Lemma always_catch {E A} (g : E → Prog E A) p h Q :
  always p h (λ h' r, match r with Ok a => Q h' (Ok a) | Throw e => always (g e) h' Q end) →
  always (prog_catch p g) h Q.
Proof. revert h. induction p as [[a|e]|d k IH]; intros h H; cbn in *; eauto. Qed.

Lemma play_extends {E A} env (p : Prog E A) h : ∃ tr, (play env p h).2 = tr ++ h.
Proof.
  revert h. induction p as [r|d k IH]; intros h; cbn [play]; [by exists []|].
  destruct (IH (env h d) (Ev d (env h d) :: h)) as [tr ->]. exists (tr ++ [Ev d (env h d)]).
  by rewrite <- app_assoc.
Qed.
End Laws.

(** ** Programs in a world *)

Section Worlds.
Context {Dep : Type} {answer : Dep → Type} {X W : Type}.
Notation Prog := (ProgOf answer X).
(** How a call with an outcome may change the world. *)
Context (step : W → ∀ d, outcome_of answer X d → W → Prop).

Inductive reaches {E A} : Prog E A → W → Prog E A → W → Prop :=
| reaches_here p w : reaches p w p w
| reaches_call d k o w w' p w'' :
    step w d o w' → reaches (k o) w' p w'' → reaches (Call d k) w p w''.

(** The run in which every call is answered by a function of the world. *)
Fixpoint run_in {E A} (serve : W → ∀ d, outcome_of answer X d * W) (p : Prog E A) (w : W)
    : result E A * W :=
  match p with
  | Return r => (r, w)
  | Call d k => let '(o, w') := serve w d in run_in serve (k o) w'
  end.

Lemma run_reaches {E A} serve (p : Prog E A) w :
  (∀ w d, step w d (serve w d).1 (serve w d).2) →
  reaches p w (Return (run_in serve p w).1) (run_in serve p w).2.
Proof.
  intros Hs. revert w. induction p as [r|d k IH]; intros w; cbn [run_in]; [constructor|].
  pose proof (Hs w d) as H. destruct (serve w d) as [o w']. econstructor; [exact H|apply IH].
Qed.

Context (Inv : W → Prop).

Fixpoint safe {E A} (p : Prog E A) (w : W) (Q : W → result E A → Prop) : Prop :=
  match p with
  | Return r => Q w r
  | Call d k => ∀ o w', step w d o w' → Inv w' ∧ safe (k o) w' Q
  end.

Lemma safe_mono {E A} (p : Prog E A) w (Q Q' : W → result E A → Prop) :
  safe p w Q → (∀ w r, Q w r → Q' w r) → safe p w Q'.
Proof.
  intros H HQ. revert w H. induction p as [r|d k IH]; intros w H; cbn [safe] in *; [by apply HQ|].
  intros o w' Hs. destruct (H o w' Hs). eauto.
Qed.

Lemma safe_keep {E A} (p : Prog E A) w Q : Inv w → safe p w Q → safe p w (λ w r, Inv w ∧ Q w r).
Proof.
  revert w. induction p as [r|d k IH]; intros w Hi H; cbn [safe] in *; [done|].
  intros o w' Hs. destruct (H o w' Hs). eauto.
Qed.

Lemma safe_bind {E A B} (f : A → Prog E B) p w Q :
  safe p w (λ w' r, match r with Ok a => safe (f a) w' Q | Throw e => Q w' (Throw e) end) →
  safe (mbind f p) w Q.
Proof.
  unfold mbind, Prog_bind. revert w.
  induction p as [[a|e]|d k IH]; intros w H; cbn [prog_bind safe] in *; [done..|].
  intros o w' Hs. destruct (H o w' Hs). eauto.
Qed.

Lemma safe_catch {E A} (g : E → Prog E A) p w Q :
  safe p w (λ w' r, match r with Ok a => Q w' (Ok a) | Throw e => safe (g e) w' Q end) →
  safe (prog_catch p g) w Q.
Proof.
  revert w. induction p as [[a|e]|d k IH]; intros w H; cbn [prog_catch safe] in *; [done..|].
  intros o w' Hs. destruct (H o w' Hs). eauto.
Qed.

Lemma safe_try {E E' A} (p : Prog E A) w Q :
  safe p w (λ w' r, Q w' (Ok r)) → safe (prog_try (E' := E') p) w Q.
Proof.
  revert w. induction p as [r|d k IH]; intros w H; cbn [prog_try safe] in *; [done|].
  intros o w' Hs. destruct (H o w' Hs). eauto.
Qed.

Lemma safe_finally {E A} (p : Prog E A) q w Q :
  safe p w (λ w' r, safe q w' (λ w'' r', match r' with Ok _ => Q w'' r | Throw e => Q w'' (Throw e) end)) →
  safe (prog_finally p q) w Q.
Proof.
  intros H. unfold prog_finally. apply safe_bind, safe_try. eapply safe_mono; [exact H|].
  intros w' r H'. cbn beta. apply safe_bind. eapply safe_mono; [exact H'|]. by intros w'' [].
Qed.

(** A program that only calls what leaves the world alone. *)
Fixpoint only {E A} (D : Dep → Prop) (p : Prog E A) : Prop :=
  match p with Return _ => True | Call d k => D d ∧ ∀ o, only D (k o) end.

Lemma only_bind {E A B} D (f : A → Prog E B) p : only D p → (∀ a, only D (f a)) → only D (mbind f p).
Proof.
  unfold mbind, Prog_bind. intros Hp Hf. induction p as [[a|e]|d k IH]; cbn in *; [apply Hf|done|].
  destruct Hp as [Hd Hk]. split; [done|]. eauto.
Qed.
Lemma only_catch {E A} D (g : E → Prog E A) p : only D p → (∀ e, only D (g e)) → only D (prog_catch p g).
Proof.
  intros Hp Hg. induction p as [[a|e]|d k IH]; cbn in *; [done|apply Hg|].
  destruct Hp as [Hd Hk]. split; [done|]. eauto.
Qed.
Lemma only_try {E E' A} D (p : Prog E A) : only D p → only D (prog_try (E' := E') p).
Proof. induction p as [r|d k IH]; cbn; [done|]. intros [Hd Hk]. split; [done|]. eauto. Qed.
Lemma only_mono {E A} (D D' : Dep → Prop) (p : Prog E A) : (∀ d, D d → D' d) → only D p → only D' p.
Proof. intros H. induction p as [r|d k IH]; cbn; [done|]. intros [Hd Hk]. split; eauto. Qed.

Lemma safe_only {E A} D (p : Prog E A) w :
  (∀ w d o w', D d → step w d o w' → w' = w) → only D p → Inv w → safe p w (λ w' _, w' = w).
Proof.
  intros HD Hp Hi. induction p as [r|d k IH]; cbn [safe only] in *; [done|].
  destruct Hp as [Hd Hk]. intros o w' Hs. apply HD in Hs as ->; [|done]. split; [done|]. by apply IH.
Qed.

(** Wherever the program is stopped the invariant holds, and what it ends with is as
    stated. *)
Lemma safe_reaches {E A} (p p' : Prog E A) w w' Q :
  safe p w Q → Inv w → reaches p w p' w' →
  Inv w' ∧ match p' with Return r => Q w' r | Call _ _ => True end.
Proof.
  intros Hs Hi Hr. induction Hr as [p w|d k o w w' p w'' Hst _ IH].
  - split; [done|]. by destruct p.
  - destruct (Hs o w' Hst). by apply IH.
Qed.

(** ** What a program returns when it returns *)

(** A program that may be stopped anywhere; an exception leaves nothing to show. *)
Definition safely {E A} (p : Prog E A) w (P : W → A → Prop) : Prop :=
  safe p w (λ w' r, ∀ a, r = Ok a → P w' a).

Lemma safely_ret {E A} (a : A) w (P : W → A → Prop) : P w a → safely (E := E) (mret a) w P.
Proof. intros H ? [= <-]. exact H. Qed.
Lemma safely_bind {E A B} (f : A → Prog E B) p w P :
  safely p w (λ w' a, safely (f a) w' P) → safely (mbind f p) w P.
Proof.
  intros H. apply safe_bind. eapply safe_mono; [exact H|]. intros w' [a|e] Ha; [by apply Ha|done].
Qed.
Lemma safely_mono {E A} (p : Prog E A) w (P P' : W → A → Prop) :
  safely p w P → (∀ w a, P w a → P' w a) → safely p w P'.
Proof. intros H HP. eapply safe_mono; [exact H|]. cbn. eauto. Qed.
Lemma safely_keep {E A} (p : Prog E A) w P : Inv w → safely p w P → safely p w (λ w' a, Inv w' ∧ P w' a).
Proof. intros Hi H. eapply safe_mono; [by apply safe_keep|]. cbn. intros w' r [Hi' HP] a Ha. auto. Qed.
Lemma safely_catch_const {E A} (p : Prog E A) (b : A) w P :
  safe p w (λ w' r, match r with Ok a => P w' a | Throw _ => P w' b end) →
  safely (prog_catch p (λ _, mret b)) w P.
Proof.
  intros H. apply safe_catch. eapply safe_mono; [exact H|]. intros w' [a|e] Ha; [by intros ? [= <-]|].
  by intros ? [= <-].
Qed.
Lemma safely_try {E E' A} (p : Prog E A) w (P : W → result E A → Prop) :
  safe p w P → safely (E := E') (prog_try p) w P.
Proof. intros H. apply safe_try. eapply safe_mono; [exact H|]. by intros w' r Hr ? [= <-]. Qed.
Lemma safely_only {E A} D (p : Prog E A) w (P : W → A → Prop) :
  (∀ w d o w', D d → step w d o w' → w' = w) → only D p → Inv w → (∀ a, P w a) → safely p w P.
Proof. intros HD Hp Hi HP. eapply safe_mono; [by apply (safe_only D)|]. by intros w' r -> a _. Qed.
Lemma safely_reaches {E A} (p p' : Prog E A) w w' P : Inv w → safely p w P → reaches p w p' w' →
  Inv w' ∧ ∀ a, p' = Return (Ok a) → P w' a.
Proof.
  intros Hi Hp Hr. destruct (safe_reaches p p' w w' _ Hp Hi Hr) as [Hi' HP].
  split; [done|]. intros a ->. by apply HP.
Qed.
End Worlds.
Arguments safe {Dep answer X W} step Inv {E A} p w Q.
Arguments safely {Dep answer X W} step Inv {E A} p w P.
Arguments reaches {Dep answer X W} step {E A}.
