(* ===== verification/Json.v ===== *)
(** * JSON values at the loosely-typed boundaries (src/lib/core/json-types.ts)

    The values [JSON.parse] produces and the readers the session and
    checkpoint parsers build on.  An object is its own enumerable properties
    in insertion order; reading an absent property gives [undefined]. *)

From S2P Require Export Prelude.

Unset Elimination Schemes.
Inductive json : Type :=
| JUndef
| JNull
| JBool (b : bool)
| JNum (n : jsnum)
| JStr (s : string)
| JArr (l : list json)
| JObj (o : list (string * json)).
Set Elimination Schemes.

(** Induction through the arrays and the objects. *)
Definition json_ind (P : json → Prop)
    (Hu : P JUndef) (Hnull : P JNull) (Hb : ∀ b, P (JBool b)) (Hn : ∀ n, P (JNum n))
    (Hs : ∀ s, P (JStr s)) (Ha : ∀ l, Forall P l → P (JArr l))
    (Ho : ∀ o, Forall (λ kv, P kv.2) o → P (JObj o)) : ∀ j, P j :=
  fix go j : P j :=
    match j with
    | JUndef => Hu
    | JNull => Hnull
    | JBool b => Hb b
    | JNum n => Hn n
    | JStr s => Hs s
    | JArr l =>
        Ha l ((fix elems (l : list json) : Forall P l :=
                 match l with
                 | [] => Forall_nil_2 P
                 | x :: l' => Forall_cons_2 P x l' (go x) (elems l')
                 end) l)
    | JObj o =>
        Ho o ((fix props (o : list (string * json)) : Forall (λ kv, P kv.2) o :=
                 match o with
                 | [] => Forall_nil_2 _
                 | kv :: o' => Forall_cons_2 _ kv o' (go kv.2) (props o')
                 end) o)
    end.

#[export] Instance json_eq_dec : EqDecision json.
Proof.
  refine (fix go (x y : json) {struct x} : {x = y} + {x ≠ y} :=
    match x, y with
    | JUndef, JUndef => left eq_refl
    | JNull, JNull => left eq_refl
    | JBool a, JBool b => cast_if (decide (a = b))
    | JNum a, JNum b => cast_if (decide (a = b))
    | JStr a, JStr b => cast_if (decide (a = b))
    | JArr a, JArr b =>
        cast_if ((fix elems (a b : list json) {struct a} : {a = b} + {a ≠ b} :=
                    match a, b with
                    | [], [] => left eq_refl
                    | x :: a', y :: b' => cast_if_and (go x y) (elems a' b')
                    | _, _ => right _
                    end) a b)
    | JObj a, JObj b =>
        cast_if ((fix props (a b : list (string * json)) {struct a} : {a = b} + {a ≠ b} :=
                    match a, b with
                    | [], [] => left eq_refl
                    | (k, x) :: a', (k', y) :: b' =>
                        cast_if_and3 (decide (k = k')) (go x y) (props a' b')
                    | _, _ => right _
                    end) a b)
    | _, _ => right _
    end); clear go; abstract congruence.
Defined.

(** [o[key]] on a record of properties. *)
Fixpoint jget (o : list (string * json)) (key : string) : json :=
  match o with
  | [] => JUndef
  | (k, v) :: o' => if k =s key then v else jget o' key
  end.

(** [Object.prototype.hasOwnProperty.call(o, key)]. *)
Definition hasOwn (o : list (string * json)) (key : string) : bool :=
  existsb (λ kv, kv.1 =s key) o.

(** [value as Record<string, unknown>] when the value is an object and not an array. *)
Definition isObjectRecord (value : json) : option (list (string * json)) :=
  match value with JObj o => Some o | _ => None end.

(** [value === null]. *)
Definition is_null (value : json) : bool :=
  match value with JNull => true | _ => false end.
Definition is_undefined (value : json) : bool :=
  match value with JUndef => true | _ => false end.
(** [value === true] and [value === false]. *)
Definition is_true_json (value : json) : bool :=
  match value with JBool b => b | _ => false end.
Definition is_false_json (value : json) : bool :=
  match value with JBool b => negb b | _ => false end.
(** [value === "literal"]. *)
Definition is_str (lit : string) (value : json) : bool :=
  match value with JStr s => s =s lit | _ => false end.
(** [value === 1] for an integer literal. *)
Definition is_int (lit : Z) (value : json) : bool :=
  match value with JNum (NInt z) => (z =? lit)%Z | _ => false end.

(** A nullable string read back as JSON. *)
Definition jopt (s : option string) : json := from_option JStr JNull s.
Definition jstrs (l : list string) : json := JArr (map JStr l).

Definition readString (value : json) : option string :=
  match value with JStr s => Some s | _ => None end.

Definition readPositiveInteger (value : json) : option Z :=
  match value with
  | JNum (NInt z) => if (0 <? z)%Z then Some z else None
  | _ => None
  end.

Definition readNonNegativeInteger (value : json) : option Z :=
  match value with
  | JNum (NInt z) => if (0 <=? z)%Z then Some z else None
  | _ => None
  end.

(** onboard-session.ts keeps the string entries of an array. *)
Fixpoint only_strings (l : list json) : list string :=
  match l with
  | [] => []
  | JStr s :: l' => s :: only_strings l'
  | _ :: l' => only_strings l'
  end.
Definition readStringArray (value : json) : option (list string) :=
  match value with JArr l => Some (only_strings l) | _ => None end.

(** onboard-checkpoint.ts refuses an array with any other entry. *)
Definition readStrictStringArray (value : json) : option (list string) :=
  match value with JArr l => mapM readString l | _ => None end.

(** The string-valued properties, in order. *)
Fixpoint string_props (o : list (string * json)) : list (string * string) :=
  match o with
  | [] => []
  | (k, JStr v) :: o' => (k, v) :: string_props o'
  | _ :: o' => string_props o'
  end.
Definition readStringRecord (value : json) : option (list (string * string)) :=
  match value with JObj o => Some (string_props o) | _ => None end.

(** ** Writing a value to disk and reading it back

    [JSON.parse(JSON.stringify(v))]: undefined properties are dropped, an
    undefined array element and a non-finite number become [null]. *)
Fixpoint json_disk (j : json) : json :=
  match j with
  | JNum (NNonFinite _) => JNull
  | JArr l => JArr (map (λ x, match x with JUndef => JNull | _ => json_disk x end) l)
  | JObj o =>
      JObj ((fix props (o : list (string * json)) : list (string * json) :=
               match o with
               | [] => []
               | (k, JUndef) :: o' => props o'
               | (k, v) :: o' => (k, json_disk v) :: props o'
               end) o)
  | _ => j
  end.

(** A value [JSON.parse] can have produced: nothing is undefined or non-finite. *)
Fixpoint json_clean (j : json) : bool :=
  match j with
  | JUndef => false
  | JNum (NNonFinite _) => false
  | JArr l => forallb json_clean l
  | JObj o => forallb (λ kv, json_clean kv.2) o
  | _ => true
  end.

Lemma json_disk_clean j : json_clean j = true → json_disk j = j.
Proof.
  induction j as [| | | [] | |l IH|o IH] using json_ind; simpl; try done; intros Hc; f_equal.
  - induction IH as [|x l Hx _ IHl]; [done|]. simpl in *. bools.
    rewrite (IHl ltac:(done)). f_equal. destruct x; try done; by apply Hx.
  - induction IH as [|[k v] o Hx _ IHo]; [done|]. simpl in *. bools.
    rewrite (IHo ltac:(done)), (Hx ltac:(done)). by destruct v.
Qed.

Lemma json_disk_idemp_clean j : j ≠ JUndef → json_clean (json_disk j) = true.
Proof.
  induction j as [| | | [] | |l IH|o IH] using json_ind; intros Hu; simpl; try done.
  - apply forallb_forall. intros y Hy.
    apply in_map_iff in Hy as (x & <- & Hx). rewrite Forall_forall in IH.
    apply list_elem_of_In in Hx. specialize (IH x Hx). destruct x; naive_solver.
  - induction IH as [|[k v] o Hx _ IHo]; [done|].
    simpl in *. destruct v; simpl; try (apply IHo; done);
      (apply andb_true_iff; split; [by apply Hx|apply IHo; done]).
Qed.

(** ** Objects as property lists *)

(** [o[k]] of an own property, [{ ...o, [k]: v }] and [delete o[k]]. *)
Fixpoint own {A} (o : list (string * A)) (k : string) : option A :=
  match o with
  | [] => None
  | (k', v) :: o' => if k' =s k then Some v else own o' k
  end.
Fixpoint put {A} (o : list (string * A)) (k : string) (v : A) : list (string * A) :=
  match o with
  | [] => [(k, v)]
  | (k', v') :: o' => if k' =s k then (k, v) :: o' else (k', v') :: put o' k v
  end.
Definition remove {A} (o : list (string * A)) (k : string) : list (string * A) :=
  List.filter (λ kv, negb (kv.1 =s k)) o.

Lemma own_put {A} (o : list (string * A)) k v k' :
  own (put o k v) k' = if decide (k = k') then Some v else own o k'.
Proof.
  induction o as [|[k0 v0] o IH]; cbn [put own].
  - destruct (String.eqb_spec k k') as [->|Hne]; [by rewrite decide_True|by rewrite decide_False].
  - destruct (String.eqb_spec k0 k) as [->|Hne]; cbn [own].
    + destruct (String.eqb_spec k k') as [->|Hne]; [by rewrite decide_True|by rewrite decide_False].
    + destruct (String.eqb_spec k0 k') as [->|Hne']; [|done]. by rewrite decide_False.
Qed.

Lemma own_remove {A} (o : list (string * A)) k k' :
  own (remove o k) k' = if decide (k = k') then None else own o k'.
Proof.
  unfold remove. induction o as [|[k0 v0] o IH]; cbn [List.filter own fst].
  - by case_decide.
  - destruct (String.eqb_spec k0 k) as [->|Hne]; cbn [negb].
    + rewrite IH. case_decide; [done|]. by destruct (String.eqb_spec k k').
    + cbn [own]. destruct (String.eqb_spec k0 k') as [->|Hne']; [by rewrite decide_False|]. apply IH.
Qed.

Lemma jget_own o k : jget o k = default JUndef (own o k).
Proof. induction o as [|[k' v] o IH]; cbn; [done|]. by destruct (k' =s k). Qed.

(** [o[k] = v] on an object whose enumeration order matters: a property that exists keeps
    its place, an array index is inserted in ascending order before every other name, any
    other name comes last. *)
Definition digits_value (s : string) : N :=
  fold_left (λ a c, 10 * a + (code c - 48))%N (chars s) 0%N.
Definition array_index (k : string) : option N :=
  let n := digits_value k in
  if (pretty n =s k) && (n <? 4294967295)%N then Some n else None.
Definition precedes (k k' : string) : bool :=
  match array_index k, array_index k' with
  | Some n, Some n' => (n <? n')%N
  | Some _, None => true
  | None, _ => false
  end.
Fixpoint insert_absent (o : list (string * json)) (k : string) (v : json) : list (string * json) :=
  match o with
  | [] => [(k, v)]
  | (k', v') :: o' => if precedes k k' then (k, v) :: o else (k', v') :: insert_absent o' k v
  end.
Definition set_prop (o : list (string * json)) (k : string) (v : json) : list (string * json) :=
  if hasOwn o k then put o k v else insert_absent o k v.

(** [{ ...o, ...patch }]. *)
Definition js_spread (o patch : list (string * json)) : list (string * json) :=
  fold_left (λ o kv, set_prop o kv.1 kv.2) patch o.

Lemma hasOwn_own (o : list (string * json)) k : hasOwn o k = bool_decide (is_Some (own o k)).
Proof.
  induction o as [|[k' v] o IH]; [done|]. cbn. destruct (k' =s k); [done|]. apply IH.
Qed.

Lemma own_insert_absent o k v k' :
  own o k = None → own (insert_absent o k v) k' = if decide (k = k') then Some v else own o k'.
Proof.
  induction o as [|[k0 v0] o IH]; cbn [insert_absent own]; intros Hk.
  - destruct (String.eqb_spec k k'); by case_decide.
  - destruct (String.eqb_spec k0 k) as [|Hne]; [done|]. destruct (precedes k k0); cbn [own].
    + by destruct (String.eqb_spec k k'); case_decide.
    + rewrite IH by done. destruct (String.eqb_spec k0 k'); [|done].
      rewrite decide_False; congruence.
Qed.

Lemma own_set_prop o k v k' :
  own (set_prop o k v) k' = if decide (k = k') then Some v else own o k'.
Proof.
  unfold set_prop. rewrite hasOwn_own. case_bool_decide as H; [apply own_put|].
  apply own_insert_absent. by apply eq_None_not_Some.
Qed.

Lemma jget_set_prop o k v k' : jget (set_prop o k v) k' = if decide (k = k') then v else jget o k'.
Proof. rewrite !jget_own, own_set_prop. by case_decide. Qed.

Lemma jget_remove o k k' : jget (remove o k) k' = if decide (k = k') then JUndef else jget o k'.
Proof. rewrite !jget_own, own_remove. by case_decide. Qed.

(** ** Serialising a value to text ([JSON.stringify]) *)

Definition hex_digit (n : N) : ascii :=
  ascii_of_N (if (n <? 10)%N then 48 + n else 87 + n).

(** QuoteJSONString on Latin-1. *)
Definition quote_char (c : ascii) : list ascii :=
  let n := code c in
  let esc := ascii_of_N 92 in
  if (n =? 34)%N || (n =? 92)%N then [esc; c]
  else if (n =? 8)%N then [esc; "b"%char]
  else if (n =? 9)%N then [esc; "t"%char]
  else if (n =? 10)%N then [esc; "n"%char]
  else if (n =? 12)%N then [esc; "f"%char]
  else if (n =? 13)%N then [esc; "r"%char]
  else if (n <? 32)%N then
    [esc; "u"%char; "0"%char; "0"%char; hex_digit (n / 16); hex_digit (n mod 16)]
  else [c].

Definition json_quote (s : string) : string :=
  let q := ascii_of_N 34 in
  of_chars (q :: List.concat (map quote_char (chars s)) ++ [q]).

(** Decimal text of an integral double below 10^21. *)
Definition num_to_string (z : Z) : string := pretty z.

(** ** Lemmas on readers *)

(** Reads the properties of a literal object. *)
Ltac jget_simpl := cbn [jget app String.eqb Ascii.eqb Bool.eqb is_str is_int is_null
  readString Z.eqb Pos.eqb mbind option_bind fmap option_fmap option_map negb andb orb].

Lemma readStrictStringArray_jstrs l : readStrictStringArray (jstrs l) = Some l.
Proof.
  unfold readStrictStringArray, jstrs. induction l as [|s l IH]; [done|].
  cbn [map mapM readString mbind option_bind]. by rewrite IH.
Qed.

Lemma only_strings_jstrs l : only_strings (map JStr l) = l.
Proof. induction l as [|s l IH]; [done|]. simpl. by rewrite IH. Qed.

Lemma json_clean_jstrs l : json_clean (jstrs l) = true.
Proof. by induction l. Qed.

Lemma json_clean_jopt s : json_clean (jopt s) = true.
Proof. by destruct s. Qed.

#[export] Hint Rewrite readStrictStringArray_jstrs only_strings_jstrs json_clean_jstrs
  json_clean_jopt : nemo_simpl.
