(* ===== verification/Canonical.v ===== *)
(** * Canonical texts of JSON values

    [JSON.stringify] and the canonical form with sorted keys that the digests of the
    program hash (sandbox-recreate-transaction.ts, policy/baseline-exclusion.ts): a value's
    canonical form depends on what the value says, not on the order it is written in, and
    the text determines the value. *)

From S2P Require Import Prelude Json.
From Stdlib Require Import Sorted.
From stdpp Require Import sorting.

(** [left.localeCompare(right) <= 0]. *)
Class Collation := locale_le : string → string → bool.

(** [JSON.stringify(value)] of a value that is not undefined. *)
Fixpoint json_text (j : json) : string :=
  match j with
  | JUndef | JNull | JNum (NNonFinite _) => "null"
  | JBool b => if b then "true" else "false"
  | JNum (NInt z) => num_to_string z
  | JNum (NFrac literal) => literal
  | JStr s => json_quote s
  | JArr l => "[" +:+ js_join "," (map json_text l) +:+ "]"
  | JObj o =>
      "{" +:+ js_join "," ((fix props (o : list (string * json)) : list string :=
                               match o with
                               | [] => []
                               | (k, JUndef) :: o' => props o'
                               | (k, v) :: o' => (json_quote k +:+ ":" +:+ json_text v) :: props o'
                               end) o) +:+ "}"
  end.

Section WithCollation.
Context {collation : Collation}.

(** [Array.prototype.sort] is stable. *)
Fixpoint insert_prop (kv : string * json) (o : list (string * json)) : list (string * json) :=
  match o with
  | [] => [kv]
  | kv' :: o' => if locale_le kv.1 kv'.1 then kv :: o else kv' :: insert_prop kv o'
  end.
Fixpoint sort_props (o : list (string * json)) : list (string * json) :=
  match o with [] => [] | kv :: o' => insert_prop kv (sort_props o') end.

(** [Object.fromEntries]: each entry is assigned in turn. *)
Definition from_entries (entries : list (string * json)) : list (string * json) :=
  fold_left (λ o kv, set_prop o kv.1 kv.2) entries [].

Fixpoint canonicalJsonValue (value : json) : json :=
  match value with
  | JArr l => JArr (map canonicalJsonValue l)
  | JObj o =>
      JObj (from_entries (sort_props
              ((fix props (o : list (string * json)) : list (string * json) :=
                  match o with
                  | [] => []
                  | (k, JUndef) :: o' => props o'
                  | (k, v) :: o' => (k, canonicalJsonValue v) :: props o'
                  end) o)))
  | v => v
  end.
End WithCollation.

(** ** The canonical form depends on what a value says, not on how it is written *)

Section SameValue.
Context {collation : Collation}.
(** The keys the collation orders: a total order on them. *)
Variable K : string → Prop.

Record collates : Prop := {
  co_total : ∀ a b, locale_le a b = true ∨ locale_le b a = true;
  co_trans : ∀ a b c, locale_le a b = true → locale_le b c = true → locale_le a c = true;
  co_antisym : ∀ a b, K a → K b → locale_le a b = true → locale_le b a = true → a = b;
}.

(** The same value up to the order of the properties of any object in it and to
    undefined properties. *)
Inductive json_same : json → json → Prop :=
| same_refl j : json_same j j
| same_sym j j' : json_same j j' → json_same j' j
| same_trans j1 j2 j3 : json_same j1 j2 → json_same j2 j3 → json_same j1 j3
| same_elem l1 x y l2 : json_same x y → json_same (JArr (l1 ++ x :: l2)) (JArr (l1 ++ y :: l2))
| same_prop o1 k x y o2 :
    json_same x y → json_same (JObj (o1 ++ (k, x) :: o2)) (JObj (o1 ++ (k, y) :: o2))
| same_order o o' : NoDup o.*1 → Forall K o.*1 → o ≡ₚ o' → json_same (JObj o) (JObj o')
| same_undefined o1 k o2 : json_same (JObj (o1 ++ (k, JUndef) :: o2)) (JObj (o1 ++ o2)).

#[export] Instance json_same_equiv : Equivalence json_same.
Proof. split; [exact same_refl|exact same_sym|exact same_trans]. Qed.

Definition defined_prop (kv : string * json) : option (string * json) :=
  match kv.2 with JUndef => None | v => Some (kv.1, canonicalJsonValue v) end.

Lemma canonical_obj o :
  canonicalJsonValue (JObj o) = JObj (from_entries (sort_props (omap defined_prop o))).
Proof.
  cbn [canonicalJsonValue]. do 3 f_equal. induction o as [|[k v] o IH]; [done|].
  cbn [omap list_omap]. destruct v; cbn; by rewrite IH.
Qed.

Definition prop_le (a b : string * json) : Prop := locale_le a.1 b.1 = true.

Lemma insert_perm kv o : insert_prop kv o ≡ₚ kv :: o.
Proof.
  induction o as [|kv' o IH]; [done|]. cbn [insert_prop]. destruct (locale_le _ _); [done|].
  rewrite IH. by constructor.
Qed.
Lemma sort_perm o : sort_props o ≡ₚ o.
Proof. induction o as [|kv o IH]; [done|]. cbn [sort_props]. by rewrite insert_perm, IH. Qed.

Lemma insert_sorted_prop kv o :
  collates → StronglySorted prop_le o → StronglySorted prop_le (insert_prop kv o).
Proof.
  intros [Ht Htr _]. induction 1 as [|kv' o Hs IH Hall]; cbn [insert_prop]; [by repeat constructor|].
  destruct (locale_le kv.1 kv'.1) eqn:E.
  - constructor; [by constructor|]. constructor; [exact E|].
    eapply Forall_impl; [exact Hall|]. intros x Hx. unfold prop_le in *. by eapply Htr.
  - constructor; [done|]. rewrite insert_perm. constructor; [|done].
    destruct (Ht kv.1 kv'.1) as [H|H]; [by rewrite H in E|exact H].
Qed.
Lemma sort_sorted o : collates → StronglySorted prop_le (sort_props o).
Proof. intros Hc. induction o as [|kv o IH]; [constructor|]. by apply insert_sorted_prop. Qed.

Lemma omap_keys o : NoDup o.*1 → Forall K o.*1 →
  NoDup (omap defined_prop o).*1 ∧ Forall K (omap defined_prop o).*1.
Proof.
  intros Hn Hk. assert (Hsub : sublist (omap defined_prop o).*1 o.*1).
  { clear. induction o as [|[k v] o IH]; [constructor|]. cbn.
    destruct v; cbn; by constructor. }
  split; [by eapply sublist_NoDup|]. rewrite Forall_forall in *. intros x Hx. apply Hk.
  by eapply elem_of_sublist.
Qed.

Lemma sort_order o o' :
  collates → NoDup o.*1 → Forall K o.*1 → o ≡ₚ o' → sort_props o = sort_props o'.
Proof.
  intros Hc Hn Hk Hp. apply (StronglySorted_unique_strong prop_le).
  - intros [k v] [k' v'] H1 H2 Hle Hle'. rewrite sort_perm in H1, H2. rewrite <- Hp in H2.
    assert (k = k') as ->.
    { rewrite Forall_forall in Hk. apply (co_antisym Hc); [| |exact Hle|exact Hle'];
        apply Hk; by apply (list_elem_of_fmap_2 fst) in H1, H2. }
    f_equal. clear -Hn H1 H2. induction o as [|[k v0] o IH]; [by apply elem_of_nil in H1|].
    cbn in Hn. apply NoDup_cons in Hn as [Hn1 Hn2].
    apply elem_of_cons in H1 as [H1|H1], H2 as [H2|H2]; [congruence| | |by apply IH].
    + injection H1 as -> ->. destruct Hn1. by apply (list_elem_of_fmap_2 fst) in H2.
    + injection H2 as -> ->. destruct Hn1. by apply (list_elem_of_fmap_2 fst) in H1.
  - by apply sort_sorted.
  - by apply sort_sorted.
  - by rewrite !sort_perm.
Qed.

Lemma same_undef j j' : json_same j j' → (j = JUndef ↔ j' = JUndef).
Proof. induction 1; try done; by rewrite IHjson_same1. Qed.

Lemma defined_prop_same k x y :
  json_same x y → canonicalJsonValue x = canonicalJsonValue y →
  defined_prop (k, x) = defined_prop (k, y).
Proof.
  intros Hs%same_undef E.
  assert (H : ∀ v, v ≠ JUndef → defined_prop (k, v) = Some (k, canonicalJsonValue v)) by by intros [].
  destruct (decide (x = JUndef)) as [Hx|Hx]; [by rewrite (proj1 Hs Hx), Hx|].
  rewrite (H x Hx), (H y (λ Hy, Hx (proj2 Hs Hy))). by rewrite E.
Qed.

Lemma same_string j j' s : json_same j j' → (j = JStr s ↔ j' = JStr s).
Proof. induction 1; try done; by rewrite IHjson_same1. Qed.

(** Equivalent values have one canonical form. *)
Lemma canonical_same j j' :
  collates → json_same j j' → canonicalJsonValue j = canonicalJsonValue j'.
Proof.
  intros Hc. induction 1; try done; [congruence| | | |].
  - cbn [canonicalJsonValue]. rewrite !map_app. cbn [map]. by rewrite IHjson_same.
  - rewrite !canonical_obj, !omap_app. cbn [omap list_omap]. by erewrite defined_prop_same.
  - rewrite !canonical_obj. do 2 f_equal. destruct (omap_keys o) as [Hn Hk]; [done..|].
    apply sort_order; [done..|]. by rewrite H1.
  - by rewrite !canonical_obj, !omap_app.
Qed.
(** *** A value and its canonical form say the same *)

Lemma insert_absent_perm k v o : insert_absent o k v ≡ₚ (k, v) :: o.
Proof.
  induction o as [|[k' v'] o IH]; [done|]. cbn [insert_absent]. destruct (precedes k k'); [done|].
  rewrite IH. by constructor.
Qed.

Lemma from_entries_perm l : NoDup l.*1 → from_entries l ≡ₚ l.
Proof.
  intros Hn. unfold from_entries. change l with ([] ++ l) in Hn at 1.
  assert (H : ∀ acc, NoDup (acc ++ l).*1 → fold_left (λ o kv, set_prop o kv.1 kv.2) l acc ≡ₚ acc ++ l).
  { clear Hn. induction l as [|[k v] l IH]; intros acc Hn; cbn [fold_left fst snd]; [by rewrite app_nil_r|].
    assert (Hk : hasOwn acc k = false).
    { rewrite hasOwn_own. apply bool_decide_eq_false_2. intros [w Hw]. rewrite fmap_app in Hn.
      apply NoDup_app in Hn as (_ & Hn & _). apply (Hn k); [|by left].
      clear -Hw. induction acc as [|[k' v'] acc IH]; [done|]. cbn in Hw.
      destruct (String.eqb_spec k' k) as [->|]; [by left|right; by apply IH]. }
    assert (Hp : set_prop acc k v ++ l ≡ₚ acc ++ (k, v) :: l).
    { unfold set_prop. rewrite Hk, insert_absent_perm. cbn [app]. by rewrite Permutation_middle. }
    rewrite IH; [exact Hp|]. by rewrite Hp. }
  by rewrite (H []).
Qed.

(** No object in the value repeats a key; the keys are the collation's. *)
Inductive well_keyed : json → Prop :=
| wk_leaf j : (∀ l, j ≠ JArr l) → (∀ o, j ≠ JObj o) → well_keyed j
| wk_arr l : Forall well_keyed l → well_keyed (JArr l)
| wk_obj o : NoDup o.*1 → Forall K o.*1 → Forall (λ kv, well_keyed kv.2) o → well_keyed (JObj o).

Lemma same_elems l l' pre : Forall2 json_same l l' → json_same (JArr (pre ++ l)) (JArr (pre ++ l')).
Proof.
  intros H. revert pre. induction H as [|x y l l' Hxy _ IH]; intros pre; [done|].
  transitivity (JArr (pre ++ y :: l)); [by apply same_elem|].
  change (y :: l) with ([y] ++ l). change (y :: l') with ([y] ++ l'). rewrite !app_assoc. apply IH.
Qed.

Lemma same_defined o pre : Forall (λ kv, json_same kv.2 (canonicalJsonValue kv.2)) o →
  json_same (JObj (pre ++ o)) (JObj (pre ++ omap defined_prop o)).
Proof.
  intros H. revert pre. induction H as [|[k v] o Hv _ IH]; intros pre; [done|]. cbn [snd] in Hv.
  cbn [omap list_omap]. destruct (decide (v = JUndef)) as [->|Hne].
  - cbn [defined_prop snd]. transitivity (JObj (pre ++ o)); [apply same_undefined|apply IH].
  - assert (defined_prop (k, v) = Some (k, canonicalJsonValue v)) as -> by by destruct v.
    transitivity (JObj (pre ++ (k, canonicalJsonValue v) :: o)); [by apply same_prop|].
    rewrite !(cons_middle (k, canonicalJsonValue v)), !app_assoc. apply IH.
Qed.

Lemma canonical_self j : well_keyed j → json_same j (canonicalJsonValue j).
Proof.
  induction j as [| | | | |l IH|o IH] using json_ind; intros Hw; try apply same_refl.
  - inversion Hw as [? Ha _|l' Hl|]; subst; [by destruct (Ha l)|]. cbn [canonicalJsonValue].
    apply (same_elems l _ []). clear Hw. induction IH as [|x l Hx _ IHl]; cbn [map]; [constructor|].
    apply Forall_cons in Hl as [Hx' Hl]. constructor; [by apply Hx|by apply IHl].
  - inversion Hw as [? _ Ho| |o' Hn Hk Hall]; subst; [by destruct (Ho o)|]. rewrite canonical_obj.
    transitivity (JObj (omap defined_prop o)).
    + apply (same_defined o []). rewrite Forall_forall in IH, Hall. apply Forall_forall. intros kv Hkv.
      by apply IH, Hall.
    + destruct (omap_keys o Hn Hk) as [Hn' Hk']. apply same_order; [done..|].
      rewrite from_entries_perm; rewrite sort_perm; done.
Qed.

(** Two values have one canonical form exactly when they say the same. *)
Lemma canonical_exact j j' :
  collates → well_keyed j → well_keyed j' →
  canonicalJsonValue j = canonicalJsonValue j' ↔ json_same j j'.
Proof.
  intros Hc Hj Hj'. split; [|by apply canonical_same]. intros E.
  rewrite (canonical_self j Hj), E. symmetry. by apply canonical_self.
Qed.
End SameValue.

(** ** The text determines the value *)

(** The values whose text is exact: nothing undefined, every number integral. *)
Fixpoint plain_json (j : json) : bool :=
  match j with
  | JUndef | JNum (NFrac _) | JNum (NNonFinite _) => false
  | JArr l => forallb plain_json l
  | JObj o => forallb (λ kv, plain_json kv.2) o
  | _ => true
  end.

(** What may follow a value in a text. *)
Definition ends_value (r : list ascii) : bool :=
  match r with [] => true | c :: _ => one_of ",]}" c end.

(** Reads back one quoted character. *)
Definition hex_value (c : ascii) : N := if is_digit c then (code c - 48)%N else (code c - 87)%N.
Definition unquote (l : list ascii) : option (ascii * list ascii) :=
  match l with
  | [] => None
  | c :: l' =>
      if (code c =? 34)%N then None
      else if (code c =? 92)%N then
        match l' with
        | [] => None
        | e :: l'' =>
            if (code e =? 34)%N || (code e =? 92)%N then Some (e, l'')
            else if Ascii.eqb e "b" then Some (ascii_of_N 8, l'')
            else if Ascii.eqb e "t" then Some (ascii_of_N 9, l'')
            else if Ascii.eqb e "n" then Some (ascii_of_N 10, l'')
            else if Ascii.eqb e "f" then Some (ascii_of_N 12, l'')
            else if Ascii.eqb e "r" then Some (ascii_of_N 13, l'')
            else match l'' with
                 | _ :: _ :: a :: b :: l3 => Some (ascii_of_N (16 * hex_value a + hex_value b), l3)
                 | _ => None
                 end
        end
      else Some (c, l')
  end.

Lemma unquote_quoted c r : unquote (quote_char c ++ r) = Some (c, r).
Proof. destruct c as [[] [] [] [] [] [] [] []]; reflexivity. Qed.

Lemma quoted_inj s s' r r' :
  chars (json_quote s) ++ r = chars (json_quote s') ++ r' → s = s' ∧ r = r'.
Proof.
  unfold json_quote. rewrite !chars_of_chars, <- !app_comm_cons, <- !app_assoc. cbn [app].
  intros [= H]. rewrite <- (of_chars_chars s), <- (of_chars_chars s').
  revert H. generalize (chars s) (chars s'). intros l.
  assert (Hq : ∀ x, unquote (ascii_of_N 34 :: x) = None) by done.
  induction l as [|c l IH]; intros [|c' l'] H; cbn [map List.concat app] in H.
  - by injection H.
  - rewrite <- app_assoc in H. apply (f_equal unquote) in H. by rewrite Hq, unquote_quoted in H.
  - rewrite <- app_assoc in H. apply (f_equal unquote) in H. by rewrite Hq, unquote_quoted in H.
  - rewrite <- !app_assoc in H. apply (f_equal unquote) in H. rewrite !unquote_quoted in H.
    injection H as -> H. destruct (IH l' H) as [E ->]. split; [|done].
    apply (f_equal chars) in E. rewrite !chars_of_chars in E. by subst.
Qed.

(** A number's text is digits, perhaps after a sign. *)
Definition numeral (c : ascii) : bool := is_digit c || one_of "-" c.

Lemma pretty_char_numeral n : numeral (pretty_N_char n) = true.
Proof. unfold pretty_N_char. by repeat case_match. Qed.

Lemma pretty_go_numeral x s :
  Forall (λ c, numeral c = true) (chars s) → Forall (λ c, numeral c = true) (chars (pretty_N_go x s)).
Proof.
  revert s. induction (N.lt_wf_0 x) as [x _ IH]; intros s Hs.
  destruct (decide (x = 0)%N) as [->|Hx]; [by rewrite pretty_N_go_0|].
  rewrite pretty_N_go_step by lia. apply IH; [apply N.div_lt; lia|].
  constructor; [apply pretty_char_numeral|done].
Qed.

Lemma pretty_go_nonempty x s : s ≠ "" → pretty_N_go x s ≠ "".
Proof.
  revert s. induction (N.lt_wf_0 x) as [x _ IH]; intros s Hs.
  destruct (decide (x = 0)%N) as [->|Hx]; [by rewrite pretty_N_go_0|].
  rewrite pretty_N_go_step by lia. apply IH; [apply N.div_lt; lia|done].
Qed.

Lemma pretty_numeral (n : N) : pretty n ≠ "" ∧ Forall (λ c, numeral c = true) (chars (pretty n)).
Proof.
  unfold pretty, pretty_N. case_decide as Hn; [by repeat constructor|]. split.
  - rewrite pretty_N_go_step by lia. by apply pretty_go_nonempty.
  - by apply pretty_go_numeral; constructor.
Qed.

Lemma number_numeral z : ∃ c l, chars (num_to_string z) = c :: l ∧ Forall (λ c, numeral c = true) (c :: l).
Proof.
  assert (H : num_to_string z ≠ "" ∧ Forall (λ c, numeral c = true) (chars (num_to_string z))).
  { destruct z as [|p|p]; [by repeat constructor|apply (pretty_numeral (Npos p))|].
    change (num_to_string (Zneg p)) with ("-" +:+ pretty (Npos p)). split; [done|].
    rewrite chars_app. apply Forall_app; split; [by repeat constructor|apply pretty_numeral]. }
  destruct H as [Hne Hall]. destruct (num_to_string z) as [|c s]; [done|]. by exists c, (chars s).
Qed.

(** Two runs of a kind of characters, each followed by another kind. *)
Lemma run_inj (p : ascii → bool) a a' r r' :
  Forall (λ c, p c = true) a → Forall (λ c, p c = true) a' →
  from_option (λ c, p c = false) True (head r) → from_option (λ c, p c = false) True (head r') →
  a ++ r = a' ++ r' → a = a' ∧ r = r'.
Proof.
  intros Ha. revert a'. induction Ha as [|c a Hc _ IH]; intros [|c' a'] Ha' Hr Hr' E; cbn in E.
  - done.
  - subst r. apply Forall_cons in Ha' as [H _]. cbn in Hr. congruence.
  - subst r'. cbn in Hr'. congruence.
  - apply Forall_cons in Ha' as [_ Ha']. injection E as -> E. by destruct (IH a' Ha' Hr Hr' E) as [-> ->].
Qed.

Lemma ends_not_numeral r : ends_value r = true → from_option (λ c, numeral c = false) True (head r).
Proof. destruct r as [|c r]; [done|]. destruct c as [[] [] [] [] [] [] [] []]; done. Qed.

(** Texts joined by commas. *)
Lemma join_tail x l :
  chars (js_join "," (x :: l)) = chars x ++ List.concat (map (λ y, ","%char :: chars y) l).
Proof.
  revert x. induction l as [|y l IH]; intros x; [by rewrite app_nil_r|].
  change (js_join "," (x :: y :: l)) with (js_join (one_char ",") (x :: y :: l)).
  rewrite join_chars. change (one_char ",") with ",". rewrite IH. done.
Qed.

Section Joined.
Context {A : Type} (f : A → string) (ok : A → bool) (close : ascii).
Definition text_exact (a : A) : Prop := ∀ a' r r',
  ok a' = true → ends_value r = true → ends_value r' = true →
  chars (f a) ++ r = chars (f a') ++ r' → a = a' ∧ r = r'.
Hypothesis Hclose : ∀ r, ends_value (close :: r) = true.
Hypothesis Hcomma : close ≠ ","%char.
Hypothesis Hhead : ∀ a, ok a = true → from_option (λ c, c ≠ close) False (head (chars (f a))).

Lemma tails_inj l l' r r' :
  Forall text_exact l → forallb ok l' = true →
  List.concat (map (λ y, ","%char :: chars (f y)) l) ++ close :: r
  = List.concat (map (λ y, ","%char :: chars (f y)) l') ++ close :: r' → l = l' ∧ r = r'.
Proof using Hclose Hcomma.
  assert (Hends : ∀ l r, ends_value (List.concat (map (λ y, ","%char :: chars (f y)) l) ++ close :: r) = true).
  { intros [|y k] r0; [apply Hclose|done]. }
  intros Hl. revert l'. induction Hl as [|a l Ha _ IH]; intros [|a' l'] Hl' E;
    cbn [map List.concat app forallb] in *; [by injection E| | |].
  - injection E as E _. by destruct Hcomma.
  - injection E as E _. by destruct Hcomma.
  - apply andb_true_iff in Hl' as [Ha' Hl']. rewrite <- !app_assoc in E. injection E as E.
    apply Ha in E as [-> E]; [|done..]. by destruct (IH l' Hl' E) as [-> ->].
Qed.

Lemma joined_inj l l' r r' :
  Forall text_exact l → forallb ok l = true → forallb ok l' = true →
  chars (js_join "," (map f l)) ++ close :: r = chars (js_join "," (map f l')) ++ close :: r' →
  l = l' ∧ r = r'.
Proof using Hclose Hcomma Hhead.
  assert (Hends : ∀ l r, ends_value (List.concat (map (λ y, ","%char :: chars (f y)) l) ++ close :: r) = true).
  { intros [|y k] r0; [apply Hclose|done]. }
  assert (Hmap : ∀ l, List.concat (map (λ y, ","%char :: chars y) (map f l))
                      = List.concat (map (λ y, ","%char :: chars (f y)) l)) by (intros k; by rewrite map_map).
  intros Hl Ho Ho' E. destruct l as [|a l], l' as [|a' l']; cbn [forallb] in *; bools;
    [by injection E| | |].
  - cbn [map] in E. rewrite join_tail, <- app_assoc in E. pose proof (Hhead a' ltac:(done)) as Hh.
    destruct (chars (f a')) as [|c t]; [done|]. cbn in E, Hh. injection E as E _. by subst.
  - cbn [map] in E. rewrite join_tail, <- app_assoc in E. pose proof (Hhead a ltac:(done)) as Hh.
    destruct (chars (f a)) as [|c t]; [done|]. cbn in E, Hh. injection E as E _. by subst.
  - cbn [map] in E. rewrite !join_tail, !Hmap, <- !app_assoc in E. apply Forall_cons in Hl as [Ha Hl].
    apply Ha in E as [-> E]; [|done..]. by destruct (tails_inj l l' r r') as [-> ->].
Qed.
End Joined.

Definition prop_text (kv : string * json) : string := json_quote kv.1 +:+ ":" +:+ json_text kv.2.

Lemma object_text o : forallb (λ kv, plain_json kv.2) o = true →
  json_text (JObj o) = "{" +:+ js_join "," (map prop_text o) +:+ "}".
Proof.
  intros Ho. cbn [json_text]. do 3 f_equal. induction o as [|[k v] o IH]; [done|].
  cbn [forallb snd] in Ho. bools. cbn [map]. rewrite <- IH by done. by destruct v.
Qed.

(** How a text begins. *)
Definition begins (j : json) (c : ascii) : Prop :=
  match j with
  | JNull => c = "n"%char
  | JBool b => c = (if b then "t" else "f")%char
  | JNum _ => numeral c = true
  | JStr _ => c = ascii_of_N 34
  | JArr _ => c = "["%char
  | JObj _ => c = "{"%char
  | JUndef => False
  end.
Lemma text_begins j : plain_json j = true → from_option (begins j) False (head (chars (json_text j))).
Proof.
  destruct j as [| |[]|[z| |]| | |]; try done. intros _.
  destruct (number_numeral z) as (c & l & E & Hc). change (json_text (JNum (NInt z))) with (num_to_string z).
  rewrite E. by apply Forall_cons in Hc as [Hc _].
Qed.

Lemma begins_kind j j' c : begins j c → begins j' c →
  match j, j' with
  | JNull, JNull | JNum _, JNum _ | JStr _, JStr _ | JArr _, JArr _ | JObj _, JObj _ => True
  | JBool b, JBool b' => b = b'
  | _, _ => False
  end.
Proof. destruct j as [| |[]| | | |], j' as [| |[]| | | |]; cbn; intros H H'; subst; done. Qed.

Lemma text_is_exact j : plain_json j = true → text_exact json_text plain_json j.
Proof.
  induction j as [| |b|n|s|l IH|o IH] using json_ind; intros Hj j' r r' Hj' Hr Hr' E;
    pose proof (text_begins _ Hj) as Hb; pose proof (text_begins _ Hj') as Hb';
    (assert (K : ∃ c, begins j' c ∧ head (chars (json_text j')) = Some c)
       by (destruct (head (chars (json_text j'))) as [c|]; [by exists c|done]));
    destruct K as (c' & Hc' & Eh'); clear Hb';
    match type of Hb with from_option (begins ?x) _ (head ?t) =>
      destruct (head t) as [c|] eqn:Eh; [cbn [from_option] in Hb|done] end;
    (assert (c = c') as <- by (destruct (chars (json_text _)), (chars (json_text j')); cbn in *; congruence));
    pose proof (begins_kind _ _ c Hb Hc') as Hk; clear Hb Hc' Eh Eh';
    destruct j' as [| |b'|n'|s'|l'|o']; try done.
  - by apply app_inv_head in E.
  - subst b'. by apply app_inv_head in E.
  - destruct n as [z| |], n' as [z'| |]; try done. cbn [json_text] in E.
    destruct (number_numeral z) as (d & t & Ez & Hz), (number_numeral z') as (d' & t' & Ez' & Hz').
    rewrite Ez, Ez' in E. apply run_inj with (p := numeral) in E as [E ->]; [|done|done|by apply ends_not_numeral..].
    split; [|done]. do 2 f_equal. apply (inj pretty). rewrite <- Ez, <- Ez' in E.
    apply (f_equal of_chars) in E. by rewrite !of_chars_chars in E.
  - cbn [json_text] in E. by apply quoted_inj in E as [-> ->].
  - cbn [json_text] in E. rewrite !chars_app, <- !app_assoc in E. injection E as E.
    apply (joined_inj json_text plain_json "]"%char) in E as [-> E]; [|done|done| | |done|done].
    + done.
    + intros a Ha. pose proof (text_begins a Ha) as H. destruct (head _) as [c0|]; [|done]. cbn in *.
      by destruct a as [| |[]| | | |]; cbn in H; try (intros ->); subst.
    + cbn [plain_json] in Hj. apply Forall_forall. intros a Ha. rewrite Forall_forall in IH.
      apply (IH a Ha). rewrite forallb_forall in Hj. by apply Hj, list_elem_of_In.
  - rewrite !object_text in E by done. rewrite !chars_app, <- !app_assoc in E. injection E as E.
    apply (joined_inj prop_text (λ kv, plain_json kv.2) "}"%char) in E as [-> E];
      [|done|done| | |done|done].
    + done.
    + intros [k v] _. done.
    + cbn [plain_json] in Hj. apply Forall_forall. intros [k v] Ha [k' v'] r1 r2 Hv' H1 H2 E1.
      unfold prop_text in E1. cbn [fst snd] in *. rewrite !chars_app, <- !app_assoc in E1.
      apply quoted_inj in E1 as [-> E1]. injection E1 as E1.
      rewrite Forall_forall in IH. pose proof (IH (k', v) Ha) as IHv. cbn [snd] in IHv.
      rewrite forallb_forall in Hj. specialize (Hj (k', v)). cbn [snd] in Hj.
      apply IHv in E1 as [-> ->]; [done| |done..]. by apply Hj, list_elem_of_In.
Qed.

Lemma json_text_inj j j' :
  plain_json j = true → plain_json j' = true → json_text j = json_text j' → j = j'.
Proof.
  intros H H' E. apply (text_is_exact j H j' [] []); [done..|]. by rewrite E.
Qed.

(** ** A text stands for exactly the values that say the same *)

Lemma canonical_plain {collation : Collation} j :
  well_keyed (λ _, True) j → plain_json j = true → plain_json (canonicalJsonValue j) = true.
Proof.
  induction j as [| | | | |l IH|o IH] using json_ind; try done; intros Hw Hp; cbn [plain_json] in Hp.
  - inversion Hw as [? Ha _|l' Hl|]; subst; [by destruct (Ha l)|]. cbn [canonicalJsonValue plain_json].
    clear Hw. induction IH as [|x l Hx _ IHl]; [done|]. apply Forall_cons in Hl as [Hx' Hl].
    cbn [map forallb] in *. bools. rewrite Hx, IHl by done. done.
  - inversion Hw as [? _ Ho| |o' Hn Hk Hall]; subst; [by destruct (Ho o)|]. rewrite canonical_obj.
    cbn [plain_json]. rewrite forallb_forall in Hp |- *. intros [k v] Hkv%list_elem_of_In. cbn [snd].
    destruct (omap_keys (λ _, True) o Hn Hk) as [Hn' Hk'].
    rewrite from_entries_perm, sort_perm in Hkv by by rewrite sort_perm.
    apply list_elem_of_omap in Hkv as ([k0 v0] & Hin & Hd). rewrite Forall_forall in IH, Hall.
    specialize (IH _ Hin (Hall _ Hin)). specialize (Hp (k0, v0) (proj1 (list_elem_of_In _ _) Hin)).
    cbn [snd] in *. destruct v0; cbn in Hd; try done; injection Hd as <- <-; by apply IH.
Qed.

Lemma canonical_text_exact {collation : Collation} j j' :
  collates (λ _, True) → well_keyed (λ _, True) j → well_keyed (λ _, True) j' →
  plain_json j = true → plain_json j' = true →
  json_text (canonicalJsonValue j) = json_text (canonicalJsonValue j') ↔ json_same (λ _, True) j j'.
Proof.
  intros Hc Hj Hj' Hp Hp'. rewrite <- canonical_exact by done. split; [|by intros ->].
  apply json_text_inj; by apply canonical_plain.
Qed.

(** [Array.prototype.sort] without a comparator compares code units. *)
Definition code_units : Collation := String.leb.

Lemma leb_cons x a y b : String.leb (String x a) (String y b) = true ↔
  (code x < code y)%N ∨ (x = y ∧ String.leb a b = true).
Proof.
  unfold String.leb. cbn [String.compare]. unfold Ascii.compare.
  fold (code x) (code y). destruct (N.compare_spec (code x) (code y)) as [E|E|E].
  - assert (x = y) as ->.
    { rewrite <- (ascii_N_embedding x), <- (ascii_N_embedding y). unfold code in E. by rewrite E. }
    split; [by right|]. intros [H|[_ H]]; [lia|done].
  - by split; [left|].
  - split; [done|]. intros [H|[-> _]]; lia.
Qed.

Lemma leb_trans a b c : String.leb a b = true → String.leb b c = true → String.leb a c = true.
Proof.
  revert b c. induction a as [|x a IH]; intros [|y b] [|z c] H1 H2; try done.
  rewrite leb_cons in *. destruct H1 as [H1|[-> H1]], H2 as [H2|[-> H2]];
    [left; lia|by left|by left|right; split; [done|by eapply IH]].
Qed.

Lemma code_units_collate : collates (collation := code_units) (λ _, True).
Proof.
  unfold code_units. split; unfold locale_le.
  - apply String.leb_total.
  - apply leb_trans.
  - intros a b _ _. apply String.leb_antisym.
Qed.

(** ** Documents of plain data: no key twice in an object, whole numbers *)

Definition plain_document (j : json) : Prop := well_keyed (λ _, True) j ∧ plain_json j = true.
Definition plain_props (o : list (string * json)) : Prop :=
  NoDup o.*1 ∧ Forall (λ kv, plain_document kv.2) o.

Lemma plain_object o : plain_document (JObj o) ↔ plain_props o.
Proof.
  unfold plain_document, plain_props. cbn [plain_json]. rewrite forallb_forall, !Forall_forall. split.
  - intros [Hw Hp]. inversion Hw as [? _ Ho| |o' Hn _ Hall]; subst; [by destruct (Ho o)|].
    split; [done|]. intros kv Hkv. rewrite Forall_forall in Hall. split; [by apply Hall|].
    by apply Hp, list_elem_of_In.
  - intros [Hn Hall]. split; [|intros kv Hkv%list_elem_of_In; by apply Hall].
    constructor; [done|by apply Forall_forall|]. apply Forall_forall. intros kv Hkv. by apply Hall.
Qed.

Lemma plain_own o k v : plain_props o → own o k = Some v → plain_document v.
Proof.
  intros [_ Hall] E. induction o as [|[k' v'] o IH]; [done|]. apply Forall_cons in Hall as [Hv Hall].
  cbn in E. destruct (k' =s k); [by injection E as <-|by apply IH].
Qed.

Lemma plain_remove o k : plain_props o → plain_props (Json.remove o k).
Proof.
  intros [Hn Hall]. unfold Json.remove. split.
  - eapply sublist_NoDup; [exact Hn|]. clear. induction o as [|kv o IH]; [constructor|].
    cbn. destruct (negb _); cbn; by constructor.
  - apply Forall_forall. intros kv Hkv. rewrite Forall_forall in Hall. apply Hall.
    apply list_elem_of_In in Hkv. apply filter_In in Hkv as [Hkv _]. by apply list_elem_of_In.
Qed.

Lemma put_keys (o : list (string * json)) k v : hasOwn o k = true → (put o k v).*1 = o.*1.
Proof.
  induction o as [|[k' v'] o IH]; [done|]. cbn. destruct (String.eqb_spec k' k) as [->|]; [done|].
  intros H. cbn. by rewrite IH.
Qed.

Lemma plain_set_prop o k v : plain_props o → plain_document v → plain_props (set_prop o k v).
Proof.
  intros [Hn Hall] Hv. unfold set_prop. destruct (hasOwn o k) eqn:E.
  - split; [by rewrite put_keys|]. clear Hn E. induction Hall as [|[k' v'] o Hkv Hall IH]; cbn; [by constructor|].
    destruct (k' =s k); by constructor.
  - split; [|by rewrite insert_absent_perm; constructor]. rewrite insert_absent_perm. cbn. constructor; [|done].
    intros Hin. rewrite hasOwn_own in E. apply bool_decide_eq_false_1 in E. destruct E.
    clear Hn Hall. induction o as [|[k' v'] o IH]; [by apply elem_of_nil in Hin|]. cbn in *.
    destruct (String.eqb_spec k' k) as [->|Hne]; [by eexists|]. apply IH.
    apply elem_of_cons in Hin as [->|Hin]; [by destruct Hne|done].
Qed.

(** The same, decided. *)
Fixpoint distinct_keys (j : json) : bool :=
  match j with
  | JArr l => forallb distinct_keys l
  | JObj o => no_dup_b o.*1 && forallb (λ kv, distinct_keys kv.2) o
  | _ => true
  end.

Lemma distinct_well_keyed j : distinct_keys j = true → well_keyed (λ _, True) j.
Proof.
  induction j as [| | | | |l IH|o IH] using json_ind; try (by intros _; apply wk_leaf); intros H;
    cbn [distinct_keys] in H.
  - apply wk_arr. induction IH as [|x l Hx _ IHl]; cbn [forallb] in H; bools; constructor; auto.
  - bools. unfold no_dup_b in *. bools. apply wk_obj; [done|by apply Forall_true|].
    rewrite forallb_forall in *. rewrite Forall_forall in *. intros kv Hkv. apply IH; [done|].
    match goal with H : ∀ _, _ → distinct_keys _ = true |- _ => by apply H, list_elem_of_In end.
Qed.

Lemma plain_document_b j : distinct_keys j && plain_json j = true → plain_document j.
Proof. intros [H H']%andb_true_iff. split; [by apply distinct_well_keyed|done]. Qed.

(** ** [isDeepStrictEqual] on plain data: the order of properties does not matter *)

Fixpoint isDeepStrictEqual (a b : json) : bool :=
  match a, b with
  | JUndef, JUndef | JNull, JNull => true
  | JBool x, JBool y => eqb x y
  | JNum x, JNum y => bool_decide (x = y)
  | JStr x, JStr y => x =s y
  | JArr l, JArr l' =>
      (fix elems (l l' : list json) : bool :=
         match l, l' with
         | [], [] => true
         | x :: l, y :: l' => isDeepStrictEqual x y && elems l l'
         | _, _ => false
         end) l l'
  | JObj o, JObj o' =>
      (List.length o =? List.length o')%nat
      && (fix props (o : list (string * json)) : bool :=
            match o with
            | [] => true
            | (k, v) :: o => hasOwn o' k && isDeepStrictEqual v (jget o' k) && props o
            end) o
  | _, _ => false
  end.

Lemma own_some_in {A} (o : list (string * A)) k v : own o k = Some v → (k, v) ∈ o.
Proof.
  induction o as [|[k' v'] o IH]; [done|]. cbn. destruct (String.eqb_spec k' k) as [->|].
  - intros [= ->]. by left.
  - intros H. right. by apply IH.
Qed.

Lemma keys_permutation (o o' : list (string * json)) :
  NoDup o.*1 → List.length o = List.length o' → (∀ k, k ∈ o.*1 → hasOwn o' k = true) → NoDup o'.*1 →
  map (λ kv, (kv.1, jget o' kv.1)) o ≡ₚ o'.
Proof.
  intros Hn Hl Hk Hn'. apply submseteq_length_Permutation.
  - apply NoDup_submseteq.
    + apply (NoDup_fmap_1 fst). rewrite <- list_fmap_compose. exact Hn.
    + intros [k v] Hin. apply list_elem_of_fmap in Hin as ([k0 v0] & [= -> ->] & Hin).
      assert (Hk0 : k0 ∈ o.*1) by by apply (list_elem_of_fmap_2 fst) in Hin. apply Hk in Hk0.
      rewrite hasOwn_own in Hk0. apply bool_decide_eq_true_1 in Hk0 as [w Hw]. rewrite jget_own, Hw.
      by apply own_some_in.
  - rewrite length_map. lia.
Qed.

Lemma deep_equal_same a b :
  well_keyed (λ _, True) a → well_keyed (λ _, True) b → isDeepStrictEqual a b = true → json_same (λ _, True) a b.
Proof.
  revert b. induction a as [| | | | |l IH|o IH] using json_ind; intros [| | | | |l'|o'] Hw Hw' E;
    cbn [isDeepStrictEqual] in E; try done.
  - apply eqb_prop in E as ->. apply same_refl.
  - bools. subst. apply same_refl.
  - bools. subst. apply same_refl.
  - inversion Hw as [? Ha _|l0 Hl|]; subst; [by destruct (Ha l)|].
    inversion Hw' as [? Ha' _|l0 Hl'|]; subst; [by destruct (Ha' l')|].
    apply (same_elems _ l l' []). clear Hw Hw'. revert l' Hl' E.
    induction IH as [|x l Hx _ IHl]; intros [|y l'] Hl' E; try done.
    apply Forall_cons in Hl as [Hxw Hl], Hl' as [Hyw Hl']. bools. constructor; [by apply Hx|by apply IHl].
  - inversion Hw as [? _ Ho| |o0 Hn Hk Hall]; subst; [by destruct (Ho o)|].
    inversion Hw' as [? _ Ho'| |o0 Hn' Hk' Hall']; subst; [by destruct (Ho' o')|].
    apply andb_true_iff in E as [El E]. apply Nat.eqb_eq in El.
    assert (Hin : ∀ k v, (k, v) ∈ o → hasOwn o' k = true ∧ isDeepStrictEqual v (jget o' k) = true).
    { clear -E. induction o as [|[k0 v0] o IH]; intros k v Hin; [by apply elem_of_nil in Hin|].
      bools. apply elem_of_cons in Hin as [[= -> ->]|Hin]; [done|]. by apply IH. }
    transitivity (JObj (map (λ kv, (kv.1, jget o' kv.1)) o)).
    + clear Hn Hk El E Hw. assert (Hpre : ∀ pre : list (string * json),
        json_same (λ _, True) (JObj (pre ++ o)) (JObj (pre ++ map (λ kv, (kv.1, jget o' kv.1)) o)));
        [|exact (Hpre [])].
      induction IH as [|[k v] o Hv _ IHo]; intros pre; [done|]. cbn [map fst snd] in *.
      apply Forall_cons in Hall as [Hvw Hall]. destruct (Hin k v) as [Hh Hd]; [by left|].
      transitivity (JObj (pre ++ (k, jget o' k) :: o)).
      * apply same_prop. apply Hv; [done| |done]. rewrite hasOwn_own in Hh.
        apply bool_decide_eq_true_1 in Hh as [w Hw]. rewrite jget_own, Hw.
        apply own_some_in in Hw. rewrite Forall_forall in Hall'. by apply (Hall' (k, w)).
      * rewrite !(cons_middle (k, jget o' k)), !app_assoc. apply IHo; [done|].
        intros k1 v1 H1. apply Hin. by right.
    + apply same_order; [by rewrite <- list_fmap_compose|by apply Forall_true|].
      apply keys_permutation; [done|done| |done]. intros k Hkin. apply list_elem_of_fmap in Hkin as ([k0 v0] & -> & Hin0).
      by destruct (Hin k0 v0 Hin0).
Qed.

(** ** A concrete codec, for the witnesses of statements about a parser and a printer *)

Fixpoint json_tree (j : json) : gen_tree (bool + (Z + string)) :=
  match j with
  | JNull => GenNode 1 []
  | JBool b => GenLeaf (inl b)
  | JNum (NInt z) => GenLeaf (inr (inl z))
  | JStr s => GenLeaf (inr (inr s))
  | JArr l => GenNode 2 (map json_tree l)
  | JObj o => GenNode 3 (map (λ kv, GenNode 0 [GenLeaf (inr (inr kv.1)); json_tree kv.2]) o)
  | JUndef | JNum _ => GenNode 4 []
  end.
Fixpoint tree_json (t : gen_tree (bool + (Z + string))) : json :=
  match t with
  | GenLeaf (inl b) => JBool b
  | GenLeaf (inr (inl z)) => JNum (NInt z)
  | GenLeaf (inr (inr s)) => JStr s
  | GenNode 1 _ => JNull
  | GenNode 2 l => JArr (map tree_json l)
  | GenNode 3 l => JObj (map (λ t, match t with
                                   | GenNode 0 [GenLeaf (inr (inr k)); v] => (k, tree_json v)
                                   | _ => ("", JUndef)
                                   end) l)
  | _ => JUndef
  end.

Lemma tree_json_tree j : plain_json j = true → tree_json (json_tree j) = j.
Proof.
  induction j as [| | |[]| |l IH|o IH] using json_ind; try done; cbn [plain_json json_tree tree_json]; intros Hp; f_equal.
  - induction IH as [|x l Hx _ IHl]; [done|]. cbn [forallb map] in *. bools. by rewrite Hx, IHl.
  - induction IH as [|[k v] o Hv _ IHo]; [done|]. cbn [forallb map fst snd] in *. bools. by rewrite Hv, IHo.
Qed.

Fixpoint positive_text (p : positive) : string :=
  match p with
  | xH => "."
  | xO p => String "0" (positive_text p)
  | xI p => String "1" (positive_text p)
  end.
Fixpoint text_positive (s : string) : option positive :=
  match s with
  | EmptyString => None
  | String c s' =>
      if Ascii.eqb c "." then Some xH
      else p ← text_positive s'; Some (if Ascii.eqb c "0" then xO p else xI p)
  end.
Lemma text_positive_text p : text_positive (positive_text p) = Some p.
Proof. induction p; cbn; by rewrite ?IHp. Qed.

Definition coded_text (j : json) : string := positive_text (encode (json_tree j)).
Definition read_coded (s : string) : option json := p ← text_positive s; tree_json <$> decode p.

Lemma read_coded_text j : plain_json j = true → read_coded (coded_text j) = Some j.
Proof.
  intros Hp. unfold read_coded, coded_text. rewrite text_positive_text. cbn [mbind option_bind].
  rewrite decode_encode. cbn [fmap option_fmap option_map]. by rewrite tree_json_tree.
Qed.
Lemma coded_text_nonempty j : coded_text j ≠ "".
Proof. unfold coded_text. by destruct (encode (json_tree j)). Qed.
