(* ===== verification/Names.v ===== *)
(** * Sandbox and provider names

    nemoclaw/src/shared/sandbox-name.cts (the grammar shared by the CLI and
    the plugin, and the terminal-safe preview of a rejected name) and
    src/lib/name-validation.ts (the suggested slug and the guidance printed
    for a rejected name). *)

From S2P Require Import Prelude.

Local Open Scope nat_scope.

Definition NAME_MAX_LENGTH : nat := 19.
Definition PROVIDER_NAME_MAX_LENGTH : nat := 128.

Definition HYPHEN : ascii := "-"%char.
Definition is_name_char (c : ascii) : bool := is_lower c || is_digit c || Ascii.eqb c HYPHEN.
Definition is_name_end (c : ascii) : bool := is_lower c || is_digit c.

(** [/--/] on a list of characters. *)
Fixpoint has_double_hyphen (l : list ascii) : bool :=
  match l with
  | c :: ((d :: _) as l') => (Ascii.eqb c HYPHEN && Ascii.eqb d HYPHEN) || has_double_hyphen l'
  | _ => false
  end.

(** [/^(?!.*--)[a-z]([a-z0-9-]*[a-z0-9])?$/]: a lowercase letter, then
    nothing or name characters of which the last is not a hyphen. *)
Definition name_pattern (l : list ascii) : bool :=
  match l with
  | [] => false
  | c :: rest =>
      is_lower c && forallb is_name_char rest
      && match last rest with None => true | Some d => is_name_end d end
      && negb (has_double_hyphen l)
  end.
Definition NAME_VALID_PATTERN (s : string) : bool := name_pattern (chars s).

(** [/^[A-Za-z][A-Za-z0-9._-]{0,127}$/]. *)
Definition is_provider_char (c : ascii) : bool := is_alnum c || one_of "._-" c.
Definition PROVIDER_NAME_VALID_PATTERN (s : string) : bool :=
  match chars s with
  | [] => false
  | c :: rest => is_alpha c && forallb is_provider_char rest && (List.length rest <=? 127)
  end.

Definition isValidName (s : string) : bool :=
  (0 <? String.length s) && (String.length s <=? NAME_MAX_LENGTH) && NAME_VALID_PATTERN s.

Definition isValidProviderName (s : string) : bool :=
  (0 <? String.length s) && (String.length s <=? PROVIDER_NAME_MAX_LENGTH)
  && PROVIDER_NAME_VALID_PATTERN s.

(** ** The preview of a rejected name *)

Definition INVALID_NAME_PREVIEW_MAX_LENGTH : nat := 80.

Definition hex_lower (n : N) : ascii := ascii_of_N (if (n <? 10)%N then 48 + n else 87 + n).
Definition BACKSLASH : ascii := ascii_of_N 92.
Definition QUOTE : ascii := ascii_of_N 34.

(** One UTF-16 unit below 256; [padStart(4, "0")] of its hexadecimal digits. *)
Definition preview_char (c : ascii) : list ascii :=
  let n := code c in
  if (n =? 34)%N then [BACKSLASH; QUOTE]
  else if (n =? 92)%N then [BACKSLASH; BACKSLASH]
  else if (32 <=? n)%N && (n <=? 126)%N then [c]
  else [BACKSLASH; "u"%char; "0"%char; "0"%char; hex_lower (n / 16); hex_lower (n mod 16)].

Definition diagnosticPreview (raw : string) : string :=
  let prefix := take INVALID_NAME_PREVIEW_MAX_LENGTH (chars raw) in
  of_chars (QUOTE :: List.concat (map preview_char prefix)
            ++ (if INVALID_NAME_PREVIEW_MAX_LENGTH <? String.length raw
                then ["."%char; "."%char; "."%char; QUOTE] else [QUOTE])).

Definition NAME_ALLOWED_FORMAT : string :=
  ("1-19 characters, lowercase, starts with a letter, "
   ++ "letters/numbers/single internal hyphens only, ends with letter/number")%string.
Definition PROVIDER_NAME_ALLOWED_FORMAT : string :=
  ("1-128 characters, starts with a letter, "
   ++ "letters/numbers/dots/underscores/hyphens only")%string.

(** The error is its message. *)
Definition assertValidName (label value : string) : result string string :=
  if isValidName value then Ok value
  else Throw ("Invalid " ++ label ++ ": " ++ diagnosticPreview value
              ++ ". Allowed format: " ++ NAME_ALLOWED_FORMAT ++ ".")%string.

Definition assertValidProviderName (label value : string) : result string string :=
  if isValidProviderName value then Ok value
  else Throw ("Invalid " ++ label ++ ": " ++ diagnosticPreview value
              ++ ". Allowed format: " ++ PROVIDER_NAME_ALLOWED_FORMAT ++ ".")%string.

(** ** The suggested slug *)

(** [.replace(/p+/g, r)]: every maximal run of characters in [p] becomes [r]. *)
Fixpoint replace_runs (p : ascii → bool) (r : list ascii) (in_run : bool) (l : list ascii)
    : list ascii :=
  match l with
  | [] => []
  | c :: l' =>
      if p c then (if in_run then [] else r) ++ replace_runs p r true l'
      else c :: replace_runs p r false l'
  end.

Definition is_hyphen (c : ascii) : bool := Ascii.eqb c HYPHEN.

(** The slug before the prefix and the truncation. *)
Definition slug_base (value : string) : list ascii :=
  let lower := map to_lower_char (chars value) in
  let dashed := replace_runs (λ c, negb (is_name_char c)) [HYPHEN] false lower in
  let collapsed := replace_runs is_hyphen [HYPHEN] false dashed in
  drop_while_end is_hyphen (drop_while is_hyphen collapsed).

Definition starts_lower (l : list ascii) : bool :=
  match l with c :: _ => is_lower c | [] => false end.

Definition suggestNameSlug (value : string) : option string :=
  if (String.length value <=? NAME_MAX_LENGTH) && NAME_VALID_PATTERN value then None
  else
    let slug := slug_base value in
    match slug with
    | [] => None
    | _ =>
        let slug := if starts_lower slug then slug else "s"%char :: HYPHEN :: slug in
        let slug := if NAME_MAX_LENGTH <? List.length slug then take NAME_MAX_LENGTH slug else slug in
        let slug := drop_while_end (λ c, negb (is_name_end c)) slug in
        if match slug with [] => true | _ => false end || negb (name_pattern slug) then None
        else if of_chars slug =s value then None
        else Some (of_chars slug)
    end.

Definition validationSubject (label : string) : string :=
  let normalized := js_lower (js_trim label) in
  if normalized =s "sandbox name" then "Sandbox names"
  else if normalized =s "instance name" then "Instance names"
  else if normalized =s "target sandbox name" then "Target sandbox names"
  else "Names".

Definition getNameValidationGuidance (label value : string) (includeAllowedFormat : bool)
    : list string :=
  (if existsb is_space (chars value)
   then [(validationSubject label ++ " cannot contain spaces.")%string] else [])
  ++ (if NAME_MAX_LENGTH <? String.length value
      then [(validationSubject label ++ " must be 19 characters or fewer.")%string] else [])
  ++ (if includeAllowedFormat
      then [("Allowed format: " ++ NAME_ALLOWED_FORMAT ++ ".")%string] else [])
  ++ match suggestNameSlug value with
     | Some suggestion => if truthy suggestion then [("Try: " ++ suggestion)%string] else []
     | None => []
     end.

(** ** Lemmas *)

Lemma drop_while_suffix {A} (p : A → bool) l : ∃ l', l = l' ++ drop_while p l.
Proof.
  induction l as [|x l [l' IH]]; simpl; [by exists []|].
  destruct (p x); [|by exists []]. exists (x :: l'). simpl. congruence.
Qed.

Lemma drop_while_end_prefix {A} (p : A → bool) l : ∃ l', l = drop_while_end p l ++ l'.
Proof.
  destruct (drop_while_suffix p (rev l)) as [l' E]. exists (rev l').
  unfold drop_while_end. by rewrite <- rev_app_distr, <- E, rev_involutive.
Qed.

Lemma drop_while_head {A} (p : A → bool) l x l' : drop_while p l = x :: l' → p x = false.
Proof.
  induction l as [|y l IH]; simpl; [done|].
  destruct (p y) eqn:E; [apply IH|]. by intros [= -> ->].
Qed.

Lemma drop_while_nil {A} (p : A → bool) l : drop_while p l = [] ↔ forallb p l = true.
Proof. induction l as [|x l IH]; simpl; [done|]. by destruct (p x). Qed.

(** What survives the trailing trim ends with a character that is kept. *)
Lemma drop_while_end_last {A} (p : A → bool) l x :
  last (drop_while_end p l) = Some x → p x = false.
Proof.
  unfold drop_while_end. destruct (drop_while p (rev l)) as [|y l'] eqn:E; simpl; [done|].
  rewrite last_snoc. intros [= <-]. by eapply drop_while_head.
Qed.

Lemma forallb_app_inv {A} (p : A → bool) l k :
  forallb p (l ++ k) = true → forallb p l = true ∧ forallb p k = true.
Proof. rewrite forallb_app. by intros [? ?]%andb_true_iff. Qed.

Lemma dd_cons c d l :
  has_double_hyphen (c :: d :: l)
  = (Ascii.eqb c HYPHEN && Ascii.eqb d HYPHEN) || has_double_hyphen (d :: l).
Proof. done. Qed.

Lemma dd_app l k :
  has_double_hyphen (l ++ k) = false → has_double_hyphen l = false ∧ has_double_hyphen k = false.
Proof.
  induction l as [|c l IH]; [done|]. destruct l as [|d l].
  - destruct k; [done|]. simpl ([c] ++ _). rewrite dd_cons. intros. bools. by split.
  - simpl ((c :: d :: l) ++ k). rewrite !dd_cons. intros. bools.
    destruct IH as [-> ->]; [done|]. split; [by apply orb_false_iff|done].
Qed.

Lemma replace_runs_chars p r b l q :
  forallb q r = true → (∀ c, p c = false → q c = true) → forallb q (replace_runs p r b l) = true.
Proof.
  intros Hr Hq. revert b. induction l as [|c l IH]; intros b; simpl; [done|].
  destruct (p c) eqn:E; simpl.
  - rewrite forallb_app, IH. destruct b; simpl; by rewrite ?Hr.
  - by rewrite IH, Hq.
Qed.

Lemma replace_runs_keep p r b l q :
  forallb q r = true → forallb q l = true → forallb q (replace_runs p r b l) = true.
Proof.
  intros Hr. revert b. induction l as [|c l IH]; intros b Hl; simpl in *; [done|]. bools.
  destruct (p c); simpl; [|by apply andb_true_iff; auto].
  rewrite forallb_app, IH by done. destruct b; simpl; by rewrite ?Hr.
Qed.

(** Collapsing the hyphens leaves no two in a row, and none at all in front
    while inside a run. *)
Lemma collapse_no_dd l b :
  has_double_hyphen (replace_runs is_hyphen [HYPHEN] b l) = false
  ∧ (b = true → match replace_runs is_hyphen [HYPHEN] b l with c :: _ => is_hyphen c = false | [] => True end).
Proof.
  revert b. induction l as [|c l IH]; intros b; cbn [replace_runs]; [done|].
  destruct (is_hyphen c) eqn:E.
  - destruct (IH true) as [Hd Hh]. specialize (Hh eq_refl).
    destruct b; cbn [app]; [by split|]. split; [|done].
    destruct (replace_runs _ _ true l) as [|d k] eqn:K; [done|].
    rewrite dd_cons. unfold is_hyphen in Hh. by rewrite Hh, andb_false_r.
  - destruct (IH false) as [Hd _]. split; [|done].
    destruct (replace_runs _ _ false l) as [|d k] eqn:K; [done|].
    rewrite dd_cons. unfold is_hyphen in E. by rewrite E.
Qed.

Lemma existsb_replace_runs p r b l q :
  existsb q r = false → (∀ c, p c = true → q c = false) →
  existsb q (replace_runs p r b l) = existsb q l.
Proof.
  intros Hr Hq. revert b. induction l as [|c l IH]; intros b; simpl; [done|].
  destruct (p c) eqn:E; simpl.
  - rewrite existsb_app, IH, (Hq _ E). destruct b; simpl; by rewrite ?Hr.
  - by rewrite IH.
Qed.

Lemma forallb_drop_while {A} (p : A → bool) l : forallb p (drop_while p l) = forallb p l.
Proof. induction l as [|x l IH]; simpl; [done|]. destruct (p x) eqn:E; [done|]. simpl. by rewrite E. Qed.

Lemma forallb_rev {A} (p : A → bool) l : forallb p (rev l) = forallb p l.
Proof.
  induction l as [|x l IH]; simpl; [done|]. rewrite forallb_app, IH; simpl.
  rewrite andb_true_r. apply andb_comm.
Qed.

Lemma drop_while_end_nil {A} (p : A → bool) l : drop_while_end p l = [] ↔ forallb p l = true.
Proof.
  unfold drop_while_end. rewrite <- forallb_rev, <- (drop_while_nil p (rev l)).
  split; intros H; [|by rewrite H]. rewrite <- (rev_involutive (drop_while p (rev l))). by rewrite H.
Qed.

Lemma name_end_char c : is_name_end c = true → is_name_char c = true.
Proof. unfold is_name_end, is_name_char. by intros ->. Qed.

Lemma name_end_not_hyphen c : is_name_char c = true → is_name_end c = negb (is_hyphen c).
Proof. destruct c as [[] [] [] [] [] [] [] []]; vm_compute; done. Qed.

Lemma hyphen_not_end c : is_hyphen c = true → is_name_end c = false.
Proof. destruct c as [[] [] [] [] [] [] [] []]; vm_compute; done. Qed.

Lemma name_end_lower c : is_name_end (to_lower_char c) = is_alnum c.
Proof. destruct c as [[] [] [] [] [] [] [] []]; vm_compute; done. Qed.

(** The grammar, clause by clause. *)
Lemma name_pattern_spec l :
  name_pattern l = true ↔
  starts_lower l = true ∧ forallb is_name_char l = true ∧ has_double_hyphen l = false
  ∧ (∀ x, last l = Some x → is_name_end x = true).
Proof.
  destruct l as [|c rest]; [split; [done|by intros (? & _)]|].
  assert (Hl : is_lower c = true → is_name_end c = true ∧ is_name_char c = true).
  { unfold is_name_end, is_name_char. by intros ->. }
  cbn [name_pattern starts_lower forallb]. rewrite !andb_true_iff, negb_true_iff. split.
  - intros (((H1 & H2) & H3) & H4). destruct (Hl H1) as [He Hc]. split_and!; try done.
    intros x Hx. destruct rest as [|d rest]; [by injection Hx as <-|].
    change (last (d :: rest) = Some x) in Hx. by rewrite Hx in H3.
  - intros (H1 & [Hc H2] & H3 & H4). split_and!; try done.
    destruct rest as [|d rest]; [done|].
    destruct (last (d :: rest)) as [x|] eqn:E; [|done]. apply H4. by rewrite last_cons, E.
Qed.

(** The grammar's length bound is the label bound. *)
Lemma isValidName_iff s :
  isValidName s = true ↔ name_pattern (chars s) = true ∧ String.length s ≤ NAME_MAX_LENGTH.
Proof.
  unfold isValidName, NAME_VALID_PATTERN.
  rewrite !andb_true_iff, Nat.ltb_lt, Nat.leb_le. split; [tauto|].
  intros [H1 H2]. split_and!; try done. destruct s; [done|simpl; lia].
Qed.

Lemma slug_base_wf v :
  forallb is_name_char (slug_base v) = true ∧ has_double_hyphen (slug_base v) = false
  ∧ (∀ c l, slug_base v = c :: l → is_name_end c = true).
Proof.
  unfold slug_base.
  set (d := replace_runs _ _ _ (map _ _)).
  set (k := replace_runs is_hyphen _ _ d).
  assert (Hd : forallb is_name_char d = true)
    by (apply replace_runs_chars; [done|]; intros ? ?; bools; done).
  pose proof (replace_runs_keep is_hyphen [HYPHEN] false d is_name_char eq_refl Hd) as Hk.
  fold k in Hk.
  pose proof (proj1 (collapse_no_dd d false)) as Hdd. fold k in Hdd.
  destruct (drop_while_suffix is_hyphen k) as [k1 E1].
  destruct (drop_while_end_prefix is_hyphen (drop_while is_hyphen k)) as [k2 E2].
  rewrite E1 in Hk, Hdd. rewrite E2 in Hk, Hdd.
  apply dd_app in Hdd as [_ [Hdd _]%dd_app].
  apply forallb_app_inv in Hk as [_ [Hk _]%forallb_app_inv].
  split_and!; try done. intros c l Hc. rewrite Hc in Hk, E2. simpl in Hk. bools.
  apply drop_while_head in E2. rewrite name_end_not_hyphen by done. by rewrite E2.
Qed.

Lemma slug_base_nil v : slug_base v = [] ↔ existsb is_alnum (chars v) = false.
Proof.
  unfold slug_base. rewrite drop_while_end_nil, forallb_drop_while.
  set (d := replace_runs _ _ _ (map _ _)).
  assert (Hd : existsb is_name_end (replace_runs is_hyphen [HYPHEN] false d)
               = existsb is_alnum (chars v)).
  { unfold d. rewrite !existsb_replace_runs; try done.
    - induction (chars v) as [|c l IH]; [done|]; simpl. by rewrite IH, name_end_lower.
    - intros c Hc. bools. destruct (is_name_end c) eqn:E; [|done].
      apply name_end_char in E. congruence.
    - apply hyphen_not_end. }
  rewrite <- Hd. clear Hd.
  assert (Hk : forallb is_name_char (replace_runs is_hyphen [HYPHEN] false d) = true).
  { apply replace_runs_keep; [done|]. apply replace_runs_chars; [done|]. intros ? ?; bools; done. }
  induction (replace_runs _ _ _ d) as [|c k IH]; [done|]. simpl in *. bools.
  rewrite name_end_not_hyphen by done. destruct (is_hyphen c); simpl; [by apply IH|by split].
Qed.

(** The candidate the code tests before returning it. *)
Definition slug_candidate (v : string) : list ascii :=
  let slug := slug_base v in
  let slug := if starts_lower slug then slug else "s"%char :: HYPHEN :: slug in
  let slug := if NAME_MAX_LENGTH <? List.length slug then take NAME_MAX_LENGTH slug else slug in
  drop_while_end (λ c, negb (is_name_end c)) slug.

Lemma prefix_of_slug v :
  slug_base v ≠ [] →
  ∃ base rest, base = slug_candidate v ++ rest ∧ starts_lower base = true
    ∧ forallb is_name_char base = true ∧ has_double_hyphen base = false.
Proof.
  intros Hne. destruct (slug_base_wf v) as (Hc & Hd & Hh). unfold slug_candidate.
  set (b := if starts_lower (slug_base v) then slug_base v else _). exists b.
  destruct (drop_while_end_prefix (λ c, negb (is_name_end c))
    (if NAME_MAX_LENGTH <? List.length b then take NAME_MAX_LENGTH b else b)) as [k Hk].
  exists (k ++ if NAME_MAX_LENGTH <? List.length b then drop NAME_MAX_LENGTH b else []).
  rewrite app_assoc, <- Hk. split; [case_match; by rewrite ?take_drop, ?app_nil_r|].
  unfold b. destruct (starts_lower (slug_base v)) eqn:E; [done|]. split_and!; [done| |].
  - simpl. by rewrite Hc.
  - destruct (slug_base v) as [|c l] eqn:El; [done|]. rewrite !dd_cons, Hd.
    specialize (Hh c l eq_refl). destruct (Ascii.eqb c HYPHEN) eqn:Eh; [|done].
    rewrite (hyphen_not_end c Eh) in Hh. done.
Qed.

Lemma slug_candidate_wf v :
  slug_base v ≠ [] →
  name_pattern (slug_candidate v) = true ∧ List.length (slug_candidate v) ≤ NAME_MAX_LENGTH.
Proof.
  intros Hne. destruct (prefix_of_slug v Hne) as (base & rest & Hb & Hs & Hc & Hd).
  rewrite Hb in Hc, Hd. apply forallb_app_inv in Hc as [Hc _]. apply dd_app in Hd as [Hd _].
  assert (Hlast : ∀ x, last (slug_candidate v) = Some x → is_name_end x = true).
  { intros x Hx. apply drop_while_end_last in Hx. by apply negb_false_iff in Hx. }
  assert (Hstart : starts_lower (slug_candidate v) = true).
  { destruct (slug_candidate v) as [|c l] eqn:E; [|by rewrite Hb in Hs].
    unfold slug_candidate in E. apply drop_while_end_nil in E.
    assert (Hf : starts_lower (if starts_lower (slug_base v) then slug_base v
                               else "s"%char :: HYPHEN :: slug_base v) = true)
      by (by destruct (starts_lower (slug_base v)) eqn:?).
    destruct (if starts_lower _ then _ else _) as [|c l]; [done|]. simpl in Hf.
    case_match; simpl in E; bools; unfold is_name_end in *; by rewrite Hf in *. }
  split; [by apply name_pattern_spec|].
  unfold slug_candidate.
  match goal with |- List.length (drop_while_end ?p ?l) ≤ _ =>
    destruct (drop_while_end_prefix p l) as [k Hk];
    assert (List.length l ≤ NAME_MAX_LENGTH) as Hl end.
  { case_match eqn:E; [rewrite length_take; lia|]. by apply Nat.ltb_ge in E. }
  apply (f_equal List.length) in Hk. rewrite length_app in Hk. lia.
Qed.

(** The code's two final tests never reject the candidate: it is valid and
    the input is not. *)
Lemma suggestNameSlug_eq v :
  suggestNameSlug v =
  if isValidName v || match slug_base v with [] => true | _ => false end then None
  else Some (of_chars (slug_candidate v)).
Proof.
  unfold suggestNameSlug.
  destruct (isValidName v) eqn:Hv.
  { apply isValidName_iff in Hv as [Hp Hl]. unfold NAME_VALID_PATTERN.
    rewrite Hp. by apply Nat.leb_le in Hl as ->. }
  destruct ((_ <=? _) && _) eqn:Hg.
  { bools. exfalso. apply not_true_iff_false in Hv. apply Hv, isValidName_iff.
    split; [done|]. by apply Nat.leb_le. }
  cbn [orb]. fold (slug_candidate v).
  destruct (slug_base v) as [|c l] eqn:E; [done|].
  destruct (slug_candidate_wf v) as [Hp Hl]; [by rewrite E|].
  unfold slug_candidate in Hp, Hl |- *. rewrite E in Hp, Hl |- *.
  rewrite Hp. destruct (drop_while_end _ _) eqn:Ed; [done|]. rewrite <- Ed in *. simpl orb.
  destruct (of_chars _ =s v) eqn:Ev; [|done]. bools. exfalso. apply not_true_iff_false in Hv.
  apply Hv, isValidName_iff. by rewrite <- Ev, chars_of_chars, length_of_chars.
Qed.

Lemma valid_slug_base v : isValidName v = true → slug_base v ≠ [].
Proof.
  intros [Hp _]%isValidName_iff Hn%slug_base_nil. apply name_pattern_spec in Hp as (Hs & _).
  destruct (chars v) as [|c l]; [done|]. simpl in *. unfold is_alnum, is_alpha in Hn.
  by rewrite Hs in Hn.
Qed.

Definition is_printable : ascii → bool := in_range 32 126.

Lemma preview_char_printable c : forallb is_printable (preview_char c) = true.
Proof. destruct c as [[] [] [] [] [] [] [] []]; vm_compute; done. Qed.

Lemma preview_char_length c : 1 ≤ List.length (preview_char c) ≤ 6.
Proof. destruct c as [[] [] [] [] [] [] [] []]; vm_compute; lia. Qed.

Lemma preview_chars_printable l : forallb is_printable (List.concat (map preview_char l)) = true.
Proof.
  induction l as [|c l IH]; simpl; [done|]. by rewrite forallb_app, preview_char_printable, IH.
Qed.

Lemma preview_chars_length l :
  List.length (List.concat (map preview_char l)) ≤ 6 * List.length l.
Proof.
  induction l as [|c l IH]; simpl; [lia|].
  rewrite length_app. pose proof (preview_char_length c). lia.
Qed.

(** ** Properties *)

(** The suggested slug is always a valid sandbox name, offered only for a
    name the validator refuses, and one is offered for every refused name
    that has at least one letter or digit to keep. *)
Theorem suggestNameSlug_correct v :
  match suggestNameSlug v with
  | Some slug => isValidName slug = true ∧ isValidName v = false ∧ slug ≠ v
  | None => isValidName v = true ∨ existsb is_alnum (chars v) = false
  end.
Proof.
  rewrite suggestNameSlug_eq. destruct (isValidName v) eqn:Hv; [by left|].
  destruct (slug_base v) as [|c l] eqn:E; simpl; [right; by apply slug_base_nil|].
  destruct (slug_candidate_wf v) as [Hp Hl]; [by rewrite E|].
  assert (Hok : isValidName (of_chars (slug_candidate v)) = true)
    by (apply isValidName_iff; by rewrite chars_of_chars, length_of_chars).
  split_and!; [done..|]. intros Heq. congruence.
Qed.

(** The preview of a rejected name printed in diagnostics is printable
    ASCII and at most 485 characters, whatever the input was. *)
Theorem diagnosticPreview_safe raw :
  forallb is_printable (chars (diagnosticPreview raw)) = true
  ∧ String.length (diagnosticPreview raw) ≤ 485.
Proof.
  unfold diagnosticPreview. rewrite chars_of_chars, length_of_chars.
  change (QUOTE :: ?a ++ ?b) with ([QUOTE] ++ a ++ b).
  rewrite !forallb_app, !length_app, preview_chars_printable. split.
  - by destruct (_ <? _).
  - pose proof (preview_chars_length (take INVALID_NAME_PREVIEW_MAX_LENGTH (chars raw))) as H.
    rewrite length_take in H. unfold INVALID_NAME_PREVIEW_MAX_LENGTH in *.
    destruct (_ <? _); simpl; lia.
Qed.
