(* ===== verification/Regex.v ===== *)
(** * Regular expressions

    The part of ECMAScript's regular expressions that the sources use, as a backtracking
    matcher in continuation-passing style with the language's priorities (ordered choice,
    greedy and lazy repetition, captures), over Latin-1 texts.  A position is the text
    before it, reversed, and the text after it.

    A lookbehind is matched from every earlier place; the language matches it backwards,
    which decides the same question when it has no captures, as here.  Captures inside a
    repetition, which the language resets at every turn, do not occur in the sources.

    [lang] is the reference: what a pattern matches, without priorities.  The matcher
    finds a match exactly where there is one ([rm_sound], [rm_complete]). *)

From S2P Require Import Prelude.

#[local] Notation length := List.length.

Inductive regex : Type :=
| Eps
| Chr (p : ascii → bool)
| Seq (a b : regex)
| Alt (a b : regex)
| Rep (greedy : bool) (min : nat) (max : option nat) (a : regex)
| Group (n : nat) (a : regex)
| Bol
| Eol
| WordB
| Behind (a : regex)
| NotAhead (a : regex).

Definition pos : Type := list ascii * list ascii.
Record st := mkSt { here : pos; caps : list (nat * list ascii) }.

Definition full_text (p : pos) : list ascii := rev p.1 ++ p.2.
Definition is_word (c : ascii) : bool := is_alnum c || Ascii.eqb c "_".
(** [\b]. *)
Definition at_word_boundary (p : pos) : bool :=
  xorb (match p.1 with c :: _ => is_word c | [] => false end)
       (match p.2 with c :: _ => is_word c | [] => false end).
(** The text between two positions. *)
Definition consumed (p q : pos) : list ascii := take (length p.2 - length q.2) p.2.
(** [i] characters back. *)
Definition back (i : nat) (p : pos) : pos := (drop i p.1, rev (take i p.1) ++ p.2).

Definition or_else_st (a : option st) (b : option st) : option st :=
  match a with Some x => Some x | None => b end.

(** RepeatMatcher: a turn beyond the minimum that consumes nothing fails. *)
Fixpoint rep (body : st → (st → option st) → option st) (greedy : bool) (fuel min : nat)
    (max : option nat) (s : st) (k : st → option st) {struct fuel} : option st :=
  match max with
  | Some 0 => k s
  | _ =>
      match fuel with
      | 0 => match min with 0 => k s | S _ => None end
      | S fuel =>
          let more :=
            body s (λ s',
              if (min =? 0) && (length (here s').2 =? length (here s).2) then None
              else rep body greedy fuel (pred min) (pred <$> max) s' k) in
          match min with
          | S _ => more
          | 0 => if greedy then or_else_st more (k s) else or_else_st (k s) more
          end
      end
  end.

Fixpoint rm (r : regex) (s : st) (k : st → option st) {struct r} : option st :=
  match r with
  | Eps => k s
  | Chr p =>
      match here s with
      | (b, c :: a) => if p c then k (mkSt (c :: b, a) (caps s)) else None
      | _ => None
      end
  | Seq a b => rm a s (λ s', rm b s' k)
  | Alt a b => or_else_st (rm a s k) (rm b s k)
  | Rep greedy min max a => rep (rm a) greedy (min + S (length (here s).2)) min max s k
  | Group n a => rm a s (λ s', k (mkSt (here s') ((n, consumed (here s) (here s')) :: caps s')))
  | Bol => match (here s).1 with [] => k s | _ => None end
  | Eol => match (here s).2 with [] => k s | _ => None end
  | WordB => if at_word_boundary (here s) then k s else None
  | Behind a =>
      if existsb (λ i, match rm a (mkSt (back i (here s)) [])
                               (λ s', if length (here s').1 =? length (here s).1 then Some s' else None) with
                       | Some _ => true | None => false end)
           (seq 0 (S (length (here s).1)))
      then k s else None
  | NotAhead a => match rm a s Some with Some _ => None | None => k s end
  end.

(** A match at a position, and the leftmost match from it on. *)
Definition match_at (r : regex) (p : pos) : option st := rm r (mkSt p []) Some.
Fixpoint exec_from (r : regex) (before after : list ascii) : option (pos * st) :=
  match match_at r (before, after) with
  | Some s => Some ((before, after), s)
  | None => match after with
            | [] => None
            | c :: after' => exec_from r (c :: before) after'
            end
  end.

(** [pattern.test(text)] from the start. *)
Definition test (r : regex) (text : string) : bool :=
  match exec_from r [] (chars text) with Some _ => true | None => false end.

Definition capture (caps : list (nat * list ascii)) (n : nat) : list ascii :=
  match List.find (λ c, c.1 =? n) caps with Some c => c.2 | None => [] end.

(** ** Global replacement

    The text as the characters that are kept and the matches, in order; an empty match
    keeps the character that follows it. *)
Inductive piece : Type :=
| Keep (c : ascii)
| Hit (m : list ascii) (cs : list (nat * list ascii)).

Fixpoint scan (r : regex) (fuel : nat) (before after : list ascii) : list piece :=
  match fuel with
  | 0 => map Keep after
  | S fuel =>
      let keep := match after with
                  | [] => []
                  | c :: after' => Keep c :: scan r fuel (c :: before) after'
                  end in
      match match_at r (before, after) with
      | None => keep
      | Some s =>
          let m := consumed (before, after) (here s) in
          Hit m (caps s) ::
            match m with
            | [] => keep
            | _ => scan r fuel (here s).1 (here s).2
            end
      end
  end.

Definition render (f : list ascii → list (nat * list ascii) → list ascii) (ps : list piece) : list ascii :=
  flat_map (λ p, match p with Keep c => [c] | Hit m cs => f m cs end) ps.

(** [text.replace(/r/g, ...)], the replacement given the match and its captures. *)
Definition replace_all (r : regex) (f : list ascii → list (nat * list ascii) → list ascii)
    (text : list ascii) : list ascii :=
  render f (scan r (S (length text)) [] text).

(** ** The patterns' notation *)

Definition lit (s : string) : regex :=
  fold_right (λ c r, Seq (Chr (Ascii.eqb c)) r) Eps (chars s).
(** The same letter in the other case counts under the flag [i]. *)
Definition ci (p : ascii → bool) (c : ascii) : bool :=
  p c || (is_upper c && p (ascii_of_N (code c + 32))) || (is_lower c && p (ascii_of_N (code c - 32))).
Definition lit_i (s : string) : regex :=
  fold_right (λ c r, Seq (Chr (ci (Ascii.eqb c))) r) Eps (chars s).
Fixpoint alts (rs : list regex) : regex :=
  match rs with
  | [] => NotAhead Eps
  | [r] => r
  | r :: rs' => Alt r (alts rs')
  end.
Definition seqs (rs : list regex) : regex := fold_right Seq Eps rs.
Definition many (a : regex) : regex := Rep true 0 None a.
Definition some_of (a : regex) : regex := Rep true 1 None a.
Definition maybe (a : regex) : regex := Rep true 0 (Some 1) a.
Definition at_least (n : nat) (a : regex) : regex := Rep true n None a.
Definition exactly (n : nat) (a : regex) : regex := Rep true n (Some n) a.
Definition between (n m : nat) (a : regex) : regex := Rep true n (Some m) a.

(** ** The reference *)

Fixpoint turns (R : pos → pos → Prop) (n : nat) (p q : pos) : Prop :=
  match n with
  | 0 => p = q
  | S n => ∃ m, R p m ∧ turns R n m q
  end.

Fixpoint lang (r : regex) (p q : pos) : Prop :=
  match r with
  | Eps => p = q
  | Chr f => ∃ b c a, p = (b, c :: a) ∧ f c = true ∧ q = (c :: b, a)
  | Seq a b => ∃ m, lang a p m ∧ lang b m q
  | Alt a b => lang a p q ∨ lang b p q
  | Rep _ min max a => ∃ n, min ≤ n ∧ from_option (λ max, n ≤ max) True max ∧ turns (lang a) n p q
  | Group _ a => lang a p q
  | Bol => p = q ∧ p.1 = []
  | Eol => p = q ∧ p.2 = []
  | WordB => p = q ∧ at_word_boundary p = true
  | Behind a => p = q ∧ ∃ p0, lang a p0 p
  | NotAhead a => p = q ∧ ¬ ∃ q', lang a p q'
  end.

(** A match moves forward over a part of the same text. *)
Definition forward (p q : pos) : Prop := ∃ m, p.2 = m ++ q.2 ∧ q.1 = rev m ++ p.1.

Lemma forward_refl p : forward p p.
Proof. by exists []. Qed.

Lemma forward_trans p q r : forward p q → forward q r → forward p r.
Proof.
  intros (m & E1 & E2) (m' & E3 & E4). exists (m ++ m').
  by rewrite rev_app_distr, <- !(assoc_L (++)), E1, E3, E4, E2.
Qed.

Lemma turns_forward R n p q : (∀ p q, R p q → forward p q) → turns R n p q → forward p q.
Proof.
  intros HR. revert p. induction n as [|n IH]; intros p; cbn [turns].
  - intros ->. apply forward_refl.
  - intros (m & H1 & H2). eapply forward_trans; [by apply HR|by apply IH].
Qed.

Lemma lang_forward r p q : lang r p q → forward p q.
Proof.
  revert p q. induction r as [|f| | | | | | | | |]; intros p q; cbn [lang].
  all: try (intros [-> _]; apply forward_refl).
  - intros ->. apply forward_refl.
  - intros (b & c & a & -> & _ & ->). by exists [c].
  - intros (m & H1 & H2). eapply forward_trans; eauto.
  - intros [|]; eauto.
  - intros (n & _ & _ & H). by eapply turns_forward.
  - eauto.
Qed.

Lemma forward_length p q : forward p q → length q.2 ≤ length p.2 ∧ length p.1 ≤ length q.1.
Proof. intros (m & -> & ->). rewrite !length_app, length_rev. lia. Qed.

Lemma forward_same p q : forward p q → length q.2 = length p.2 → p = q.
Proof.
  destruct p, q. intros (m & E & E') Hl. cbn in *. subst. rewrite length_app in Hl.
  destruct m; [done|]. cbn in Hl. lia.
Qed.

Lemma forward_consumed p q :
  forward p q → p.2 = consumed p q ++ q.2 ∧ q.1 = rev (consumed p q) ++ p.1.
Proof.
  intros (m & E & E'). assert (consumed p q = m) as ->; [|done].
  unfold consumed. rewrite E, length_app. replace (_ - _) with (length m) by lia. apply take_app_length.
Qed.

Lemma forward_full_text p q : forward p q → full_text p = full_text q.
Proof.
  intros (m & E & E'). unfold full_text. rewrite E, E', rev_app_distr, rev_involutive.
  by rewrite <- (assoc_L (++)).
Qed.

(** ** The matcher is correct

    The bounds of every repetition are in order, as the syntax demands. *)
Fixpoint wf (r : regex) : bool :=
  match r with
  | Seq a b | Alt a b => wf a && wf b
  | Rep _ min max a => from_option (λ max, min <=? max) true max && wf a
  | Group _ a | Behind a | NotAhead a => wf a
  | _ => true
  end.

(** Without groups a match captures nothing. *)
Fixpoint group_free (r : regex) : bool :=
  match r with
  | Seq a b | Alt a b => group_free a && group_free b
  | Rep _ _ _ a => group_free a
  | Group _ _ => false
  | _ => true
  end.

Definition sound (r : regex) : Prop :=
  ∀ s k x, rm r s k = Some x →
  ∃ s', lang r (here s) (here s') ∧ (group_free r = true → caps s' = caps s) ∧ k s' = Some x.
Definition completes (r : regex) : Prop :=
  ∀ s k q, lang r (here s) q → (∀ cs, is_Some (k (mkSt q cs))) → is_Some (rm r s k).

Lemma or_else_some a b x : or_else_st a b = Some x → a = Some x ∨ b = Some x.
Proof. destruct a; cbn; auto. Qed.
Lemma or_else_is_some a b : is_Some a ∨ is_Some b → is_Some (or_else_st a b).
Proof. destruct a; cbn; [eauto|]. by intros [[? ?]|]. Qed.

Lemma rep_sound a greedy fuel : sound a → ∀ min max s k x,
  from_option (λ max, min ≤ max) True max →
  rep (rm a) greedy fuel min max s k = Some x →
  ∃ n s', min ≤ n ∧ from_option (λ max, n ≤ max) True max
    ∧ turns (lang a) n (here s) (here s') ∧ (group_free a = true → caps s' = caps s) ∧ k s' = Some x.
Proof.
  intros Ha. induction fuel as [|fuel IH]; intros min max s k x Hmax H.
  { exists 0, s. destruct max as [[|]|], min; cbn in *; split_and!; try done; lia. }
  assert (Hstop : min = 0 → k s = Some x → ∃ n s', min ≤ n ∧ from_option (λ max, n ≤ max) True max
    ∧ turns (lang a) n (here s) (here s') ∧ (group_free a = true → caps s' = caps s) ∧ k s' = Some x).
  { intros -> Hk. exists 0, s. by destruct max; cbn; split_and!; try lia. }
  destruct (decide (max = Some 0)) as [->|Hz].
  { apply Hstop; [cbn in Hmax; lia|exact H]. }
  assert (Hmore : ∀ more, more = rm a s (λ s',
      if (min =? 0) && (length (here s').2 =? length (here s).2) then None
      else rep (rm a) greedy fuel (pred min) (pred <$> max) s' k) → more = Some x →
    ∃ n s', min ≤ n ∧ from_option (λ max, n ≤ max) True max
    ∧ turns (lang a) n (here s) (here s') ∧ (group_free a = true → caps s' = caps s) ∧ k s' = Some x).
  { intros more -> Hm. apply Ha in Hm as (s1 & H1 & Hc1 & Hm). case_match; [done|].
    apply IH in Hm as (n & s' & Hn & Hn' & Ht & Hc & Hk).
    2:{ destruct max; cbn in *; [lia|done]. }
    exists (S n), s'. split_and!; [lia| |by exists (here s1)|by intros Hg; rewrite Hc, Hc1|done].
    destruct max as [[|max]|]; cbn in *; try done. lia. }
  cbn [rep] in H.
  assert (Hc : (match min with S _ => _ | 0 => if greedy then _ else _ end) = Some x)
    by (destruct max as [[|]|]; [done|exact H..]).
  clear H. destruct min as [|min]; [|by eapply Hmore].
  destruct greedy; apply or_else_some in Hc as [Hc|Hc]; eauto.
Qed.

Lemma rep_complete a greedy fuel : (∀ p q, lang a p q → forward p q) → completes a →
  ∀ n min max s k q,
  min ≤ n → from_option (λ max, n ≤ max) True max → turns (lang a) n (here s) q →
  min + S (length (here s).2) ≤ fuel → (∀ cs, is_Some (k (mkSt q cs))) →
  is_Some (rep (rm a) greedy fuel min max s k).
Proof.
  intros Hf Ha. induction fuel as [|fuel IHf]; [intros; lia|].
  induction n as [|n IHn]; intros min max s k q Hmin Hmax Ht Hfuel Hk.
  { cbn in Ht. destruct s as [p cs]. cbn in *. subst q. destruct min; [|lia]. cbn [rep].
    destruct max as [[|]|]; [apply Hk|..]; destruct greedy; apply or_else_is_some; auto. }
  destruct Ht as (m & Hm & Ht). cbn [rep].
  assert (Hz : max ≠ Some 0) by (destruct max as [[|]|]; cbn in *; [lia|done..]).
  destruct (decide (min = 0 ∧ m = here s)) as [[-> ->]|Hmove].
  { destruct (IHn 0 max s k q) as [x Hx]; [lia| |done|cbn in *; lia|done|].
    - destruct max; cbn in *; [lia|done].
    - cbn [rep] in Hx. destruct max as [[|]|]; try done; eauto. }
  assert (Hmore : is_Some (rm a s (λ s',
      if (min =? 0) && (length (here s').2 =? length (here s).2) then None
      else rep (rm a) greedy fuel (pred min) (pred <$> max) s' k))).
  { eapply Ha; [exact Hm|]. intros cs. cbn [here].
    pose proof (forward_length _ _ (Hf _ _ Hm)) as [Hl _].
    destruct (_ && _) eqn:E.
    - exfalso. apply andb_true_iff in E as [E1 E2]. apply Nat.eqb_eq in E1, E2.
      apply Hmove. split; [done|]. symmetry. apply forward_same; auto.
    - apply (IHf n) with q; [lia| |exact Ht| |done].
      + destruct max; cbn in *; [lia|done].
      + cbn [here]. apply andb_false_iff in E as [E|E]; apply Nat.eqb_neq in E; [lia|].
        destruct min; cbn; lia. }
  destruct max as [[|]|]; try done; (destruct min; [|exact Hmore]);
    destruct greedy; apply or_else_is_some; auto.
Qed.

Lemma back_forward p q : forward p q → ∃ i, i ≤ length q.1 ∧ back i q = p.
Proof.
  intros (m & E & E'). exists (length m). unfold back. rewrite E', length_app, length_rev. split; [lia|].
  rewrite <- (length_rev m), take_app_length, drop_app_length, rev_involutive, <- E. by destruct p.
Qed.

Lemma forward_back_same p q q' :
  forward p q → forward p q' → length q.1 = length q'.1 → q = q'.
Proof.
  destruct q as [b a], q' as [b' a']. intros (m & E & E1) (m' & E2 & E3) Hl. cbn in *. subst b b'.
  rewrite !length_app, !length_rev in Hl. rewrite E in E2.
  apply app_inj_1 in E2 as [-> ->]; [done|lia].
Qed.

Lemma back_text i p : i ≤ length p.1 → forward (back i p) p.
Proof.
  intros Hi. exists (rev (take i p.1)). unfold back. cbn. split; [done|].
  by rewrite rev_involutive, take_drop.
Qed.

Lemma rm_correct r : wf r = true → sound r ∧ completes r.
Proof.
  induction r; cbn [wf]; intros Hwf; bools;
    repeat match goal with Hb : ?b = true, IH : ?b = true → _ |- _ => destruct (IH Hb); clear IH end;
    (split; [intros s k x Hr|intros s k q Hq Hk]); cbn [rm lang] in *.
  - by exists s.
  - subst q. destruct s. apply Hk.
  - destruct s as [[b [|c a]] cs]; cbn in Hr; [done|]. destruct (p c) eqn:E; [|done].
    exists (mkSt (c :: b, a) cs). split_and!; [|done|exact Hr]. by exists b, c, a.
  - destruct Hq as (b & c & a & E & Ep & ->). rewrite E. by rewrite Ep.
  - match goal with Ha : sound r1, Hb : sound r2 |- _ =>
      apply Ha in Hr as (m & H1' & Hc1 & Hr); apply Hb in Hr as (s' & H2' & Hc2 & Hr) end. exists s'.
    split_and!; [eauto| |done]. cbn. intros; bools. by rewrite Hc2, Hc1.
  - destruct Hq as (m & H1' & H2'). match goal with Ha : completes r1, Hb : completes r2 |- _ =>
      eapply Ha; [exact H1'|]; intros cs; by eapply Hb end.
  - apply or_else_some in Hr as [Hr|Hr]; match goal with Ha : sound ?r, _ : rm ?r _ _ = _ |- _ =>
      apply Ha in Hr as (s' & ? & ? & ?); exists s'; cbn; split_and!; [eauto|intros; bools; eauto|done] end.
  - apply or_else_is_some. destruct Hq; [left|right];
      match goal with Ha : completes ?r, _ : lang ?r _ _ |- _ => by eapply Ha end.
  - assert (Hm : from_option (λ max, min ≤ max) True max)
      by (destruct max; cbn in *; [by apply Nat.leb_le|done]).
    eapply rep_sound in Hr as (n & s' & ? & ? & ? & ? & ?); [|done..]. exists s'. eauto 7.
  - destruct Hq as (n & ? & ? & ?). eapply rep_complete; eauto. apply lang_forward.
  - match goal with Ha : sound r |- _ => apply Ha in Hr as (s' & Hl & _ & Hr) end.
    exists (mkSt (here s') ((n, consumed (here s) (here s')) :: caps s')). by split_and!.
  - match goal with Ha : completes r |- _ => eapply Ha; [done|] end. intros cs. apply Hk.
  - destruct (here s) as [[|] a] eqn:E; [|done]. exists s. by rewrite E.
  - destruct Hq as [<- E]. rewrite E. destruct s. apply Hk.
  - destruct (here s) as [b [|]] eqn:E; [|done]. exists s. by rewrite E.
  - destruct Hq as [<- E]. rewrite E. destruct s. apply Hk.
  - case_match eqn:E; [|done]. exists s. eauto.
  - destruct Hq as [<- ->]. destruct s. apply Hk.
  - destruct (existsb _ _) eqn:E; [|done]. exists s. split; [|done]. split; [done|].
    apply existsb_exists in E as (i & Hi & E). apply in_seq in Hi.
    match type of E with match ?m with _ => _ end = _ => destruct m as [y|] eqn:Ey; [|done] end.
    match goal with Ha : sound r |- _ => apply Ha in Ey as (s' & Hl & _ & Hs') end.
    destruct (_ =? _) eqn:E'; [|done]. apply Nat.eqb_eq in E'. cbn in Hl.
    exists (back i (here s)). enough (Es : here s' = here s) by (by rewrite Es in Hl).
    eapply forward_back_same; [by apply lang_forward in Hl|apply back_text; lia|done].
  - destruct Hq as (<- & p0 & Hp). rewrite (proj2 (existsb_exists _ _)); [by destruct s|].
    destruct (back_forward _ _ (lang_forward _ _ _ Hp)) as (i & Hi & Eb).
    exists i. split; [apply in_seq; lia|]. rewrite Eb.
    match goal with Ha : completes r |- context [rm r ?s0 ?k0] =>
      destruct (Ha s0 k0 (here s) Hp) as [y Hy]; [|by rewrite Hy] end.
    intros cs. cbn. by rewrite Nat.eqb_refl.
  - destruct (rm r s Some) eqn:E; [done|]. exists s. split; [|done]. split; [done|].
    intros [q' Hq']. match goal with Ha : completes r |- _ =>
      destruct (Ha s Some q' Hq') as [y Hy]; [by eexists|congruence] end.
  - destruct Hq as [<- Hn]. destruct (rm r s Some) eqn:E; [|destruct s; apply Hk].
    match goal with Ha : sound r |- _ => apply Ha in E as (s' & ? & _ & _) end. destruct Hn. eauto.
Qed.

Lemma match_at_lang r p s : wf r = true → match_at r p = Some s → lang r p (here s).
Proof.
  intros Hr H. apply (proj1 (rm_correct r Hr)) in H as (s' & Hl & _ & Hs). cbn in *. by injection Hs as ->.
Qed.

Lemma match_at_none r p : wf r = true → match_at r p = None ↔ ∀ q, ¬ lang r p q.
Proof.
  intros Hr. split.
  - intros H q Hq. destruct (proj2 (rm_correct r Hr) (mkSt p []) Some q Hq) as [y Hy]; [by eexists|].
    unfold match_at in H. congruence.
  - intros H. destruct (match_at r p) eqn:E; [|done]. apply match_at_lang in E; [|done]. by apply H in E.
Qed.

Lemma same_place p b a : full_text p = full_text (b, a) → length p.2 = length a → p = (b, a).
Proof.
  destruct p as [b' a']. unfold full_text. cbn. intros E Hl. apply app_inj_2 in E as [Eb ->]; [|done].
  f_equal. by rewrite <- (rev_involutive b'), Eb, rev_involutive.
Qed.

Lemma full_text_step b c a : full_text (c :: b, a) = full_text (b, c :: a).
Proof. unfold full_text. cbn. by rewrite <- (assoc_L (++)). Qed.

Lemma exec_from_spec r before after : wf r = true →
  is_Some (exec_from r before after) ↔
  ∃ p q, full_text p = full_text (before, after) ∧ length p.2 ≤ length after ∧ lang r p q.
Proof.
  intros Hr. revert before. induction after as [|c after IH]; intros before; cbn [exec_from].
  - destruct (match_at r (before, [])) as [s|] eqn:E.
    { split; [|eauto]. intros _. exists (before, []), (here s). split_and!; [done|cbn; lia|by apply match_at_lang]. }
    split; [by intros []|]. intros (p & q & Et & Hl & Hq). exfalso.
    rewrite match_at_none in E by done. apply (E q). rewrite <- (same_place p before []); [done..|cbn in *; lia].
  - destruct (match_at r (before, c :: after)) as [s|] eqn:E.
    { split; [|eauto]. intros _. exists (before, c :: after), (here s).
      split_and!; [done|cbn; lia|by apply match_at_lang]. }
    rewrite IH, full_text_step. split; intros (p & q & Et & Hl & Hq); exists p, q.
    + split_and!; [done|cbn; lia|done].
    + split_and!; [done| |done]. destruct (decide (length p.2 = length (c :: after))) as [He|]; [|cbn in *; lia].
      exfalso. rewrite match_at_none in E by done. apply (E q). by rewrite <- (same_place p before (c :: after)).
Qed.

(** [test] answers whether the text has a match. *)
Lemma test_lang r text : wf r = true →
  test r text = true ↔ ∃ p q, full_text p = chars text ∧ lang r p q.
Proof.
  intros Hr. unfold test. pose proof (exec_from_spec r [] (chars text) Hr) as [H1 H2]. split.
  - intros Ht. destruct (exec_from _ _ _); [|done].
    destruct H1 as (p' & q' & ? & _ & ?); [by eexists|]. by exists p', q'.
  - intros (p & q & Et & Hl). destruct (exec_from _ _ _); [done|].
    destruct H2 as [? H]; [|done]. exists p, q. split_and!; [done| |done].
    rewrite <- Et. unfold full_text. rewrite length_app. lia.
Qed.

(** ** What a global replacement leaves *)

Inductive scanned (r : regex) : pos → list piece → Prop :=
| scanned_end b : match_at r (b, []) = None → scanned r (b, []) []
| scanned_keep b c a ps :
    match_at r (b, c :: a) = None → scanned r (c :: b, a) ps → scanned r (b, c :: a) (Keep c :: ps)
| scanned_hit p s ps :
    match_at r p = Some s → consumed p (here s) ≠ [] → scanned r (here s) ps →
    scanned r p (Hit (consumed p (here s)) (caps s) :: ps)
| scanned_empty_end b s :
    match_at r (b, []) = Some s → scanned r (b, []) [Hit [] (caps s)]
| scanned_empty b c a s ps :
    match_at r (b, c :: a) = Some s → consumed (b, c :: a) (here s) = [] → scanned r (c :: b, a) ps →
    scanned r (b, c :: a) (Hit [] (caps s) :: Keep c :: ps).

Lemma scan_scanned r fuel before after :
  wf r = true → length after < fuel → scanned r (before, after) (scan r fuel before after).
Proof.
  intros Hr. revert before after. induction fuel as [|fuel IH]; intros before after Hf; [lia|].
  cbn [scan]. destruct (match_at r (before, after)) as [s|] eqn:E.
  - pose proof (match_at_lang _ _ _ Hr E) as Hl. apply lang_forward, forward_consumed in Hl as [Ec _].
    destruct (consumed (before, after) (here s)) as [|d m] eqn:Em.
    + destruct after as [|c after]; [by constructor|]. eapply scanned_empty; [done..|].
      apply IH. cbn in Hf. lia.
    + rewrite <- Em. apply scanned_hit; [done|congruence|].
      replace (here s) with ((here s).1, (here s).2) at 1 by by destruct (here s).
      apply IH. cbn [snd] in Ec. rewrite Ec in Hf. rewrite length_app in Hf. cbn in Hf. lia.
  - destruct after as [|c after]; constructor; try done. apply IH. cbn in Hf. lia.
Qed.

(** Texts over an alphabet, and marks that no such text crosses. *)
Section Cut.
Context (letter : ascii → bool) (n : nat).

(** The texts over the alphabet with at least [n] letters are those of the other text. *)
Definition word_of (w t : list ascii) : Prop := ∃ u v, t = u ++ w ++ v.
Definition token (w : list ascii) : Prop := Forall (λ c, letter c = true) w ∧ n ≤ length w.
Definition mark (x : list ascii) : Prop :=
  ∃ c y d, x = c :: y ++ [d] ∧ letter c = false ∧ letter d = false ∧ ∀ w, token w → ¬ word_of w y.

(** [out] is [t] with pieces replaced by marks. *)
Inductive cut : list ascii → list ascii → Prop :=
| cut_refl t : cut t t
| cut_mark s m x t out : mark x → cut t out → cut (s ++ m ++ t) (s ++ x ++ out).

Lemma cut_app s t out : cut t out → cut (s ++ t) (s ++ out).
Proof.
  intros [t0|s0 m x t0 out0 Hx H]; [apply cut_refl|].
  rewrite !(assoc_L (++) s). by apply cut_mark.
Qed.

Lemma word_of_app_l w u t : word_of w t → word_of w (u ++ t).
Proof. intros (a & b & ->). exists (u ++ a), b. by rewrite <- (assoc_L (++)). Qed.
Lemma word_of_app_r w u t : word_of w t → word_of w (t ++ u).
Proof. intros (a & b & ->). exists a, (b ++ u). by rewrite <- !(assoc_L (++)). Qed.

(** A token does not cross a character outside the alphabet. *)
Lemma token_split w l c r :
  token w → letter c = false → word_of w (l ++ c :: r) → word_of w l ∨ word_of w r.
Proof.
  intros [Hw _] Hc (u & v & E).
  destruct (decide (length u + length w ≤ length l)) as [H1|H1]; [left|].
  { exists u, (take (length l - length u - length w) v).
    apply (f_equal (take (length l))) in E. rewrite take_app_length in E.
    etrans; [exact E|]. by rewrite !take_app_ge by lia. }
  destruct (decide (length l < length u)) as [H2|H2]; [right|exfalso].
  { exists (drop (S (length l)) u), v. apply (f_equal (drop (S (length l)))) in E.
    rewrite cons_middle, (assoc_L (++)) in E.
    replace (S (length l)) with (length (l ++ [c])) in E at 1 by (rewrite length_app; cbn; lia).
    rewrite drop_app_length in E. etrans; [exact E|]. by rewrite drop_app_le by lia. }
  apply (f_equal (.!! length l)) in E.
  rewrite list_lookup_middle in E by done. rewrite lookup_app_r in E by lia.
  rewrite lookup_app_l in E by lia. symmetry in E.
  rewrite Forall_lookup in Hw. specialize (Hw _ _ E). cbn in Hw. congruence.
Qed.

Lemma cut_token w t out : token w → cut t out → word_of w out → word_of w t.
Proof.
  intros Hw H. induction H as [|s m x t out (c & y & d & -> & Hc & Hd & Hy) H IH]; [done|].
  intros Ho. rewrite <- app_comm_cons in Ho. apply token_split in Ho as [Ho|Ho]; [by apply word_of_app_r| |done..].
  rewrite <- (assoc_L (++)) in Ho. apply token_split in Ho as [Ho|Ho]; [| |done..].
  - by destruct (Hy w Hw).
  - apply word_of_app_l, word_of_app_l. by apply IH.
Qed.

(** A replacement that keeps a prefix and a suffix of the match and marks the rest. *)
Definition marks (r : regex) (f : list ascii → list (nat * list ascii) → list ascii) : Prop :=
  ∀ p s, match_at r p = Some s →
    ∃ a x b m, f (consumed p (here s)) (caps s) = a ++ x ++ b ∧ mark x
               ∧ consumed p (here s) = a ++ m ++ b.

Lemma marks_cut r f p ps : wf r = true → marks r f → scanned r p ps → cut p.2 (render f ps).
Proof.
  intros Hr Hf. induction 1 as [b Hn|b c a ps Hn Hs IH|p s ps Hm Hne Hs IH|b s Hm|b c a s ps Hm Hne Hs IH].
  - apply cut_refl.
  - by apply (cut_app [c]).
  - destruct (Hf _ _ Hm) as (a & x & b & m & Ef & Hx & Ec).
    pose proof (match_at_lang _ _ _ Hr Hm) as Hl. apply lang_forward, forward_consumed in Hl as [Ep _].
    rewrite Ep. cbn [render flat_map]. rewrite Ef. rewrite Ec at 1. fold (render f ps).
    rewrite <- !(assoc_L (++)). apply cut_mark; [done|]. by apply cut_app.
  - destruct (Hf _ _ Hm) as (a & x & b' & m & Ef & Hx & Ec).
    pose proof (match_at_lang _ _ _ Hr Hm) as Hl. apply lang_forward, forward_consumed in Hl as [Ep _].
    cbn in Ep. assert (consumed (b, []) (here s) = []) as E0
      by (symmetry in Ep; by apply app_nil in Ep as [? _]).
    rewrite E0 in Ef, Ec. destruct a, m, b'; try done. cbn [render flat_map]. rewrite Ef. cbn.
    rewrite app_nil_r. apply (cut_mark [] [] x [] []); [done|apply cut_refl].
  - destruct (Hf _ _ Hm) as (a' & x & b' & m & Ef & Hx & Ec). rewrite Hne in Ef, Ec.
    destruct a', m, b'; try done. cbn [render flat_map]. rewrite Ef. fold (render f ps). cbn.
    rewrite app_nil_r. apply (cut_mark [] [] x (c :: a) (c :: render f ps)); [done|].
    by apply (cut_app [c]).
Qed.
End Cut.

(** ** Token patterns

    Patterns without assertions over an alphabet, whose matches have a least length. *)

Fixpoint plain (r : regex) : bool :=
  match r with
  | Eps | Chr _ => true
  | Seq a b | Alt a b => plain a && plain b
  | Rep _ _ _ a | Group _ a => plain a
  | _ => false
  end.

Definition all_ascii : list ascii := map ascii_of_nat (seq 0 256).
Fixpoint chars_in (letter : ascii → bool) (r : regex) : bool :=
  match r with
  | Chr p => forallb (λ c, implb (p c) (letter c)) all_ascii
  | Seq a b | Alt a b => chars_in letter a && chars_in letter b
  | Rep _ _ _ a | Group _ a => chars_in letter a
  | _ => true
  end.
Fixpoint min_len (r : regex) : nat :=
  match r with
  | Chr _ => 1
  | Seq a b => min_len a + min_len b
  | Alt a b => min_len a `min` min_len b
  | Rep _ n _ a => n * min_len a
  | Group _ a => min_len a
  | _ => 0
  end.
Definition token_pattern (letter : ascii → bool) (n : nat) (r : regex) : bool :=
  wf r && plain r && chars_in letter r && (n <=? min_len r).

(** No match anywhere in a text. *)
Definition no_match (r : regex) (t : list ascii) : Prop := ∀ p q, full_text p = t → ¬ lang r p q.

Lemma no_match_test r t : wf r = true → no_match r t → test r (of_chars t) = false.
Proof.
  intros Hr Hn. apply not_true_iff_false. intros (p & q & E & Hl)%test_lang; [|done].
  unfold chars, of_chars in E. rewrite list_ascii_of_string_of_list_ascii in E. by apply (Hn p q).
Qed.

Lemma in_all_ascii c : In c all_ascii.
Proof.
  unfold all_ascii. apply in_map_iff. exists (nat_of_ascii c). split; [apply ascii_nat_embedding|].
  apply in_seq. pose proof (nat_ascii_bounded c). lia.
Qed.

Lemma forward_split p m q : forward p m → forward m q → consumed p q = consumed p m ++ consumed m q.
Proof.
  intros H1 H2. pose proof (forward_trans _ _ _ H1 H2) as H3.
  apply forward_consumed in H1 as [E1 _], H2 as [E2 _], H3 as [E3 _].
  rewrite E1, E2, (assoc_L (++)) in E3. by apply app_inj_2 in E3 as [-> _].
Qed.

Lemma consumed_same p : consumed p p = [].
Proof. unfold consumed. by rewrite Nat.sub_diag. Qed.

Definition empty_only (r : regex) : bool :=
  match r with Eps | Bol | Eol | WordB | Behind _ | NotAhead _ => true | _ => false end.

(** What holds of nothing, of one character and of what follows what it holds of. *)
Lemma consumed_ind (P : regex → list ascii → Prop) r p q :
  (∀ r', empty_only r' = true → P r' []) →
  (∀ f c, f c = true → P (Chr f) [c]) →
  (∀ a b u v, P a u → P b v → P (Seq a b) (u ++ v)) →
  (∀ a b u, P a u → P (Alt a b) u) → (∀ a b u, P b u → P (Alt a b) u) →
  (∀ g n m a us, n ≤ length us → from_option (λ m, length us ≤ m) True m → Forall (P a) us →
     P (Rep g n m a) (List.concat us)) →
  (∀ n a u, P a u → P (Group n a) u) →
  lang r p q → P r (consumed p q).
Proof.
  intros H0 H1 HS HA HB HR HG. revert p q.
  induction r as [|f|a IHa b IHb|a IHa b IHb|g n m a IHa|n a IHa| | | |a _|a _]; intros p q; cbn [lang].
  all: try (intros [-> _]; rewrite consumed_same; by apply H0).
  - intros ->. rewrite consumed_same. by apply H0.
  - intros (b & c & a & -> & Hc & ->). unfold consumed. cbn.
    replace (S (length a) - length a) with 1 by lia. cbn. rewrite take_0. by apply H1.
  - intros (mid & Ha & Hb). rewrite (forward_split p mid q); [|by eapply lang_forward..]. eauto.
  - intros [H|H]; eauto.
  - intros (k & Hn & Hm & Ht).
    enough (∃ us, length us = k ∧ Forall (P a) us ∧ consumed p q = List.concat us) as (us & <- & Hus & ->) by eauto.
    clear Hn Hm. revert p Ht. induction k as [|k IHk]; intros p; cbn [turns].
    + intros ->. exists []. by rewrite consumed_same.
    + intros (mid & Ha & Ht). destruct (IHk mid Ht) as (us & Hl & Hus & E).
      exists (consumed p mid :: us). split_and!; [by cbn; rewrite Hl|by constructor; eauto|].
      rewrite (forward_split p mid q), E; [done|by eapply lang_forward|].
      eapply turns_forward; [|exact Ht]. apply lang_forward.
  - eauto.
Qed.

Lemma lang_letters letter r p q :
  chars_in letter r = true → lang r p q → Forall (λ c, letter c = true) (consumed p q).
Proof.
  intros Hr Hl. revert Hr.
  apply (consumed_ind (λ r u, chars_in letter r = true → Forall (λ c, letter c = true) u) r p q);
    try exact Hl; cbn [chars_in]; intros; bools; auto.
  - rewrite forallb_forall in *. constructor; [|constructor]. specialize (H0 c (in_all_ascii c)).
    by rewrite H in H0.
  - apply Forall_app. auto.
  - apply Forall_concat. eapply Forall_impl; [done|]. auto.
Qed.

Lemma lang_min_len r p q : lang r p q → min_len r ≤ length (consumed p q).
Proof.
  apply (consumed_ind (λ r u, min_len r ≤ length u)); cbn [min_len]; intros.
  - by destruct r'.
  - done.
  - rewrite length_app. lia.
  - lia.
  - lia.
  - transitivity (length us * min_len a); [nia|]. clear H H0.
    induction H1; cbn; [done|]. rewrite length_app. lia.
  - done.
Qed.

(** Without assertions the surroundings of a match do not matter. *)
Lemma forward_move p q : forward p q → p.2 = consumed p q ++ q.2 ∧ q = (rev (consumed p q) ++ p.1, q.2).
Proof. intros H. apply forward_consumed in H as [E1 E2]. split; [done|]. rewrite <- E2. by destruct q. Qed.

Definition local_at (r : regex) (w : list ascii) : Prop := ∀ b a, lang r (b, w ++ a) (rev w ++ b, a).

Lemma turns_local a us b rest : Forall (local_at a) us →
  turns (lang a) (length us) (b, List.concat us ++ rest) (rev (List.concat us) ++ b, rest).
Proof.
  intros H. revert b. induction H as [|u us Hu _ IH]; intros b; [done|].
  cbn [length List.length turns List.concat]. exists (rev u ++ b, List.concat us ++ rest).
  rewrite <- (assoc_L (++)), rev_app_distr, <- (assoc_L (++)). split; [apply Hu|apply IH].
Qed.

Lemma plain_local r p q : plain r = true → lang r p q → local_at r (consumed p q).
Proof.
  intros Hr Hl. revert Hr.
  apply (consumed_ind (λ r u, plain r = true → local_at r u) r p q); try exact Hl; cbn [plain];
    unfold local_at; intros; cbn [lang]; bools; eauto.
  - by destruct r'.
  - by exists b, c, a.
  - exists (rev u ++ b0, v ++ a0). rewrite <- (assoc_L (++)), rev_app_distr, <- (assoc_L (++)). eauto.
  - exists (length us). split_and!; [done..|]. apply turns_local.
    eapply Forall_impl; [done|]. unfold local_at. eauto.
Qed.

Section TokenPattern.
Context (letter : ascii → bool) (n : nat) (r : regex).
Hypothesis pattern : token_pattern letter n r = true.

Lemma pattern_wf : wf r = true.
Proof using pattern. unfold token_pattern in pattern. by bools. Qed.
Lemma pattern_plain : plain r = true.
Proof using pattern. unfold token_pattern in pattern. by bools. Qed.

Lemma pattern_token p q : lang r p q → token letter n (consumed p q).
Proof using pattern.
  intros H. pose proof pattern as Hp. unfold token_pattern in Hp. bools. split.
  - by eapply lang_letters.
  - apply lang_min_len in H. match goal with H : (n <=? _) = true |- _ => apply Nat.leb_le in H end. lia.
Qed.

(** A match is a word of the text, and a word that matches once matches everywhere. *)
Lemma match_word p q : lang r p q → word_of (consumed p q) (full_text p).
Proof using.
  intros H. apply lang_forward, forward_consumed in H as [E _].
  exists (rev p.1), q.2. unfold full_text. by rewrite E at 1.
Qed.

Lemma word_match p q w t : lang r p q → consumed p q = w → word_of w t → ¬ no_match r t.
Proof using pattern.
  intros Hl <- (u & v & ->) Hn. eapply plain_local in Hl; [|apply pattern_plain].
  eapply (Hn (rev u, consumed p q ++ v)); [|apply Hl].
  unfold full_text. cbn. by rewrite rev_involutive.
Qed.

(** A replacement by marks brings no match into a text that has none. *)
Lemma cut_no_match t out : cut letter n t out → no_match r t → no_match r out.
Proof using pattern.
  intros Hc Hn p q <- Hl. eapply word_match; [exact Hl|done| |exact Hn].
  eapply cut_token; [by apply pattern_token|done|]. by apply match_word.
Qed.

(** Replacing every match by a short prefix of it and a mark leaves none. *)
Definition own_marks (f : list ascii → list (nat * list ascii) → list ascii) : Prop :=
  ∀ p s, match_at r p = Some s →
    ∃ a x m, f (consumed p (here s)) (caps s) = a ++ x ∧ mark letter n x
             ∧ consumed p (here s) = a ++ m ∧ length a < n.

Lemma own_marks_constantly x : mark letter n x → 0 < n → own_marks (λ _ _, x).
Proof using. intros Hx Hn p s _. by exists [], x, (consumed p (here s)). Qed.

Context (f : list ascii → list (nat * list ascii) → list ascii).
Hypothesis f_marks : own_marks f.

Lemma hit_not_empty p s : match_at r p = Some s → consumed p (here s) ≠ [].
Proof using pattern f_marks.
  intros Hm E. destruct (f_marks _ _ Hm) as (a & x & m & _ & _ & _ & Ha).
  apply match_at_lang, pattern_token in Hm as [_ Hm]; [|apply pattern_wf]. rewrite E in Hm. cbn in Hm. lia.
Qed.

Lemma hit_prefix p s w v rest : match_at r p = Some s → Forall (λ c, letter c = true) w →
  f (consumed p (here s)) (caps s) ++ rest = w ++ v → ∃ v', p.2 = w ++ v'.
Proof using pattern f_marks.
  intros Hm Hw E. destruct (f_marks _ _ Hm) as (a & x & m & Ef & (c & y & d & -> & Hc & _) & Em & _).
  apply match_at_lang in Hm; [|apply pattern_wf]. apply lang_forward, forward_consumed in Hm as [Ep _].
  rewrite Ep, Em. rewrite Ef, <- !(assoc_L (++)) in E.
  apply app_eq_inv in E as [(k & Ea & _)|(k & Ew & E)].
  - exists (k ++ m ++ (here s).2). by rewrite Ea, <- !(assoc_L (++)).
  - destruct k as [|e k]; [rewrite app_nil_r in Ew; subst a; by exists (m ++ (here s).2); rewrite (assoc_L (++))|].
    cbn in E. injection E as <- _. rewrite Ew in Hw. apply Forall_app in Hw as [_ Hw].
    apply Forall_cons in Hw as [Hw _]. congruence.
Qed.

Lemma render_prefix p ps w v :
  scanned r p ps → Forall (λ c, letter c = true) w → render f ps = w ++ v → ∃ v', p.2 = w ++ v'.
Proof using pattern f_marks.
  intros Hs. revert w v.
  induction Hs as [b Hn|b c a ps Hn Hs IH|p s ps Hm Hne Hs IH|b s Hm|b c a s ps Hm Hne Hs IH];
    intros w v Hw E; cbn [render flat_map] in E.
  - destruct w; [by exists []|done].
  - destruct w as [|e w]; [by exists (c :: a)|]. cbn in E. injection E as -> E.
    apply Forall_cons in Hw as [_ Hw]. destruct (IH w v Hw E) as [v' Ev]. exists v'. cbn in *. by rewrite Ev.
  - by eapply hit_prefix.
  - exfalso. apply (hit_not_empty _ _ Hm). unfold consumed. apply take_nil.
  - by destruct (hit_not_empty _ _ Hm).
Qed.

(** A token after a hit lies behind the mark. *)
Lemma hit_word p s w rest : match_at r p = Some s → token letter n w →
  word_of w (f (consumed p (here s)) (caps s) ++ rest) → word_of w rest.
Proof using f_marks.
  intros Hm Hw Ho. destruct (f_marks _ _ Hm) as (a & x & m & Ef & (c & y & d & -> & Hc & Hd & Hy) & Em & Ha).
  rewrite Ef, <- (assoc_L (++)) in Ho. cbn [app] in Ho.
  apply (token_split letter n) in Ho as [Ho|Ho]; [| |done..].
  - destruct Ho as (u & v & E), Hw as [_ Hw]. rewrite E, !length_app in Ha. lia.
  - rewrite <- (assoc_L (++)) in Ho. apply (token_split letter n) in Ho as [Ho|Ho]; [|done..].
    by destruct (Hy w Hw).
Qed.

Lemma keep_word p' q' w b c a ps : lang r p' q' → consumed p' q' = w →
  match_at r (b, c :: a) = None → scanned r (c :: b, a) ps →
  ¬ word_of w (render f ps) → ¬ word_of w (c :: render f ps).
Proof using pattern f_marks.
  intros Hl Ew Hn Hs IH (u & v & E).
  pose proof (plain_local _ _ _ pattern_plain Hl) as Hloc. rewrite Ew in Hloc.
  pose proof (pattern_token _ _ Hl) as Hw. rewrite Ew in Hw. destruct u as [|e u]; cbn in E.
  - assert (Hs2 : scanned r (b, c :: a) (Keep c :: ps)) by by constructor.
    destruct (render_prefix _ _ w v Hs2) as [v' Ev]; [apply Hw|done|].
    rewrite match_at_none in Hn by apply pattern_wf. cbn in Ev. rewrite Ev in Hn. by eapply Hn, Hloc.
  - injection E as -> E. apply IH. by exists u, v.
Qed.

Lemma render_no_word p ps w p' q' : 0 < n →
  scanned r p ps → lang r p' q' → consumed p' q' = w → ¬ word_of w (render f ps).
Proof using pattern f_marks.
  intros Hpos Hs Hl Ew.
  assert (Hw : token letter n w) by (subst w; by apply pattern_token).
  induction Hs as [b Hn|b c a ps Hn Hs IH|p s ps Hm Hne Hs IH|b s Hm|b c a s ps Hm Hne Hs IH];
    cbn [render flat_map]; fold (render f).
  - intros (u & v & E). destruct Hw as [_ Hw], u, w; try done. cbn in Hw. lia.
  - by eapply (keep_word p' q').
  - intros Ho. by apply hit_word, IH in Ho.
  - exfalso. apply (hit_not_empty _ _ Hm). unfold consumed. apply take_nil.
  - by destruct (hit_not_empty _ _ Hm).
Qed.

Lemma replace_own_no_match t : 0 < n → no_match r (replace_all r f t).
Proof using pattern f_marks.
  intros Hpos p q E Hl. pose proof (match_word _ _ Hl) as Hw. rewrite E in Hw.
  unfold replace_all in Hw. eapply render_no_word; [done| |exact Hl|done|exact Hw].
  apply scan_scanned; [apply pattern_wf|lia].
Qed.

(** Nor does a later replacement bring one back. *)
Lemma replace_keeps_no_match r' g t :
  wf r' = true → marks letter n r' g → no_match r t → no_match r (replace_all r' g t).
Proof using pattern.
  clear f_marks. intros Hr Hg. apply cut_no_match. apply (marks_cut letter n r' g ([], t)); [done..|].
  apply scan_scanned; [done|lia].
Qed.
End TokenPattern.

Lemma no_match_prefix r t u : plain r = true → no_match r (t ++ u) → no_match r t.
Proof.
  intros Hr Hn p q <- Hl. pose proof (match_word _ _ _ Hl) as (a & b & E).
  apply (plain_local _ _ _ Hr) in Hl. apply (Hn (rev a, consumed p q ++ b ++ u)) in Hl; [done|].
  unfold full_text at 1. cbn. rewrite rev_involutive, E, <- !(assoc_L (++)). done.
Qed.

(** ** A capture at the front of a pattern *)

Lemma front_capture n a b p s :
  wf (Seq (Group n a) b) = true → group_free b = true → match_at (Seq (Group n a) b) p = Some s →
  ∃ u v, consumed p (here s) = u ++ v ∧ capture (caps s) n = u ∧ lang a p (rev u ++ p.1, v ++ (here s).2).
Proof.
  cbn [wf]. intros Hw Hb Hm. bools. unfold match_at in Hm. cbn [rm] in Hm.
  apply rm_correct in Hm as (s1 & Ha & _ & Hm); [|done]. cbn [here] in Ha.
  apply rm_correct in Hm as (s2 & Hb' & Hc & Hm); [|done]. injection Hm as ->. specialize (Hc Hb).
  pose proof (lang_forward _ _ _ Ha) as Fa. pose proof (lang_forward _ _ _ Hb') as Fb.
  exists (consumed p (here s1)), (consumed (here s1) (here s)). split_and!.
  - by apply forward_split.
  - rewrite Hc. unfold capture. cbn. by rewrite Nat.eqb_refl.
  - apply forward_move in Fa as [_ Fa]. apply forward_consumed in Fb as [Fb _]. cbn in Fb.
    rewrite <- Fb, <- Fa. done.
Qed.

(** ** Patterns of characters at the end of a text *)

Lemma rep_greedy_all p cs k x : ∀ l fuel min b,
  Forall (λ c, p c = true) l → min ≤ length l → length l < fuel →
  k (mkSt (rev l ++ b, []) cs) = Some x →
  rep (rm (Chr p)) true fuel min None (mkSt (b, l) cs) k = Some x.
Proof.
  induction l as [|c l IH]; intros fuel min b Hl Hmin Hfuel Hk.
  - destruct fuel; [cbn in *; lia|]. destruct min; [|cbn in *; lia]. by cbn.
  - destruct fuel as [|fuel]; [cbn in *; lia|]. apply Forall_cons in Hl as [Hc Hl].
    assert (Hb : ∀ k', rm (Chr p) (mkSt (b, c :: l) cs) k' = k' (mkSt (c :: b, l) cs)) by (intros; cbn; by rewrite Hc).
    cbn [List.length] in *. cbn [rep]. rewrite Hb. cbn [here snd fmap option_fmap option_map List.length].
    rewrite (proj2 (Nat.eqb_neq (length l) (S (length l)))) by lia. rewrite andb_false_r.
    assert (Hr : rep (rm (Chr p)) true fuel (pred min) None (mkSt (c :: b, l) cs) k = Some x).
    { apply IH; [done|lia|lia|]. cbn [rev] in Hk. by rewrite <- (assoc_L (++)) in Hk. }
    rewrite Hr. by destruct min.
Qed.

Lemma lang_chr_here p c b a : p c = true → lang (Chr p) (b, c :: a) (c :: b, a).
Proof. intros Hc. by exists b, c, a. Qed.

Lemma turns_chars p l b a : Forall (λ c, p c = true) l →
  turns (lang (Chr p)) (length l) (b, l ++ a) (rev l ++ b, a).
Proof.
  intros Hl. revert b. induction Hl as [|c l Hc _ IH]; intros b; [done|].
  cbn [List.length turns app rev]. exists (c :: b, l ++ a). split; [by apply lang_chr_here|].
  rewrite <- (assoc_L (++)). apply IH.
Qed.

Lemma lang_lit_here s b a : lang (lit s) (b, chars s ++ a) (rev (chars s) ++ b, a).
Proof.
  unfold lit. generalize (chars s) as l. intros l. revert b. induction l as [|c l IH]; intros b; [done|].
  cbn [fold_right lang app rev]. exists (c :: b, l ++ a). split; [apply lang_chr_here, Ascii.eqb_refl|].
  rewrite <- (assoc_L (++)). apply IH.
Qed.
