(* ===== verification/Redact.v ===== *)
(** * Redaction

    src/lib/security/redact.ts: the redaction of texts, of errors and of values for the
    log.  The replacement of URLs, which needs the URL parser, is a parameter ([url_tokens]
    of [redact]); everything else is of the sources, pattern by pattern. *)

From stdpp Require Import fin_sets.
From S2P Require Import Prelude Json Regex Secrets.

(** ** The steps of a redaction

    A pattern and its replacement. *)
Definition replacement : Type := list ascii → list (nat * list ascii) → list ascii.
Definition step : Type := regex * replacement.
Definition run_steps (steps : list step) (text : list ascii) : list ascii :=
  fold_left (λ result '(pattern, f), replace_all pattern f result) steps text.
Definition REDACTED : string := "<REDACTED>".
Definition all_to (x : string) (patterns : list regex) : list step := map (λ p, (p, constantly x)) patterns.
(** ["$1<x>"] and ["$1$2<x>"], [x] closed by a text or by the second group. *)
Definition after_first (x : string) : replacement := λ _ cs, capture cs 1 ++ chars x.
Definition after_second (x : string) : replacement := λ _ cs, capture cs 1 ++ capture cs 2 ++ chars x.
Definition between_first_second (x : string) : replacement := λ _ cs, capture cs 1 ++ chars x ++ capture cs 2.

Definition messaging_credential_env_keys : list string :=
  ["TELEGRAM_BOT_TOKEN"; "DISCORD_BOT_TOKEN"; "WECHAT_BOT_TOKEN"; "SLACK_BOT_TOKEN"; "SLACK_APP_TOKEN";
   "MSTEAMS_APP_PASSWORD"].
Definition SENSITIVE_ENV_ASSIGNMENT_KEYS : list string :=
  ["NVIDIA_INFERENCE_API_KEY"; "NVIDIA_API_KEY"; "NEMOCLAW_PROVIDER_KEY"; "NOUS_API_KEY"; "OPENAI_API_KEY";
   "OPENROUTER_API_KEY"; "ANTHROPIC_API_KEY"; "GEMINI_API_KEY"; "COMPATIBLE_API_KEY";
   "COMPATIBLE_ANTHROPIC_API_KEY"; "BRAVE_API_KEY"; "TAVILY_API_KEY"] ++ messaging_credential_env_keys.
Definition SENSITIVE_ENV_ASSIGNMENT_PATTERN : regex :=
  seqs [Group 1 (alts (map lit_i SENSITIVE_ENV_ASSIGNMENT_KEYS)); lit "=";
        some_of (Chr (λ c, negb (is_space c)))].

(** ** Partial redaction *)

Definition redactMatch : replacement :=
  λ m _, take 4 m ++ repeat "*"%char (Z.to_nat (Z.min (Z.of_nat (List.length m) - 4) 20)).

Definition scheme_char (c : ascii) : bool := is_alnum c || one_of "+.-" c.
Definition URL_TOKEN_PATTERN : regex :=
  seqs [Chr is_alpha; many (Chr scheme_char); lit "://"; some_of (Chr value_char)].

Definition redact (url_token : list ascii → list ascii) (str : string) : string :=
  let out := replace_all URL_TOKEN_PATTERN (λ m _, url_token m) (chars str) in
  of_chars (run_steps (map (λ p, (p, redactMatch)) SECRET_PATTERNS) out).

(** [GetSubstitution] of a replacement text without captures: [$$], [$&], [$`] and [$'] are
    a dollar, the match, what precedes it and what follows it. *)
Fixpoint substitute (template matched before after : list ascii) : list ascii :=
  match template with
  | "$"%char :: ((d :: template') as rest) =>
      if Ascii.eqb d "$" then d :: substitute template' matched before after
      else if Ascii.eqb d "&" then matched ++ substitute template' matched before after
      else if Ascii.eqb d "`" then before ++ substitute template' matched before after
      else if Ascii.eqb d "'" then after ++ substitute template' matched before after
      else "$"%char :: substitute rest matched before after
  | c :: template' => c :: substitute template' matched before after
  | [] => []
  end.

(** [s.replaceAll(old, template)] of a text [old], not empty; [before] is reversed.  The
    occurrences are looked for from the left and do not overlap. *)
Fixpoint replace_text (fuel : nat) (old template before after : list ascii) : list ascii :=
  match fuel with
  | 0 => after
  | S fuel =>
      if bool_decide (take (List.length old) after = old) then
        let rest := drop (List.length old) after in
        substitute template old (rev before) rest ++ replace_text fuel old template (rev old ++ before) rest
      else match after with
           | [] => []
           | c :: after' => c :: replace_text fuel old template (c :: before) after'
           end
  end.
Definition replaceAll (s old template : string) : string :=
  of_chars (replace_text (S (String.length s)) (chars old) (chars template) [] (chars s)).

(** The redactor may be any; the fields are assigned in place. *)
Definition redact_field (redactor : string → string) (e : list (string * json)) (key : string)
    : list (string * json) :=
  match jget e key with JStr s => set_prop e key (JStr (redactor s)) | _ => e end.
Definition redactErrorWith (redactor : string → string) (err : json) : json :=
  match err with
  | JObj e =>
      let originalMessage := match jget e "message" with JStr s => s | _ => "" end in
      let e := fold_left (redact_field redactor) ["message"; "cmd"; "stdout"; "stderr"] e in
      let e := match jget e "output" with
               | JArr output => set_prop e "output"
                   (JArr (map (λ v, match v with JStr s => JStr (redactor s) | _ => v end) output))
               | _ => e
               end in
      let e := match jget e "stack", jget e "message" with
               | JStr stack, JStr message =>
                   if truthy originalMessage then set_prop e "stack" (JStr (replaceAll stack originalMessage message))
                   else e
               | _, _ => e
               end in
      JObj e
  | _ => err
  end.
Definition redactError (url_token : list ascii → list ascii) : json → json := redactErrorWith (redact url_token).

(** The writes of a result's redacted output, by file descriptor. *)
Inductive stdio_options : Type :=
| Inherit
| Streams (kinds : list string)
| OtherStdio.
Definition writeRedactedResult (url_token : list ascii → list ascii)
    (result : option (option string * option string)) (stdio : stdio_options) : list (nat * string) :=
  match result, stdio with
  | Some (stdout, stderr), Streams kinds =>
      let out fd text := match kinds !! fd, text with
                         | Some kind, Some t => if (kind =s "pipe") && truthy t then [(fd, redact url_token t)] else []
                         | _, _ => []
                         end in
      out 1 stdout ++ out 2 stderr
  | _, _ => []
  end.

(** ** Full redaction *)

(** [[^\r\n]] and [.]; [\S]; the two quotes. *)
Definition line_char (c : ascii) : bool := negb (code c =? 10)%N && negb (code c =? 13)%N.
Definition not_space (c : ascii) : bool := negb (is_space c).
Definition cr : regex := Chr (λ c, (code c =? 13)%N).
Definition lf : regex := Chr (λ c, (code c =? 10)%N).
Definition blanks : regex := many (Chr is_blank).
Definition separator : regex := Chr (one_of ":=").
Definition authorization_names : list regex := [lit_i "authorization"; lit_i "proxy-authorization"].
Definition cookie_names : list regex := [lit_i "cookie"; lit_i "set-cookie"].
Definition header_names : regex := alts (authorization_names ++ cookie_names).
Definition basic_bearer : list regex := [lit_i "basic"; lit_i "bearer"].
Definition basic_bearer_digest : list regex := basic_bearer ++ [lit_i "digest"].
(** [(?:\\.|[^q\\])*]. *)
Definition quoted_text (q : ascii) : regex :=
  many (Alt (seqs [lit "\"; Chr line_char]) (Chr (λ c, negb (Ascii.eqb c q) && negb (Ascii.eqb c "\")))).

Definition quoted_header (q : ascii) : step :=
  (seqs [Group 1 (seqs [Chr (Ascii.eqb q); header_names; Chr (Ascii.eqb q); many (Chr is_space); lit ":";
                        many (Chr is_space); Chr (Ascii.eqb q)]);
         Group 2 (maybe (seqs [alts basic_bearer_digest; some_of (Chr is_space)]));
         quoted_text q; Chr (Ascii.eqb q)],
   after_second (REDACTED +:+ String q EmptyString)).
Definition unquoted_value_header (q : ascii) : step :=
  (seqs [Group 1 (seqs [Chr (Ascii.eqb q); header_names; Chr (Ascii.eqb q); blanks; separator]);
         NotAhead (seqs [blanks; Chr (Ascii.eqb q); quoted_text q; Chr (Ascii.eqb q)]); many (Chr line_char)],
   after_first (" " +:+ REDACTED)).

Definition header_steps : list step :=
  [quoted_header dq; quoted_header "'"; unquoted_value_header dq; unquoted_value_header "'";
   (seqs [Group 1 (seqs [WordB; header_names; blanks; separator]); many (Chr line_char); cr; NotAhead lf;
          many (Chr line_char)],
    after_first (" " +:+ REDACTED));
   (seqs [Group 1 (seqs [WordB; header_names; blanks; separator]); many (Chr line_char);
          some_of (seqs [maybe cr; lf; some_of (Chr is_blank); many (Chr line_char)])],
    after_first (" " +:+ REDACTED));
   (seqs [Group 1 (seqs [WordB; alts authorization_names; blanks; separator; blanks; alts basic_bearer;
                         some_of (Chr is_blank)]); some_of (Chr not_space)],
    after_first REDACTED);
   (seqs [Group 1 (seqs [WordB; alts authorization_names; blanks; separator; blanks; lit_i "digest";
                         some_of (Chr is_blank)]); many (Chr line_char)],
    after_first REDACTED);
   (seqs [Group 1 (seqs [WordB; alts authorization_names; blanks; separator]);
          NotAhead (seqs [blanks; alts basic_bearer_digest; Alt (Chr is_blank) Eol]); blanks;
          many (Chr line_char)],
    after_first (" " +:+ REDACTED));
   (seqs [Group 1 (seqs [WordB; alts cookie_names; blanks; separator; blanks]); many (Chr line_char)],
    after_first REDACTED)].

Definition named_value (name : regex) : step :=
  (seqs [Group 1 (seqs [name_start; name; named_sep]); some_of (Chr value_char); Group 2 (maybe quote)],
   between_first_second REDACTED).

Definition bearer_step : step :=
  (Seq (Group 1 (lit_i "Bearer ")) (some_of (Chr not_space)), after_first REDACTED).
Definition bot_step (x : string) : step :=
  (seqs [lit "/bot"; some_of (Chr (λ c, negb (Ascii.eqb c "/") && not_space c)); lit "/"],
   constantly ("/bot" +:+ x +:+ "/")).

Definition FULL_REDACT_PATTERNS : list step :=
  all_to REDACTED SECRET_BLOCK_PATTERNS
  ++ header_steps
  ++ [named_value screaming; named_value camel; named_value (lit "KEY")]
  ++ all_to REDACTED TOKEN_PREFIX_PATTERNS
  ++ all_to REDACTED STRUCTURED_TOKEN_PATTERNS
  ++ [bearer_step; bot_step REDACTED].

Definition redactFull (text : string) : string := of_chars (run_steps FULL_REDACT_PATTERNS (chars text)).

(** The replacements of the callers hold no [$]. *)
Definition redactStandaloneSecrets (text replacement : string) : string :=
  of_chars (run_steps
    (all_to replacement (TOKEN_PREFIX_PATTERNS ++ STRUCTURED_TOKEN_PATTERNS ++ SECRET_BLOCK_PATTERNS)
     ++ [bot_step replacement]) (chars text)).
Definition redactStandaloneSecretsFull (text : string) : string := redactStandaloneSecrets text REDACTED.

(** ** Sensitive text *)

Definition sensitive_steps : list step :=
  [(SENSITIVE_ENV_ASSIGNMENT_PATTERN, after_first ("=" +:+ REDACTED));
   (seqs [lit_i "Bearer"; some_of (Chr is_space); some_of (Chr not_space)], constantly ("Bearer " +:+ REDACTED))]
  ++ all_to REDACTED (SECRET_BLOCK_PATTERNS ++ CONTEXT_PATTERNS ++ TOKEN_PREFIX_PATTERNS ++ STRUCTURED_TOKEN_PATTERNS).
Definition redactSensitiveText (value : json) : option string :=
  match value with
  | JStr s => Some (of_chars (take 240 (run_steps sensitive_steps (chars s))))
  | _ => None
  end.

(** The assignments are looked for before the tokens, so a name that a token hides is found
    only when the text is redacted again. *)
Example sensitive_text_again :
  redactSensitiveText (JStr "AKIA0123456789ABCDEFTOKEN=abcdefghijkl") = Some "<REDACTED>TOKEN=abcdefghijkl"
  ∧ redactSensitiveText (JStr "<REDACTED>TOKEN=abcdefghijkl") = Some "<REDACTED>TOKEN=<REDACTED>".
Proof. split; vm_compute; reflexivity. Qed.

Example texts_redacted :
  map redactFull ["Authorization: Bearer abc"; "GITHUB_TOKEN=abc /bot123:xy/send nvapi-0123456789012"; "cookie: a=b; c=d"]
  = ["Authorization: Bearer <REDACTED>"; "GITHUB_TOKEN=<REDACTED> /bot<REDACTED>/send <REDACTED>"; "cookie: <REDACTED>"].
Proof. vm_compute. reflexivity. Qed.

(** ** Values for the log *)

Definition SENSITIVE_KEY_WORDS : list string :=
  ["apikey"; "auth"; "authorization"; "bearer"; "cookie"; "credential"; "credentials"; "password"; "secret"; "token"].

(** The non-empty words of a key: runs of anything else are one space, then split. *)
Definition key_words (key : string) : list string :=
  let spaced := js_replace acronym_end (between_groups " ") key in
  let spaced := js_replace hump (between_groups " ") spaced in
  let spaced := js_replace (some_of (Chr (λ c, negb (is_lower c || is_digit c)))) (constantly " ") (js_lower spaced) in
  List.filter truthy (js_split " " spaced).
Definition isSensitiveKey (key : string) : bool :=
  if isCredentialField key then true
  else let words := key_words key in
       existsb (includes SENSITIVE_KEY_WORDS) words || (includes words "api" && includes words "key").

Definition credentialFlagKey (value : json) : option string :=
  match value with
  | JStr s => match cliFlagName (js_trim s) with
              | Some flag => if isSensitiveKey flag then Some flag else None
              | None => None
              end
  | _ => None
  end.

Definition plural (w : string) : regex := plural_i w.
Definition filler : regex := many (Chr (one_of " _-")).
Definition CREDENTIAL_CONTEXT_LABEL_PATTERN : regex :=
  seqs [Bol;
        alts [plural "token"; plural "secret"; plural "password"; plural "passphrase"; plural "credential";
              lit_i "auth"; lit_i "authorization"; lit_i "bearer"; plural "cookie";
              seqs [lit_i "set"; filler; lit_i "cookie"];
              seqs [lit_i "proxy"; filler; alts [lit_i "auth"; lit_i "authorization"]];
              seqs [alts (map lit_i ["api"; "access"; "refresh"; "client"; "bearer"; "auth"; "private"; "signing";
                                     "session"; "bot"; "app"; "resolved"]);
                    filler; alts [plural "token"; plural "key"; plural "secret"; plural "password"]]];
        Eol].

Definition credentialContextKey (value : json) : option string :=
  match value with
  | JStr s =>
      let candidate := js_trim (js_replace (seqs [separator; Eol]) (constantly "") (js_trim s)) in
      let label :=
        if truthy candidate && (isCredentialField candidate || test CREDENTIAL_CONTEXT_LABEL_PATTERN candidate)
        then Some candidate else None in
      match credentialFlagKey value with
      | Some flag => if truthy flag then Some flag else label
      | None => label
      end
  | _ => None
  end.

(** The elements of a list with the element before each. *)
Definition with_previous {A} (l : list A) : list (option A * A) := zip (None :: map Some l) l.

Definition redactLogSequence (values : list json) : list json :=
  map (λ '(previous, value),
    match previous with
    | Some p => if credentialContextKey p then JStr REDACTED else value
    | None => value
    end) (with_previous values).

Definition inline_credential : regex :=
  seqs [Bol; Group 1 (seqs [lit "-"; maybe (lit "-")]);
        Group 2 (seqs [Chr is_alnum; many (Chr (λ c, is_alnum c || one_of "._-" c))]); lit "=";
        Group 3 (many (Chr any_char)); Eol].
Definition redactInlineCredentialFlag (value : string) : string :=
  match match_at inline_credential ([], chars value) with
  | Some s => if isSensitiveKey (of_chars (capture (caps s) 2))
              then of_chars (capture (caps s) 1 ++ capture (caps s) 2 ++ chars ("=" +:+ REDACTED))
              else redactFull value
  | None => redactFull value
  end.

(** The values to be logged share objects and may be cyclic: an object is a location of
    the store, and [seen] is the set of the locations visited. *)
Inductive log_value : Type :=
| VLeaf (v : json)
| VRef (l : nat).
Inductive log_object : Type :=
| LArr (l : list log_value)
| LObj (o : list (string * log_value)).
Definition log_store : Type := gmap nat log_object.

Definition leaf_of (v : log_value) : json := match v with VLeaf v => v | VRef _ => JObj [] end.

(** [l.map(f)] with a state. *)
Fixpoint map_state {A B S} (f : A → S → option (B * S)) (l : list A) (s : S) : option (list B * S) :=
  match l with
  | [] => Some ([], s)
  | x :: l' =>
      match f x s with
      | None => None
      | Some (y, s1) => match map_state f l' s1 with None => None | Some (ys, s2) => Some (y :: ys, s2) end
      end
  end.

(** A leaf is a string, or neither a string nor an object; with no fuel the result is none. *)
Fixpoint redact_for_log (store : log_store) (fuel : nat) (value : log_value) (seen : gset nat)
    : option (json * gset nat) :=
  match value with
  | VLeaf (JStr s) => Some (JStr (redactInlineCredentialFlag s), seen)
  | VLeaf v => Some (v, seen)
  | VRef l =>
      match fuel with
      | 0 => None
      | S fuel =>
          if decide (l ∈ seen) then Some (JStr "[Circular]", seen)
          else
            let seen := {[l]} ∪ seen in
            match store !! l with
            | None => None
            | Some (LArr es) =>
                match map_state (λ '(previous, entry) seen,
                        if match previous with Some p => credentialFlagKey (leaf_of p) | None => None end
                        then Some (JStr REDACTED, seen)
                        else redact_for_log store fuel entry seen) (with_previous es) seen with
                | Some (vs, seen) => Some (JArr vs, seen)
                | None => None
                end
            | Some (LObj o) =>
                match map_state (λ '(key, entry) seen,
                        if isSensitiveKey key then Some ((key, JStr REDACTED), seen)
                        else match redact_for_log store fuel entry seen with
                             | Some (v, seen) => Some ((key, v), seen)
                             | None => None
                             end) o seen with
                | Some (vs, seen) => Some (JObj vs, seen)
                | None => None
                end
            end
      end
  end.

(** Every visit of a new object takes one from the objects left, so the number of
    objects is fuel enough ([redact_for_log_total]). *)
Definition redactForLog (store : log_store) (value : log_value) : option json :=
  fst <$> redact_for_log store (S (size store)) value ∅.

(** ** No token is left

    The tokens of the fifteen providers' patterns that have no assertion: a prefix and at
    least so many characters, nine or more in all, one more than [REDACTED] has.  The other
    patterns, of Telegram's and of Discord's tokens and of JWTs, begin and end with a word
    boundary. *)
#[local] Notation length := List.length.
#[local] Notation marks := (marks token_char 9).
#[local] Notation mark := (mark token_char 9).

Definition prefixed (prefix : string) (n : nat) (c : ascii → bool) : regex := seqs [lit prefix; at_least n (Chr c)].
Definition plain_tokens : list regex :=
  [prefixed "nvapi-" 10 token_char; prefixed "nvcf-" 10 token_char;                          (* NVIDIA *)
   prefixed "ghp_" 10 token_char; prefixed "github_pat_" 30 is_word;                         (* GitHub *)
   prefixed "sk-proj-" 10 token_char; prefixed "sk-ant-" 10 token_char; prefixed "sk-" 20 token_char;
   seqs [Alt (seqs [lit "xox"; Chr (one_of "bpas")]) (lit "xapp"); lit "-"; at_least 10 (Chr dash_char)];
   seqs [lit "A"; Alt (lit "K") (lit "S"); lit "IA"; exactly 16 (Chr upper_digit)];          (* AWS *)
   prefixed "hf_" 10 is_alnum; prefixed "glpat-" 10 token_char; prefixed "gsk_" 10 is_alnum;
   prefixed "pypi-" 10 token_char; prefixed "tvly-" 10 token_char;
   seqs [lit "lsv2_"; Alt (lit "pt") (lit "sk"); lit "_"; at_least 10 (Chr is_alnum);
         many (seqs [lit "_"; some_of (Chr is_alnum)])]].
Definition telegram_token : regex :=
  seqs [WordB; between 8 10 (Chr is_digit); lit ":"; exactly 35 (Chr token_char); WordB].
Definition discord_token : regex :=
  seqs [WordB; exactly 24 (Chr is_alnum); lit "."; exactly 6 (Chr token_char); lit ".";
        at_least 27 (Chr token_char); WordB].

Lemma plain_token r : r ∈ plain_tokens → r ∈ TOKEN_PREFIX_PATTERNS ∧ token_pattern token_char 9 r = true.
Proof.
  assert (H : forallb (token_pattern token_char 9) plain_tokens = true) by (vm_compute; reflexivity).
  rewrite forallb_forall in H. intros Hr. split; [|by apply H, list_elem_of_In]. clear H.
  repeat (apply elem_of_cons in Hr as [->|Hr]; [apply list_elem_of_In; cbn; tauto|]). by apply elem_of_nil in Hr.
Qed.

Lemma telegram_not_plain : telegram_token ∉ plain_tokens.
Proof. intros Hr%plain_token%proj2. by vm_compute in Hr. Qed.

(** A text between two characters outside the alphabet, too short for a token or without
    its characters. *)
Lemma mark_short c y d :
  token_char c = false → token_char d = false → length y < 9 → mark (c :: y ++ [d]).
Proof.
  intros Hc Hd Hy. exists c, y, d. split_and!; [done..|]. intros w [_ Hw] (u & v & ->).
  rewrite !length_app in Hy. lia.
Qed.

Lemma mark_foreign c y d :
  token_char c = false → token_char d = false → Forall (λ c, token_char c = false) y → mark (c :: y ++ [d]).
Proof.
  intros Hc Hd Hy. exists c, y, d. split_and!; [done..|]. intros w [Hl Hw] (u & v & ->).
  destruct w as [|e w]; [cbn in Hw; lia|]. apply Forall_cons in Hl as [He _].
  apply Forall_app in Hy as [_ Hy]. apply Forall_cons in Hy as [Hy _]. congruence.
Qed.

Lemma mark_redacted : mark (chars REDACTED).
Proof. by apply (mark_short "<" (chars "REDACTED") ">"); [..|cbn; lia]. Qed.

Lemma marks_redacted r : marks r (constantly REDACTED).
Proof.
  intros p s _. exists [], (chars REDACTED), [], (consumed p (here s)).
  by rewrite !app_nil_r; split_and!; [|apply mark_redacted|].
Qed.

Lemma replicate_snoc {A} n (x : A) : repeat x (S n) = repeat x n ++ [x].
Proof. induction n as [|n IH]; [done|]. cbn [repeat app]. f_equal. exact IH. Qed.

Lemma mark_stars n : mark (repeat "*"%char (S (S n))).
Proof.
  cbn [repeat]. change ("*"%char :: repeat "*"%char n) with (repeat "*"%char (S n)). rewrite replicate_snoc.
  apply mark_foreign; [done..|]. induction n; cbn [repeat]; by constructor.
Qed.

(** Every match of a secret pattern has at least nine characters, so the number of stars is
    positive, and the first four characters stand before a mark. *)
Lemma secret_length r p q : r ∈ SECRET_PATTERNS → lang r p q → 9 ≤ length (consumed p q).
Proof.
  assert (H : forallb (λ r, 9 <=? min_len r) SECRET_PATTERNS = true) by (vm_compute; reflexivity).
  rewrite forallb_forall in H. intros Hr%list_elem_of_In Hl%lang_min_len. apply H, Nat.leb_le in Hr. lia.
Qed.

Lemma secret_wf r : r ∈ SECRET_PATTERNS → wf r = true.
Proof.
  assert (H : forallb wf SECRET_PATTERNS = true) by (vm_compute; reflexivity).
  rewrite forallb_forall in H. intros Hr%list_elem_of_In. by apply H.
Qed.

Lemma redactMatch_mark r p s : r ∈ SECRET_PATTERNS → match_at r p = Some s →
  ∃ x, redactMatch (consumed p (here s)) (caps s) = take 4 (consumed p (here s)) ++ x ∧ mark x
       ∧ length (take 4 (consumed p (here s))) = 4.
Proof.
  intros Hr Hm. apply match_at_lang in Hm; [|by apply secret_wf]. apply secret_length in Hm; [|done].
  eexists. split; [done|]. split; [|rewrite length_take; lia].
  remember (Z.to_nat _) as n eqn:En. destruct n as [|[|n]]; [lia..|]. apply mark_stars.
Qed.

(** The steps of a redaction that take a token away, and those that bring none. *)
Definition takes (r : regex) (s : step) : Prop := s.1 = r ∧ own_marks token_char 9 r s.2.
Definition brings_none (s : step) : Prop := wf s.1 = true ∧ marks s.1 s.2.

Lemma run_steps_app s1 s2 t : run_steps (s1 ++ s2) t = run_steps s2 (run_steps s1 t).
Proof. apply fold_left_app. Qed.

Lemma run_keeps r steps t :
  token_pattern token_char 9 r = true → Forall brings_none steps → no_match r t → no_match r (run_steps steps t).
Proof.
  intros Hr Hs. revert t. induction Hs as [|[p f] steps [Hw Hm] _ IH]; intros t Ht; [done|].
  apply IH. by apply (replace_keeps_no_match token_char 9 r Hr).
Qed.

Lemma run_takes r before own after t :
  token_pattern token_char 9 r = true → takes r own → Forall brings_none after →
  no_match r (run_steps (before ++ own :: after) t).
Proof.
  intros Hr [Ho Hm] Ha. rewrite run_steps_app. destruct own as [p f]. cbn in Ho, Hm. subst p.
  apply (run_keeps r after); [done..|]. apply (replace_own_no_match token_char 9 r Hr f Hm). lia.
Qed.

(** A list of patterns, each with a replacement that takes its own matches away. *)
Lemma run_patterns r before patterns (f : replacement) after t :
  token_pattern token_char 9 r = true → r ∈ patterns → own_marks token_char 9 r f →
  Forall (λ p, wf p = true ∧ marks p f) patterns → Forall brings_none after →
  no_match r (run_steps (before ++ map (λ p, (p, f)) patterns ++ after) t).
Proof.
  intros Hr Hin Ho Hp Ha. apply list_elem_of_split in Hin as (l1 & l2 & ->).
  rewrite map_app, map_cons, <- (assoc_L (++)), (assoc_L (++) before), <- app_comm_cons.
  apply run_takes; [done..|]. apply Forall_app. split; [|done].
  apply Forall_app in Hp as [_ Hp]. apply Forall_cons in Hp as [_ Hp]. by apply Forall_fmap.
Qed.

Lemma redacted_patterns patterns : forallb wf patterns = true →
  Forall (λ p, wf p = true ∧ marks p (constantly REDACTED)) patterns.
Proof.
  rewrite forallb_forall. intros H. apply Forall_forall. intros p Hp%list_elem_of_In.
  split; [by apply H|apply marks_redacted].
Qed.

Lemma redacted_none patterns : forallb wf patterns = true → Forall brings_none (all_to REDACTED patterns).
Proof. intros H. apply Forall_fmap. by apply redacted_patterns. Qed.

Lemma redacted_own r : own_marks token_char 9 r (constantly REDACTED).
Proof. apply (own_marks_constantly token_char 9 r); [apply mark_redacted|lia]. Qed.

(** What a literal matches. *)
Lemma lang_lit s p q : lang (lit s) p q → consumed p q = chars s.
Proof.
  unfold lit. generalize (chars s) as l. intros l. revert p. induction l as [|c l IH]; intros p; cbn [fold_right lang].
  - intros ->. apply consumed_same.
  - intros (m & Hc & Hl). rewrite (forward_split p m q).
    + rewrite (IH m Hl). destruct Hc as (b & d & a & -> & Hd & ->). apply Ascii.eqb_eq in Hd as <-.
      unfold consumed. cbn [snd]. replace (_ - _) with 1 by (cbn [List.length]; lia). done.
    + destruct Hc as (b & d & a & -> & _ & ->). by exists [d].
    + by apply (lang_forward (fold_right (λ c r, Seq (Chr (Ascii.eqb c)) r) Eps l)).
Qed.

Lemma bearer_none : brings_none bearer_step.
Proof.
  split; [done|]. intros p s Hm. apply front_capture in Hm as (u & v & Ec & Hu & _); [|done..].
  exists u, (chars REDACTED), [], v. rewrite !app_nil_r. split_and!; [|apply mark_redacted|done].
  cbn [snd bearer_step]. unfold after_first. by rewrite Hu.
Qed.

Lemma lang_seqs_split a b p q : lang (Seq a b) p q →
  ∃ m, lang a p m ∧ lang b m q ∧ consumed p q = consumed p m ++ consumed m q.
Proof.
  intros (m & Ha & Hb). exists m. split_and!; [done..|].
  apply forward_split; by eapply lang_forward.
Qed.

Lemma bot_none x : mark (chars x) → brings_none (bot_step x).
Proof.
  intros Hx. split; [done|]. intros p s Hm. apply match_at_lang in Hm; [|done].
  unfold bot_step in Hm. cbn [fst seqs fold_right] in Hm.
  apply lang_seqs_split in Hm as (m1 & H1 & Hm & E1). apply lang_seqs_split in Hm as (m2 & H2 & Hm & E2).
  destruct Hm as (m3 & H3 & Hm). cbn [lang] in Hm. subst m3.
  apply lang_lit in H1, H3. rewrite H1 in E1. rewrite H3 in E2.
  exists (chars "/bot"), (chars x), ["/"%char], (consumed m1 m2).
  split_and!; [|done|by rewrite E1, E2]. cbn [snd bot_step]. unfold constantly. by rewrite !chars_app.
Qed.

Lemma structured_wf : forallb wf STRUCTURED_TOKEN_PATTERNS = true.
Proof. vm_compute. reflexivity. Qed.
Lemma block_wf : forallb wf SECRET_BLOCK_PATTERNS = true.
Proof. vm_compute. reflexivity. Qed.
Lemma token_wf : forallb wf TOKEN_PREFIX_PATTERNS = true.
Proof. vm_compute. reflexivity. Qed.

Section Token.
Context (r : regex).
Hypothesis token : r ∈ plain_tokens.

Lemma full_no_token t : no_match r (run_steps FULL_REDACT_PATTERNS t).
Proof using token.
  destruct (plain_token r token) as [Hin Hr]. unfold FULL_REDACT_PATTERNS.
  rewrite !(assoc_L (++)). rewrite <- (assoc_L (++) _ (all_to REDACTED STRUCTURED_TOKEN_PATTERNS)).
  rewrite <- (assoc_L (++)). apply run_patterns; [done..|apply redacted_own|apply redacted_patterns, token_wf|].
  apply Forall_app. split; [apply redacted_none, structured_wf|].
  constructor; [apply bearer_none|]. constructor; [apply bot_none, mark_redacted|constructor].
Qed.

Lemma standalone_no_token t : no_match r (run_steps
  (all_to REDACTED (TOKEN_PREFIX_PATTERNS ++ STRUCTURED_TOKEN_PATTERNS ++ SECRET_BLOCK_PATTERNS)
   ++ [bot_step REDACTED]) t).
Proof using token.
  destruct (plain_token r token) as [Hin Hr]. apply (run_patterns r []); [done| |apply redacted_own| |].
  - apply elem_of_app. by left.
  - apply redacted_patterns. by rewrite !forallb_app, token_wf, structured_wf, block_wf.
  - constructor; [apply bot_none, mark_redacted|constructor].
Qed.

Lemma sensitive_no_token t : no_match r (run_steps sensitive_steps t).
Proof using token.
  destruct (plain_token r token) as [Hin Hr]. unfold sensitive_steps, all_to. rewrite !map_app, !(assoc_L (++)).
  rewrite <- (assoc_L (++)). apply run_patterns; [done..|apply redacted_own|apply redacted_patterns, token_wf|].
  apply redacted_none, structured_wf.
Qed.

Lemma secret_own p : p ∈ SECRET_PATTERNS → own_marks token_char 9 p redactMatch.
Proof using.
  intros Hp q s Hm. destruct (redactMatch_mark p q s Hp Hm) as (x & Ex & Hx & Hl).
  exists (take 4 (consumed q (here s))), x, (drop 4 (consumed q (here s))).
  split_and!; [done..|by rewrite take_drop|lia].
Qed.

Lemma secret_marks p : p ∈ SECRET_PATTERNS → wf p = true ∧ marks p redactMatch.
Proof using.
  intros Hp. split; [by apply secret_wf|]. intros q s Hm. destruct (secret_own p Hp q s Hm) as (a & x & m & Ef & Hx & Ec & _).
  exists a, x, [], m. by rewrite !app_nil_r.
Qed.

Lemma redact_no_token url_token t :
  no_match r (run_steps (map (λ p, (p, redactMatch)) SECRET_PATTERNS) (replace_all URL_TOKEN_PATTERN url_token t)).
Proof using token.
  destruct (plain_token r token) as [Hin Hr].
  assert (Hs : r ∈ SECRET_PATTERNS) by (unfold SECRET_PATTERNS; apply elem_of_app; by left).
  rewrite <- (app_nil_r (map _ SECRET_PATTERNS)). apply (run_patterns r []); [done..|by apply secret_own| |constructor].
  apply Forall_forall, secret_marks.
Qed.
End Token.

(** A text without the characters of a match passes a step as it is. *)
Lemma scanned_no_match r p ps : (∀ q q', full_text q = full_text p → ¬ lang r q q') → wf r = true →
  scanned r p ps → ps = map Keep p.2.
Proof.
  intros Hn Hw. induction 1 as [b H|b c a ps H Hs IH|p s ps Hm|b s Hm|b c a s ps Hm]; cbn [snd map]; [done|..].
  - f_equal. apply IH. intros q q' Eq. apply Hn. by rewrite Eq, full_text_step.
  - apply match_at_lang in Hm; [|done]. by destruct (Hn p (here s)).
  - apply match_at_lang in Hm; [|done]. by destruct (Hn (b, []) (here s)).
  - apply match_at_lang in Hm; [|done]. by destruct (Hn (b, c :: a) (here s)).
Qed.

Lemma replace_no_match r f t : wf r = true → no_match r t → replace_all r f t = t.
Proof.
  intros Hw Hn. unfold replace_all.
  rewrite (scanned_no_match r ([], t) (scan r (S (length t)) [] t)); [|exact Hn|done|apply scan_scanned; [done|lia]].
  cbn [snd]. clear Hn. induction t as [|c t IH]; [done|]. cbn [map render flat_map]. f_equal. exact IH.
Qed.

Lemma run_no_match steps t : forallb (λ s, wf s.1) steps = true →
  Forall (λ s : step, test s.1 (of_chars t) = false) steps → run_steps steps t = t.
Proof.
  intros Hw Ht. induction Ht as [|[p f] steps Hp _ IH]; [done|]. cbn in Hw. apply andb_true_iff in Hw as [Hw1 Hw2].
  cbn [run_steps fold_left]. fold (run_steps steps (replace_all p f t)). rewrite replace_no_match; [by apply IH|done|].
  intros q q' Eq Hl. apply not_true_iff_false in Hp. apply Hp. apply test_lang; [done|]. exists q, q'.
  by rewrite chars_of_chars.
Qed.

(** C5: none of the four redactions leaves a token of one of the fifteen patterns without
    word boundaries ([plain_tokens], written out above: NVIDIA, GitHub, OpenAI, Slack, AWS,
    HuggingFace, GitLab, Groq, PyPI, Tavily, LangSmith) in a text, at whatever place of
    whatever text, with whatever replacement of URLs before.  For the patterns with word
    boundaries this is not so: a Telegram token with a Tavily key right behind it has no
    boundary at its end until the key is replaced, which is later, and so it is left in the
    redacted text.  A text in which no pattern of a redaction occurs is left as it is,
    except that the sensitive text is cut to 240 characters. *)
Theorem redacted_text_no_token :
  (∀ r, r ∈ plain_tokens → ∀ text url_token,
     test r (redactFull text) = false ∧ test r (redactStandaloneSecretsFull text) = false
     ∧ test r (redact url_token text) = false
     ∧ (∀ s, redactSensitiveText (JStr text) = Some s → test r s = false))
  ∧ (∀ text, Forall (λ s : step, test s.1 text = false) FULL_REDACT_PATTERNS → redactFull text = text)
  ∧ (∀ text, Forall (λ s : step, test s.1 text = false) sensitive_steps →
       redactSensitiveText (JStr text) = Some (of_chars (take 240 (chars text))))
  ∧ (∀ text url_token, test URL_TOKEN_PATTERN text = false → Forall (λ p, test p text = false) SECRET_PATTERNS →
       redact url_token text = text)
  ∧ (let text := "12345678:ABCDEFGHIJABCDEFGHIJABCDEFGHIJABCDEtvly-0123456789" in
     telegram_token ∈ TOKEN_PREFIX_PATTERNS ∧ telegram_token ∉ plain_tokens
     ∧ redactFull text = "12345678:ABCDEFGHIJABCDEFGHIJABCDEFGHIJABCDE<REDACTED>"
     ∧ redactStandaloneSecretsFull text = redactFull text
     ∧ test telegram_token (redactFull text) = true).
Proof.
  split_and!.
  - intros r Hr text url_token. destruct (plain_token r Hr) as [_ Hp].
    pose proof (pattern_wf _ _ _ Hp) as Hw. pose proof (pattern_plain _ _ _ Hp) as Hpl.
    split_and!; [apply no_match_test, full_no_token|apply no_match_test, standalone_no_token
                |apply no_match_test, redact_no_token|]; try done.
    intros s Hs. apply (inj Some) in Hs as <-. apply no_match_test; [done|]. apply (no_match_prefix _ _ (drop 240 (run_steps sensitive_steps (chars text))));
      [done|]. rewrite take_drop. by apply sensitive_no_token.
  - intros text H. unfold redactFull. rewrite run_no_match; [apply of_chars_chars|vm_compute; reflexivity|].
    by rewrite of_chars_chars.
  - intros text H. cbn [redactSensitiveText]. do 3 f_equal. apply run_no_match; [vm_compute; reflexivity|].
    by rewrite of_chars_chars.
  - intros text url_token Hu H. unfold redact. rewrite replace_no_match; [|done|].
    2:{ intros q q' Eq Hl. apply not_true_iff_false in Hu. apply Hu. apply test_lang; [done|]. by exists q, q'. }
    rewrite run_no_match; [apply of_chars_chars| |by apply Forall_fmap; rewrite of_chars_chars].
    vm_compute. reflexivity.
  - cbv zeta. split_and!; [apply list_elem_of_In; cbn; tauto|apply telegram_not_plain|vm_compute; reflexivity..].
Qed.

(** ** A redaction leaves the text, or leaves a trace *)

Definition angle : ascii := "<".
Definition leaves_trace (s : step) : Prop := ∀ m cs, angle ∈ s.2 m cs.

Lemma render_trace f ps : (∀ m cs, angle ∈ f m cs) →
  angle ∈ render f ps ∨ ∃ l, ps = map Keep l.
Proof.
  intros Hf. induction ps as [|[c|m cs] ps [IH|[l ->]]]; cbn [render flat_map].
  - right. by exists [].
  - left. by right.
  - right. by exists (c :: l).
  - left. apply elem_of_app. by right.
  - left. apply elem_of_app. left. apply Hf.
Qed.

(** Without a hit the scan has kept the text. *)
Lemma scanned_keeps r p ps l : scanned r p ps → ps = map Keep l → p.2 = l.
Proof.
  intros Hs. revert l. induction Hs as [b H|b c a ps H Hs IH|p s ps Hm|b s Hm|b c a s ps Hm]; intros [|d l] E; try done.
  cbn in E. injection E as -> E. cbn. f_equal. by apply IH.
Qed.

Lemma replace_trace r f t : wf r = true → (∀ m cs, angle ∈ f m cs) →
  angle ∈ replace_all r f t ∨ replace_all r f t = t.
Proof.
  intros Hr Hf. unfold replace_all. destruct (render_trace f (scan r (S (length t)) [] t) Hf) as [H|[l E]]; [by left|].
  right. assert (Hl : t = l).
  { apply (scanned_keeps r ([], t) (scan r (S (length t)) [] t)); [|done]. apply scan_scanned; [done|lia]. }
  rewrite E, Hl. clear. induction l as [|c l IH]; [done|]. cbn [map render flat_map]. cbn. f_equal. exact IH.
Qed.

Lemma run_trace steps t : Forall (λ s, wf s.1 = true ∧ leaves_trace s) steps →
  angle ∈ run_steps steps t ∨ run_steps steps t = t.
Proof.
  intros Hs. revert t. induction Hs as [|[r f] steps [Hr Hf] _ IH]; intros t; [by right|].
  change (run_steps ((r, f) :: steps) t) with (run_steps steps (replace_all r f t)).
  destruct (IH (replace_all r f t)) as [H| ->]; [by left|]. by apply replace_trace.
Qed.

Lemma first_trace x : angle ∈ chars x → ∀ m cs, angle ∈ after_first x m cs.
Proof. intros Hx m cs. apply elem_of_app. by right. Qed.
Lemma second_trace x : angle ∈ chars x → ∀ m cs, angle ∈ after_second x m cs.
Proof. intros Hx m cs. apply elem_of_app. right. apply elem_of_app. by right. Qed.
Lemma named_trace m cs : angle ∈ between_first_second REDACTED m cs.
Proof. apply elem_of_app. right. apply elem_of_app. left. left. Qed.

Lemma in_chars c s : existsb (Ascii.eqb c) (chars s) = true → c ∈ chars s.
Proof.
  intros (d & Hd & E)%existsb_exists. apply Ascii.eqb_eq in E as ->. by apply list_elem_of_In.
Qed.

Lemma constant_traces patterns : forallb wf patterns = true →
  Forall (λ s, wf s.1 = true ∧ leaves_trace s) (all_to REDACTED patterns).
Proof.
  rewrite forallb_forall. intros H. apply Forall_fmap, Forall_forall. intros p Hp%list_elem_of_In.
  split; [by apply H|]. intros m cs. by apply in_chars.
Qed.

Lemma full_trace t : angle ∈ run_steps FULL_REDACT_PATTERNS t ∨ run_steps FULL_REDACT_PATTERNS t = t.
Proof.
  apply run_trace. unfold FULL_REDACT_PATTERNS, header_steps.
  repeat (apply Forall_app; split); try (apply constant_traces; vm_compute; reflexivity).
  - repeat (apply Forall_cons_2; [split; [vm_compute; reflexivity|]|]); [..|apply Forall_nil_2].
    all: intros m cs; first [apply first_trace|apply second_trace]; by apply in_chars.
  - repeat (apply Forall_cons_2; [split; [vm_compute; reflexivity|]|]); [..|apply Forall_nil_2].
    all: intros m cs; apply named_trace.
  - apply Forall_cons_2; [|apply Forall_cons_2; [|apply Forall_nil_2]].
    + split; [done|]. intros m cs. apply first_trace. by apply in_chars.
    + split; [done|]. intros m cs. by apply in_chars.
Qed.

(** ** The log *)

(** Every reference of the store is to an object of it, and a leaf is no object. *)
Definition good_value (store : log_store) (v : log_value) : Prop :=
  match v with VLeaf v => container v = false | VRef l => is_Some (store !! l) end.
Definition good_store (store : log_store) : Prop :=
  ∀ l x, store !! l = Some x →
    match x with LArr es => Forall (good_value store) es | LObj o => Forall (λ kv, good_value store kv.2) o end.

(** A string of the log: without one of [plain_tokens], or a credential flag with its value redacted. *)
Definition log_string (s : string) : Prop :=
  (∀ r, r ∈ plain_tokens → test r s = false)
  ∨ ∃ dashes flag, isSensitiveKey (of_chars flag) = true
      ∧ s = of_chars (dashes ++ flag ++ chars ("=" +:+ REDACTED)).

(** A logged value: no object has a sensitive property that is not redacted, no array an
    element after a credential flag that is not, and the strings are as above. *)
Definition log_clean (j : json) : Prop :=
  (∀ o k x, within (JObj o) j → (k, x) ∈ o → isSensitiveKey k = true → x = JStr REDACTED)
  ∧ (∀ l i p x, within (JArr l) j → l !! i = Some p → is_Some (credentialFlagKey p) → l !! S i = Some x →
       x = JStr REDACTED)
  ∧ (∀ s, within (JStr s) j → log_string s).

Lemma inline_log_string s : log_string (redactInlineCredentialFlag s).
Proof.
  unfold redactInlineCredentialFlag.
  assert (Hf : log_string (redactFull s)).
  { left. intros r Hr. apply no_match_test; [|by apply full_no_token].
    destruct (plain_token r Hr) as [_ Hp]. by apply pattern_wf in Hp. }
  destruct (match_at _ _) as [m|]; [|done]. destruct (isSensitiveKey _) eqn:E; [|done].
  right. by eexists _, _.
Qed.

Lemma flag_no_angle s : is_Some (cliFlagName s) → angle ∉ chars s.
Proof. intros H%flag_name_chars Hin. rewrite Forall_forall in H. by specialize (H _ Hin). Qed.

Lemma in_drop_while {A} (p : A → bool) (c : A) l : p c = false → c ∈ l → c ∈ drop_while p l.
Proof.
  intros Hp. induction l as [|d l IH]; [done|]. cbn [drop_while]. intros Hc.
  destruct (p d) eqn:Ed; [|done]. apply IH. apply elem_of_cons in Hc as [->|Hc]; [congruence|done].
Qed.

Lemma in_trim c s : is_space c = false → c ∈ chars s → c ∈ chars (js_trim s).
Proof.
  intros Hc Hin. unfold js_trim, drop_while_end. rewrite chars_of_chars.
  apply list_elem_of_In. rewrite <- in_rev. apply list_elem_of_In, in_drop_while; [done|].
  apply list_elem_of_In. rewrite <- in_rev. by apply list_elem_of_In, in_drop_while.
Qed.

Lemma no_flag_angle s : angle ∈ chars s → credentialFlagKey (JStr s) = None.
Proof.
  intros Hin. cbn [credentialFlagKey]. destruct (cliFlagName (js_trim s)) eqn:E; [|done].
  exfalso. apply (flag_no_angle (js_trim s)); [by rewrite E|]. by apply in_trim.
Qed.

(** A string that is a flag in the log was that flag. *)
Lemma inline_flag_kept s :
  is_Some (credentialFlagKey (JStr (redactInlineCredentialFlag s))) → redactInlineCredentialFlag s = s.
Proof.
  assert (Hf : is_Some (credentialFlagKey (JStr (redactFull s))) → redactFull s = s).
  { unfold redactFull. destruct (full_trace (chars s)) as [H|H]; [|by rewrite H, of_chars_chars].
    rewrite no_flag_angle by by rewrite chars_of_chars. by intros []. }
  unfold redactInlineCredentialFlag. destruct (match_at _ _) as [m|]; [|done].
  destruct (isSensitiveKey _); [|done]. rewrite no_flag_angle; [by intros []|].
  rewrite chars_of_chars. apply elem_of_app. right. apply elem_of_app. right. by apply in_chars.
Qed.

Lemma fixed_log_string x : forallb (λ r, negb (test r x)) TOKEN_PREFIX_PATTERNS = true → log_string x.
Proof.
  rewrite forallb_forall. intros H. left. intros r Hr. destruct (plain_token r Hr) as [Hin _].
  apply list_elem_of_In, H in Hin. by bools.
Qed.

Lemma clean_leaf v : container v = false → (∀ s, v = JStr s → log_string s) → log_clean v.
Proof.
  intros Hc Hs. split_and!.
  - intros o k x Hw. apply within_leaf in Hw; [|done]. by subst v.
  - intros l i p x Hw. apply within_leaf in Hw; [|done]. by subst v.
  - intros s Hw. apply within_leaf in Hw; [|done]. by apply Hs.
Qed.

Lemma clean_array l : Forall log_clean l →
  (∀ i p x, l !! i = Some p → is_Some (credentialFlagKey p) → l !! S i = Some x → x = JStr REDACTED) →
  log_clean (JArr l).
Proof.
  intros Hl Hf. rewrite Forall_lookup in Hl. split_and!.
  - intros o k x Hw. inversion Hw as [|l' i v Hi Hv|]; subst. by destruct (Hl _ _ Hi) as [H _]; eapply H.
  - intros l0 i p x Hw. inversion Hw as [|l' j v Hi Hv|]; subst; [apply Hf|].
    by destruct (Hl _ _ Hi) as (_ & H & _); eapply H.
  - intros s Hw. inversion Hw as [|l' i v Hi Hv|]; subst. by destruct (Hl _ _ Hi) as (_ & _ & H); eapply H.
Qed.

Lemma clean_object o : Forall (λ kv, log_clean kv.2) o →
  (∀ k x, (k, x) ∈ o → isSensitiveKey k = true → x = JStr REDACTED) → log_clean (JObj o).
Proof.
  intros Ho Hf. rewrite Forall_forall in Ho. split_and!.
  - intros o0 k x Hw. inversion Hw as [| |o' k' v Hi Hv]; subst; [apply Hf|].
    destruct (Ho _ Hi) as [H _]. by apply H.
  - intros l0 i p x Hw. inversion Hw as [| |o' k' v Hi Hv]; subst.
    destruct (Ho _ Hi) as (_ & H & _). by apply H.
  - intros s Hw. inversion Hw as [| |o' k' v Hi Hv]; subst.
    destruct (Ho _ Hi) as (_ & _ & H). by apply H.
Qed.

Lemma map_state_ok {A B S} (f : A → S → option (B * S)) (R : A → B → Prop) (P : S → Prop) l s :
  (∀ x s, x ∈ l → P s → ∃ y s', f x s = Some (y, s') ∧ P s' ∧ R x y) → P s →
  ∃ ys s', map_state f l s = Some (ys, s') ∧ P s' ∧ Forall2 R l ys.
Proof.
  revert s. induction l as [|x l IH]; intros s Hf Hs; cbn [map_state]; [by exists [], s|].
  destruct (Hf x s) as (y & s1 & -> & Hs1 & Hy); [by left|done|].
  destruct (IH s1) as (ys & s2 & -> & Hs2 & Hys); [|done|].
  - intros x' s' Hx'. apply Hf. by right.
  - exists (y :: ys), s2. split_and!; [done..|]. by constructor.
Qed.

(** What is logged for a value. *)
Definition logged (v : log_value) (j : json) : Prop :=
  log_clean j ∧ (is_Some (credentialFlagKey j) → is_Some (credentialFlagKey (leaf_of v))).

Lemma redacted_logged v : logged v (JStr REDACTED).
Proof.
  split; [|by intros []]. apply clean_leaf; [done|]. intros s [= <-]. apply fixed_log_string. vm_compute. reflexivity.
Qed.

Section Log.
Context (store : log_store).
Hypothesis store_good : good_store store.

Definition left_over (seen : gset nat) : nat := size (dom store ∖ seen).

Lemma left_over_mono seen seen' : seen ⊆ seen' → left_over seen' ≤ left_over seen.
Proof using. clear store_good. intros H. unfold left_over. apply (subseteq_size (dom store ∖ seen') (dom store ∖ seen)). set_solver. Qed.

Lemma left_over_visit l seen : is_Some (store !! l) → l ∉ seen → left_over ({[l]} ∪ seen) < left_over seen.
Proof using. clear store_good. intros Hl Hn. apply elem_of_dom in Hl. unfold left_over. apply (subset_size (dom store ∖ _) (dom store ∖ seen)). set_solver. Qed.

Lemma array_logged es vs :
  Forall2 (λ '(previous, entry) j, logged entry j
    ∧ (∀ p, previous = Some p → is_Some (credentialFlagKey (leaf_of p)) → j = JStr REDACTED))
    (with_previous es) vs →
  log_clean (JArr vs).
Proof using.
  intros H. apply clean_array.
  - apply Forall_lookup. intros i j Hj. destruct (Forall2_lookup_r _ _ _ _ _ H Hj) as ([p e] & _ & [Hc _] & _). done.
  - intros i p x Hp Hf Hx.
    destruct (Forall2_lookup_r _ _ _ _ _ H Hp) as ([q e] & He & [_ Hk] & _).
    destruct (Forall2_lookup_r _ _ _ _ _ H Hx) as ([q' e'] & He' & _ & Hr).
    apply (Hr e); [|by apply Hk].
    unfold with_previous in *. apply lookup_zip_with_Some in He as (? & ? & [= <- <-] & _ & He).
    apply lookup_zip_with_Some in He' as (? & ? & [= <- <-] & Hq & _).
    change (((Some : log_value → option log_value) <$> es) !! i = Some q') in Hq.
    rewrite list_lookup_fmap, He in Hq. by injection Hq as <-.
Qed.

Lemma leaf_logged fuel v seen : container v = false →
  ∃ j, redact_for_log store fuel (VLeaf v) seen = Some (j, seen) ∧ logged (VLeaf v) j.
Proof using.
  intros Hv. destruct v; try done.
  all: try (eexists; split; [by destruct fuel|]; split; [by apply clean_leaf|done]).
  exists (JStr (redactInlineCredentialFlag s)). split; [by destruct fuel|]. split.
  - apply clean_leaf; [done|]. intros s' [= <-]. apply inline_log_string.
  - intros Hf. pose proof (inline_flag_kept s Hf) as E. by rewrite E in Hf.
Qed.

Lemma circular_logged l : logged (VRef l) (JStr "[Circular]").
Proof using.
  split; [|by intros []]. apply clean_leaf; [done|]. intros s [= <-]. apply fixed_log_string.
  vm_compute. reflexivity.
Qed.

Lemma redact_value fuel : ∀ v seen, good_value store v → left_over seen < fuel →
  ∃ j seen', redact_for_log store fuel v seen = Some (j, seen') ∧ seen ⊆ seen' ∧ logged v j.
Proof using store_good.
  induction fuel as [|fuel IH]; intros v seen Hv Hfuel; [lia|].
  destruct v as [v|l]; cbn [good_value] in Hv.
  { destruct (leaf_logged (S fuel) v seen Hv) as (j & -> & Hj). by exists j, seen. }
  cbn [redact_for_log]. destruct (decide (l ∈ seen)) as [Hl|Hl].
  { exists (JStr "[Circular]"), seen. split_and!; [done..|]. apply circular_logged. }
  pose proof (left_over_visit l seen Hv Hl) as Hless. destruct Hv as [x Hx].
  pose proof (store_good l x Hx) as Hgood. rewrite Hx. set (seen1 := {[l]} ∪ seen) in *.
  assert (Hrec : ∀ v s, good_value store v → seen1 ⊆ s →
    ∃ j s', redact_for_log store fuel v s = Some (j, s') ∧ seen1 ⊆ s' ∧ logged v j).
  { intros v s Hv Hs. pose proof (left_over_mono _ _ Hs). destruct (IH v s Hv) as (j & s' & Hj & Hs' & Hj'); [lia|].
    exists j, s'. split_and!; [done|set_solver|done]. }
  destruct x as [es|o]; cbn [good_store] in Hgood; rewrite Forall_forall in Hgood.
  - edestruct (map_state_ok (λ '(previous, entry) seen,
        if match previous with Some p => credentialFlagKey (leaf_of p) | None => None end
        then Some (JStr REDACTED, seen) else redact_for_log store fuel entry seen)
      (λ '(previous, entry) j, logged entry j
        ∧ (∀ p, previous = Some p → is_Some (credentialFlagKey (leaf_of p)) → j = JStr REDACTED))
      (λ s, seen1 ⊆ s) (with_previous es) seen1) as (vs & s' & -> & Hs' & Hvs); [|done|].
    + intros [previous entry] s Hin Hs. cbv beta iota.
      destruct (match previous with Some p => credentialFlagKey (leaf_of p) | None => None end) eqn:E.
      * exists (JStr REDACTED), s. split_and!; [done|done|apply redacted_logged|done].
      * unfold with_previous in Hin. apply list_elem_of_In, in_combine_r, list_elem_of_In in Hin.
        destruct (Hrec entry s) as (j & s' & Hj & Hs' & Hj'); [by apply Hgood|done|].
        exists j, s'. split_and!; [done..|]. intros p -> [k Hk]. cbn in E. congruence.
    + exists (JArr vs), s'. split_and!; [done|set_solver|]. split; [by eapply array_logged|by intros []].
  - edestruct (map_state_ok (λ '(key, entry) seen,
        if isSensitiveKey key then Some ((key, JStr REDACTED), seen)
        else match redact_for_log store fuel entry seen with
             | Some (v, seen) => Some ((key, v), seen)
             | None => None
             end)
      (λ '(key, entry) kv, log_clean kv.2 ∧ (isSensitiveKey kv.1 = true → kv.2 = JStr REDACTED))
      (λ s, seen1 ⊆ s) o seen1) as (vs & s' & -> & Hs' & Hvs); [|done|].
    + intros [key entry] s Hin Hs. cbv beta iota. destruct (isSensitiveKey key) eqn:E.
      * exists (key, JStr REDACTED), s. split_and!; [done|done|apply (redacted_logged entry)|done].
      * destruct (Hrec entry s) as (j & s' & Hj & Hs' & Hj'); [by apply (Hgood (key, entry))|done|].
        rewrite Hj. exists (key, j), s'. split_and!; [done|done|apply Hj'|cbn; congruence].
    + exists (JObj vs), s'. split_and!; [done|set_solver|]. split; [|by intros []].
      apply clean_object; [apply Forall_forall|]; [intros kv Hkv|intros k x Hkv Hk];
        apply list_elem_of_lookup in Hkv as [i Hi];
        destruct (Forall2_lookup_r _ _ _ _ _ Hvs Hi) as ([key e] & _ & Hc & Hr); [done|by apply Hr].
Qed.
End Log.


(** ** Errors *)

(** Pieces of a text with a separator between them. *)
Fixpoint weave (sep : list ascii) (pieces : list (list ascii)) : list ascii :=
  match pieces with
  | [] => []
  | [p] => p
  | p :: pieces' => p ++ sep ++ weave sep pieces'
  end.

Lemma weave_char sep c p pieces : weave sep ((c :: p) :: pieces) = c :: weave sep (p :: pieces).
Proof. by destruct pieces. Qed.

Lemma substitute_plain template matched before after :
  "$"%char ∉ template → substitute template matched before after = template.
Proof.
  induction template as [|c template IH]; intros Hn; [done|].
  apply not_elem_of_cons in Hn as [Hc Hn]. specialize (IH Hn).
  assert (E : substitute (c :: template) matched before after = c :: substitute template matched before after).
  { destruct c as [[] [] [] [] [] [] [] []]; done. }
  by rewrite E, IH.
Qed.

(** The replacement of a text replaces its occurrences, and those only. *)
Lemma replace_text_pieces fuel old template before after :
  old ≠ [] → "$"%char ∉ template → length after < fuel →
  ∃ p pieces, after = weave old (p :: pieces) ∧ replace_text fuel old template before after = weave template (p :: pieces)
    ∧ Forall (λ q, ¬ word_of old q) (p :: pieces) ∧ (p = [] ∨ take (length old) after ≠ old).
Proof.
  intros Ho Ht. revert before after. induction fuel as [|fuel IH]; intros before after Hf; [lia|].
  assert (Hnil : ¬ word_of old []) by (intros (u & v & E); by destruct u, old, v).
  cbn [replace_text]. case_bool_decide as Htake.
  - destruct (IH (rev old ++ before) (drop (length old) after)) as (p & ps & E & Er & Hp & _).
    { rewrite length_drop. destruct old; [done|]. cbn [List.length] in *. destruct after; cbn in *; [done|lia]. }
    exists [], (p :: ps). rewrite substitute_plain by done. rewrite Er. split_and!; [|done| |by left].
    + change (after = old ++ weave old (p :: ps)). rewrite <- E. rewrite <- Htake at 1. by rewrite take_drop.
    + by constructor.
  - destruct after as [|c after]; [exists [], []; split_and!; [done|done|by constructor|by left]|].
    destruct (IH (c :: before) after) as (p & ps & E & Er & Hp & Hs); [cbn in Hf; lia|].
    exists (c :: p), ps. rewrite Er, !weave_char, <- E. split_and!; [done..| |by right].
    apply Forall_cons in Hp as [Hp Hps]. constructor; [|done].
    intros (u & v & Eu). destruct u as [|d u]; cbn in Eu.
    + apply Htake. rewrite E, <- weave_char, Eu. destruct ps; cbn [weave]; rewrite <- ?(assoc_L (++));
        apply take_app_length.
    + injection Eu as -> Eu. apply Hp. by exists u, v.
Qed.

Lemma replaceAll_pieces s old template : truthy old = true → "$"%char ∉ chars template →
  ∃ pieces, chars s = weave (chars old) pieces ∧ chars (replaceAll s old template) = weave (chars template) pieces
    ∧ Forall (λ q, ¬ word_of (chars old) q) pieces.
Proof.
  intros Ho Ht. unfold replaceAll. rewrite chars_of_chars.
  destruct (replace_text_pieces (S (String.length s)) (chars old) (chars template) [] (chars s))
    as (p & ps & E & Er & Hp & _); [by destruct old|done|rewrite length_chars; lia|]. by exists (p :: ps).
Qed.

Definition redacted_field (redactor : string → string) (v : json) : json :=
  match v with JStr s => JStr (redactor s) | _ => v end.

(** An assignment of a property, or none where it would assign what is there. *)
Lemma jget_assign e e1 k0 v : e1 = set_prop e k0 v ∨ (e1 = e ∧ v = jget e k0) →
  ∀ k, jget e1 k = if decide (k0 = k) then v else jget e k.
Proof.
  intros [->|[-> ->]] k; [apply jget_set_prop|]. by case_decide; subst.
Qed.

Lemma jget_redact_field redactor e k0 k :
  jget (redact_field redactor e k0) k = if decide (k0 = k) then redacted_field redactor (jget e k0) else jget e k.
Proof.
  apply jget_assign. unfold redact_field. by destruct (jget e k0); [right|right|right|right|left|right|right].
Qed.

Lemma jget_redact_fields redactor keys e k : NoDup keys →
  jget (fold_left (redact_field redactor) keys e) k
  = if decide (k ∈ keys) then redacted_field redactor (jget e k) else jget e k.
Proof.
  intros Hn. revert e. induction Hn as [|k' keys Hk' Hn IH]; intros e; cbn [fold_left].
  { rewrite decide_False; [done|]. apply not_elem_of_nil. }
  rewrite IH, jget_redact_field. destruct (decide (k' = k)) as [->|Hne].
  - rewrite decide_False by done. rewrite decide_True; [done|]. by left.
  - destruct (decide (k ∈ keys)); [rewrite decide_True|rewrite decide_False]; rewrite ?elem_of_cons; naive_solver.
Qed.

Definition redacted_output (redactor : string → string) (v : json) : json :=
  match v with JArr output => JArr (map (redacted_field redactor) output) | _ => v end.
Definition text_fields : list string := ["message"; "cmd"; "stdout"; "stderr"].

(** What a redacted error holds under each name. *)
Lemma jget_redact_error redactor e :
  ∃ e', redactErrorWith redactor (JObj e) = JObj e' ∧ (∀ k, k ≠ "stack" → jget e' k =
    if decide (k ∈ text_fields) then redacted_field redactor (jget e k)
    else if decide ("output" = k) then redacted_output redactor (jget e k) else jget e k)
  ∧ (∀ message stack, jget e "message" = JStr message → jget e "stack" = JStr stack → truthy message = true →
      jget e' "stack" = JStr (replaceAll stack message (redactor message))).
Proof.
  eexists. split; [reflexivity|]. fold text_fields. set (e1 := fold_left _ _ _).
  assert (E1 : ∀ k, jget e1 k = if decide (k ∈ text_fields) then redacted_field redactor (jget e k) else jget e k).
  { intros j. apply jget_redact_fields. by apply (bool_decide_unpack _). }
  set (e2 := match jget e1 "output" with JArr _ => _ | _ => _ end).
  assert (E2 : ∀ k, jget e2 k = if decide ("output" = k) then redacted_output redactor (jget e1 "output") else jget e1 k).
  { apply jget_assign. unfold e2. by destruct (jget e1 "output"); [right|right|right|right|right|left|right]. }
  split.
  - intros k Hk.
    assert (E3 : jget e2 k = if decide (k ∈ text_fields) then redacted_field redactor (jget e k)
      else if decide ("output" = k) then redacted_output redactor (jget e k) else jget e k).
    { rewrite E2, !E1. destruct (decide ("output" = k)) as [<-|]; [|done].
      assert (Ho : "output" ∉ text_fields) by by apply (bool_decide_unpack _). by destruct (decide ("output" ∈ text_fields)). }
    rewrite <- E3. repeat case_match; try done; by rewrite jget_set_prop, decide_False.
  - intros message stack Hm Hst Ht.
    assert (Es : jget e2 "stack" = JStr stack) by (rewrite E2, (E1 "stack"); exact Hst).
    assert (Em : jget e2 "message" = JStr (redactor message)) by (rewrite E2, (E1 "message"), Hm; reflexivity).
    rewrite Es, Em, Hm, Ht, jget_set_prop. by rewrite decide_True.
Qed.

(** a redacted error has its message, command and outputs redacted and every other
    field but the stack as it was.  The stack has every occurrence of the message replaced
    by its redaction, and nothing else, when the redacted message holds no dollar sign; a
    message with [$&] brings the message itself back, so a token in it stays in the stack. *)
Theorem redact_error_fields :
  (∀ redactor e, ∃ e', redactErrorWith redactor (JObj e) = JObj e'
     ∧ (∀ k, k ≠ "stack" → jget e' k =
          if decide (k ∈ text_fields) then redacted_field redactor (jget e k)
          else if decide ("output" = k) then redacted_output redactor (jget e k) else jget e k)
     ∧ (∀ message stack, jget e "message" = JStr message → jget e "stack" = JStr stack → truthy message = true →
          "$"%char ∉ chars (redactor message) →
          ∃ stack' pieces, jget e' "stack" = JStr stack'
            ∧ chars stack = weave (chars message) pieces ∧ chars stack' = weave (chars (redactor message)) pieces
            ∧ Forall (λ q, ¬ word_of (chars message) q) pieces))
  ∧ (∀ url_token, redactError url_token
       (JObj [("message", JStr "$& nvapi-0123456789"); ("stack", JStr "Error: $& nvapi-0123456789")])
     = JObj [("message", JStr "$& nvap************"); ("stack", JStr "Error: $& nvapi-0123456789 nvap************")]).
Proof.
  split.
  - intros redactor e. destruct (jget_redact_error redactor e) as (e' & -> & Hk & Hs). exists e'.
    split_and!; [done..|]. intros message stack Hm Hst Ht Hd.
    destruct (replaceAll_pieces stack message (redactor message) Ht Hd) as (pieces & E & Er & Hp).
    exists (replaceAll stack message (redactor message)), pieces. by rewrite (Hs message stack).
  - intros url_token. vm_compute. reflexivity.
Qed.

(** ** Witnesses *)

Lemma redacted_text_no_token_witness :
  let r := seqs [lit "nvapi-"; at_least 10 (Chr token_char)] in
  test r "key nvapi-0123456789" = true ∧ test r (redactFull "key nvapi-0123456789") = false.
Proof.
  cbn zeta. split; [vm_compute; reflexivity|].
  refine (proj1 (proj1 redacted_text_no_token _ _ "key nvapi-0123456789" (λ m, m))).
  apply list_elem_of_In. by left.
Defined.

(** An object that contains itself. *)
Definition cyclic_store : log_store :=
  {[0 := LObj [("apiKey", VLeaf (JStr "abc")); ("self", VRef 0); ("note", VLeaf (JStr "hello"))]]}.

Example cyclic_logged : redactForLog cyclic_store (VRef 0)
  = Some (JObj [("apiKey", JStr "<REDACTED>"); ("self", JStr "[Circular]"); ("note", JStr "hello")]).
Proof. vm_compute. reflexivity. Qed.


Lemma redact_error_fields_witness : ∃ stack' pieces,
  jget [("message", JStr "m"); ("stack", JStr "Error: n")] "stack" = JStr stack'
  ∧ chars "Error: m" = weave (chars "m") pieces ∧ chars stack' = weave (chars "n") pieces.
Proof.
  destruct (proj1 redact_error_fields (λ _, "n") [("message", JStr "m"); ("stack", JStr "Error: m")])
    as (e' & He & _ & Hs). vm_compute in He. injection He as <-.
  destruct (Hs "m" "Error: m") as (stack' & pieces & H1 & H2 & H3 & _); [done..| |by exists stack', pieces].
  by apply (bool_decide_unpack _).
Defined.

