(* ===== verification/Machine.v ===== *)
(** * The coarse onboarding state machine

    src/lib/onboard/machine/definition.ts (the state vocabulary), types.ts,
    transitions.ts (the legal graph and its assertions), progress.ts (the
    numbered steps shown to the user) and src/lib/state/onboard-step-state.ts
    (the state a completed step leads to). *)

From S2P Require Import Prelude.

(** ** States (definition.ts) *)

Inductive OnboardMachineState : Type :=
| StInit | StPreflight | StGateway | StProviderSelection | StInference | StSandbox
| StAgentSetup | StOpenclaw | StPolicies | StFinalizing | StPostVerify
| StComplete | StFailed.
#[export] Instance OnboardMachineState_eq_dec : EqDecision OnboardMachineState.
Proof. solve_decision. Defined.

(** The string literal of each state. *)
Definition state_id (s : OnboardMachineState) : string :=
  match s with
  | StInit => "init" | StPreflight => "preflight" | StGateway => "gateway"
  | StProviderSelection => "provider_selection" | StInference => "inference"
  | StSandbox => "sandbox" | StAgentSetup => "agent_setup" | StOpenclaw => "openclaw"
  | StPolicies => "policies" | StFinalizing => "finalizing" | StPostVerify => "post_verify"
  | StComplete => "complete" | StFailed => "failed"
  end.

Record OnboardProgressStep := mkProgress { number : Z; total : Z; title : string }.

Record OnboardMachineStateDefinition := mkDef {
  def_state : OnboardMachineState;
  def_terminal : bool;
  def_stepName : option string;
  def_progress : option OnboardProgressStep;
}.

Definition ONBOARD_MACHINE_STATE_DEFINITIONS : list OnboardMachineStateDefinition := [
  mkDef StInit false None None;
  mkDef StPreflight false (Some "preflight") (Some (mkProgress 1 8 "Preflight checks"));
  mkDef StGateway false (Some "gateway") (Some (mkProgress 2 8 "Starting OpenShell gateway"));
  mkDef StProviderSelection false (Some "provider_selection")
    (Some (mkProgress 3 8 "Configuring inference (NIM)"));
  mkDef StInference false (Some "inference")
    (Some (mkProgress 4 8 "Setting up inference provider"));
  mkDef StSandbox false (Some "sandbox") (Some (mkProgress 6 8 "Creating sandbox"));
  mkDef StAgentSetup false (Some "agent_setup") None;
  mkDef StOpenclaw false (Some "openclaw")
    (Some (mkProgress 7 8 "Setting up agent inside sandbox"));
  mkDef StPolicies false (Some "policies") (Some (mkProgress 8 8 "Policy presets"));
  mkDef StFinalizing false None None;
  mkDef StPostVerify false None None;
  mkDef StComplete true None None;
  mkDef StFailed true None None ].

Definition ONBOARD_MACHINE_STATES : list OnboardMachineState :=
  map def_state ONBOARD_MACHINE_STATE_DEFINITIONS.
Definition ONBOARD_TERMINAL_MACHINE_STATES : list OnboardMachineState :=
  map def_state (List.filter def_terminal ONBOARD_MACHINE_STATE_DEFINITIONS).
Definition ONBOARD_NON_TERMINAL_MACHINE_STATES : list OnboardMachineState :=
  map def_state (List.filter (λ d, negb (def_terminal d)) ONBOARD_MACHINE_STATE_DEFINITIONS).

(** [includes] on states. *)
Definition state_in (l : list OnboardMachineState) (s : OnboardMachineState) : bool :=
  existsb (λ x, bool_decide (x = s)) l.

Inductive machine_error : Type :=
| UnknownState (state : OnboardMachineState)
| InvalidTransition (from to : OnboardMachineState)
| Interrupted (state : OnboardMachineState) (step : option string) (next : OnboardMachineState).

Definition getOnboardMachineStateDefinition (state : OnboardMachineState)
    : result machine_error OnboardMachineStateDefinition :=
  of_option (UnknownState state)
    (List.find (λ d, bool_decide (def_state d = state)) ONBOARD_MACHINE_STATE_DEFINITIONS).

(** ** Progress (progress.ts) *)

Definition EXTRA_PROGRESS_STEPS : list (string * OnboardProgressStep) :=
  [("messaging", mkProgress 5 8 "Messaging channels")].

(** [flatMap] over the definitions that carry a progress entry. *)
Definition progress_entry (d : OnboardMachineStateDefinition)
    : list (string * OnboardProgressStep) :=
  match def_stepName d, def_progress d with
  | Some name, Some p => [(name, p)]
  | _, _ => []
  end.
Definition ONBOARD_PROGRESS_STEPS : gmap string OnboardProgressStep :=
  list_to_map (List.concat (map progress_entry ONBOARD_MACHINE_STATE_DEFINITIONS)
               ++ EXTRA_PROGRESS_STEPS).

Definition getOnboardProgressStep (stepName : string) : option OnboardProgressStep :=
  ONBOARD_PROGRESS_STEPS !! stepName.

(** ** Transitions (types.ts, transitions.ts) *)

Inductive OnboardMachineTransitionKind : Type := Advance | Retry | Branch | Failure.
#[export] Instance OnboardMachineTransitionKind_eq_dec : EqDecision OnboardMachineTransitionKind.
Proof. solve_decision. Defined.

Record OnboardMachineTransition := mkTrans {
  from : OnboardMachineState;
  to : OnboardMachineState;
  kind : OnboardMachineTransitionKind;
}.

Definition ONBOARD_MACHINE_DIRECT_TRANSITIONS : list OnboardMachineTransition := [
  mkTrans StInit StPreflight Advance;
  mkTrans StPreflight StGateway Advance;
  mkTrans StGateway StProviderSelection Advance;
  mkTrans StProviderSelection StInference Advance;
  mkTrans StInference StProviderSelection Retry;
  mkTrans StInference StSandbox Advance;
  mkTrans StSandbox StOpenclaw Branch;
  mkTrans StSandbox StAgentSetup Branch;
  mkTrans StOpenclaw StPolicies Advance;
  mkTrans StAgentSetup StPolicies Advance;
  mkTrans StPolicies StFinalizing Advance;
  mkTrans StFinalizing StPostVerify Advance;
  mkTrans StPostVerify StComplete Advance ].

Definition ONBOARD_MACHINE_FAILURE_TRANSITIONS : list OnboardMachineTransition :=
  map (λ s, mkTrans s StFailed Failure) ONBOARD_NON_TERMINAL_MACHINE_STATES.

Definition ONBOARD_MACHINE_TRANSITIONS : list OnboardMachineTransition :=
  ONBOARD_MACHINE_DIRECT_TRANSITIONS ++ ONBOARD_MACHINE_FAILURE_TRANSITIONS.

(** [ONBOARD_MACHINE_NEXT_STATES[state]]: the table is built by one filter per state. *)
Definition getNextOnboardMachineStates (s : OnboardMachineState) : list OnboardMachineState :=
  map to (List.filter (λ t, bool_decide (from t = s)) ONBOARD_MACHINE_TRANSITIONS).

(** [isOnboardMachineState(value)] on a string, returning the narrowed state. *)
Definition parse_state (value : string) : option OnboardMachineState :=
  List.find (λ s, state_id s =s value) ONBOARD_MACHINE_STATES.

Definition isTerminalOnboardMachineState (s : OnboardMachineState) : bool :=
  state_in ONBOARD_TERMINAL_MACHINE_STATES s.

Definition canTransitionOnboardMachineState (s t : OnboardMachineState) : bool :=
  state_in (getNextOnboardMachineStates s) t.

Definition getOnboardMachineTransition (s t : OnboardMachineState)
    : option OnboardMachineTransition :=
  List.find (λ e, bool_decide (from e = s) && bool_decide (to e = t)) ONBOARD_MACHINE_TRANSITIONS.

(** The [failure] argument of [assertOnboardNotInterrupted]: the marker of a
    run that was cut short. *)
Record OnboardInterruptionMarker := { marker_step : option string; marker_interrupted : bool }.

Definition assertOnboardNotInterrupted (s next : OnboardMachineState)
    (failure : option OnboardInterruptionMarker) : result machine_error unit :=
  if negb (bool_decide (s = StFailed)) then Ok tt
  else match failure with
       | Some f => if marker_interrupted f then Throw (Interrupted s (marker_step f) next) else Ok tt
       | None => Ok tt
       end.

Definition assertValidOnboardMachineTransition (s t : OnboardMachineState)
    : result machine_error OnboardMachineTransition :=
  of_option (InvalidTransition s t) (getOnboardMachineTransition s t).

(** ** The state a completed step leads to (onboard-step-state.ts) *)

Definition nextMachineStateAfterCompletedStep (stepName : option string) (agent : option string)
    : option OnboardMachineState :=
  match stepName with
  | None => None
  | Some n =>
      if n =s "preflight" then Some StGateway
      else if n =s "gateway" then Some StProviderSelection
      else if n =s "provider_selection" then Some StInference
      else if n =s "inference" then Some StSandbox
      else if n =s "sandbox" then Some (if truthy_opt agent then StAgentSetup else StOpenclaw)
      else if (n =s "openclaw") || (n =s "agent_setup") then Some StPolicies
      else if n =s "policies" then Some StFinalizing
      else None
  end.

(** ** Session steps (events.ts)

    The states that own a session step, by the step's name. *)
Definition ONBOARD_SESSION_STEP_TO_MACHINE_STATE : list (string * OnboardMachineState) :=
  omap (λ d, (λ n, (n, def_state d)) <$> def_stepName d) ONBOARD_MACHINE_STATE_DEFINITIONS.

Definition isOnboardSessionStepName (value : string) : bool :=
  existsb (λ kv, kv.1 =s value) ONBOARD_SESSION_STEP_TO_MACHINE_STATE.

Definition machineStateFromOnboardSessionStep (stepName : option string)
    : option OnboardMachineState :=
  match stepName with
  | Some n =>
      if truthy n && isOnboardSessionStepName n
      then snd <$> List.find (λ kv, kv.1 =s n) ONBOARD_SESSION_STEP_TO_MACHINE_STATE
      else None
  | None => None
  end.

(** ** Lemmas *)

Lemma all_states_listed s : s ∈ ONBOARD_MACHINE_STATES.
Proof. destruct s; vm_compute; repeat constructor. Qed.

Lemma state_in_spec l s : state_in l s = true ↔ s ∈ l.
Proof.
  unfold state_in. rewrite existsb_exists. split.
  - intros (x & Hx & E). bools. subst. by apply list_elem_of_In.
  - intros Hs. exists s. split; [by apply list_elem_of_In|]. by apply bool_decide_eq_true.
Qed.

Lemma parse_state_id s : parse_state (state_id s) = Some s.
Proof. by destruct s. Qed.

Lemma parse_state_inv v s : parse_state v = Some s → v = state_id s.
Proof. intros [_ H]%find_some. by bools. Qed.

Lemma state_id_inj s t : state_id s = state_id t → s = t.
Proof. destruct s, t; done. Qed.

Lemma getDefinition_total s :
  ∃ d, getOnboardMachineStateDefinition s = Ok d ∧ def_state d = s.
Proof. destruct s; by eexists. Qed.

Lemma terminal_iff s :
  isTerminalOnboardMachineState s = true ↔ s = StComplete ∨ s = StFailed.
Proof. destruct s; vm_compute; split; auto; try done; by intros [H|H]. Qed.

Lemma terminal_next s :
  isTerminalOnboardMachineState s = bool_decide (getNextOnboardMachineStates s = []).
Proof. by destruct s. Qed.

Lemma canTransition_get s t :
  canTransitionOnboardMachineState s t = true ↔ is_Some (getOnboardMachineTransition s t).
Proof. destruct s, t; vm_compute; split; try done; by (intros _; eexists) || by intros [? ?]. Qed.

Lemma getTransition_fields s t e :
  getOnboardMachineTransition s t = Some e → from e = s ∧ to e = t.
Proof. intros [_ H]%find_some. by bools. Qed.

(** One step of the machine along a legal edge. *)
Definition machine_step (s t : OnboardMachineState) : Prop :=
  canTransitionOnboardMachineState s t = true.

(** The position of a state in the forward flow; [failed] is last. *)
Definition state_rank (s : OnboardMachineState) : nat :=
  match s with
  | StInit => 0 | StPreflight => 1 | StGateway => 2 | StProviderSelection => 3
  | StInference => 4 | StSandbox => 5 | StAgentSetup | StOpenclaw => 6 | StPolicies => 7
  | StFinalizing => 8 | StPostVerify => 9 | StComplete => 10 | StFailed => 11
  end.

Lemma step_advances s t :
  machine_step s t → (s, t) = (StInference, StProviderSelection) ∨ state_rank s < state_rank t.
Proof.
  unfold machine_step. destruct s, t; vm_compute; intros H; try discriminate H;
    first [by left|right; lia].
Qed.

Lemma step_from_forward s t :
  state_in [StComplete; StFailed; StInference] s = false → machine_step s t →
  t = StFailed ∨ state_rank t = S (state_rank s).
Proof.
  unfold machine_step. destruct s, t; vm_compute; intros H1 H2;
    try discriminate H1; try discriminate H2; auto.
Qed.

Lemma reaches_complete s :
  isTerminalOnboardMachineState s = false → rtc machine_step s StComplete.
Proof.
  intros Hs.
  assert (Hl : ∀ s t, machine_step s t → rtc machine_step t StComplete →
                      rtc machine_step s StComplete) by (intros ???; by apply rtc_l).
  pose proof (Hl StPostVerify StComplete eq_refl (rtc_refl _ _)) as H9.
  pose proof (Hl StFinalizing StPostVerify eq_refl H9) as H8.
  pose proof (Hl StPolicies StFinalizing eq_refl H8) as H7.
  pose proof (Hl StOpenclaw StPolicies eq_refl H7) as H6.
  pose proof (Hl StAgentSetup StPolicies eq_refl H7) as H6'.
  pose proof (Hl StSandbox StOpenclaw eq_refl H6) as H5.
  pose proof (Hl StInference StSandbox eq_refl H5) as H4.
  pose proof (Hl StProviderSelection StInference eq_refl H4) as H3.
  pose proof (Hl StGateway StProviderSelection eq_refl H3) as H2.
  pose proof (Hl StPreflight StGateway eq_refl H2) as H1.
  pose proof (Hl StInit StPreflight eq_refl H1) as H0.
  by destruct s.
Qed.

(** ** Properties *)

(** Terminality is exactly having no outgoing edge: a terminal state
    refuses every transition, so no run leaves it, while every other state
    may fail and can still reach [complete]. *)
Theorem machine_terminality s :
  if isTerminalOnboardMachineState s
  then (∀ t, assertValidOnboardMachineTransition s t = Throw (InvalidTransition s t))
       ∧ (∀ t, rtc machine_step s t → t = s)
  else getOnboardMachineTransition s StFailed = Some (mkTrans s StFailed Failure)
       ∧ rtc machine_step s StComplete.
Proof.
  destruct (isTerminalOnboardMachineState s) eqn:Hs.
  - assert (Hn : ∀ t, ¬ machine_step s t).
    { intros t. apply terminal_iff in Hs as [-> | ->]; by destruct t. }
    split.
    + intros t. apply terminal_iff in Hs as [-> | ->]; by destruct t.
    + intros t Ht. destruct Ht as [|s t' t Hst _]; [done|]. by destruct (Hn t').
  - split; [by destruct s|by apply reaches_complete].
Qed.

(** The state recorded after a completed step is the flow's own
    successor: every state that owns a step has exactly one successor for the
    session's agent, along an [advance] or [branch] edge of the graph. *)
Theorem completed_step_follows_graph s agent :
  match getOnboardMachineStateDefinition s with
  | Throw _ => False
  | Ok d =>
      match def_stepName d with
      | None => ∀ n, state_id s = n → nextMachineStateAfterCompletedStep (Some n) agent = None
      | Some n =>
          n = state_id s
          ∧ match nextMachineStateAfterCompletedStep (Some n) agent with
            | None => False
            | Some t =>
                match assertValidOnboardMachineTransition s t with
                | Ok e => from e = s ∧ to e = t ∧ (kind e = Advance ∨ kind e = Branch)
                          ∧ state_rank t = S (state_rank s)
                | Throw _ => False
                end
            end
      end
  end.
Proof.
  unfold nextMachineStateAfterCompletedStep.
  destruct s, (truthy_opt agent); vm_compute; try (intros ? <-; done); (split; [done|]); auto.
Qed.
