(* ===== verification/Choices.v ===== *)
(** * The onboarding choices that are recorded and replayed

    src/lib/inference/web-search.ts (web search provider), src/lib/tool-disclosure.ts
    (tool catalog policy), src/lib/onboard/reasoning-mode.ts (reasoning flag and
    effort) and the parser of src/lib/inference/serving/profile-provenance.ts.
    An environment is a finite map from variable names to values. *)

From S2P Require Import Prelude Json.

Abbreviation Env := (gmap string string).

(** [String(env[name] ?? "")]. *)
Definition env_or_empty (env : Env) (name : string) : string := default "" (env !! name).

(** ** Web search (web-search.ts) *)

Inductive WebSearchProvider : Type := Brave | Tavily.
#[export] Instance WebSearchProvider_eq_dec : EqDecision WebSearchProvider.
Proof. solve_decision. Defined.

Definition provider_id (p : WebSearchProvider) : string :=
  match p with Brave => "brave" | Tavily => "tavily" end.

(** A normalised configuration: [fetchEnabled] is literally [true]. *)
Record WebSearchConfig := mkWebSearch { ws_provider : WebSearchProvider }.
#[export] Instance WebSearchConfig_eq_dec : EqDecision WebSearchConfig.
Proof. solve_decision. Defined.

Definition webSearchConfig_json (c : WebSearchConfig) : json :=
  JObj [("fetchEnabled", JBool true); ("provider", JStr (provider_id (ws_provider c)))].

(** [isWebSearchProvider(value) ? value : null]. *)
Definition asWebSearchProvider (value : json) : option WebSearchProvider :=
  match value with
  | JStr s => if s =s "brave" then Some Brave else if s =s "tavily" then Some Tavily else None
  | _ => None
  end.

Definition DEFAULT_WEB_SEARCH_PROVIDER : WebSearchProvider := Brave.

Record ExplicitWebSearchProviderSelection := mkExplicit {
  specified : bool;
  selected_provider : option WebSearchProvider;
}.

(** The error carries the rejected value. *)
Definition parseExplicitWebSearchProvider (value : option string)
    : result string ExplicitWebSearchProviderSelection :=
  let normalized := js_lower (js_trim (default "" value)) in
  if negb (truthy normalized) then Ok (mkExplicit false None)
  else match asWebSearchProvider (JStr normalized) with
       | Some p => Ok (mkExplicit true (Some p))
       | None =>
           if includes ["none"; "off"; "disabled"; "no"; "0"] normalized
           then Ok (mkExplicit true None)
           else Throw ("Unsupported NEMOCLAW_WEB_SEARCH_PROVIDER: " ++ default "undefined" value
                       ++ ". Valid values: brave, tavily, none.")%string
       end.

Definition normalizeWebSearchProvider (value : json) : WebSearchProvider :=
  default DEFAULT_WEB_SEARCH_PROVIDER (asWebSearchProvider value).

(** [config?.key] on a partial configuration. *)
Definition opt_get (config : json) (key : string) : json :=
  match config with JObj o => jget o key | _ => JUndef end.

Definition webSearchProviderForConfig (config : json) : WebSearchProvider :=
  normalizeWebSearchProvider (opt_get config "provider").

Definition webSearchEnvFor (p : WebSearchProvider) : string :=
  match p with Tavily => "TAVILY_API_KEY" | Brave => "BRAVE_API_KEY" end.
Definition webSearchLabelFor (p : WebSearchProvider) : string :=
  match p with Tavily => "Tavily Search" | Brave => "Brave Search" end.
Definition webSearchProviderForEnvKey (envKey : string) : option WebSearchProvider :=
  if envKey =s "BRAVE_API_KEY" then Some Brave
  else if envKey =s "TAVILY_API_KEY" then Some Tavily else None.

Definition isWebSearchEnabled (config : json) : bool :=
  is_true_json (opt_get config "fetchEnabled").

Definition normalizeWebSearchConfig (config : json) : option WebSearchConfig :=
  if negb (isWebSearchEnabled config) then None
  else
    let p := opt_get config "provider" in
    let provider := if is_undefined p then Some DEFAULT_WEB_SEARCH_PROVIDER
                    else asWebSearchProvider p in
    match provider with None => None | Some p => Some (mkWebSearch p) end.

Definition webSearchConfigsEqual (left right : json) : bool :=
  match normalizeWebSearchConfig left, normalizeWebSearchConfig right with
  | Some l, Some r => bool_decide (ws_provider l = ws_provider r)
  | None, None => true
  | _, _ => false
  end.

(** ** Tool disclosure (tool-disclosure.ts) *)

Inductive ToolDisclosure : Type := Progressive | Direct.
#[export] Instance ToolDisclosure_eq_dec : EqDecision ToolDisclosure.
Proof. solve_decision. Defined.

Definition disclosure_id (t : ToolDisclosure) : string :=
  match t with Progressive => "progressive" | Direct => "direct" end.
Definition DEFAULT_TOOL_DISCLOSURE : ToolDisclosure := Progressive.

Definition normalizeToolDisclosure (value : json) : option ToolDisclosure :=
  match value with
  | JStr s =>
      let normalized := js_lower (js_trim s) in
      if normalized =s "progressive" then Some Progressive
      else if normalized =s "direct" then Some Direct else None
  | _ => None
  end.

Inductive choice_error : Type :=
| InvalidToolDisclosureEnv
| InvalidToolDisclosureRequest
| InvalidRecordedDisclosure
| DisclosureConflict (recorded requested : ToolDisclosure)
| InvalidReasoningEffort.

(** [env[NAME] || DEFAULT]: an empty value is unset. *)
Definition readToolDisclosureEnv (env : Env) : result choice_error ToolDisclosure :=
  let raw := env_or_empty env "NEMOCLAW_TOOL_DISCLOSURE" in
  let raw := if truthy raw then raw else disclosure_id DEFAULT_TOOL_DISCLOSURE in
  of_option InvalidToolDisclosureEnv (normalizeToolDisclosure (JStr raw)).

Definition resolveToolDisclosureRequest (cliValue : json) (env : Env)
    : result choice_error (option ToolDisclosure) :=
  let rawCli := match cliValue with JStr s => js_trim s | _ => "" end in
  let rawEnv := js_trim (env_or_empty env "NEMOCLAW_TOOL_DISCLOSURE") in
  let raw := if truthy rawCli then rawCli else rawEnv in
  if negb (truthy raw) then Ok None
  else match normalizeToolDisclosure (JStr raw) with
       | Some t => Ok (Some t)
       | None => Throw InvalidToolDisclosureRequest
       end.

Definition toolDisclosureOrDefault (value : json) : ToolDisclosure :=
  default DEFAULT_TOOL_DISCLOSURE (normalizeToolDisclosure value).

Definition invalidRecordedToolDisclosure (value : json) : bool :=
  negb (is_undefined value) && negb (is_null value)
  && negb (bool_decide (is_Some (normalizeToolDisclosure value))).

(** [a ?? b] on optional values. *)
Definition or_else {A} (a b : option A) : option A :=
  match a with Some _ => a | None => b end.

Definition resolveSandboxToolDisclosure (requested : option ToolDisclosure)
    (recorded session : json) (sandboxExists recreate : bool)
    : result choice_error ToolDisclosure :=
  if invalidRecordedToolDisclosure recorded then Throw InvalidRecordedDisclosure
  else
    let rec := normalizeToolDisclosure recorded in
    let ses := normalizeToolDisclosure session in
    if sandboxExists && negb recreate then
      match rec with
      | Some r =>
          match requested with
          | Some q => if bool_decide (q = r) then Ok r else Throw (DisclosureConflict r q)
          | None => Ok r
          end
      | None => Ok (default DEFAULT_TOOL_DISCLOSURE (or_else requested ses))
      end
    else Ok (default DEFAULT_TOOL_DISCLOSURE (or_else requested (or_else rec ses))).

(** ** Reasoning (reasoning-mode.ts) *)

(** The literals ["true"] and ["false"] as a boolean. *)
Definition flag_id (b : bool) : string := if b then "true" else "false".

Definition normalizeReasoningFlag (value : option string) : option bool :=
  let n := js_lower (js_trim (default "" value)) in
  if (n =s "true") || (n =s "1") || (n =s "yes") || (n =s "y") then Some true
  else if (n =s "false") || (n =s "0") || (n =s "no") || (n =s "n") then Some false
  else None.

(** [Some (requested, stored)] when an explicit request is about to be ignored. *)
Definition describeIgnoredReasoningEnv (storedValue : option string) (env : Env)
    : option (bool * bool) :=
  match normalizeReasoningFlag storedValue with
  | None => None
  | Some stored =>
      match normalizeReasoningFlag (env !! "NEMOCLAW_REASONING") with
      | None => None
      | Some requested => if Bool.eqb requested stored then None else Some (requested, stored)
      end
  end.

(** Sets [process.env.NEMOCLAW_REASONING] and returns it. *)
Definition configureCompatibleEndpointReasoning (storedValue : option string) (env : Env)
    : string * Env :=
  let configured :=
    normalizeReasoningFlag (or_else storedValue (env !! "NEMOCLAW_REASONING")) in
  let v := from_option flag_id "false" configured in
  (v, <["NEMOCLAW_REASONING" := v]> env).

Definition clearCompatibleEndpointReasoning (env : Env) : Env :=
  delete "NEMOCLAW_REASONING" env.

Inductive ReasoningEffort : Type := Low | Medium | High.
#[export] Instance ReasoningEffort_eq_dec : EqDecision ReasoningEffort.
Proof. solve_decision. Defined.
Definition effort_id (e : ReasoningEffort) : string :=
  match e with Low => "low" | Medium => "medium" | High => "high" end.

Definition REASONING_EFFORT_ENV : string := "NEMOCLAW_REASONING_EFFORT".
Definition REASONING_EFFORT_DEFAULT : string := "default".

Definition normalizeReasoningEffort (value : json) : option ReasoningEffort :=
  match value with
  | JStr s =>
      let normalized := js_lower (js_trim s) in
      if normalized =s "low" then Some Low
      else if normalized =s "medium" then Some Medium
      else if normalized =s "high" then Some High else None
  | _ => None
  end.

Record ReasoningEffortRequest := mkEffortRequest {
  effort : option ReasoningEffort;
  explicit : bool;
}.

Definition resolveReasoningEffortRequest (cliValue : json) (env : Env)
    : result choice_error ReasoningEffortRequest :=
  let rawCli := match cliValue with JStr s => js_trim s | _ => "" end in
  let rawEnv := js_trim (env_or_empty env REASONING_EFFORT_ENV) in
  let raw := if truthy rawCli then rawCli else rawEnv in
  if negb (truthy raw) then Ok (mkEffortRequest None false)
  else if js_lower raw =s REASONING_EFFORT_DEFAULT then Ok (mkEffortRequest None true)
  else match normalizeReasoningEffort (JStr raw) with
       | Some e => Ok (mkEffortRequest (Some e) true)
       | None => Throw InvalidReasoningEffort
       end.

(** [Some (requested, stored)] when an explicit effort is about to be ignored. *)
Definition describeIgnoredReasoningEffortEnv (storedValue : json) (env : Env)
    : result choice_error (option (option ReasoningEffort * option ReasoningEffort)) :=
  let stored := normalizeReasoningEffort storedValue in
  requested ← resolveReasoningEffortRequest JNull env;
  mret (if negb (explicit requested) then None
        else if bool_decide (effort requested = stored) then None
        else Some (effort requested, stored)).

Definition set_effort_env (configured : option ReasoningEffort) (env : Env) : Env :=
  match configured with
  | Some e => <[REASONING_EFFORT_ENV := effort_id e]> env
  | None => delete REASONING_EFFORT_ENV env
  end.

Definition configureCompatibleEndpointReasoningEffort (storedValue : json) (env : Env)
    (allowRequestFallback : bool) : result choice_error (option ReasoningEffort * Env) :=
  configured ←
    match normalizeReasoningEffort storedValue with
    | Some e => Ok (Some e)
    | None => if allowRequestFallback
              then effort <$> resolveReasoningEffortRequest JNull env else Ok None
    end;
  mret (configured, set_effort_env configured env).

Definition clearCompatibleEndpointReasoningEffort (env : Env) : Env :=
  delete REASONING_EFFORT_ENV env.

Definition applyReasoningEffortEnv (value : json) (env : Env) : Env :=
  set_effort_env (normalizeReasoningEffort value) env.

(** ** Serving profile provenance (profile-provenance.ts)

    The parsed value is a structured clone of the input, so a validated
    provenance is the JSON value itself. *)

Definition exactKeys (record : list (string * json)) (expected : list string) : bool :=
  bool_decide (sort_strings (map fst record) = sort_strings expected).

(** [/^[a-f0-9]{n}$/]. *)
Definition is_hex_digest (n : nat) (s : string) : bool :=
  (String.length s =? n)%nat && forallb is_lower_hex (chars s).

(** [/^sha256:[a-f0-9]{64}$/u]. *)
Definition is_sha256_ref (s : string) : bool :=
  starts_with "sha256:" s && is_hex_digest 64 (of_chars (drop 7 (chars s))).

Definition is_json_string (value : json) : bool :=
  match value with JStr _ => true | _ => false end.
Definition is_sha256_json (value : json) : bool :=
  match value with JStr s => is_sha256_ref s | _ => false end.
Definition is_safe_natural (value : json) : bool :=
  match value with JNum (NInt z) => (0 <=? z)%Z && (z <=? MAX_SAFE_INTEGER)%Z | _ => false end.

Definition provenance_keys : list string :=
  ["catalogDigest"; "estimatedImageDownloadBytes"; "estimatedModelDownloadBytes"; "model";
   "preset"; "recipe"; "runtimeImage"; "schemaVersion"].

Definition valid_provenance (input p r m : list (string * json)) : bool :=
  exactKeys input provenance_keys
  && is_int 1 (jget input "schemaVersion")
  && is_sha256_json (jget input "catalogDigest")
  && exactKeys p ["digest"; "displayName"; "id"; "supportState"]
  && exactKeys r ["backend"; "digest"; "id"]
  && exactKeys m ["id"; "revision"]
  && is_json_string (jget p "id") && is_sha256_json (jget p "digest")
  && is_json_string (jget p "displayName")
  && (is_str "supported" (jget p "supportState") || is_str "experimental" (jget p "supportState")
      || is_str "disabled" (jget p "supportState"))
  && is_json_string (jget r "id") && is_sha256_json (jget r "digest")
  && is_json_string (jget r "backend")
  && is_json_string (jget m "id") && is_json_string (jget m "revision")
  && (is_null (jget input "runtimeImage") || is_json_string (jget input "runtimeImage"))
  && (is_null (jget input "estimatedImageDownloadBytes")
      || is_safe_natural (jget input "estimatedImageDownloadBytes"))
  && (is_null (jget input "estimatedModelDownloadBytes")
      || is_safe_natural (jget input "estimatedModelDownloadBytes")).

Definition parseServingProfileProvenance (value : json) : option json :=
  match value with
  | JObj input =>
      match jget input "preset", jget input "recipe", jget input "model" with
      | JObj p, JObj r, JObj m => if valid_provenance input p r m then Some value else None
      | _, _, _ => None
      end
  | _ => None
  end.

(** ** Lemmas *)

Lemma normalizeWebSearchConfig_json c :
  normalizeWebSearchConfig (webSearchConfig_json c) = Some c.
Proof. by destruct c as [[]]. Qed.

Lemma normalizeToolDisclosure_id t : normalizeToolDisclosure (JStr (disclosure_id t)) = Some t.
Proof. by destruct t. Qed.

Lemma normalizeReasoningEffort_id e : normalizeReasoningEffort (JStr (effort_id e)) = Some e.
Proof. by destruct e. Qed.

Lemma parseServingProfileProvenance_id v w :
  parseServingProfileProvenance v = Some w → w = v.
Proof.
  unfold parseServingProfileProvenance. destruct v as [| | | | | |o]; try done.
  destruct (jget o "preset"), (jget o "recipe"), (jget o "model"); try done.
  destruct (valid_provenance _ _ _ _); [|done]. by intros [= <-].
Qed.

#[global] Arguments normalizeToolDisclosure : simpl never.
#[global] Arguments normalizeReasoningEffort : simpl never.
#[global] Arguments normalizeWebSearchConfig : simpl never.
#[global] Arguments parseServingProfileProvenance : simpl never.

(** ** Properties *)

(** reusing a live sandbox keeps the tool policy baked into it: when it
    records a mode the resolution either returns exactly that mode or refuses
    the conflicting explicit request; a recreation prefers the explicit
    request; an unreadable recorded value is never replaced by a default. *)
Theorem resolveSandboxToolDisclosure_respects_record requested recorded session exists_ recreate :
  match resolveSandboxToolDisclosure requested recorded session exists_ recreate with
  | Throw InvalidRecordedDisclosure => invalidRecordedToolDisclosure recorded = true
  | Throw (DisclosureConflict r q) =>
      exists_ = true ∧ recreate = false
      ∧ normalizeToolDisclosure recorded = Some r ∧ requested = Some q ∧ q ≠ r
  | Throw _ => False
  | Ok t =>
      invalidRecordedToolDisclosure recorded = false
      ∧ (∀ r, exists_ = true → recreate = false → normalizeToolDisclosure recorded = Some r → t = r)
      ∧ (∀ q, recreate = true → requested = Some q → t = q)
  end.
Proof.
  unfold resolveSandboxToolDisclosure.
  destruct (invalidRecordedToolDisclosure recorded) eqn:Hi; [done|].
  destruct exists_, recreate; simpl;
    destruct (normalizeToolDisclosure recorded) as [r|] eqn:Hr, requested as [q|]; simpl;
    try (case_bool_decide; subst); split_and!; intros; simplify_eq; auto.
Qed.

(** Writing a recorded reasoning effort to the environment and reading the
    environment back yields the same effort, explicit exactly when one was
    recorded; any other variable is untouched. *)
Theorem reasoning_effort_env_roundtrip value env :
  resolveReasoningEffortRequest JNull (applyReasoningEffortEnv value env)
  = Ok (mkEffortRequest (normalizeReasoningEffort value)
          (bool_decide (is_Some (normalizeReasoningEffort value))))
  ∧ delete REASONING_EFFORT_ENV (applyReasoningEffortEnv value env)
    = delete REASONING_EFFORT_ENV env.
Proof.
  unfold applyReasoningEffortEnv, resolveReasoningEffortRequest, env_or_empty.
  destruct (normalizeReasoningEffort value) as [e|]; cbn [set_effort_env]; split.
  - rewrite lookup_insert_eq. by destruct e; vm_compute.
  - apply delete_insert_eq.
  - by rewrite lookup_delete_eq.
  - apply delete_delete_eq.
Qed.
