(* ===== verification/Time.v ===== *)
(** * Canonical ISO timestamps

    [readCanonicalIsoTimestamp] (src/lib/state/onboard-session.ts and
    src/lib/state/onboard-checkpoint.ts) accepts the strings [v] with
    [new Date(v).toISOString() === v].  Those are the strings of
    [Date.prototype.toISOString]: a year of four digits, or a sign and six
    digits outside 0..9999, a calendar date, a time of day in milliseconds,
    within 8.64e15 ms of the epoch. *)

From S2P Require Import Prelude Json.

Local Open Scope Z_scope.

Definition digit_val (c : ascii) : Z := Z.of_N (code c) - 48.

(** The value of a run of digits, [None] when a character is not one. *)
Fixpoint digits_val (acc : Z) (l : list ascii) : option Z :=
  match l with
  | [] => Some acc
  | c :: l' => if is_digit c then digits_val (acc * 10 + digit_val c) l' else None
  end.

Definition is_leap (y : Z) : bool :=
  (y mod 4 =? 0) && (negb (y mod 100 =? 0) || (y mod 400 =? 0)).

Definition days_in_month (y m : Z) : Z :=
  if m =? 2 then (if is_leap y then 29 else 28)
  else if (m =? 4) || (m =? 6) || (m =? 9) || (m =? 11) then 30 else 31.

(** The year: four digits, or a sign and six digits for a year that needs them. *)
Definition iso_year (l : list ascii) : option (Z * list ascii) :=
  match l with
  | [] => None
  | c :: l' =>
      if Ascii.eqb c "+" then
        y ← digits_val 0 (take 6 l');
        if (10000 <=? y) && (List.length (take 6 l') =? 6)%nat then Some (y, drop 6 l') else None
      else if Ascii.eqb c "-" then
        y ← digits_val 0 (take 6 l');
        if (1 <=? y) && (List.length (take 6 l') =? 6)%nat then Some (- y, drop 6 l') else None
      else
        y ← digits_val 0 (take 4 l);
        if (List.length (take 4 l) =? 4)%nat then Some (y, drop 4 l) else None
  end.

(** [-MM-DDTHH:mm:ss.sssZ]: the month, day and time as the number MMDDHHmmsssss. *)
Definition iso_rest (l : list ascii) : option (Z * Z * Z) :=
  match l with
  | [h1; a; b; h2; c; d; t; e; f; c1; g; h; c2; i; j; dot; k; m; n; z] =>
      if (one_of "-" h1) && (one_of "-" h2) && (one_of "T" t) && (one_of ":" c1)
         && (one_of ":" c2) && (one_of "." dot) && (one_of "Z" z) then
        mo ← digits_val 0 [a; b]; dy ← digits_val 0 [c; d];
        hh ← digits_val 0 [e; f]; mi ← digits_val 0 [g; h]; ss ← digits_val 0 [i; j; k; m; n];
        if (hh <=? 23) && (mi <=? 59) && (ss <=? 59999)
        then Some (mo, dy, (hh * 100 + mi) * 100000 + ss) else None
      else None
  | _ => None
  end.

Definition isCanonicalIso (s : string) : bool :=
  match iso_year (chars s) with
  | None => false
  | Some (y, rest) =>
      match iso_rest rest with
      | None => false
      | Some (mo, dy, time) =>
          let stamp := (mo * 100 + dy) * 1000000000 + time in
          (1 <=? mo) && (mo <=? 12) && (1 <=? dy) && (dy <=? days_in_month y mo)
          && (-271821 <=? y) && (y <=? 275760)
          && (negb (y =? 275760) || (stamp <=? 913000000000))
          && (negb (y =? -271821) || (420000000000 <=? stamp))
      end
  end.

Definition readCanonicalIsoTimestamp (value : json) : option string :=
  match value with JStr s => if isCanonicalIso s then Some s else None | _ => None end.

Example iso_ordinary : isCanonicalIso "2026-02-28T23:59:59.999Z" = true.
Proof. vm_compute. reflexivity. Qed.
Example iso_not_a_day : isCanonicalIso "2026-02-29T00:00:00.000Z" = false.
Proof. vm_compute. reflexivity. Qed.
Example iso_extended : isCanonicalIso "+275760-09-13T00:00:00.000Z" = true.
Proof. vm_compute. reflexivity. Qed.
Example iso_short : isCanonicalIso "2026-02-28" = false.
Proof. vm_compute. reflexivity. Qed.

Lemma readCanonicalIsoTimestamp_inv v s :
  readCanonicalIsoTimestamp v = Some s → v = JStr s ∧ isCanonicalIso s = true.
Proof.
  destruct v; try done. unfold readCanonicalIsoTimestamp.
  destruct (isCanonicalIso _) eqn:E; [|done]. by intros [= <-].
Qed.

Lemma readCanonicalIsoTimestamp_str s :
  isCanonicalIso s = true → readCanonicalIsoTimestamp (JStr s) = Some s.
Proof. unfold readCanonicalIsoTimestamp. by intros ->. Qed.

Lemma isCanonicalIso_truthy s : isCanonicalIso s = true → truthy s = true.
Proof. by destruct s. Qed.

#[global] Arguments isCanonicalIso : simpl never.
