(* ===== verification/Station.v ===== *)
(** * Express resume intents (src/lib/onboard/station-express-resume.ts)

    The secret-free choices an interrupted DGX Station or Spark express install
    needs to be retried: the registered models (src/lib/inference/vllm-models.ts,
    the fields that identify a model), parsing and binding an intent, capturing
    one from the environment, and the environment a resume restores. *)

From S2P Require Import Prelude Json Names Choices.

(** ** The model registry (vllm-models.ts) *)

Inductive VllmPlatform : Type := Spark | StationPlatform | LinuxPlatform.
#[export] Instance VllmPlatform_eq_dec : EqDecision VllmPlatform.
Proof. solve_decision. Defined.

Record VllmModelDef := mkModel {
  model_id : string;
  envValue : string;
  servedModelId : option string;
  gated : bool;
  platforms : list VllmPlatform;
}.

Definition VLLM_MODELS : list VllmModelDef := [
  mkModel "Qwen/Qwen3.6-27B-FP8" "qwen3.6-27b" None false [Spark; StationPlatform; LinuxPlatform];
  mkModel "deepseek-ai/DeepSeek-R1-Distill-Llama-70B" "deepseek-r1-distill-70b" None true
    [Spark; StationPlatform; LinuxPlatform];
  mkModel "nvidia/NVIDIA-Nemotron-3-Nano-4B-FP8" "nemotron-3-nano-4b" None false
    [Spark; StationPlatform; LinuxPlatform];
  mkModel "deepseek-ai/DeepSeek-V4-Flash" "deepseek-v4-flash" None false [StationPlatform];
  mkModel "nvidia/NVIDIA-Nemotron-3-Ultra-550B-A55B-NVFP4" "nemotron-3-ultra-550b-a55b"
    (Some "nvidia/nemotron-3-ultra-550b-a55b") false [StationPlatform];
  mkModel "nvidia/Qwen3.6-35B-A3B-NVFP4" "qwen3.6-35b-a3b-nvfp4" None false [Spark] ].

Definition modelsForPlatform (p : VllmPlatform) : list VllmModelDef :=
  List.filter (λ m, bool_decide (p ∈ platforms m)) VLLM_MODELS.

(** Throws on an unknown value; an empty one selects nothing. *)
Definition selectVllmModelFromEnv (requestedRaw : string)
    : result string (option VllmModelDef) :=
  let requested := js_lower (js_trim requestedRaw) in
  if negb (truthy requested) then Ok None
  else match List.find (λ m, (js_lower (envValue m) =s requested)
                             || (js_lower (model_id m) =s requested)) VLLM_MODELS with
       | Some m => Ok (Some m)
       | None => Throw requestedRaw
       end.

Definition HF_TOKEN_ENV_KEYS : list string := ["HF_TOKEN"; "HUGGING_FACE_HUB_TOKEN"].

Definition assertGatedModelAccess (m : VllmModelDef) (env : Env) : result string unit :=
  if negb (gated m) then Ok tt
  else if existsb (λ key, truthy (js_trim (env_or_empty env key))) HF_TOKEN_ENV_KEYS then Ok tt
  else Throw (model_id m).

(** ** Intents *)

Definition STATION_EXPRESS_ENV : string := "NEMOCLAW_STATION_EXPRESS".
Definition RECEIPT_GENERATION_ENV : string := "NEMOCLAW_STATION_EXPRESS_RECEIPT_GENERATION".

Inductive StationExpressResumeIntent : Type :=
| StationIntent (model sandboxName : string) (receiptGeneration : option string)
    (bound : option (string * string))
| SparkIntent (model : option string) (sandboxName : string).
#[export] Instance StationExpressResumeIntent_eq_dec : EqDecision StationExpressResumeIntent.
Proof. solve_decision. Defined.

Definition intent_sandboxName (i : StationExpressResumeIntent) : string :=
  match i with StationIntent _ s _ _ => s | SparkIntent _ s => s end.
Definition is_spark (i : StationExpressResumeIntent) : bool :=
  match i with SparkIntent _ _ => true | _ => false end.
Definition intent_receipt (i : StationExpressResumeIntent) : option string :=
  match i with StationIntent _ _ r _ => r | _ => None end.
Definition intent_bound (i : StationExpressResumeIntent) : option (string * string) :=
  match i with StationIntent _ _ _ b => b | _ => None end.

(** [...(x ? { key: x } : {})]. *)
Definition opt_prop (key : string) (v : option string) : list (string * json) :=
  match v with Some s => [(key, JStr s)] | None => [] end.

(** The object the code builds, in its property order. *)
Definition intent_json (i : StationExpressResumeIntent) : json :=
  match i with
  | StationIntent model sandboxName receipt bound =>
      JObj ([("version", JNum (NInt 1)); ("model", JStr model); ("sandboxName", JStr sandboxName)]
            ++ opt_prop "receiptGeneration" receipt
            ++ match bound with
               | Some (served, checkpoint) =>
                   [("servedModel", JStr served); ("checkpointModel", JStr checkpoint)]
               | None => []
               end)
  | SparkIntent model sandboxName =>
      JObj ([("version", JNum (NInt 1)); ("kind", JStr "spark"); ("sandboxName", JStr sandboxName)]
            ++ opt_prop "model" model)
  end.

Definition model_on (p : VllmPlatform) (value : string) : option VllmModelDef :=
  match selectVllmModelFromEnv value with
  | Ok (Some m) => if bool_decide (p ∈ platforms m) then Some m else None
  | _ => None
  end.
Definition stationModel (value : json) : option VllmModelDef :=
  match value with JStr s => model_on StationPlatform s | _ => None end.
Definition sparkModel (value : json) : option VllmModelDef :=
  match value with JStr s => model_on Spark s | _ => None end.

Definition canonicalStationModelValue (value : string) : option string :=
  if negb (js_trim value =s value) then None else envValue <$> stationModel (JStr value).

Definition servedModel (m : VllmModelDef) : string := default (model_id m) (servedModelId m).

Definition qualifiedDualStationServedModel (env : Env) (m : VllmModelDef) : option string :=
  if negb (envValue m =s "nemotron-3-ultra-550b-a55b")
     || negb (truthy (js_trim (env_or_empty env "NEMOCLAW_DGX_STATION_PEER")))
     || negb (truthy (js_trim (env_or_empty env "NEMOCLAW_DGX_STATION_SSH_BINDING")))
  then None
  else let selected := js_trim (env_or_empty env "NEMOCLAW_MODEL") in
       if selected =s "nemotron-ultra" then Some selected else None.

Definition identifiesCheckpoint (m : VllmModelDef) (value : string) : bool :=
  let normalized := js_lower value in
  existsb (λ c, js_lower c =s normalized)
    ([envValue m; model_id m] ++ option_list (servedModelId m)).

Definition validSandboxName (value : json) : bool :=
  match value with
  | JStr s => (String.length s <=? NAME_MAX_LENGTH)%nat && NAME_VALID_PATTERN s
  | _ => false
  end.

(** [/^[0-9a-f]{32}$/]. *)
Definition is_receipt_generation (s : string) : bool := is_hex_digest 32 s.
Definition isValidStationExpressReceiptGeneration (value : json) : bool :=
  match value with JStr s => is_receipt_generation s | _ => false end.

(** validation.ts: [/^[A-Za-z0-9._:/-]+$/]. *)
Definition isSafeModelId (value : string) : bool :=
  truthy value && forallb (λ c, is_alnum c || one_of "._:/-" c) (chars value).

Definition MAX_SERVED_MODEL_LENGTH : nat := 512.

(** The checks shared by a parsed and a newly bound served model. *)
Definition valid_served_model (s : string) : bool :=
  truthy s && (String.length s <=? MAX_SERVED_MODEL_LENGTH)%nat
  && (js_trim s =s s) && isSafeModelId s.

Definition parseSparkResumeIntent (value : list (string * json)) (hasModel : bool)
    : option StationExpressResumeIntent :=
  if negb (is_int 1 (jget value "version")) || negb (is_str "spark" (jget value "kind"))
     || negb (validSandboxName (jget value "sandboxName")) then None
  else
    sandboxName ← readString (jget value "sandboxName");
    if hasModel then
      m ← sparkModel (jget value "model");
      if is_str (envValue m) (jget value "model")
      then Some (SparkIntent (Some (envValue m)) sandboxName) else None
    else Some (SparkIntent None sandboxName).

Definition parseStationExpressResumeIntent (value : json) : option StationExpressResumeIntent :=
  match value with
  | JObj o =>
      let keys := js_join "," (sort_strings (map fst o)) in
      let spark := keys =s "kind,sandboxName,version" in
      let spark_model := keys =s "kind,model,sandboxName,version" in
      let unbound := keys =s "model,sandboxName,version" in
      let unbound_receipt := keys =s "model,receiptGeneration,sandboxName,version" in
      let bound := keys =s "checkpointModel,model,sandboxName,servedModel,version" in
      let bound_receipt :=
        keys =s "checkpointModel,model,receiptGeneration,sandboxName,servedModel,version" in
      if spark || spark_model then parseSparkResumeIntent o spark_model
      else if negb (unbound || unbound_receipt || bound || bound_receipt) then None
      else if negb (is_int 1 (jget o "version")) then None
      else
        m ← stationModel (jget o "model");
        if negb (is_str (envValue m) (jget o "model"))
           || negb (validSandboxName (jget o "sandboxName")) then None
        else
          sandboxName ← readString (jget o "sandboxName");
          receipt ←
            (if unbound_receipt || bound_receipt
             then if isValidStationExpressReceiptGeneration (jget o "receiptGeneration")
                  then Some (readString (jget o "receiptGeneration")) else None
             else Some None);
          pair ←
            (if bound || bound_receipt then
               served ← readString (jget o "servedModel");
               checkpoint ← readString (jget o "checkpointModel");
               if valid_served_model served && identifiesCheckpoint m checkpoint
               then Some (Some (served, checkpoint)) else None
             else Some None);
          Some (StationIntent (envValue m) sandboxName receipt pair)
  | _ => None
  end.

(** Returns the bound intent, or throws. *)
Definition bindStationExpressProviderSelection (intentValue provider model checkpointModel : json)
    : result unit StationExpressResumeIntent :=
  match parseStationExpressResumeIntent intentValue with
  | Some (StationIntent m sandboxName receipt bound) =>
      match stationModel (JStr m) with
      | None => Throw tt
      | Some selected =>
          match bound with
          | Some (served, checkpoint) =>
              if is_str "vllm-local" provider && is_str served model
              then Ok (StationIntent m sandboxName receipt bound) else Throw tt
          | None =>
              match model, checkpointModel with
              | JStr ms, JStr cs =>
                  if is_str "vllm-local" provider && valid_served_model ms
                     && identifiesCheckpoint selected cs
                  then Ok (StationIntent m sandboxName receipt (Some (ms, model_id selected)))
                  else Throw tt
              | _, _ => Throw tt
              end
          end
      end
  | _ => Throw tt
  end.

(** ** Capturing and restoring the environment *)

(** [Some v] sets the variable, [None] unsets it; absent leaves it alone. *)
Definition ExpectedResumeEnvironment : Type := list (string * option string).

Definition expectedEnvironment (intent : StationExpressResumeIntent) (includeProviderSelection : bool)
    : option ExpectedResumeEnvironment :=
  match intent with
  | SparkIntent model sandboxName =>
      let pinned := match model with Some m => if truthy m then sparkModel (JStr m) else None
                                | None => None end in
      Some ([(STATION_EXPRESS_ENV, None); ("NEMOCLAW_NON_INTERACTIVE", Some "1");
             ("NEMOCLAW_YES", Some "1"); ("NEMOCLAW_POLICY_MODE", None);
             ("NEMOCLAW_SANDBOX_NAME", Some sandboxName)]
            ++ if includeProviderSelection then
                 [("NEMOCLAW_PROVIDER", Some "install-vllm");
                  ("NEMOCLAW_VLLM_MODEL", envValue <$> pinned);
                  ("NEMOCLAW_MODEL", servedModel <$> pinned)]
               else [])
  | StationIntent m sandboxName receipt bound =>
      model ← stationModel (JStr m);
      Some ([(STATION_EXPRESS_ENV, Some "1"); ("NEMOCLAW_NON_INTERACTIVE", Some "1");
             ("NEMOCLAW_YES", Some "1"); ("NEMOCLAW_POLICY_MODE", Some "suggested");
             ("NEMOCLAW_SANDBOX_NAME", Some sandboxName)]
            ++ match receipt with
               | Some g => if truthy g then [(RECEIPT_GENERATION_ENV, Some g)] else []
               | None => []
               end
            ++ if includeProviderSelection then
                 [("NEMOCLAW_PROVIDER", Some "install-vllm");
                  ("NEMOCLAW_VLLM_MODEL", Some (envValue model));
                  ("NEMOCLAW_MODEL", Some (from_option fst (servedModel model) bound))]
               else [])
  end.

Definition equivalentEnvironmentValue (name actual expected : string) : bool :=
  if name =s "NEMOCLAW_VLLM_MODEL" then
    match or_else (envValue <$> stationModel (JStr actual)) (envValue <$> sparkModel (JStr actual)) with
    | Some v => v =s expected
    | None => false
    end
  else if name =s "NEMOCLAW_SANDBOX_NAME" then js_lower (js_trim actual) =s expected
  else js_lower (js_trim actual) =s js_lower expected.

Definition RESUME_ENV : list string :=
  [STATION_EXPRESS_ENV; "NEMOCLAW_NON_INTERACTIVE"; "NEMOCLAW_YES"; "NEMOCLAW_POLICY_MODE";
   "NEMOCLAW_SANDBOX_NAME"; "NEMOCLAW_PROVIDER"; "NEMOCLAW_VLLM_MODEL"; "NEMOCLAW_MODEL";
   RECEIPT_GENERATION_ENV].

(** [expected[name]], with [None] for undefined. *)
Fixpoint expected_lookup (expected : ExpectedResumeEnvironment) (name : string)
    : option (option string) :=
  match expected with
  | [] => None
  | (k, v) :: e' => if k =s name then Some v else expected_lookup e' name
  end.

(** The first variable whose non-blank value conflicts. *)
Definition validateExpectedEnvironment (env : Env) (expected : ExpectedResumeEnvironment)
    : option string :=
  List.find (λ name,
    match expected_lookup expected name with
    | Some (Some expectedValue) =>
        match env !! name with
        | Some actual => truthy (js_trim actual)
                         && negb (equivalentEnvironmentValue name actual expectedValue)
        | None => false
        end
    | _ => false
    end) RESUME_ENV.

(** The error is the reason, as the code words it. *)
Inductive intent_error : Type :=
| MarkerInvalid
| ModelOrNameInvalid
| ReceiptInvalid
| ModelStateInvalid
| Requires (name : string)
| Conflicts (name : string).

Section WithHost.
(** [detectNvidiaPlatform() === "spark"]. *)
Context (host_is_spark : bool).

Definition getSparkExpressResumeIntent (env : Env) (sandboxName : option string)
    : option StationExpressResumeIntent :=
  let provider := js_lower (js_trim (env_or_empty env "NEMOCLAW_PROVIDER")) in
  let nonInteractive := js_trim (env_or_empty env "NEMOCLAW_NON_INTERACTIVE") =s "1" in
  match sandboxName with
  | Some name =>
      if (provider =s "install-vllm") && nonInteractive && validSandboxName (JStr name)
         && host_is_spark
      then Some (SparkIntent
                   (m ← env !! "NEMOCLAW_VLLM_MODEL"; envValue <$> sparkModel (JStr m)) name)
      else None
  | None => None
  end.

Definition getStationExpressResumeIntent (env : Env) (sandboxName : option string)
    : result intent_error (option StationExpressResumeIntent) :=
  let marker := js_trim (env_or_empty env STATION_EXPRESS_ENV) in
  if negb (truthy marker) then Ok (getSparkExpressResumeIntent env sandboxName)
  else if negb (marker =s "1") then Throw MarkerInvalid
  else
    match (m ← env !! "NEMOCLAW_VLLM_MODEL"; stationModel (JStr m)), sandboxName with
    | Some model, Some name =>
        if negb (validSandboxName (JStr name)) then Throw ModelOrNameInvalid
        else
          let receipt := env !! RECEIPT_GENERATION_ENV in
          if negb (from_option is_receipt_generation true receipt) then Throw ReceiptInvalid
          else
            let intent := StationIntent (envValue model) name receipt
              ((λ s, (s, model_id model)) <$> qualifiedDualStationServedModel env model) in
            match expectedEnvironment intent true with
            | None => Throw ModelStateInvalid
            | Some expected =>
                match List.find (λ name,
                        match expected_lookup expected name with
                        | Some (Some v) => negb (equivalentEnvironmentValue name
                                                   (env_or_empty env name) v)
                        | _ => true
                        end)
                      [STATION_EXPRESS_ENV; "NEMOCLAW_NON_INTERACTIVE"; "NEMOCLAW_YES";
                       "NEMOCLAW_POLICY_MODE"; "NEMOCLAW_PROVIDER"] with
                | Some n => Throw (Requires n)
                | None => match validateExpectedEnvironment env expected with
                          | Some n => Throw (Conflicts n)
                          | None => Ok (Some intent)
                          end
                end
            end
    | _, _ => Throw ModelOrNameInvalid
    end.
End WithHost.

(** [for (name of RESUME_ENV)]: what a resume writes before it runs. *)
Definition applyExpectedEnvironment (expected : ExpectedResumeEnvironment) (env : Env) : Env :=
  foldl (λ e name,
    match expected_lookup expected name with
    | None => e
    | Some None => delete name e
    | Some (Some v) => <[name := v]> e
    end) env RESUME_ENV.

(** The [finally] block: every variable that was written gets its previous
    value back. *)
Definition restoreEnvironment (expected : ExpectedResumeEnvironment) (previous env : Env) : Env :=
  foldl (λ e name,
    match expected_lookup expected name with
    | None => e
    | Some _ => match previous !! name with
                | None => delete name e
                | Some v => <[name := v]> e
                end
    end) env RESUME_ENV.

(** ** Lemmas *)

(** A well-formed intent: what every writer produces and every reader accepts. *)
Definition intent_ok (i : StationExpressResumeIntent) : bool :=
  match i with
  | StationIntent m s receipt bound =>
      match stationModel (JStr m) with
      | Some md =>
          (envValue md =s m) && validSandboxName (JStr s)
          && from_option is_receipt_generation true receipt
          && match bound with
             | Some (served, checkpoint) =>
                 valid_served_model served && identifiesCheckpoint md checkpoint
             | None => true
             end
      | None => false
      end
  | SparkIntent m s =>
      validSandboxName (JStr s)
      && match m with
         | Some m => match sparkModel (JStr m) with Some md => envValue md =s m | None => false end
         | None => true
         end
  end.

#[global] Arguments stationModel : simpl never.
#[global] Arguments sparkModel : simpl never.
#[global] Arguments validSandboxName : simpl never.
#[global] Arguments identifiesCheckpoint : simpl never.
#[global] Arguments valid_served_model : simpl never.
#[global] Arguments is_receipt_generation : simpl never.

Lemma registry_canonical m :
  m ∈ VLLM_MODELS → selectVllmModelFromEnv (envValue m) = Ok (Some m).
Proof.
  unfold VLLM_MODELS. rewrite !elem_of_cons, elem_of_nil.
  intros H. destruct_or! H; subst; by vm_compute.
Qed.

Lemma model_on_canonical p v m :
  model_on p v = Some m → model_on p (envValue m) = Some m.
Proof.
  unfold model_on at 1. destruct (selectVllmModelFromEnv v) as [[md|]|] eqn:Hs; try done.
  destruct (bool_decide (p ∈ platforms md)) eqn:Hp; [|done]. intros [= <-].
  unfold selectVllmModelFromEnv in Hs. destruct (truthy _); [|done]. cbn [negb] in Hs.
  destruct (List.find _ VLLM_MODELS) as [md'|] eqn:Hf; [|done]. injection Hs as <-.
  apply find_some in Hf as [Hin%list_elem_of_In _].
  unfold model_on. by rewrite (registry_canonical _ Hin), Hp.
Qed.

Lemma stationModel_canonical v m :
  stationModel v = Some m → stationModel (JStr (envValue m)) = Some m.
Proof. destruct v; try done. apply model_on_canonical. Qed.

Lemma sparkModel_canonical v m :
  sparkModel v = Some m → sparkModel (JStr (envValue m)) = Some m.
Proof. destruct v; try done. apply model_on_canonical. Qed.

Lemma identifies_own_id m : identifiesCheckpoint m (model_id m) = true.
Proof. unfold identifiesCheckpoint. simpl. by rewrite String.eqb_refl, orb_true_r. Qed.

Lemma validSandboxName_str v : validSandboxName v = true → ∃ s, v = JStr s.
Proof. destruct v; try done. eauto. Qed.

Lemma parse_intent_roundtrip i :
  intent_ok i = true → parseStationExpressResumeIntent (intent_json i) = Some i.
Proof.
  unfold parseStationExpressResumeIntent.
  destruct i as [m s receipt bound|m s]; cbn [intent_ok intent_json].
  - destruct (stationModel (JStr m)) as [md|] eqn:Hm; [|done]. intros H. bools.
    destruct receipt as [r|], bound as [[served ck]|]; cbn [opt_prop app];
      (set (k := js_join _ _); vm_compute in k; subst k);
      cbn -[stationModel validSandboxName valid_served_model identifiesCheckpoint];
      bools; rewrite ?Hm; cbn -[validSandboxName valid_served_model identifiesCheckpoint];
      cbn [from_option] in *; subst; rewrite ?String.eqb_refl; repeat (match goal with H : _ = true |- _ => rewrite H end); done.
  - intros H. bools. destruct m as [m|]; cbn [opt_prop app];
      (set (k := js_join _ _); vm_compute in k; subst k); cbn -[sparkModel validSandboxName];
      unfold parseSparkResumeIntent; cbn -[sparkModel validSandboxName];
      repeat (match goal with H : validSandboxName _ = true |- _ => rewrite H end); [|done].
    cbn -[sparkModel]. destruct (sparkModel (JStr m)) as [md|]; [|done]. bools. subst.
    cbn. by rewrite String.eqb_refl.
Qed.

Lemma parse_intent_ok v i : parseStationExpressResumeIntent v = Some i → intent_ok i = true.
Proof.
  destruct v as [| | | | | |o]; try done. unfold parseStationExpressResumeIntent.
  set (keys := js_join _ _). clearbody keys.
  destruct (_ || (keys =s "kind,model,sandboxName,version")) eqn:Hs.
  { clear Hs. unfold parseSparkResumeIntent.
    destruct (is_int 1 _), (is_str "spark" _), (validSandboxName _) eqn:Hn; try done.
    cbn [negb orb]. destruct (validSandboxName_str _ Hn) as [s Es]. rewrite Es in Hn |- *.
    cbn [readString mbind option_bind]. destruct (keys =s _).
    - destruct (sparkModel _) as [m|] eqn:Hm; [|done]. cbn [mbind option_bind].
      destruct (is_str _ _); [|done]. intros [= <-]. cbn [intent_ok].
      by rewrite Hn, (sparkModel_canonical _ _ Hm), String.eqb_refl.
    - intros [= <-]. cbn [intent_ok]. by rewrite Hn. }
  destruct (negb (_ || _ || _ || _)); [done|]. destruct (is_int 1 _); [|done]. cbn [negb].
  destruct (stationModel _) as [m|] eqn:Hm; [|done]. cbn [mbind option_bind].
  destruct (is_str _ _); [|done]. destruct (validSandboxName _) eqn:Hn; [|done]. cbn [negb orb].
  destruct (validSandboxName_str _ Hn) as [s Es]. rewrite Es in Hn |- *.
  cbn [readString mbind option_bind].
  destruct (if _ || _ then if isValidStationExpressReceiptGeneration _ then _ else _ else _)
    as [r|] eqn:Hr; [|done]. cbn [mbind option_bind].
  assert (Hr' : from_option is_receipt_generation true r = true).
  { destruct (_ || _) in Hr; [|by injection Hr as <-].
    destruct (jget o "receiptGeneration") as [| | | |g| |]; try done.
    simpl in Hr. destruct (is_receipt_generation g) eqn:Hg; [|done]. by injection Hr as <-. }
  destruct (if _ || _ then _ else Some None) as [b|] eqn:Hb in |- *; [|done].
  cbn [mbind option_bind]. intros [= <-]. cbn [intent_ok].
  rewrite (stationModel_canonical _ _ Hm), String.eqb_refl, Hn, Hr'. cbn [andb].
  destruct (_ || _) in Hb; [|by injection Hb as <-].
  destruct (jget o "servedModel"), (jget o "checkpointModel"); try done.
  cbn [readString mbind option_bind] in Hb. destruct (_ && _) eqn:Hv in Hb; [|done].
  by injection Hb as <-.
Qed.

Lemma bind_intent_ok v p mo ck i :
  bindStationExpressProviderSelection v p mo ck = Ok i →
  intent_ok i = true ∧ is_Some (intent_bound i).
Proof.
  unfold bindStationExpressProviderSelection.
  destruct (parseStationExpressResumeIntent v) as [[m s r b|]|] eqn:Hp; try done.
  apply parse_intent_ok in Hp. cbn [intent_ok] in Hp.
  destruct (stationModel (JStr m)) as [md|] eqn:Hm; [|done].
  destruct b as [[sv c]|].
  - destruct (is_str "vllm-local" p && is_str sv mo); [|done]. intros [= <-].
    cbn [intent_ok intent_bound]. rewrite Hm. eauto.
  - destruct mo, ck; try done.
    destruct (is_str "vllm-local" p && valid_served_model s0 && _) eqn:Hc; [|done].
    intros [= <-]. bools. cbn [intent_ok intent_bound]. rewrite Hm, identifies_own_id.
    split; [|eauto].
    subst. rewrite String.eqb_refl.
    by repeat (match goal with H : _ = true |- _ => rewrite H; clear H end).
Qed.

Lemma capture_intent_ok spark env name i :
  getStationExpressResumeIntent spark env name = Ok (Some i) → intent_ok i = true.
Proof.
  unfold getStationExpressResumeIntent. destruct (truthy _); cbn [negb].
  - destruct (_ =s "1"); [|done]. cbn [negb].
    destruct (env !! "NEMOCLAW_VLLM_MODEL") as [v|] eqn:Hv; [|done]. cbn [mbind option_bind].
    destruct (stationModel (JStr v)) as [md|] eqn:Hm; [|done].
    destruct name as [n|]; [|done]. destruct (validSandboxName (JStr n)) eqn:Hn; [|done].
    cbn [negb]. destruct (from_option is_receipt_generation true _) eqn:Hr; [|done]. cbn [negb].
    destruct (expectedEnvironment _ _); [|done]. destruct (List.find _ _); [done|].
    destruct (validateExpectedEnvironment _ _); [done|]. intros [= <-]. cbn [intent_ok].
    rewrite (stationModel_canonical _ _ Hm), String.eqb_refl, Hn, Hr. cbn [andb].
    unfold qualifiedDualStationServedModel. destruct (_ || _ || _) in |- *; [done|].
    destruct (_ =s "nemotron-ultra") eqn:Hs; [|done]. bools. rewrite Hs.
    cbn [fmap option_fmap option_map]. by rewrite identifies_own_id.
  - unfold getSparkExpressResumeIntent. destruct name as [n|]; [|done].
    destruct (_ && _ && validSandboxName _ && _) eqn:Hc; [|done]. bools. intros [= <-].
    cbn [intent_ok]. match goal with H : validSandboxName _ = true |- _ => rewrite H end. cbn [andb].
    destruct (env !! "NEMOCLAW_VLLM_MODEL") as [v|]; [|done]. cbn [mbind option_bind].
    destruct (sparkModel (JStr v)) as [md|] eqn:Hm; [|done]. cbn [fmap option_fmap option_map].
    by rewrite (sparkModel_canonical _ _ Hm), String.eqb_refl.
Qed.

(** Writing one slot per listed variable: each listed variable holds its slot,
    the others are untouched. *)
Lemma foldl_slots (f : string → Env → Env) (slot : string → Env → option string) (l : list string) :
  (∀ n e, f n e !! n = slot n e) →
  (∀ n m e, n ≠ m → f n e !! m = e !! m) →
  (∀ n e e', e !! n = e' !! n → slot n e = slot n e') →
  NoDup l → ∀ e m,
  foldl (λ e n, f n e) e l !! m = if bool_decide (m ∈ l) then slot m e else e !! m.
Proof.
  intros Hf Hne Hslot. induction 1 as [|n l Hn Hl IH]; intros e m; cbn [foldl].
  { by rewrite bool_decide_eq_false_2 by set_solver. }
  rewrite IH. destruct (decide (m = n)) as [->|Hm].
  - rewrite (bool_decide_eq_false_2 (n ∈ l)) by done.
    rewrite bool_decide_eq_true_2 by set_solver. apply Hf.
  - rewrite Hne by done. rewrite (bool_decide_ext (m ∈ n :: l) (m ∈ l)) by set_solver.
    destruct (bool_decide _); [|done]. apply Hslot. by apply Hne.
Qed.

Lemma RESUME_ENV_nodup : NoDup RESUME_ENV.
Proof. apply (bool_decide_unpack _). by vm_compute. Qed.

Lemma restoreEnvironment_lookup expected previous env m :
  restoreEnvironment expected previous env !! m =
  if bool_decide (m ∈ RESUME_ENV) && bool_decide (is_Some (expected_lookup expected m))
  then previous !! m else env !! m.
Proof.
  unfold restoreEnvironment.
  rewrite (foldl_slots (λ name e, match expected_lookup expected name with
      | None => e
      | Some _ => match previous !! name with
                  | None => delete name e | Some v => <[name:=v]> e end end)
    (λ name e, match expected_lookup expected name with
      | None => e !! name | Some _ => previous !! name end)).
  - destruct (bool_decide (m ∈ RESUME_ENV)); [|done]. cbn [andb].
    by destruct (expected_lookup expected m).
  - intros n e. destruct (expected_lookup expected n); [|done].
    destruct (previous !! n); [apply lookup_insert_eq|apply lookup_delete_eq].
  - intros n m' e Hne. destruct (expected_lookup expected n); [|done].
    destruct (previous !! n); [by apply lookup_insert_ne|by apply lookup_delete_ne].
  - intros n e e' He. by destruct (expected_lookup expected n).
  - apply RESUME_ENV_nodup.
Qed.

Lemma applyExpectedEnvironment_lookup expected env m :
  applyExpectedEnvironment expected env !! m =
  if bool_decide (m ∈ RESUME_ENV)
  then match expected_lookup expected m with Some v => v | None => env !! m end
  else env !! m.
Proof.
  unfold applyExpectedEnvironment.
  rewrite (foldl_slots (λ name e, match expected_lookup expected name with
      | None => e
      | Some None => delete name e
      | Some (Some v) => <[name:=v]> e end)
    (λ name e, match expected_lookup expected name with
      | None => e !! name | Some v => v end)); [done| | | |].
  - intros n e. destruct (expected_lookup expected n) as [[v|]|]; [| |done].
    + apply lookup_insert_eq.
    + apply lookup_delete_eq.
  - intros n m' e Hne. destruct (expected_lookup expected n) as [[v|]|]; [| |done].
    + by apply lookup_insert_ne.
    + by apply lookup_delete_ne.
  - intros n e e' He. by destruct (expected_lookup expected n).
  - apply RESUME_ENV_nodup.
Qed.

(** ** Properties *)

(** Every resume intent the program produces (parsed from disk, captured
    from the environment, or bound to a completed provider selection) survives
    being written to the session file and read back. *)
Theorem intent_survives_persistence i :
  (∃ v, parseStationExpressResumeIntent v = Some i)
  ∨ (∃ spark env name, getStationExpressResumeIntent spark env name = Ok (Some i))
  ∨ (∃ v p m c, bindStationExpressProviderSelection v p m c = Ok i) →
  parseStationExpressResumeIntent (json_disk (intent_json i)) = Some i.
Proof.
  intros H. assert (Hok : intent_ok i = true).
  { destruct H as [[v H]|[(sp & env & n & H)|(v & p & m & c & H)]].
    - by eapply parse_intent_ok.
    - by eapply capture_intent_ok.
    - by eapply bind_intent_ok. }
  rewrite json_disk_clean; [by apply parse_intent_roundtrip|].
  by destruct i as [? ? [] [[]|]|[] ?].
Qed.

Lemma intent_survives_persistence_witness :
  parseStationExpressResumeIntent
    (json_disk (intent_json (StationIntent "deepseek-v4-flash" "my-box" None
       (Some ("served", "deepseek-ai/DeepSeek-V4-Flash")))))
  = Some (StationIntent "deepseek-v4-flash" "my-box" None
       (Some ("served", "deepseek-ai/DeepSeek-V4-Flash"))).
Proof.
  apply intent_survives_persistence. right. right.
  exists (intent_json (StationIntent "deepseek-v4-flash" "my-box" None None)),
    (JStr "vllm-local"), (JStr "served"), (JStr "deepseek-v4-flash").
  vm_compute. reflexivity.
Defined.

(** The environment a resume borrows is given back: whatever the run did to
    it, every variable the resume wrote has its previous value afterwards and
    every other variable keeps what the run left. *)
Theorem resume_environment_restored expected previous during name :
  restoreEnvironment expected previous during !! name
  = (if bool_decide (name ∈ RESUME_ENV)
        && bool_decide (is_Some (expected_lookup expected name))
     then previous !! name else during !! name)
  ∧ restoreEnvironment expected previous (applyExpectedEnvironment expected previous) = previous.
Proof.
  split; [apply restoreEnvironment_lookup|]. apply map_eq. intros m.
  rewrite restoreEnvironment_lookup, applyExpectedEnvironment_lookup.
  destruct (bool_decide (m ∈ RESUME_ENV)); [|done]. cbn [andb].
  by destruct (expected_lookup expected m).
Qed.
