(* ===== verification/Checkpoint.v ===== *)
(** * The durable onboarding checkpoint

    src/lib/state/onboard-checkpoint-types.ts (the data), onboard-checkpoint-decision.ts
    (tri-state decisions), onboard-checkpoint.ts (the parser of every part, the
    schema dispatch and the serializer) and src/lib/core/gateway-capabilities.ts. *)

From S2P Require Import Prelude Json Names Machine Choices Time.

Definition CHECKPOINT_SCHEMA_VERSION : Z := 3.
Definition SUPPORTED_GATEWAY_CAPABILITIES : list string :=
  ["gateway.health"; "sandbox.create"; "sandbox.exec"; "gpu.passthrough"].
Definition DEFAULT_GATEWAY_PORT : Z := 8080.

(** ** Decisions (onboard-checkpoint-decision.ts) *)

Inductive CheckpointDecision (T : Type) : Type :=
| Unset
| Declined
| Selected (value : T).
Arguments Unset {T}.
Arguments Declined {T}.
Arguments Selected {T} value.
#[export] Instance CheckpointDecision_eq_dec {T} `{EqDecision T} :
  EqDecision (CheckpointDecision T).
Proof. solve_decision. Defined.

Definition isDecisionUnset {T} (d : CheckpointDecision T) : bool :=
  match d with Unset => true | _ => false end.
Definition isDecisionDeclined {T} (d : CheckpointDecision T) : bool :=
  match d with Declined => true | _ => false end.
Definition isDecisionSelected {T} (d : CheckpointDecision T) : bool :=
  match d with Selected _ => true | _ => false end.
Definition decisionValue {T} (d : CheckpointDecision T) : option T :=
  match d with Selected v => Some v | _ => None end.

Definition decisionsEqual {T} (valuesEqual : T → T → bool) (a b : CheckpointDecision T) : bool :=
  match a, b with
  | Selected x, Selected y => valuesEqual x y
  | Unset, Unset | Declined, Declined => true
  | _, _ => false
  end.

Definition decisionFromLegacyNullable {Raw Value} (completed : bool) (rawValue : option Raw)
    (parse : Raw → option Value) : CheckpointDecision Value :=
  if negb completed then Unset
  else match rawValue with
       | None => Declined
       | Some r => match parse r with None => Declined | Some v => Selected v end
       end.

Definition parseCheckpointDecision {T} (raw : json) (parseValue : json → option T)
    : option (CheckpointDecision T) :=
  match raw with
  | JObj o =>
      let kind := jget o "kind" in
      if is_str "unset" kind then Some Unset
      else if is_str "declined" kind then Some Declined
      else if is_str "selected" kind then Selected <$> parseValue (jget o "value")
      else None
  | _ => None
  end.

Definition decision_json {T} (value_json : T → json) (d : CheckpointDecision T) : json :=
  match d with
  | Unset => JObj [("kind", JStr "unset")]
  | Declined => JObj [("kind", JStr "declined")]
  | Selected v => JObj [("kind", JStr "selected"); ("value", value_json v)]
  end.

(** ** Data (onboard-checkpoint-types.ts) *)

Record CheckpointSandboxIdentity := mkIdentity { id_name : string; id_agent : string }.
Record CheckpointResourceProfile := mkProfile { cpu : string; memory : string }.
Record CheckpointMessagingSelection := mkMessaging {
  selectedChannels : list string;
  disabledChannels : list string;
}.

Inductive CheckpointEffectGroupName : Type :=
| WebSearchProviderGroup | MessagingProvidersGroup | SandboxCreateGroup | SandboxRegisterGroup.
#[export] Instance CheckpointEffectGroupName_eq_dec : EqDecision CheckpointEffectGroupName.
Proof. solve_decision. Defined.

Definition group_id (g : CheckpointEffectGroupName) : string :=
  match g with
  | WebSearchProviderGroup => "web_search_provider"
  | MessagingProvidersGroup => "messaging_providers"
  | SandboxCreateGroup => "sandbox_create"
  | SandboxRegisterGroup => "sandbox_register"
  end.

Record CheckpointEffectGroupRecord := mkEffect { completedAt : string; fingerprint : string }.

(** [Partial<Record<CheckpointEffectGroupName, CheckpointEffectGroupRecord>>]. *)
Record EffectGroups := mkGroups {
  eg_web_search : option CheckpointEffectGroupRecord;
  eg_messaging : option CheckpointEffectGroupRecord;
  eg_create : option CheckpointEffectGroupRecord;
  eg_register : option CheckpointEffectGroupRecord;
}.
#[export] Instance eta_EffectGroups : Eta EffectGroups := λ g,
  mkGroups (eg_web_search g) (eg_messaging g) (eg_create g) (eg_register g).

Definition no_groups : EffectGroups := mkGroups None None None None.

Definition group_get (gs : EffectGroups) (g : CheckpointEffectGroupName)
    : option CheckpointEffectGroupRecord :=
  match g with
  | WebSearchProviderGroup => eg_web_search gs
  | MessagingProvidersGroup => eg_messaging gs
  | SandboxCreateGroup => eg_create gs
  | SandboxRegisterGroup => eg_register gs
  end.

(** [{ ...groups, [g]: r }]; [None] deletes the property. *)
Definition group_set (g : CheckpointEffectGroupName) (r : option CheckpointEffectGroupRecord)
    (gs : EffectGroups) : EffectGroups :=
  match g with
  | WebSearchProviderGroup => gs <| eg_web_search := r |>
  | MessagingProvidersGroup => gs <| eg_messaging := r |>
  | SandboxCreateGroup => gs <| eg_create := r |>
  | SandboxRegisterGroup => gs <| eg_register := r |>
  end.

Record CheckpointProviderBinding := mkBinding {
  b_name : string; b_type : string; b_credentialEnv : string;
}.

Inductive SupervisorKind : Type := SystemdSystem | SystemdUser.
Record CheckpointGatewaySupervisor := mkSupervisor {
  s_kind : SupervisorKind; serviceName : string; execPath : string;
}.
Inductive GatewayMode : Type := NemoclawManaged | ExternallySupervised.
Inductive GatewaySource : Type := Declared | PackagedService | Standalone.

Record CheckpointGatewayAuthority := mkAuthority {
  ga_name : string;
  ga_port : Z;
  ga_mode : GatewayMode;
  ga_source : GatewaySource;
  ga_endpoint : option string;
  ga_stateDir : option string;
  ga_supervisor : option CheckpointGatewaySupervisor;
  ga_capabilities : list string;
}.

Record CheckpointBindings := mkBindings {
  credentialEnvs : list string;
  registeredProviders : list CheckpointProviderBinding;
}.

Inductive CheckpointSandboxRecreatePhase : Type :=
| PhPlanned | PhDeleting | PhDeleted | PhCreating | PhCreated | PhRegistryCommitting | PhCompleted.
#[export] Instance phase_eq_dec : EqDecision CheckpointSandboxRecreatePhase.
Proof. solve_decision. Defined.

(** The workload of the replaced image: [reference] and [shared]. *)
Record SourceWorkloadRef := mkWorkloadRef { w_reference : option string; w_shared : bool }.
Record CheckpointSandboxRecreateSourceWorkload := mkSourceWorkload {
  openshellDriver : option string;
  imageTag : string;
  workload : option SourceWorkloadRef;
}.

Record CheckpointSandboxRecreateTransaction := mkTx {
  tx_id : string;
  tx_revision : Z;
  tx_sandboxName : string;
  tx_gatewayName : string;
  tx_gatewayPort : Z;
  sourceRegistryFingerprint : string;
  sourceLiveIdentityFingerprint : option string;
  sourceWorkload : option CheckpointSandboxRecreateSourceWorkload;
  targetIntentFingerprint : string;
  targetGeneration : string;
  targetLiveIdentityFingerprint : option string;
  tx_phase : CheckpointSandboxRecreatePhase;
  tx_startedAt : string;
  tx_updatedAt : string;
}.
#[export] Instance eta_tx : Eta CheckpointSandboxRecreateTransaction := λ t,
  mkTx (tx_id t) (tx_revision t) (tx_sandboxName t) (tx_gatewayName t) (tx_gatewayPort t)
    (sourceRegistryFingerprint t) (sourceLiveIdentityFingerprint t) (sourceWorkload t)
    (targetIntentFingerprint t) (targetGeneration t) (targetLiveIdentityFingerprint t)
    (tx_phase t) (tx_startedAt t) (tx_updatedAt t).

Record OnboardCheckpoint := mkCheckpoint {
  cp_sessionId : string;
  cp_machineState : OnboardMachineState;
  cp_updatedAt : string;
  cp_sandboxIdentity : CheckpointDecision CheckpointSandboxIdentity;
  cp_webSearch : CheckpointDecision WebSearchConfig;
  cp_messaging : CheckpointDecision CheckpointMessagingSelection;
  cp_resourceProfile : CheckpointDecision CheckpointResourceProfile;
  cp_gatewayAuthority : CheckpointDecision CheckpointGatewayAuthority;
  cp_effectGroups : EffectGroups;
  cp_bindings : CheckpointBindings;
  cp_sandboxRecreate : option CheckpointSandboxRecreateTransaction;
}.
#[export] Instance eta_cp : Eta OnboardCheckpoint := λ c,
  mkCheckpoint (cp_sessionId c) (cp_machineState c) (cp_updatedAt c) (cp_sandboxIdentity c)
    (cp_webSearch c) (cp_messaging c) (cp_resourceProfile c) (cp_gatewayAuthority c)
    (cp_effectGroups c) (cp_bindings c) (cp_sandboxRecreate c).

Inductive CheckpointLoadResult : Type :=
| LoadNone
| Loaded (checkpoint : OnboardCheckpoint)
| Migrated (checkpoint : OnboardCheckpoint) (fromVersion : Z)
| UnsupportedFuture (foundVersion : Z)
| Corrupt.

(** ** Literals *)

Definition EFFECT_GROUP_NAMES : list CheckpointEffectGroupName :=
  [WebSearchProviderGroup; MessagingProvidersGroup; SandboxCreateGroup; SandboxRegisterGroup].
Definition SANDBOX_RECREATE_PHASES : list CheckpointSandboxRecreatePhase :=
  [PhPlanned; PhDeleting; PhDeleted; PhCreating; PhCreated; PhRegistryCommitting; PhCompleted].

Definition phase_id (p : CheckpointSandboxRecreatePhase) : string :=
  match p with
  | PhPlanned => "planned" | PhDeleting => "deleting" | PhDeleted => "deleted"
  | PhCreating => "creating" | PhCreated => "created"
  | PhRegistryCommitting => "registry_committing" | PhCompleted => "completed"
  end.
Definition supervisor_id (k : SupervisorKind) : string :=
  match k with SystemdSystem => "systemd-system" | SystemdUser => "systemd-user" end.
Definition mode_id (m : GatewayMode) : string :=
  match m with NemoclawManaged => "nemoclaw-managed"
             | ExternallySupervised => "externally-supervised" end.
Definition source_id (s : GatewaySource) : string :=
  match s with Declared => "declared" | PackagedService => "packaged-service"
             | Standalone => "standalone" end.

(** The member of a closed enumeration a value names. *)
Definition read_enum {A} (id : A → string) (all : list A) (value : json) : option A :=
  match value with JStr s => List.find (λ a, id a =s s) all | _ => None end.

Definition readPhase : json → option CheckpointSandboxRecreatePhase :=
  read_enum phase_id SANDBOX_RECREATE_PHASES.
Definition readSupervisorKind : json → option SupervisorKind :=
  read_enum supervisor_id [SystemdSystem; SystemdUser].
Definition readMode : json → option GatewayMode :=
  read_enum mode_id [NemoclawManaged; ExternallySupervised].
Definition readSource : json → option GatewaySource :=
  read_enum source_id [Declared; PackagedService; Standalone].

(** ** Patterns *)

Definition SHA256_PATTERN (s : string) : bool := is_hex_digest 64 s.

Definition hex_run (n : nat) (l : list ascii) : bool :=
  (List.length l =? n)%nat && forallb is_hex l.
(** The version and variant digits of a UUID, in either case. *)
Definition is_uuid_variant (c : ascii) : bool := one_of "89abAB" c.
Definition UUID_PATTERN (s : string) : bool :=
  match map chars (js_split "-" s) with
  | [a; b; (v :: c); (w :: d); e] =>
      hex_run 8 a && hex_run 4 b && in_range 49 56 v && hex_run 3 c
      && is_uuid_variant w && hex_run 3 d && hex_run 12 e
  | _ => false
  end.

(** [/^[A-Za-z0-9][A-Za-z0-9:_.@-]*\.service$/]. *)
Definition SERVICE_NAME_PATTERN (s : string) : bool :=
  ends_with ".service" s
  && match take (String.length s - 8) (chars s) with
     | [] => false
     | c :: rest => is_alnum c && forallb (λ c, is_alnum c || one_of ":_.@-" c) rest
     end.

(** [/^[a-z0-9][a-z0-9._-]*$/u]. *)
Definition DRIVER_PATTERN (s : string) : bool :=
  match chars s with
  | [] => false
  | c :: rest => is_name_end c && forallb (λ c, is_name_end c || one_of "._-" c) rest
  end.

(** [path.isAbsolute] on POSIX. *)
Definition isAbsolute (p : string) : bool := starts_with "/" p.

Definition canonicalGatewayName (gatewayPort : Z) : string :=
  if (gatewayPort =? DEFAULT_GATEWAY_PORT)%Z then "nemoclaw"
  else ("nemoclaw-" ++ num_to_string gatewayPort)%string.

(** [Number.isInteger(v)] and [1 <= v <= 65535]. *)
Definition readPortNumber (value : json) : option Z :=
  match value with
  | JNum (NInt z) => if (1 <=? z)%Z && (z <=? 65535)%Z then Some z else None
  | _ => None
  end.

(** ** The URL parser

    [new URL(s)] of the platform: [None] when it throws. *)
Record URL := mkURL {
  protocol : string; hostname : string; port : string; pathname : string;
  username : string; password : string; search : string; hash : string; origin : string;
}.

(** A nonempty string read from a property: [readString(v)] then [!v]. *)
Definition readNonEmpty (value : json) : option string :=
  match value with JStr s => if truthy s then Some s else None | _ => None end.

(** ** Parsers (onboard-checkpoint.ts) *)

Definition parseSandboxIdentityValue (value : json) : option CheckpointSandboxIdentity :=
  match value with
  | JObj o =>
      name ← readString (jget o "name");
      agent ← readString (jget o "agent");
      if truthy agent && (String.length name <=? NAME_MAX_LENGTH)%nat && NAME_VALID_PATTERN name
      then Some (mkIdentity name agent) else None
  | _ => None
  end.

Definition parseResourceProfileValue (value : json) : option CheckpointResourceProfile :=
  match value with
  | JObj o =>
      cpu ← readString (jget o "cpu"); memory ← readString (jget o "memory");
      Some (mkProfile cpu memory)
  | _ => None
  end.

Definition parseWebSearchValue (value : json) : option WebSearchConfig :=
  match value with JObj _ => normalizeWebSearchConfig value | _ => None end.

Definition parseMessagingValue (value : json) : option CheckpointMessagingSelection :=
  match value with
  | JObj o =>
      selected ← readStrictStringArray (jget o "selectedChannels");
      disabled ← readStrictStringArray (jget o "disabledChannels");
      Some (mkMessaging selected disabled)
  | _ => None
  end.

Definition parseEffectGroupRecord (value : json) : option CheckpointEffectGroupRecord :=
  match value with
  | JObj o =>
      completedAt ← readCanonicalIsoTimestamp (jget o "completedAt");
      fingerprint ← readNonEmpty (jget o "fingerprint");
      Some (mkEffect completedAt fingerprint)
  | _ => None
  end.

(** The loop over [EFFECT_GROUP_NAMES]: an absent group is skipped, a
    malformed one refuses the whole record. *)
Fixpoint parse_groups_loop (o : list (string * json)) (names : list CheckpointEffectGroupName)
    (groups : EffectGroups) : option EffectGroups :=
  match names with
  | [] => Some groups
  | name :: names' =>
      let raw := jget o (group_id name) in
      if is_undefined raw then parse_groups_loop o names' groups
      else r ← parseEffectGroupRecord raw;
           parse_groups_loop o names' (group_set name (Some r) groups)
  end.
Definition parseEffectGroups (value : json) : option EffectGroups :=
  match value with
  | JObj o => parse_groups_loop o EFFECT_GROUP_NAMES no_groups
  | _ => None
  end.

Definition parseProviderBinding (value : json) : option CheckpointProviderBinding :=
  match value with
  | JObj o =>
      name ← readNonEmpty (jget o "name");
      type ← readNonEmpty (jget o "type");
      credentialEnv ← readNonEmpty (jget o "credentialEnv");
      Some (mkBinding name type credentialEnv)
  | _ => None
  end.
Definition parseProviderBindings (value : json) : option (list CheckpointProviderBinding) :=
  match value with JArr l => mapM parseProviderBinding l | _ => None end.

Definition parseGatewaySupervisor (value : json) : option CheckpointGatewaySupervisor :=
  match value with
  | JObj o =>
      k ← readSupervisorKind (jget o "kind");
      serviceName ← readNonEmpty (jget o "serviceName");
      execPath ← readNonEmpty (jget o "execPath");
      if SERVICE_NAME_PATTERN serviceName && isAbsolute execPath
      then Some (mkSupervisor k serviceName execPath) else None
  | _ => None
  end.

Section WithURL.
Context (parseURL : string → option URL).

(** The loopback, credential-free endpoint of an external gateway, and its port. *)
Definition endpoint_ok (u : URL) : bool :=
  ((protocol u =s "http:") || (protocol u =s "https:"))
  && includes ["127.0.0.1"; "[::1]"; "::1"] (hostname u)
  && negb (truthy (username u)) && negb (truthy (password u))
  && negb (truthy (search u)) && negb (truthy (hash u))
  && (negb (truthy (pathname u)) || (pathname u =s "/")).

Definition endpoint_port (u : URL) : option Z :=
  if truthy (port u) then digits_val 0 (chars (port u))
  else Some (if protocol u =s "https:" then 443 else 80)%Z.

Definition parseGatewayAuthorityValue (value : json) : option CheckpointGatewayAuthority :=
  match value with
  | JObj o =>
      gatewayName ← readNonEmpty (jget o "gatewayName");
      gatewayPort ← readPortNumber (jget o "gatewayPort");
      let endpoint := readString (jget o "endpoint") in
      let stateDir := readString (jget o "stateDir") in
      if negb (gatewayName =s canonicalGatewayName gatewayPort) then None
      else
        mode ← readMode (jget o "mode");
        source ← readSource (jget o "source");
        caps ← readStrictStringArray (jget o "requiredCapabilities");
        if negb (forallb (includes SUPPORTED_GATEWAY_CAPABILITIES) caps) then None
        else
          match mode with
          | NemoclawManaged =>
              if bool_decide (endpoint = None) && bool_decide (stateDir = None)
                 && is_null (jget o "supervisor")
              then Some (mkAuthority gatewayName gatewayPort mode source None None None caps)
              else None
          | ExternallySupervised =>
              match source, endpoint, stateDir with
              | Declared, Some endpoint, Some stateDir =>
                  if negb (truthy endpoint) || negb (truthy stateDir) || negb (isAbsolute stateDir)
                  then None
                  else
                    u ← parseURL endpoint;
                    if negb (endpoint_ok u)
                       || negb (bool_decide (endpoint_port u = Some gatewayPort)) then None
                    else
                      sup ← parseGatewaySupervisor (jget o "supervisor");
                      Some (mkAuthority gatewayName gatewayPort mode source (Some (origin u))
                              (Some stateDir) (Some sup) caps)
              | _, _, _ => None
              end
          end
  | _ => None
  end.

Definition parseBindings (value : json) : option CheckpointBindings :=
  match value with
  | JObj o =>
      envs ← readStrictStringArray (jget o "credentialEnvs");
      providers ← parseProviderBindings (jget o "registeredProviders");
      Some (mkBindings envs providers)
  | _ => None
  end.

(** [None] is the code's [undefined]: the value is refused. *)
Definition readNullableSha256 (value : json) : option (option string) :=
  match value with
  | JNull => Some None
  | JStr s => if SHA256_PATTERN s then Some (Some s) else None
  | _ => None
  end.

Definition readBoundedJournalString (value : json) (maxLength : N) : option string :=
  match value with
  | JStr s =>
      if truthy s && (N.of_nat (String.length s) <=? maxLength)%N
         && forallb (λ c, negb ((code c =? 0)%N || (code c =? 10)%N || (code c =? 13)%N)) (chars s)
      then Some s else None
  | _ => None
  end.

(** The driver and the workload reference: [null] or a bounded string, with
    the pattern of a driver and the image tag itself as the only reference. *)
Definition readDriver (value : json) : option (option string) :=
  match value with
  | JNull => Some None
  | v => d ← readBoundedJournalString v 128;
         if DRIVER_PATTERN d then Some (Some d) else None
  end.
Definition readReference (imageTag : string) (value : json) : option (option string) :=
  match value with
  | JNull => Some None
  | v => r ← readBoundedJournalString v 4096;
         if r =s imageTag then Some (Some r) else None
  end.

Definition parseSandboxRecreateSourceWorkload (value : json)
    : option (option CheckpointSandboxRecreateSourceWorkload) :=
  match value with
  | JUndef | JNull => Some None
  | JObj o =>
      driver ← readDriver (jget o "openshellDriver");
      imageTag ← readBoundedJournalString (jget o "imageTag") 4096;
      match jget o "workload" with
      | JNull => Some (Some (mkSourceWorkload driver imageTag None))
      | JObj w =>
          if negb (is_str "legacy-dockerfile" (jget w "kind")) then None
          else
            match jget w "shared" with
            | JBool shared =>
                reference ← readReference imageTag (jget w "reference");
                Some (Some (mkSourceWorkload driver imageTag
                              (Some (mkWorkloadRef reference shared))))
            | _ => None
            end
      | _ => None
      end
  | _ => None
  end.

Definition readSha256 (value : json) : option string :=
  match value with JStr s => if SHA256_PATTERN s then Some s else None | _ => None end.
Definition readUuid (value : json) : option string :=
  match value with JStr s => if UUID_PATTERN s then Some s else None | _ => None end.
Definition readSandboxName (value : json) : option string :=
  match value with
  | JStr s => if truthy s && (String.length s <=? NAME_MAX_LENGTH)%nat && NAME_VALID_PATTERN s
              then Some s else None
  | _ => None
  end.
Definition readSafeNatural (value : json) : option Z :=
  match value with
  | JNum (NInt z) => if (0 <=? z)%Z && (z <=? MAX_SAFE_INTEGER)%Z then Some z else None
  | _ => None
  end.

Definition parseSandboxRecreateTransaction (value : json)
    : option CheckpointSandboxRecreateTransaction :=
  match value with
  | JObj o =>
      if negb (is_int 1 (jget o "version")) then None
      else
        id ← readUuid (jget o "id");
        sandboxName ← readSandboxName (jget o "sandboxName");
        gatewayName ← readNonEmpty (jget o "gatewayName");
        gatewayPort ← readPortNumber (jget o "gatewayPort");
        if negb (gatewayName =s canonicalGatewayName gatewayPort) then None
        else
          sourceRegistry ← readSha256 (jget o "sourceRegistryFingerprint");
          sourceLive ← readNullableSha256 (jget o "sourceLiveIdentityFingerprint");
          workload ← parseSandboxRecreateSourceWorkload (jget o "sourceWorkload");
          targetIntent ← readSha256 (jget o "targetIntentFingerprint");
          generation ← readUuid (jget o "targetGeneration");
          targetLive ← readNullableSha256 (jget o "targetLiveIdentityFingerprint");
          phase ← readPhase (jget o "phase");
          revision ← readSafeNatural (jget o "revision");
          startedAt ← readCanonicalIsoTimestamp (jget o "startedAt");
          updatedAt ← readCanonicalIsoTimestamp (jget o "updatedAt");
          Some (mkTx id revision sandboxName gatewayName gatewayPort sourceRegistry sourceLive
                  workload targetIntent generation targetLive phase startedAt updatedAt)
  | _ => None
  end.

(** A journal is only accepted for the sandbox and the gateway the checkpoint selected. *)
Definition journal_matches (identity : CheckpointDecision CheckpointSandboxIdentity)
    (authority : CheckpointDecision CheckpointGatewayAuthority)
    (tx : CheckpointSandboxRecreateTransaction) : bool :=
  match identity, authority with
  | Selected i, Selected a =>
      (id_name i =s tx_sandboxName tx) && (ga_name a =s tx_gatewayName tx)
      && (ga_port a =? tx_gatewayPort tx)%Z
  | _, _ => false
  end.

Definition readMachineState (value : json) : option OnboardMachineState :=
  match value with JStr s => parse_state s | _ => None end.

(** [raw === null ? null : parse(raw)], refused when the parse fails. *)
Definition readSandboxRecreate (raw : json) : option (option CheckpointSandboxRecreateTransaction) :=
  match raw with
  | JNull => Some None
  | raw => Some <$> parseSandboxRecreateTransaction raw
  end.

Definition parseSchema (value : list (string * json)) (gatewayAuthorityRaw sandboxRecreateRaw : json)
    : option OnboardCheckpoint :=
  sessionId ← readString (jget value "sessionId");
  updatedAt ← readCanonicalIsoTimestamp (jget value "updatedAt");
  machineState ← readMachineState (jget value "machineState");
  sandboxIdentity ← parseCheckpointDecision (jget value "sandboxIdentity") parseSandboxIdentityValue;
  webSearch ← parseCheckpointDecision (jget value "webSearch") parseWebSearchValue;
  messaging ← parseCheckpointDecision (jget value "messaging") parseMessagingValue;
  resourceProfile ←
    parseCheckpointDecision (jget value "resourceProfile") parseResourceProfileValue;
  gatewayAuthority ← parseCheckpointDecision gatewayAuthorityRaw parseGatewayAuthorityValue;
  effectGroups ← parseEffectGroups (jget value "effectGroups");
  bindings ← parseBindings (jget value "bindings");
  sandboxRecreate ← readSandboxRecreate sandboxRecreateRaw;
  if from_option (journal_matches sandboxIdentity gatewayAuthority) true sandboxRecreate
  then Some (mkCheckpoint sessionId machineState updatedAt sandboxIdentity webSearch messaging
               resourceProfile gatewayAuthority effectGroups bindings sandboxRecreate)
  else None.

Definition inspectCheckpoint (raw : json) : CheckpointLoadResult :=
  match raw with
  | JUndef | JNull => LoadNone
  | JObj o =>
      match jget o "schemaVersion" with
      | JNum (NInt version) =>
          if (version <? 1)%Z then Corrupt
          else if (CHECKPOINT_SCHEMA_VERSION <? version)%Z then UnsupportedFuture version
          else if (version =? CHECKPOINT_SCHEMA_VERSION)%Z then
            match parseSchema o (jget o "gatewayAuthority") (jget o "sandboxRecreate") with
            | Some c => Loaded c | None => Corrupt end
          else if (version =? 2)%Z then
            match parseSchema o (jget o "gatewayAuthority") JNull with
            | Some c => Migrated c 2 | None => Corrupt end
          else if (version =? 1)%Z then
            match parseSchema o (JObj [("kind", JStr "unset")]) JNull with
            | Some c => Migrated c 1 | None => Corrupt end
          else Corrupt
      | _ => Corrupt
      end
  | _ => Corrupt
  end.
End WithURL.

(** ** The values as JSON, in the property order of the parsers' literals *)

Definition identity_json (i : CheckpointSandboxIdentity) : json :=
  JObj [("name", JStr (id_name i)); ("agent", JStr (id_agent i))].
Definition profile_json (p : CheckpointResourceProfile) : json :=
  JObj [("cpu", JStr (cpu p)); ("memory", JStr (memory p))].
Definition messaging_json (m : CheckpointMessagingSelection) : json :=
  JObj [("selectedChannels", jstrs (selectedChannels m));
        ("disabledChannels", jstrs (disabledChannels m))].
Definition effect_json (r : CheckpointEffectGroupRecord) : json :=
  JObj [("completedAt", JStr (completedAt r)); ("fingerprint", JStr (fingerprint r))].
Definition group_prop (gs : EffectGroups) (g : CheckpointEffectGroupName) : list (string * json) :=
  match group_get gs g with Some r => [(group_id g, effect_json r)] | None => [] end.
Definition groups_json (gs : EffectGroups) : json :=
  JObj (group_prop gs WebSearchProviderGroup ++ group_prop gs MessagingProvidersGroup
        ++ group_prop gs SandboxCreateGroup ++ group_prop gs SandboxRegisterGroup).
Definition binding_json (b : CheckpointProviderBinding) : json :=
  JObj [("name", JStr (b_name b)); ("type", JStr (b_type b));
        ("credentialEnv", JStr (b_credentialEnv b))].
Definition bindings_json (b : CheckpointBindings) : json :=
  JObj [("credentialEnvs", jstrs (credentialEnvs b));
        ("registeredProviders", JArr (map binding_json (registeredProviders b)))].
Definition supervisor_json (s : CheckpointGatewaySupervisor) : json :=
  JObj [("kind", JStr (supervisor_id (s_kind s))); ("serviceName", JStr (serviceName s));
        ("execPath", JStr (execPath s))].
Definition authority_json (a : CheckpointGatewayAuthority) : json :=
  JObj [("gatewayName", JStr (ga_name a)); ("gatewayPort", JNum (NInt (ga_port a)));
        ("mode", JStr (mode_id (ga_mode a))); ("source", JStr (source_id (ga_source a)));
        ("endpoint", jopt (ga_endpoint a)); ("stateDir", jopt (ga_stateDir a));
        ("supervisor", from_option supervisor_json JNull (ga_supervisor a));
        ("requiredCapabilities", jstrs (ga_capabilities a))].
Definition workload_ref_json (w : SourceWorkloadRef) : json :=
  JObj [("kind", JStr "legacy-dockerfile"); ("reference", jopt (w_reference w));
        ("shared", JBool (w_shared w))].
Definition source_workload_json (w : CheckpointSandboxRecreateSourceWorkload) : json :=
  JObj [("openshellDriver", jopt (openshellDriver w)); ("imageTag", JStr (imageTag w));
        ("workload", from_option workload_ref_json JNull (workload w))].
Definition tx_json (t : CheckpointSandboxRecreateTransaction) : json :=
  JObj [("version", JNum (NInt 1)); ("id", JStr (tx_id t));
        ("revision", JNum (NInt (tx_revision t))); ("sandboxName", JStr (tx_sandboxName t));
        ("gatewayName", JStr (tx_gatewayName t)); ("gatewayPort", JNum (NInt (tx_gatewayPort t)));
        ("sourceRegistryFingerprint", JStr (sourceRegistryFingerprint t));
        ("sourceLiveIdentityFingerprint", jopt (sourceLiveIdentityFingerprint t));
        ("sourceWorkload", from_option source_workload_json JNull (sourceWorkload t));
        ("targetIntentFingerprint", JStr (targetIntentFingerprint t));
        ("targetGeneration", JStr (targetGeneration t));
        ("targetLiveIdentityFingerprint", jopt (targetLiveIdentityFingerprint t));
        ("phase", JStr (phase_id (tx_phase t))); ("startedAt", JStr (tx_startedAt t));
        ("updatedAt", JStr (tx_updatedAt t))].

Definition serializeCheckpoint (c : OnboardCheckpoint) : json :=
  JObj [("schemaVersion", JNum (NInt CHECKPOINT_SCHEMA_VERSION));
        ("sessionId", JStr (cp_sessionId c));
        ("machineState", JStr (state_id (cp_machineState c)));
        ("updatedAt", JStr (cp_updatedAt c));
        ("sandboxIdentity", decision_json identity_json (cp_sandboxIdentity c));
        ("webSearch", decision_json webSearchConfig_json (cp_webSearch c));
        ("messaging", decision_json messaging_json (cp_messaging c));
        ("resourceProfile", decision_json profile_json (cp_resourceProfile c));
        ("gatewayAuthority", decision_json authority_json (cp_gatewayAuthority c));
        ("effectGroups", groups_json (cp_effectGroups c));
        ("bindings", bindings_json (cp_bindings c));
        ("sandboxRecreate", from_option tx_json JNull (cp_sandboxRecreate c))].

(** ** Lemmas: what a parser accepts is a fixed point of write-then-read *)

Lemma read_enum_id {A} (id : A → string) all a :
  (∀ x y, id x = id y → x = y) → a ∈ all → read_enum id all (JStr (id a)) = Some a.
Proof.
  intros Hinj Hin. unfold read_enum. induction all as [|b all IH]; [by apply elem_of_nil in Hin|].
  simpl. destruct (id b =s id a) eqn:E.
  - bools. f_equal. by apply Hinj.
  - apply IH. apply elem_of_cons in Hin as [->|Hin]; [|done]. by rewrite String.eqb_refl in E.
Qed.

Lemma readPhase_id p : readPhase (JStr (phase_id p)) = Some p.
Proof. by destruct p. Qed.
Lemma readSupervisorKind_id k : readSupervisorKind (JStr (supervisor_id k)) = Some k.
Proof. by destruct k. Qed.
Lemma readMode_id m : readMode (JStr (mode_id m)) = Some m.
Proof. by destruct m. Qed.
Lemma readSource_id m : readSource (JStr (source_id m)) = Some m.
Proof. by destruct m. Qed.

Lemma readNonEmpty_inv v s : readNonEmpty v = Some s → truthy s = true.
Proof. destruct v; try done. unfold readNonEmpty. intros H. opt_inv H. done. Qed.
Lemma readNonEmpty_str s : truthy s = true → readNonEmpty (JStr s) = Some s.
Proof. unfold readNonEmpty. by intros ->. Qed.
Lemma readString_inv v s : readString v = Some s → v = JStr s.
Proof. destruct v; try done. by intros [= <-]. Qed.

Lemma identity_rt v i :
  parseSandboxIdentityValue v = Some i → parseSandboxIdentityValue (identity_json i) = Some i.
Proof.
  destruct v as [| | | | | |o]; try done. unfold parseSandboxIdentityValue, identity_json.
  intros H. opt_inv H. jget_simpl. cbn [id_name id_agent]. by rewrite_bools.
Qed.

Lemma profile_rt p : parseResourceProfileValue (profile_json p) = Some p.
Proof. by destruct p. Qed.

Lemma messaging_rt m : parseMessagingValue (messaging_json m) = Some m.
Proof.
  destruct m as [s d]. unfold parseMessagingValue, messaging_json. jget_simpl.
  by rewrite !readStrictStringArray_jstrs.
Qed.

Lemma webSearch_rt c : parseWebSearchValue (webSearchConfig_json c) = Some c.
Proof. apply normalizeWebSearchConfig_json. Qed.

Lemma effect_rt v r :
  parseEffectGroupRecord v = Some r → parseEffectGroupRecord (effect_json r) = Some r.
Proof.
  destruct v as [| | | | | |o]; try done. unfold parseEffectGroupRecord, effect_json.
  intros H. opt_inv H. jget_simpl. cbn [completedAt fingerprint].
  apply readCanonicalIsoTimestamp_inv in E as [_ E]. apply readNonEmpty_inv in E0.
  by rewrite (readCanonicalIsoTimestamp_str _ E), readNonEmpty_str.
Qed.

Lemma binding_rt v b :
  parseProviderBinding v = Some b → parseProviderBinding (binding_json b) = Some b.
Proof.
  destruct v as [| | | | | |o]; try done. unfold parseProviderBinding, binding_json.
  intros H. opt_inv H. jget_simpl. cbn [b_name b_type b_credentialEnv].
  apply readNonEmpty_inv in E, E0, E1. by rewrite !readNonEmpty_str.
Qed.

Lemma bindings_rt v b : parseBindings v = Some b → parseBindings (bindings_json b) = Some b.
Proof.
  destruct v as [| | | | | |o]; try done. unfold parseBindings, bindings_json.
  intros H. opt_inv H. jget_simpl. cbn [credentialEnvs registeredProviders].
  rewrite readStrictStringArray_jstrs. cbn [mbind option_bind].
  assert (Hp : parseProviderBindings (JArr (map binding_json l0)) = Some l0); [|by rewrite Hp].
  destruct (jget o "registeredProviders") as [| | | | |bs|]; try done.
  unfold parseProviderBindings in *. revert l0 E0. clear.
  induction bs as [|x bs IH]; cbn [mapM mret option_ret]; intros l H; opt_inv H; [done|].
  cbn [map mapM]. rewrite (binding_rt _ _ E). cbn [mbind option_bind]. by rewrite (IH _ eq_refl).
Qed.

Lemma supervisor_rt v s :
  parseGatewaySupervisor v = Some s → parseGatewaySupervisor (supervisor_json s) = Some s.
Proof.
  destruct v as [| | | | | |o]; try done. unfold parseGatewaySupervisor, supervisor_json.
  intros H. opt_inv H. jget_simpl. cbn [s_kind serviceName execPath].
  apply readNonEmpty_inv in E0, E1. rewrite readSupervisorKind_id. cbn [mbind option_bind].
  rewrite !readNonEmpty_str by done. cbn [mbind option_bind]. by rewrite_bools.
Qed.

Lemma groups_loop_get o names gs gs' :
  parse_groups_loop o names gs = Some gs' →
  ∀ g, group_get gs' g = group_get gs g
       ∨ ∃ r v, group_get gs' g = Some r ∧ parseEffectGroupRecord v = Some r.
Proof.
  revert gs. induction names as [|n names IH]; intros gs H g; cbn [parse_groups_loop] in H.
  { opt_inv H. by left. }
  destruct (is_undefined _); [by apply IH|]. opt_inv H.
  destruct (IH _ H g) as [Hg|Hg]; [|by right]. rewrite Hg.
  destruct (decide (g = n)) as [->|Hne].
  - right. exists c, (jget o (group_id n)). by destruct n.
  - left. by destruct g, n.
Qed.

Lemma groups_records v gs :
  parseEffectGroups v = Some gs →
  ∀ g r, group_get gs g = Some r → parseEffectGroupRecord (effect_json r) = Some r.
Proof.
  destruct v as [| | | | | |o]; try done. cbn [parseEffectGroups]. intros H g r E.
  destruct (groups_loop_get _ _ _ _ H g) as [Hn|(r' & v' & E' & P)].
  - rewrite E in Hn. by destruct g.
  - rewrite E in E'. injection E' as <-. by eapply effect_rt.
Qed.

Lemma records_groups gs :
  (∀ g r, group_get gs g = Some r → parseEffectGroupRecord (effect_json r) = Some r) →
  parseEffectGroups (groups_json gs) = Some gs.
Proof.
  intros Hr. unfold parseEffectGroups, groups_json, group_prop, EFFECT_GROUP_NAMES.
  destruct gs as [w m c r]. cbn [group_get eg_web_search eg_messaging eg_create eg_register].
  pose proof (Hr WebSearchProviderGroup) as H1. pose proof (Hr MessagingProvidersGroup) as H2.
  pose proof (Hr SandboxCreateGroup) as H3. pose proof (Hr SandboxRegisterGroup) as H4.
  cbn [group_get eg_web_search eg_messaging eg_create eg_register] in H1, H2, H3, H4.
  destruct w, m, c, r; cbn [app group_id parse_groups_loop];
    repeat (jget_simpl; cbn [is_undefined effect_json];
            rewrite ?(H1 _ eq_refl), ?(H2 _ eq_refl), ?(H3 _ eq_refl), ?(H4 _ eq_refl));
    done.
Qed.

Lemma groups_rt v gs : parseEffectGroups v = Some gs → parseEffectGroups (groups_json gs) = Some gs.
Proof. intros H. apply records_groups. by eapply groups_records. Qed.

Lemma decision_rt {T} (parseValue : json → option T) value_json raw d :
  (∀ v x, parseValue v = Some x → parseValue (value_json x) = Some x) →
  parseCheckpointDecision raw parseValue = Some d →
  parseCheckpointDecision (decision_json value_json d) parseValue = Some d.
Proof.
  intros Hrt. destruct raw as [| | | | | |o]; try done. unfold parseCheckpointDecision at 1.
  destruct (is_str "unset" _); [by intros [= <-]|].
  destruct (is_str "declined" _); [by intros [= <-]|].
  destruct (is_str "selected" _); [|done]. intros H. opt_inv H.
  unfold decision_json, parseCheckpointDecision. jget_simpl. by rewrite (Hrt _ _ E).
Qed.

Lemma readNullableSha256_rt v s :
  readNullableSha256 v = Some s → readNullableSha256 (jopt s) = Some s.
Proof.
  destruct v; try done; cbn [readNullableSha256]; [by intros [= <-]|].
  intros H. opt_inv H. cbn [jopt from_option readNullableSha256]. by rewrite_bools.
Qed.

Lemma readBounded_inv v n s :
  readBoundedJournalString v n = Some s → v = JStr s ∧ readBoundedJournalString (JStr s) n = Some s.
Proof.
  destruct v as [| | | |s'| |]; try done. intros H. assert (s' = s) as ->; [|done].
  unfold readBoundedJournalString in H. by opt_inv H.
Qed.

Lemma readDriver_rt v d : readDriver v = Some d → readDriver (jopt d) = Some d.
Proof.
  unfold readDriver. destruct v as [| | | |s| |]; try done; [by intros [= <-]|].
  intros H. opt_inv H. destruct (readBounded_inv _ _ _ E) as [_ Hs].
  cbn [jopt from_option]. rewrite Hs. cbn [mbind option_bind]. by rewrite_bools.
Qed.

Lemma readReference_rt t v r :
  readReference t v = Some r → readReference t (jopt r) = Some r.
Proof.
  unfold readReference. destruct v as [| | | |s| |]; try done; [by intros [= <-]|].
  intros H. opt_inv H. destruct (readBounded_inv _ _ _ E) as [_ Hs].
  cbn [jopt from_option]. rewrite Hs. cbn [mbind option_bind]. by rewrite_bools.
Qed.

Lemma workload_rt v w :
  parseSandboxRecreateSourceWorkload v = Some w →
  parseSandboxRecreateSourceWorkload (from_option source_workload_json JNull w) = Some w.
Proof.
  destruct v as [| | | | | |o]; try done; [by intros [= <-]..|].
  unfold parseSandboxRecreateSourceWorkload. intros H. opt_inv H.
  apply readDriver_rt in E. destruct (readBounded_inv _ _ _ E0) as [_ Ht].
  destruct (jget o "workload") as [| | | | | |w']; try done.
  { opt_inv H. cbn [from_option source_workload_json openshellDriver imageTag workload].
    jget_simpl. rewrite E. cbn [mbind option_bind]. by rewrite Ht. }
  opt_inv H. destruct (jget w' "shared") as [| |sh| | | |]; try done. opt_inv H.
  apply readReference_rt in E2.
  cbn [from_option source_workload_json openshellDriver imageTag workload workload_ref_json
       w_reference w_shared].
  jget_simpl. rewrite E. cbn [mbind option_bind]. rewrite Ht. cbn [mbind option_bind].
  unfold workload_ref_json. jget_simpl. cbn [w_reference w_shared]. by rewrite E2.
Qed.

Lemma readUuid_inv v s : readUuid v = Some s → readUuid (JStr s) = Some s.
Proof. destruct v; try done. intros H. pose proof H as H'. unfold readUuid in H. by opt_inv H. Qed.
Lemma readSha256_inv v s : readSha256 v = Some s → readSha256 (JStr s) = Some s.
Proof. destruct v; try done. intros H. pose proof H as H'. unfold readSha256 in H. by opt_inv H. Qed.
Lemma readSandboxName_inv v s : readSandboxName v = Some s → readSandboxName (JStr s) = Some s.
Proof.
  destruct v; try done. intros H. pose proof H as H'. unfold readSandboxName in H. by opt_inv H.
Qed.
Lemma readPortNumber_inv v z : readPortNumber v = Some z → readPortNumber (JNum (NInt z)) = Some z.
Proof.
  destruct v as [| | |[z'| |]| | |]; try done. intros H. pose proof H as H'.
  unfold readPortNumber in H. by opt_inv H.
Qed.
Lemma readSafeNatural_inv v z :
  readSafeNatural v = Some z → readSafeNatural (JNum (NInt z)) = Some z.
Proof.
  destruct v as [| | |[z'| |]| | |]; try done. intros H. pose proof H as H'.
  unfold readSafeNatural in H. by opt_inv H.
Qed.
Lemma readIso_inv v s :
  readCanonicalIsoTimestamp v = Some s → readCanonicalIsoTimestamp (JStr s) = Some s.
Proof. intros [_ H]%readCanonicalIsoTimestamp_inv. by apply readCanonicalIsoTimestamp_str. Qed.
Lemma readNonEmpty_rt v s : readNonEmpty v = Some s → readNonEmpty (JStr s) = Some s.
Proof. intros H%readNonEmpty_inv. by apply readNonEmpty_str. Qed.

Lemma tx_rt v t :
  parseSandboxRecreateTransaction v = Some t → parseSandboxRecreateTransaction (tx_json t) = Some t.
Proof.
  destruct v as [| | | | | |o]; try done. unfold parseSandboxRecreateTransaction.
  intros H. opt_inv H. unfold tx_json.
  cbn [tx_id tx_revision tx_sandboxName tx_gatewayName tx_gatewayPort sourceRegistryFingerprint
       sourceLiveIdentityFingerprint sourceWorkload targetIntentFingerprint targetGeneration
       targetLiveIdentityFingerprint tx_phase tx_startedAt tx_updatedAt].
  jget_simpl.
  rewrite (readUuid_inv _ _ E0), (readSandboxName_inv _ _ E1), (readNonEmpty_rt _ _ E2),
    (readPortNumber_inv _ _ E3). cbn [mbind option_bind]. rewrite E4.
  rewrite (readSha256_inv _ _ E5), (readNullableSha256_rt _ _ E6), (workload_rt _ _ E7),
    (readSha256_inv _ _ E8), (readUuid_inv _ _ E9), (readNullableSha256_rt _ _ E10), readPhase_id,
    (readSafeNatural_inv _ _ E12), (readIso_inv _ _ E13), (readIso_inv _ _ E14). done.
Qed.

Lemma readSandboxRecreate_rt v t :
  readSandboxRecreate v = Some t → readSandboxRecreate (from_option tx_json JNull t) = Some t.
Proof.
  unfold readSandboxRecreate.
  destruct v as [| | | | | |o]; try done; [by intros [= <-]|]. intros H. opt_inv H.
  apply tx_rt in E. cbn [from_option]. unfold tx_json in *. by rewrite E.
Qed.

(** The laws of the platform's URL parser the code relies on: the origin of an
    HTTP(S) URL is itself a URL with the same scheme, host and port and
    nothing else. *)
Definition url_origin_law (parseURL : string → option URL) : Prop :=
  ∀ s u, parseURL s = Some u → (protocol u =s "http:") || (protocol u =s "https:") = true →
  truthy (origin u) = true
  ∧ parseURL (origin u) = Some (mkURL (protocol u) (hostname u) (port u) "/" "" "" "" "" (origin u)).

Section RoundTrip.
Context (parseURL : string → option URL) (Hurl : url_origin_law parseURL).

Lemma endpoint_ok_origin u :
  endpoint_ok u = true →
  endpoint_ok (mkURL (protocol u) (hostname u) (port u) "/" "" "" "" "" (origin u)) = true.
Proof.
  unfold endpoint_ok. intros H. cbn [protocol hostname username password search hash pathname].
  apply andb_true_iff in H as [H _]. do 4 (apply andb_true_iff in H as [H _]).
  by rewrite H.
Qed.

Lemma authority_rt v a :
  parseGatewayAuthorityValue parseURL v = Some a →
  parseGatewayAuthorityValue parseURL (authority_json a) = Some a.
Proof using Hurl.
  destruct v as [| | | | | |o]; try done. unfold parseGatewayAuthorityValue.
  intros H. opt_inv H. apply readNonEmpty_rt in E. apply readPortNumber_inv in E0.
  assert (Hc : readStrictStringArray (jstrs l) = Some l) by apply readStrictStringArray_jstrs.
  destruct g.
  - opt_inv H. unfold authority_json.
    cbn [ga_name ga_port ga_mode ga_source ga_endpoint ga_stateDir ga_supervisor ga_capabilities].
    jget_simpl. rewrite E, E0. cbn [mbind option_bind]. rewrite E1, readMode_id, readSource_id.
    cbn [mbind option_bind]. rewrite Hc. cbn [mbind option_bind]. rewrite E5.
    by rewrite !bool_decide_eq_true_2 by done.
  - destruct g0; try done.
    destruct (readString (jget o "endpoint")) as [ep|]; [|done].
    destruct (readString (jget o "stateDir")) as [sd|] eqn:Es; [|done].
    opt_inv H. apply supervisor_rt in E9. bools.
    repeat match goal with H : _ ≠ "" |- _ => apply truthy_true in H end.
    assert (Hok : endpoint_ok u = true) by done. pose proof (endpoint_ok_origin _ Hok) as Hok'.
    unfold endpoint_ok in Hok. do 5 (apply andb_true_iff in Hok as [Hok _]).
    apply andb_true_iff in Hok as [Hok _].
    destruct (Hurl _ _ E7 Hok) as [Ho Hp].
    unfold authority_json.
    cbn [ga_name ga_port ga_mode ga_source ga_endpoint ga_stateDir ga_supervisor ga_capabilities].
    jget_simpl. rewrite E, E0. cbn [mbind option_bind].
    match goal with H : _ = canonicalGatewayName _ |- _ => rewrite <- H, String.eqb_refl end.
    cbn [negb]. rewrite readMode_id, readSource_id. cbn [mbind option_bind]. rewrite Hc.
    cbn [mbind option_bind]. rewrite_bools. cbn [jopt from_option readString negb orb].
    rewrite Ho. rewrite_bools. cbn [negb orb]. rewrite Hp. cbn [mbind option_bind].
    rewrite Hok'. unfold endpoint_port in *. cbn [port protocol].
    rewrite bool_decide_eq_true_2 by done. cbn [negb orb]. by rewrite E9.
Qed.

(** A checkpoint whose parts read back. *)
Record checkpoint_parts (c : OnboardCheckpoint) : Prop := {
  part_updatedAt : isCanonicalIso (cp_updatedAt c) = true;
  part_identity :
    parseCheckpointDecision (decision_json identity_json (cp_sandboxIdentity c))
      parseSandboxIdentityValue = Some (cp_sandboxIdentity c);
  part_webSearch :
    parseCheckpointDecision (decision_json webSearchConfig_json (cp_webSearch c)) parseWebSearchValue
    = Some (cp_webSearch c);
  part_messaging :
    parseCheckpointDecision (decision_json messaging_json (cp_messaging c)) parseMessagingValue
    = Some (cp_messaging c);
  part_profile :
    parseCheckpointDecision (decision_json profile_json (cp_resourceProfile c))
      parseResourceProfileValue = Some (cp_resourceProfile c);
  part_authority :
    parseCheckpointDecision (decision_json authority_json (cp_gatewayAuthority c))
      (parseGatewayAuthorityValue parseURL) = Some (cp_gatewayAuthority c);
  part_groups : parseEffectGroups (groups_json (cp_effectGroups c)) = Some (cp_effectGroups c);
  part_bindings : parseBindings (bindings_json (cp_bindings c)) = Some (cp_bindings c);
  part_journal :
    readSandboxRecreate (from_option tx_json JNull (cp_sandboxRecreate c)) = Some (cp_sandboxRecreate c);
  part_matches :
    from_option (journal_matches (cp_sandboxIdentity c) (cp_gatewayAuthority c)) true
      (cp_sandboxRecreate c) = true;
}.

Lemma serialized_parse c :
  checkpoint_parts c →
  parseSchema parseURL
    match serializeCheckpoint c with JObj o => o | _ => [] end
    (decision_json authority_json (cp_gatewayAuthority c))
    (from_option tx_json JNull (cp_sandboxRecreate c)) = Some c.
Proof.
  intros [E0 E2 E3 E4 E5 E6 E7 E8 Ht Hj]. apply readCanonicalIsoTimestamp_str in E0.
  assert (Hm : readMachineState (JStr (state_id (cp_machineState c))) = Some (cp_machineState c))
    by apply parse_state_id.
  unfold parseSchema, serializeCheckpoint. jget_simpl. rewrite E0. jget_simpl. rewrite Hm. jget_simpl.
  rewrite E2. jget_simpl. rewrite E3. jget_simpl. rewrite E4. jget_simpl. rewrite E5. jget_simpl.
  rewrite E6. jget_simpl. rewrite E7. jget_simpl. rewrite E8. jget_simpl. rewrite Ht. jget_simpl.
  rewrite Hj. by destruct c.
Qed.

(** A checkpoint whose parts read back reads back. *)
Lemma serialized_loads c :
  checkpoint_parts c → inspectCheckpoint parseURL (serializeCheckpoint c) = Loaded c.
Proof.
  intros H%serialized_parse. unfold inspectCheckpoint, serializeCheckpoint in *.
  jget_simpl. change (3 <? 1)%Z with false. change (3 <? 3)%Z with false. cbn [Z.ltb].
  by rewrite H.
Qed.

Lemma schema_parts o a t c : parseSchema parseURL o a t = Some c → checkpoint_parts c.
Proof using Hurl.
  unfold parseSchema. intros H. opt_inv H.
  split; cbn [cp_sessionId cp_machineState cp_updatedAt cp_sandboxIdentity
    cp_webSearch cp_messaging cp_resourceProfile cp_gatewayAuthority cp_effectGroups cp_bindings
    cp_sandboxRecreate].
  - by apply readCanonicalIsoTimestamp_inv in E0 as [_ ?].
  - by apply (decision_rt _ identity_json) in E2; [|apply identity_rt].
  - by apply (decision_rt _ webSearchConfig_json) in E3; [|intros; apply webSearch_rt].
  - by apply (decision_rt _ messaging_json) in E4; [|intros; apply messaging_rt].
  - by apply (decision_rt _ profile_json) in E5; [|intros; apply profile_rt].
  - by apply (decision_rt _ authority_json) in E6; [|apply authority_rt].
  - by apply groups_rt in E7.
  - by apply bindings_rt in E8.
  - by apply readSandboxRecreate_rt in E9.
  - done.
Qed.

Lemma schema_rt o a t c :
  parseSchema parseURL o a t = Some c →
  inspectCheckpoint parseURL (serializeCheckpoint c) = Loaded c.
Proof using Hurl. intros H%schema_parts. by apply serialized_loads. Qed.
End RoundTrip.

(** ** Serialized checkpoints are plain JSON *)

Lemma clean_decision {T} (f : T → json) d :
  (∀ x, json_clean (f x) = true) → json_clean (decision_json f d) = true.
Proof. intros Hf. destruct d; try done. cbn. by rewrite Hf. Qed.

Lemma clean_map {A} (f : A → json) l :
  (∀ x, json_clean (f x) = true) → json_clean (JArr (map f l)) = true.
Proof. intros Hf. cbn. induction l as [|x l IH]; [done|]. cbn. by rewrite Hf, IH. Qed.

Lemma clean_option {A} (f : A → json) o :
  (∀ x, json_clean (f x) = true) → json_clean (from_option f JNull o) = true.
Proof. intros Hf. destruct o; [apply Hf|done]. Qed.

Lemma clean_authority a : json_clean (authority_json a) = true.
Proof.
  unfold authority_json. cbn [json_clean forallb snd].
  rewrite !json_clean_jopt, json_clean_jstrs, clean_option; done.
Qed.

Lemma clean_workload w : json_clean (source_workload_json w) = true.
Proof.
  unfold source_workload_json. cbn [json_clean forallb snd].
  rewrite json_clean_jopt, clean_option; [done|]. intros x. unfold workload_ref_json.
  cbn [json_clean forallb snd]. by rewrite json_clean_jopt.
Qed.

Lemma clean_tx t : json_clean (tx_json t) = true.
Proof.
  unfold tx_json. cbn [json_clean forallb snd].
  rewrite !json_clean_jopt, clean_option; [done|]. apply clean_workload.
Qed.

Lemma clean_groups gs : json_clean (groups_json gs) = true.
Proof. by destruct gs as [[] [] [] []]. Qed.

Lemma clean_bindings b : json_clean (bindings_json b) = true.
Proof.
  transitivity (json_clean (jstrs (credentialEnvs b))
                && (json_clean (JArr (map binding_json (registeredProviders b))) && true)); [done|].
  by rewrite json_clean_jstrs, clean_map.
Qed.

Lemma clean_checkpoint c : json_clean (serializeCheckpoint c) = true.
Proof.
  unfold serializeCheckpoint. cbn [json_clean forallb snd].
  rewrite !clean_decision; [| apply clean_authority | done | | by intros [[]] | done].
  - by rewrite clean_groups, clean_option, clean_bindings by apply clean_tx.
  - intros m. unfold messaging_json. cbn [json_clean forallb snd].
    by rewrite !json_clean_jstrs.
Qed.

Lemma inspect_loaded parseURL raw c :
  inspectCheckpoint parseURL raw = Loaded c →
  ∃ o, raw = JObj o ∧ jget o "schemaVersion" = JNum (NInt 3)
       ∧ parseSchema parseURL o (jget o "gatewayAuthority") (jget o "sandboxRecreate") = Some c.
Proof.
  unfold inspectCheckpoint, CHECKPOINT_SCHEMA_VERSION.
  destruct raw as [| | | | | |o]; try done.
  destruct (jget o "schemaVersion") as [| | |[v| |]| | |] eqn:Hv; try done.
  destruct (v <? 1)%Z eqn:E1; [done|]. destruct (3 <? v)%Z eqn:E2; [done|].
  destruct (v =? 3)%Z eqn:E3.
  - destruct (parseSchema _ _ _ _) as [c'|] eqn:Hp; [|done]. intros [= ->]. bools.
    exists o. subst. done.
  - destruct (v =? 2)%Z; [by destruct (parseSchema _ _ _ _)|].
    destruct (v =? 1)%Z; [by destruct (parseSchema _ _ _ _)|done].
Qed.

Lemma inspect_migrated parseURL raw c v :
  inspectCheckpoint parseURL raw = Migrated c v →
  ∃ o, raw = JObj o ∧ jget o "schemaVersion" = JNum (NInt v)
       ∧ ((v = 2%Z ∧ parseSchema parseURL o (jget o "gatewayAuthority") JNull = Some c)
          ∨ (v = 1%Z ∧ parseSchema parseURL o (JObj [("kind", JStr "unset")]) JNull = Some c)).
Proof.
  unfold inspectCheckpoint, CHECKPOINT_SCHEMA_VERSION.
  destruct raw as [| | | | | |o]; try done.
  destruct (jget o "schemaVersion") as [| | |[n| |]| | |] eqn:Hv; try done.
  destruct (n <? 1)%Z eqn:E1; [done|]. destruct (3 <? n)%Z eqn:E2; [done|].
  destruct (n =? 3)%Z eqn:E3; [by destruct (parseSchema _ _ _ _)|].
  destruct (n =? 2)%Z eqn:E4.
  { destruct (parseSchema _ _ _ _) as [c'|] eqn:Hp; [|done]. intros [= -> <-]. bools.
    exists o. subst. auto. }
  destruct (n =? 1)%Z eqn:E5; [|done].
  destruct (parseSchema _ _ _ _) as [c'|] eqn:Hp; [|done]. intros [= -> <-]. bools.
  exists o. subst. auto.
Qed.

Lemma schema_journal parseURL o a t c :
  parseSchema parseURL o a t = Some c →
  from_option (journal_matches (cp_sandboxIdentity c) (cp_gatewayAuthority c)) true
    (cp_sandboxRecreate c) = true
  ∧ parseCheckpointDecision a (parseGatewayAuthorityValue parseURL) = Some (cp_gatewayAuthority c)
  ∧ (t = JNull → cp_sandboxRecreate c = None).
Proof.
  unfold parseSchema. intros H. opt_inv H.
  cbn [cp_sandboxIdentity cp_gatewayAuthority cp_sandboxRecreate].
  split_and!; try done. intros ->. by injection E9 as <-.
Qed.

(** ** Properties *)

(** A checkpoint accepted from disk, of the current schema or migrated from
    an older one, is saved in a form that loads back as the same checkpoint:
    a save can never corrupt or lose a recorded decision, receipt or journal. *)
Theorem checkpoint_survives_save parseURL raw c :
  url_origin_law parseURL →
  (inspectCheckpoint parseURL raw = Loaded c
   ∨ ∃ v, inspectCheckpoint parseURL raw = Migrated c v) →
  inspectCheckpoint parseURL (json_disk (serializeCheckpoint c)) = Loaded c.
Proof.
  intros Hurl H. rewrite json_disk_clean by apply clean_checkpoint.
  destruct H as [(o & _ & _ & Hp)%inspect_loaded|[v (o & _ & _ & [[_ Hp]|[_ Hp]])%inspect_migrated]];
    by eapply schema_rt.
Qed.

(** A platform URL parser that knows one endpoint. *)
Definition one_url (s : string) : option URL :=
  if s =s "http://127.0.0.1:9000/" then
    Some (mkURL "http:" "127.0.0.1" "9000" "/" "" "" "" "" "http://127.0.0.1:9000")
  else if s =s "http://127.0.0.1:9000" then
    Some (mkURL "http:" "127.0.0.1" "9000" "/" "" "" "" "" "http://127.0.0.1:9000")
  else None.

Definition sample_checkpoint_json (schemaVersion : Z) : json :=
  let sel v := JObj [("kind", JStr "selected"); ("value", v)] in
  let sha := of_chars (repeat "a"%char 64) in
  let uuid := "01234567-89ab-4def-8123-456789abcdef" in
  JObj [("schemaVersion", JNum (NInt schemaVersion)); ("sessionId", JStr "s1");
        ("machineState", JStr "sandbox"); ("updatedAt", JStr "2026-01-01T00:00:00.000Z");
        ("sandboxIdentity", sel (JObj [("name", JStr "box"); ("agent", JStr "openclaw")]));
        ("webSearch", JObj [("kind", JStr "declined")]);
        ("messaging", JObj [("kind", JStr "unset")]);
        ("resourceProfile", sel (JObj [("cpu", JStr "2"); ("memory", JStr "4Gi")]));
        ("gatewayAuthority", sel (JObj [
            ("gatewayName", JStr "nemoclaw-9000"); ("gatewayPort", JNum (NInt 9000));
            ("mode", JStr "externally-supervised"); ("source", JStr "declared");
            ("endpoint", JStr "http://127.0.0.1:9000/"); ("stateDir", JStr "/var/lib/gw");
            ("supervisor", JObj [("kind", JStr "systemd-user"); ("serviceName", JStr "gw.service");
                                 ("execPath", JStr "/usr/bin/gw")]);
            ("requiredCapabilities", jstrs ["sandbox.create"])]));
        ("effectGroups", JObj [("sandbox_create", JObj [
            ("completedAt", JStr "2026-01-01T00:00:00.000Z"); ("fingerprint", JStr "f")])]);
        ("bindings", JObj [("credentialEnvs", jstrs ["A_KEY"]); ("registeredProviders", JArr [])]);
        ("sandboxRecreate", JObj [
            ("version", JNum (NInt 1)); ("id", JStr uuid); ("revision", JNum (NInt 3));
            ("sandboxName", JStr "box"); ("gatewayName", JStr "nemoclaw-9000");
            ("gatewayPort", JNum (NInt 9000)); ("sourceRegistryFingerprint", JStr sha);
            ("sourceLiveIdentityFingerprint", JNull); ("targetIntentFingerprint", JStr sha);
            ("targetGeneration", JStr uuid); ("targetLiveIdentityFingerprint", JStr sha);
            ("phase", JStr "creating"); ("startedAt", JStr "2026-01-01T00:00:00.000Z");
            ("updatedAt", JStr "2026-01-01T00:00:01.000Z")])].

Lemma one_url_law : url_origin_law one_url.
Proof.
  intros s u H _. unfold one_url in H.
  destruct (s =s _); [by injection H as <-|]. destruct (s =s _); [by injection H as <-|done].
Qed.

Lemma checkpoint_survives_save_witness :
  match inspectCheckpoint one_url (sample_checkpoint_json 3) with
  | Loaded c => inspectCheckpoint one_url (json_disk (serializeCheckpoint c)) = Loaded c
  | _ => False
  end.
Proof.
  destruct (inspectCheckpoint one_url (sample_checkpoint_json 3)) as [|c| | |] eqn:E;
    try (vm_compute in E; discriminate E).
  exact (checkpoint_survives_save one_url (sample_checkpoint_json 3) c one_url_law (or_introl E)).
Defined.

(** the schema dispatch: a newer schema is reported as such whatever else it
    holds, an older one is migrated without inventing a gateway authority
    (version 1) or a replacement journal, and a journal is only accepted for
    the sandbox and gateway the checkpoint itself selected. *)
Theorem checkpoint_version_dispatch parseURL raw :
  match inspectCheckpoint parseURL raw with
  | LoadNone => raw = JUndef ∨ raw = JNull
  | UnsupportedFuture n =>
      (3 < n)%Z ∧ ∃ o, raw = JObj o ∧ jget o "schemaVersion" = JNum (NInt n)
  | Migrated c v =>
      cp_sandboxRecreate c = None
      ∧ (v = 2%Z ∨ (v = 1%Z ∧ cp_gatewayAuthority c = Unset))
  | Loaded c =>
      (∃ o, raw = JObj o ∧ jget o "schemaVersion" = JNum (NInt 3))
      ∧ from_option (journal_matches (cp_sandboxIdentity c) (cp_gatewayAuthority c)) true
          (cp_sandboxRecreate c) = true
  | Corrupt => ∀ o n, raw = JObj o → jget o "schemaVersion" = JNum (NInt n) → (n ≤ 3)%Z
  end.
Proof.
  destruct (inspectCheckpoint parseURL raw) as [|c|c v|n|] eqn:E.
  - destruct raw as [| | | | | |o]; auto; try done. unfold inspectCheckpoint in E.
    repeat case_match; done.
  - apply inspect_loaded in E as (o & -> & Hv & Hp). split; [eauto|].
    by apply schema_journal in Hp as (? & _).
  - apply inspect_migrated in E as (o & -> & Hv & [[-> Hp]|[-> Hp]]);
      apply schema_journal in Hp as (_ & Ha & Ht); (split; [by apply Ht|]); [auto|right].
    split; [done|]. by injection Ha as <-.
  - unfold inspectCheckpoint, CHECKPOINT_SCHEMA_VERSION in E.
    repeat case_match; try done. injection E as <-. bools. split; [done|]. eauto.
  - intros o n -> Hn. unfold inspectCheckpoint, CHECKPOINT_SCHEMA_VERSION in E. rewrite Hn in E.
    destruct (n <? 1)%Z eqn:E1; bools; [lia|]. destruct (3 <? n)%Z eqn:E2; [done|]. by bools.
Qed.
