(* ===== verification/Gateway.v ===== *)
(** * Ports and gateway names

    src/lib/core/ports.ts (the port configuration, as the module computes it when it is
    loaded) and the resolvers of src/lib/onboard/gateway-binding.ts: the names of a gateway,
    of its state directory and of its container, and which gateway a sandbox belongs to. *)

From S2P Require Import Prelude Json Regex Checkpoint.

(** ** core/ports.ts *)

Inductive port_error : Type :=
| NotAPort (envVar : string)
| DashboardRange (envVar : string)
| ReservedDefault (envVar : string) (label : string)
| PortTaken (envVar other : string).

(** [process.env], and a text of decimal digits. *)
Definition environment : Type := string → option string.
Definition all_digits (s : string) : bool := truthy s && forallb is_digit (chars s).

(** [Number] of a long text of digits is rounded, but stays above every port. *)
Definition parsePort (env : environment) (envVar : string) (fallback : Z) : result port_error Z :=
  match env envVar with
  | None | Some "" => Ok fallback
  | Some raw =>
      let trimmed := js_trim raw in
      if negb (all_digits trimmed) then Throw (NotAPort envVar)
      else
        let parsed := Z.of_N (digits_value trimmed) in
        if (parsed <? 1024)%Z || (65535 <? parsed)%Z then Throw (NotAPort envVar) else Ok parsed
  end.

Definition SANDBOX_DASHBOARD_PORT : Z := 18789.
Definition DASHBOARD_PORT_RANGE_START : Z := SANDBOX_DASHBOARD_PORT.
Definition DASHBOARD_PORT_RANGE_END : Z := 18799.
Definition LLAMA_CPP_PORT : Z := 8081.

(** The gateway's port is not an option of its own validation. *)
Record GatewayPortValidationOptions := mkPortOptions {
  dashboardPort : Z;
  dashboardRangeStart : Z;
  dashboardRangeEnd : Z;
  vllmPort : Z;
  ollamaPort : Z;
  ollamaProxyPort : Z;
  bedrockRuntimeAdapterPort : Z;
  openrouterRuntimeAdapterPort : Z;
  httpsPinRuntimeAdapterPort : Z
}.
Record RuntimeAdapterPortValidationOptions := mkAdapterOptions {
  base : GatewayPortValidationOptions;
  gatewayPort : Z
}.

(** The first entry with the port. *)
Definition with_port (port : Z) (entries : list (string * Z)) : option string :=
  fst <$> List.find (λ entry, (entry.2 =? port)%Z) entries.

Definition validate_port (envVar : string) (port : Z) (options : GatewayPortValidationOptions)
    (reservedDefaults conflicts : list (string * Z)) : result port_error unit :=
  throw_unless (negb ((dashboardRangeStart options <=? port)%Z && (port <=? dashboardRangeEnd options)%Z))
    (DashboardRange envVar);;
  match with_port port reservedDefaults with
  | Some label => Throw (ReservedDefault envVar label)
  | None => match with_port port conflicts with
            | Some other => Throw (PortTaken envVar other)
            | None => Ok tt
            end
  end.

Definition reserved_services : list (string * Z) :=
  [("llama.cpp inference", LLAMA_CPP_PORT); ("vLLM / NIM inference", 8000%Z); ("Ollama inference", 11434%Z);
   ("Ollama auth proxy", 11435%Z); ("Bedrock Runtime adapter", 11436%Z)].
Definition openrouter_default : string * Z := ("OpenRouter Runtime adapter", 11437%Z).
Definition https_pin_default : string * Z := ("HTTPS Pin Runtime adapter", 11438%Z).

Definition service_ports (options : GatewayPortValidationOptions) : list (string * Z) :=
  [("NEMOCLAW_DASHBOARD_PORT", dashboardPort options); ("NEMOCLAW_VLLM_PORT", vllmPort options);
   ("NEMOCLAW_OLLAMA_PORT", ollamaPort options); ("NEMOCLAW_OLLAMA_PROXY_PORT", ollamaProxyPort options);
   ("NEMOCLAW_BEDROCK_RUNTIME_ADAPTER_PORT", bedrockRuntimeAdapterPort options)].
Definition openrouter_port (options : GatewayPortValidationOptions) : string * Z :=
  ("NEMOCLAW_OPENROUTER_RUNTIME_ADAPTER_PORT", openrouterRuntimeAdapterPort options).
Definition https_pin_port (options : GatewayPortValidationOptions) : string * Z :=
  ("NEMOCLAW_HTTPS_PIN_RUNTIME_ADAPTER_PORT", httpsPinRuntimeAdapterPort options).
Definition gateway_port (options : RuntimeAdapterPortValidationOptions) : string * Z :=
  ("NEMOCLAW_GATEWAY_PORT", gatewayPort options).

Definition validateGatewayPort (envVar : string) (port : Z) (options : GatewayPortValidationOptions)
    : result port_error unit :=
  validate_port envVar port options (reserved_services ++ [openrouter_default; https_pin_default])
    (service_ports options ++ [openrouter_port options; https_pin_port options]).
Definition parseGatewayPort (env : environment) (envVar : string) (fallback : Z)
    (options : GatewayPortValidationOptions) : result port_error Z :=
  port ← parsePort env envVar fallback;
  validateGatewayPort envVar port options;;
  mret port.
Definition validateOpenRouterRuntimeAdapterPort (envVar : string) (port : Z)
    (options : RuntimeAdapterPortValidationOptions) : result port_error unit :=
  validate_port envVar port (base options) (reserved_services ++ [https_pin_default])
    (gateway_port options :: service_ports (base options) ++ [https_pin_port (base options)]).
Definition validateHttpsPinRuntimeAdapterPort (envVar : string) (port : Z)
    (options : RuntimeAdapterPortValidationOptions) : result port_error unit :=
  validate_port envVar port (base options) (reserved_services ++ [openrouter_default])
    (gateway_port options :: service_ports (base options) ++ [openrouter_port (base options)]).

Definition configured_ports (options : RuntimeAdapterPortValidationOptions) : list (string * Z) :=
  gateway_port options :: service_ports (base options)
  ++ [openrouter_port (base options); https_pin_port (base options)].
Definition validateLlamaCppPortReservation (options : RuntimeAdapterPortValidationOptions) : result port_error unit :=
  match with_port LLAMA_CPP_PORT (configured_ports options) with
  | Some envVar => Throw (PortTaken envVar "llama.cpp")
  | None => Ok tt
  end.

(** The module's initialisation: its exported ports, or what it throws. *)
Definition load_ports (env : environment) : result port_error RuntimeAdapterPortValidationOptions :=
  dashboard ← parsePort env "NEMOCLAW_DASHBOARD_PORT" SANDBOX_DASHBOARD_PORT;
  vllm ← parsePort env "NEMOCLAW_VLLM_PORT" 8000;
  ollama ← parsePort env "NEMOCLAW_OLLAMA_PORT" 11434;
  ollamaProxy ← parsePort env "NEMOCLAW_OLLAMA_PROXY_PORT" 11435;
  bedrock ← parsePort env "NEMOCLAW_BEDROCK_RUNTIME_ADAPTER_PORT" 11436;
  openrouter ← parsePort env "NEMOCLAW_OPENROUTER_RUNTIME_ADAPTER_PORT" 11437;
  httpsPin ← parsePort env "NEMOCLAW_HTTPS_PIN_RUNTIME_ADAPTER_PORT" 11438;
  let options := mkPortOptions dashboard DASHBOARD_PORT_RANGE_START DASHBOARD_PORT_RANGE_END vllm ollama
                   ollamaProxy bedrock openrouter httpsPin in
  gateway ← parseGatewayPort env "NEMOCLAW_GATEWAY_PORT" DEFAULT_GATEWAY_PORT options;
  let all := mkAdapterOptions options gateway in
  validateLlamaCppPortReservation all;;
  mret all.

(** ** onboard/gateway-binding.ts *)

Definition BASE_GATEWAY_NAME : string := "nemoclaw".
Definition BASE_GATEWAY_STATE_DIR_NAME : string := "openshell-docker-gateway".
Definition BASE_GATEWAY_COMPAT_CONTAINER_NAME : string := "nemoclaw-openshell-gateway".

Definition isDefaultGatewayPort (port : Z) : bool := (port =? DEFAULT_GATEWAY_PORT)%Z.
(** A name, with the port behind it unless it is the default one. *)
Definition per_port (base : string) (port : Z) : string :=
  if isDefaultGatewayPort port then base else base +:+ "-" +:+ num_to_string port.
Definition resolveGatewayName : Z → string := per_port BASE_GATEWAY_NAME.
Definition resolveGatewayStateDirName : Z → string := per_port BASE_GATEWAY_STATE_DIR_NAME.
Definition resolveGatewayCompatContainerName : Z → string := per_port BASE_GATEWAY_COMPAT_CONTAINER_NAME.

Definition isValidPersistedGatewayPort (port : Z) : bool := (1 <=? port)%Z && (port <=? 65535)%Z.

Definition per_port_name : regex := seqs [Bol; lit BASE_GATEWAY_NAME; lit "-"; Group 1 (some_of (Chr is_digit)); Eol].
Definition resolveGatewayPortFromName (gatewayName : string) : option Z :=
  if gatewayName =s BASE_GATEWAY_NAME then Some DEFAULT_GATEWAY_PORT
  else match match_at per_port_name ([], chars gatewayName) with
       | None => None
       | Some s =>
           let port := Z.of_N (digits_value (of_chars (capture (caps s) 1))) in
           if isValidPersistedGatewayPort port && (resolveGatewayName port =s gatewayName) then Some port else None
       end.

Definition digit_in (lo hi : N) : regex := Chr (in_range lo hi).
Definition VALID_GATEWAY_NAME_RE : regex :=
  seqs [Bol; lit "nemoclaw";
        maybe (Group 1 (seqs [lit "-";
          alts [seqs [digit_in 49 57; between 0 3 (Chr is_digit)];
                seqs [digit_in 49 53; exactly 4 (Chr is_digit)];
                seqs [lit "6"; digit_in 48 52; exactly 3 (Chr is_digit)];
                seqs [lit "65"; digit_in 48 52; exactly 2 (Chr is_digit)];
                seqs [lit "655"; digit_in 48 50; Chr is_digit];
                seqs [lit "6553"; digit_in 48 53]]]));
        Eol].
Definition isValidPersistedGatewayName (value : string) : bool :=
  if negb (test VALID_GATEWAY_NAME_RE value) then false
  else bool_decide (is_Some (resolveGatewayPortFromName value)).

(** The two properties of a registry row, whatever they hold. *)
Record SandboxGatewayBinding := mkBinding { b_gatewayName : json; b_gatewayPort : json }.
Inductive binding_error : Type :=
| InvalidBinding (b : SandboxGatewayBinding)
| InvalidResolvedName (name : string).

Definition holds_value (v : json) : bool := negb (is_undefined v) && negb (is_null v).
Definition resolveSandboxGatewayName (sandbox : option SandboxGatewayBinding) : result binding_error string :=
  let b := default (mkBinding JUndef JUndef) sandbox in
  match (match b_gatewayPort b with
         | JNum (NInt z) => if isValidPersistedGatewayPort z then Some z else None
         | _ => None
         end) with
  | Some port => Ok (resolveGatewayName port)
  | None =>
      match (match b_gatewayName b with
             | JStr s => if truthy s && isValidPersistedGatewayName s then Some s else None
             | _ => None
             end) with
      | Some name => Ok name
      | None =>
          if negb (holds_value (b_gatewayPort b)) && negb (holds_value (b_gatewayName b)) then Ok BASE_GATEWAY_NAME
          else Throw (InvalidBinding b)
      end
  end.

Definition resolveCoreOnboardGatewayBinding (authoritativeGateway : option (string * Z)) (currentGateway : string * Z)
    (resume : bool) (sandbox : option SandboxGatewayBinding) : result binding_error (string * Z) :=
  match authoritativeGateway with
  | Some g => Ok g
  | None =>
      match sandbox with
      | Some b =>
          if resume then
            name ← resolveSandboxGatewayName (Some b);
            match resolveGatewayPortFromName name with
            | None => Throw (InvalidResolvedName name)
            | Some port => Ok (name, port)
            end
          else Ok currentGateway
      | None => Ok currentGateway
      end
  end.

(** ** Decimal texts *)

Definition digits_from (a : N) (l : list ascii) : N := fold_left (λ a c, 10 * a + (code c - 48))%N l a.
Definition nonzero_digit : ascii → bool := in_range 49 57.

Lemma digit_char n : (n < 10)%N → is_digit (pretty_N_char n) = true ∧ code (pretty_N_char n) = (48 + n)%N
  ∧ (0 < n → nonzero_digit (pretty_N_char n) = true)%N.
Proof.
  intros Hn. assert (Hc : n ∈ map N.of_nat (seq 0 10)).
  { apply list_elem_of_In, in_map_iff. exists (N.to_nat n). split; [lia|]. apply in_seq. lia. }
  cbn in Hc. repeat (apply elem_of_cons in Hc as [->|Hc];
    [split; [done|split; [done|intros H; vm_compute in H |- *; done]]|]). by apply elem_of_nil in Hc.
Qed.

Lemma pretty_go_digits x s : (0 < x)%N → ∃ c l, chars (pretty_N_go x s) = (c :: l) ++ chars s
  ∧ nonzero_digit c = true ∧ Forall (λ c, is_digit c = true) (c :: l)
  ∧ digits_from 0 (c :: l) = x ∧ (10 ^ N.of_nat (List.length l) ≤ x)%N.
Proof.
  revert s. induction (N.lt_wf_0 x) as [x _ IH]; intros s Hx. rewrite pretty_N_go_step by done.
  pose proof (N.mod_lt x 10 ltac:(lia)) as Hm. destruct (digit_char _ Hm) as (Hd & Hcode & Hnz).
  destruct (decide (x < 10)%N) as [Hlt|Hge].
  - rewrite N.div_small, pretty_N_go_0 by done. pose proof (N.mod_small x 10 Hlt) as Em. rewrite Em in *.
    exists (pretty_N_char x), []. split_and!; [done|by apply Hnz|by repeat constructor| |cbn; lia].
    unfold digits_from. cbn [fold_left]. rewrite Hcode. lia.
  - destruct (IH (x `div` 10)%N (N.div_lt x 10 Hx eq_refl) (String (pretty_N_char (x mod 10)) s))
      as (c & l & E & Hc & Hl & Hv & Hp); [apply N.div_str_pos; lia|].
    exists c, (l ++ [pretty_N_char (x mod 10)]). split_and!.
    + rewrite E. cbn [chars list_ascii_of_string app]. by rewrite <- (assoc_L (++)).
    + done.
    + rewrite app_comm_cons. apply Forall_app. split; [done|]. by repeat constructor.
    + unfold digits_from in *. rewrite app_comm_cons, fold_left_app, Hv. cbn [fold_left]. rewrite Hcode.
      rewrite (N.add_comm 48), N.add_sub. symmetry. apply N.div_mod'.
    + rewrite length_app, Nat.add_1_r, Nat2N.inj_succ, N.pow_succ_r'. apply (N.mul_le_mono_l _ _ 10) in Hp.
      etrans; [exact Hp|]. apply N.Div0.mul_div_le.
Qed.

(** The decimal text of a positive number. *)
Lemma pretty_digits z : (0 < z)%Z → ∃ c l, chars (num_to_string z) = c :: l
  ∧ nonzero_digit c = true ∧ Forall (λ c, is_digit c = true) (c :: l)
  ∧ Z.of_N (digits_from 0 (c :: l)) = z ∧ (10 ^ Z.of_nat (List.length l) ≤ z)%Z.
Proof.
  intros Hz. destruct (pretty_go_digits (Z.to_N z) "" ltac:(lia)) as (c & l & E & Hc & Hl & Hv & Hp).
  exists c, l. split_and!; [|done|done|rewrite Hv; lia|].
  - rewrite app_nil_r in E. rewrite <- E. destruct z as [|p|p]; try lia. done.
  - apply N2Z.inj_le in Hp. rewrite N2Z.inj_pow in Hp. rewrite nat_N_Z in Hp. lia.
Qed.

(** ** The names of a port *)

Lemma per_port_chars base port : port ≠ DEFAULT_GATEWAY_PORT →
  chars (per_port base port) = chars base ++ "-"%char :: chars (num_to_string port).
Proof.
  intros Hp. unfold per_port, isDefaultGatewayPort. rewrite (proj2 (Z.eqb_neq _ _)) by done.
  by rewrite !chars_app.
Qed.

Lemma per_port_default base : per_port base DEFAULT_GATEWAY_PORT = base.
Proof. done. Qed.

Lemma per_port_inj base p q : per_port base p = per_port base q → p = q.
Proof.
  intros E. destruct (decide (p = DEFAULT_GATEWAY_PORT)) as [->|Hp], (decide (q = DEFAULT_GATEWAY_PORT)) as [->|Hq];
    [done|..]; apply (f_equal chars) in E; rewrite ?per_port_default, ?per_port_chars in E by done.
  - rewrite <- (app_nil_r (chars base)) in E at 1. by apply app_inv_head in E.
  - symmetry in E. rewrite <- (app_nil_r (chars base)) in E at 1. by apply app_inv_head in E.
  - apply app_inv_head in E. injection E as E. apply (f_equal of_chars) in E. rewrite !of_chars_chars in E.
    by apply (inj pretty) in E.
Qed.

Lemma port_match c l : Forall (λ c, is_digit c = true) (c :: l) →
  ∃ b, match_at per_port_name ([], chars "nemoclaw-" ++ c :: l) = Some (mkSt (b, []) [(1, c :: l)]).
Proof.
  intros Hd. eexists. unfold match_at, per_port_name. cbn -[rep]. 
  apply (rep_greedy_all is_digit); [done|cbn; lia|cbn; lia|].
  cbn [here snd List.length caps]. rewrite Nat.sub_0_r, firstn_all2 by (cbn; lia). reflexivity.
Qed.

Lemma digits_value_chars l : digits_value (of_chars l) = digits_from 0 l.
Proof. unfold digits_value. by rewrite chars_of_chars. Qed.

Lemma valid_port_range p : isValidPersistedGatewayPort p = true ↔ (1 ≤ p ≤ 65535)%Z.
Proof. unfold isValidPersistedGatewayPort. rewrite andb_true_iff, !Z.leb_le. lia. Qed.

(** The port of a name is the one the name was made from, and no other text names a port. *)
Lemma port_of_name p : isValidPersistedGatewayPort p = true →
  resolveGatewayPortFromName (resolveGatewayName p) = Some p.
Proof.
  intros Hp. destruct (decide (p = DEFAULT_GATEWAY_PORT)) as [->|Hd]; [reflexivity|].
  assert (Hne : (resolveGatewayName p =s BASE_GATEWAY_NAME) = false).
  { apply String.eqb_neq. intros E. by apply Hd, (per_port_inj BASE_GATEWAY_NAME). }
  unfold resolveGatewayPortFromName. rewrite Hne. unfold resolveGatewayName at 1. rewrite per_port_chars by done.
  pose proof Hp as Hr. apply valid_port_range in Hr.
  destruct (pretty_digits p) as (c & l & E & _ & Hl & Hv & _); [lia|]. rewrite E.
  destruct (port_match c l Hl) as [b Hm].
  change (chars BASE_GATEWAY_NAME ++ "-"%char :: c :: l) with (chars "nemoclaw-" ++ c :: l). rewrite Hm.
  cbn [caps]. change (capture [(1, c :: l)] 1) with (c :: l). rewrite digits_value_chars, Hv, Hp, String.eqb_refl. done.
Qed.

Lemma name_of_port s p : resolveGatewayPortFromName s = Some p →
  isValidPersistedGatewayPort p = true ∧ s = resolveGatewayName p.
Proof.
  unfold resolveGatewayPortFromName. destruct (String.eqb_spec s BASE_GATEWAY_NAME) as [->|_]; [by intros [= <-]|].
  destruct (match_at _ _) as [m|]; [|done]. destruct (_ && _) eqn:E; [|done]. intros [= <-]. bools. split; [done|congruence].
Qed.

(** *** The pattern of persisted names *)

Definition port_alternatives : regex :=
  alts [seqs [digit_in 49 57; between 0 3 (Chr is_digit)];
        seqs [digit_in 49 53; exactly 4 (Chr is_digit)];
        seqs [lit "6"; digit_in 48 52; exactly 3 (Chr is_digit)];
        seqs [lit "65"; digit_in 48 52; exactly 2 (Chr is_digit)];
        seqs [lit "655"; digit_in 48 50; Chr is_digit];
        seqs [lit "6553"; digit_in 48 53]].

Definition lang_of (r : regex) (l : list ascii) : Prop := ∀ b, lang r (b, l) (rev l ++ b, []).

Lemma lang_of_eps : lang_of Eps [].
Proof. done. Qed.
Lemma lang_of_chr (p : ascii → bool) r c l : p c = true → lang_of r l → lang_of (Seq (Chr p) r) (c :: l).
Proof.
  intros Hc Hr b. exists (c :: b, l). split; [by apply lang_chr_here|]. cbn [rev]. rewrite <- (assoc_L (++)). apply Hr.
Qed.
Lemma lang_of_lit s r l : lang_of r l → lang_of (Seq (lit s) r) (chars s ++ l).
Proof.
  intros Hr b. exists (rev (chars s) ++ b, l). split; [apply lang_lit_here|].
  rewrite rev_app_distr, <- (assoc_L (++)). apply Hr.
Qed.
Lemma lang_of_rep p n m l : Forall (λ c, p c = true) l → n ≤ List.length l ≤ m →
  lang_of (seqs [Rep true n (Some m) (Chr p)]) l.
Proof.
  intros Hl [Hn Hm] b. exists (rev l ++ b, []). split; [|done]. exists (List.length l). split_and!; [done..|].
  pose proof (turns_chars p l b [] Hl) as H. by rewrite app_nil_r in H.
Qed.

(** The value of a digit. *)
Lemma digit_value c : is_digit c = true → (48 ≤ code c ≤ 57)%N.
Proof. unfold is_digit, in_range. intros [?%N.leb_le ?%N.leb_le]%andb_true_iff. lia. Qed.

Lemma digit_in_range lo hi c : (lo ≤ code c ≤ hi)%N → in_range lo hi c = true.
Proof. intros H. unfold in_range. apply andb_true_iff. by rewrite !N.leb_le. Qed.

Lemma code_inj c d : code c = code d → c = d.
Proof. unfold code. intros E%(f_equal ascii_of_N). by rewrite !ascii_N_embedding in E. Qed.

(** The alternatives are the decimal texts up to 65535. *)
Lemma port_alternative c l : nonzero_digit c = true → Forall (λ c, is_digit c = true) (c :: l) →
  (List.length l ≤ 4)%nat → (digits_from 0 (c :: l) ≤ 65535)%N → lang_of port_alternatives (c :: l).
Proof.
  intros Hc Hd Hlen Hv. apply Forall_cons in Hd as [Hc' Hd]. unfold port_alternatives, alts.
  destruct (decide (List.length l ≤ 3)) as [Hs|Hs].
  { intros b. left. apply lang_of_chr; [done|]. apply lang_of_rep; [done|lia]. }
  destruct l as [|d [|e [|f [|g [|h l]]]]]; try (cbn in *; lia). clear Hs Hlen.
  pose proof Hd as Hd'. rewrite !Forall_cons in Hd'. destruct Hd' as (Hd1 & Hd2 & Hd3 & Hd4 & _).
  pose proof (digit_value _ Hc') as R0. pose proof (digit_value _ Hd1) as R1. pose proof (digit_value _ Hd2) as R2.
  pose proof (digit_value _ Hd3) as R3. pose proof (digit_value _ Hd4) as R4.
  unfold digits_from in Hv. cbn [fold_left] in Hv.
  unfold nonzero_digit, in_range in Hc. apply andb_true_iff in Hc as [?%N.leb_le _].
  destruct (decide (code c ≤ 53)%N) as [|N0].
  { intros b. right; left. apply lang_of_chr; [by apply digit_in_range|]. by apply lang_of_rep. }
  assert (E0 : c = "6"%char) by (apply code_inj; change (code "6"%char) with 54%N; lia). subst c.
  change (code "6"%char) with 54%N in *.
  destruct (decide (code d ≤ 52)%N) as [|N1].
  { intros b. right; right; left. apply (lang_of_lit "6"), lang_of_chr; [apply digit_in_range; lia|].
    apply lang_of_rep; [by apply Forall_cons in Hd as [_ Hd]|done]. }
  assert (E1 : d = "5"%char) by (apply code_inj; change (code "5"%char) with 53%N; lia). subst d.
  change (code "5"%char) with 53%N in *. apply Forall_cons in Hd as [_ Hd].
  destruct (decide (code e ≤ 52)%N) as [|N2].
  { intros b. right; right; right; left. apply (lang_of_lit "65"), lang_of_chr; [apply digit_in_range; lia|].
    apply lang_of_rep; [by apply Forall_cons in Hd as [_ Hd]|done]. }
  assert (E2 : e = "5"%char) by (apply code_inj; change (code "5"%char) with 53%N; lia). subst e.
  change (code "5"%char) with 53%N in *.
  destruct (decide (code f ≤ 50)%N) as [|N3].
  { intros b. right; right; right; right; left.
    apply (lang_of_lit "655"), lang_of_chr; [apply digit_in_range; lia|]. by apply lang_of_chr. }
  assert (E3 : f = "3"%char) by (apply code_inj; change (code "3"%char) with 51%N; lia). subst f.
  change (code "3"%char) with 51%N in *.
  intros b. do 5 right. apply (lang_of_lit "6553"), lang_of_chr; [apply digit_in_range; lia|done].
Qed.

Lemma valid_name_pattern p : isValidPersistedGatewayPort p = true → test VALID_GATEWAY_NAME_RE (resolveGatewayName p) = true.
Proof.
  intros Hp. destruct (decide (p = DEFAULT_GATEWAY_PORT)) as [->|Hd]; [vm_compute; reflexivity|].
  apply test_lang; [done|]. apply valid_port_range in Hp.
  destruct (pretty_digits p) as (c & l & E & Hc & Hl & Hv & Hpow); [lia|].
  assert (Hlen : (List.length l ≤ 4)%nat).
  { destruct (decide (List.length l ≤ 4)) as [|Hn]; [done|]. exfalso.
    assert ((10 ^ 5 ≤ 10 ^ Z.of_nat (List.length l))%Z) by (apply Z.pow_le_mono_r; lia). lia. }
  exists ([], chars (resolveGatewayName p)), (rev (chars (resolveGatewayName p)), []). split; [done|].
  unfold resolveGatewayName. rewrite per_port_chars, E by done.
  exists ([], chars "nemoclaw" ++ "-"%char :: c :: l). split; [done|].
  exists (rev (chars "nemoclaw"), "-"%char :: c :: l). split; [apply (lang_lit_here "nemoclaw" [])|].
  exists (rev (chars "nemoclaw" ++ "-"%char :: c :: l), []). split.
  - exists 1. split_and!; [lia|cbn; lia|]. exists (rev (chars "nemoclaw" ++ "-"%char :: c :: l), []). split; [|done].
    rewrite rev_app_distr. apply (lang_of_lit "-" (seqs [port_alternatives]) (c :: l)). intros b.
    exists (rev (c :: l) ++ b, []). split; [|done]. apply port_alternative; [done..|]. apply N2Z.inj_le. lia.
  - by exists (rev (chars "nemoclaw" ++ "-"%char :: c :: l), []).
Qed.

(** A persisted name is valid exactly when it is the name of a port. *)
Lemma valid_name_iff s : isValidPersistedGatewayName s = true ↔
  ∃ p, isValidPersistedGatewayPort p = true ∧ s = resolveGatewayName p.
Proof.
  unfold isValidPersistedGatewayName. split.
  - destruct (test _ _); [|done]. cbn [negb]. intros [p H]%bool_decide_eq_true. exists p. by apply name_of_port.
  - intros (p & Hp & ->). rewrite valid_name_pattern by done. cbn [negb]. apply bool_decide_eq_true.
    exists p. by apply port_of_name.
Qed.

(** C34: a port and the name of its gateway determine each other: the name of a valid port
    is read back as that port, a text that is read as a port is the name of a valid port, and
    the pattern of persisted names accepts exactly the names of valid ports.  Ports have
    different names, state directories and containers, and the name is the one that a
    checkpoint expects. *)
Theorem gateway_names_canonical :
  (∀ p, isValidPersistedGatewayPort p = true → resolveGatewayPortFromName (resolveGatewayName p) = Some p)
  ∧ (∀ s p, resolveGatewayPortFromName s = Some p → isValidPersistedGatewayPort p = true ∧ s = resolveGatewayName p)
  ∧ (∀ s, isValidPersistedGatewayName s = true ↔ ∃ p, isValidPersistedGatewayPort p = true ∧ s = resolveGatewayName p)
  ∧ (∀ p q, p ≠ q → resolveGatewayName p ≠ resolveGatewayName q
       ∧ resolveGatewayStateDirName p ≠ resolveGatewayStateDirName q
       ∧ resolveGatewayCompatContainerName p ≠ resolveGatewayCompatContainerName q)
  ∧ (∀ p, resolveGatewayName p = canonicalGatewayName p).
Proof.
  split_and!; [apply port_of_name|apply name_of_port|apply valid_name_iff| |done].
  intros p q Hne. split_and!; intros E; by apply per_port_inj in E.
Qed.

(** The port a row holds, when it is one. *)
Definition row_port (b : SandboxGatewayBinding) : option Z := readPortNumber (b_gatewayPort b).

Lemma resolve_sandbox b : resolveSandboxGatewayName (Some b) =
  match row_port b with
  | Some port => Ok (resolveGatewayName port)
  | None =>
      match readString (b_gatewayName b) with
      | Some s => if isValidPersistedGatewayName s then Ok s else Throw (InvalidBinding b)
      | None => if holds_value (b_gatewayPort b) || holds_value (b_gatewayName b) then Throw (InvalidBinding b)
                else Ok BASE_GATEWAY_NAME
      end
  end.
Proof.
  unfold resolveSandboxGatewayName. cbn [default from_option id].
  change (match b_gatewayPort b with JNum (NInt z) => if isValidPersistedGatewayPort z then Some z else None
          | _ => None end) with (row_port b).
  destruct (row_port b) as [p|]; [done|].
  rewrite <- negb_orb. destruct (b_gatewayName b) as [| | | |s| |] eqn:En; cbn [readString].
  5:{ destruct (isValidPersistedGatewayName s) eqn:Es; rewrite ?andb_false_r, ?andb_true_r.
      - destruct (truthy s) eqn:Et; [done|]. unfold truthy in Et. apply negb_false_iff, String.eqb_eq in Et. by subst s.
      - by rewrite orb_true_r. }
  all: by destruct (_ || _).
Qed.

Lemma resolved_name b n : resolveSandboxGatewayName (Some b) = Ok n →
  ∃ p, isValidPersistedGatewayPort p = true ∧ n = resolveGatewayName p.
Proof.
  rewrite resolve_sandbox. unfold row_port. destruct (readPortNumber (b_gatewayPort b)) as [p|] eqn:E.
  - intros [= <-]. exists p. split; [|done]. unfold readPortNumber in E. repeat case_match; try done.
    by injection E as <-.
  - destruct (readString (b_gatewayName b)) as [s|].
    + destruct (isValidPersistedGatewayName s) eqn:Es; [|done]. intros [= <-]. by apply valid_name_iff.
    + destruct (_ || _); [done|]. intros [= <-]. by exists DEFAULT_GATEWAY_PORT.
Qed.

(** a sandbox is addressed by the gateway its row names and by no other.  The gateway
    of a row is always the name of a valid port; a valid port in the row decides, whatever
    the name says; a row with neither is on the default gateway; and a row whose port and
    name are not valid, one of them present, is refused.  On resume the name and the port of
    the onboarding target belong together if those it was given do. *)
Theorem sandbox_gateway_resolved b :
  (∀ n, resolveSandboxGatewayName (Some b) = Ok n → ∃ p, isValidPersistedGatewayPort p = true ∧ n = resolveGatewayName p)
  ∧ (∀ p, row_port b = Some p → resolveSandboxGatewayName (Some b) = Ok (resolveGatewayName p))
  ∧ (resolveSandboxGatewayName (Some b) = Throw (InvalidBinding b) ↔
       row_port b = None ∧ (holds_value (b_gatewayPort b) || holds_value (b_gatewayName b) = true)
       ∧ ∀ s, b_gatewayName b = JStr s → isValidPersistedGatewayName s = false)
  ∧ (holds_value (b_gatewayPort b) || holds_value (b_gatewayName b) = false →
       resolveSandboxGatewayName (Some b) = Ok (resolveGatewayName DEFAULT_GATEWAY_PORT))
  ∧ (∀ authoritative current resume target,
       (∀ g, authoritative = Some g ∨ g = current → g.1 = resolveGatewayName g.2) →
       resolveCoreOnboardGatewayBinding authoritative current resume (Some b) = Ok target →
       target.1 = resolveGatewayName target.2).
Proof.
  split_and!.
  - apply resolved_name.
  - intros p Hp. by rewrite resolve_sandbox, Hp.
  - rewrite resolve_sandbox. destruct (row_port b) as [p|]; [naive_solver|].
    destruct (b_gatewayName b) as [| | | |s| |] eqn:En; cbn [readString].
    5:{ destruct (isValidPersistedGatewayName s) eqn:Es; split; [done| | |done]; intros H.
        - destruct H as (_ & _ & H). specialize (H s eq_refl). congruence.
        - by split_and!; [|rewrite orb_true_r|intros ? [= <-]]. }
    all: destruct (_ || _); naive_solver.
  - intros Hp. rewrite resolve_sandbox. destruct (row_port b) as [p|] eqn:Ep.
    + unfold row_port in Ep. by destruct (b_gatewayPort b).
    + destruct (b_gatewayName b) eqn:En; cbn [readString]; rewrite ?Hp; try done.
      by rewrite orb_true_r in Hp.
  - intros authoritative current resume target Hg. unfold resolveCoreOnboardGatewayBinding.
    destruct authoritative as [g|]; [intros [= <-]; apply Hg; by left|].
    destruct resume; [|intros [= <-]; apply Hg; by right].
    destruct (resolveSandboxGatewayName (Some b)) as [n|e] eqn:En; cbn; [|done].
    destruct (resolveGatewayPortFromName n) as [p|] eqn:Ep; [|done]. intros [= <-]. by apply name_of_port.
Qed.

(** ** The ports that a configuration loads *)

Lemma with_port_none port entries : with_port port entries = None ↔ ∀ name p, (name, p) ∈ entries → p ≠ port.
Proof.
  unfold with_port. rewrite fmap_None. split.
  - intros Hf name p Hin. pose proof (find_none _ _ Hf (name, p)) as Hn. apply list_elem_of_In in Hin.
    specialize (Hn Hin). cbn in Hn. by apply Z.eqb_neq in Hn.
  - intros H. destruct (List.find _ entries) as [[name p]|] eqn:E; [|done].
    apply find_some in E as [Hin Hp]. apply list_elem_of_In in Hin. cbn in Hp. apply Z.eqb_eq in Hp.
    by destruct (H name p Hin).
Qed.

(** What a validated port keeps clear of. *)
Lemma validate_port_ok envVar port options reserved conflicts :
  validate_port envVar port options reserved conflicts = Ok tt ↔
  (port < dashboardRangeStart options ∨ dashboardRangeEnd options < port)%Z
  ∧ ∀ name p, (name, p) ∈ reserved ++ conflicts → p ≠ port.
Proof.
  unfold validate_port, throw_unless. cbn.
  destruct ((dashboardRangeStart options <=? port)%Z && (port <=? dashboardRangeEnd options)%Z) eqn:E; cbn.
  - split; [done|]. intros [H _]. apply andb_true_iff in E as [?%Z.leb_le ?%Z.leb_le]. lia.
  - assert (Hr : (port < dashboardRangeStart options ∨ dashboardRangeEnd options < port)%Z)
      by (apply andb_false_iff in E as [?%Z.leb_gt|?%Z.leb_gt]; [by left|by right]).
    split.
    + destruct (with_port port reserved) eqn:E1; [done|]. destruct (with_port port conflicts) eqn:E2; [done|].
      rewrite with_port_none in E1, E2. intros _. split; [done|]. intros name p [Hin|Hin]%elem_of_app; eauto.
    + intros [_ H]. rewrite (proj2 (with_port_none port reserved)), (proj2 (with_port_none port conflicts)); [done|..];
        intros name p Hin; apply (H name p), elem_of_app; auto.
Qed.

Lemma parsePort_range env envVar fallback port : (1024 ≤ fallback ≤ 65535)%Z →
  parsePort env envVar fallback = Ok port → (1024 ≤ port ≤ 65535)%Z.
Proof.
  intros Hf. unfold parsePort. destruct (env envVar) as [[|c s]|]; [by intros [= <-]| |by intros [= <-]].
  destruct (negb _); [done|]. destruct (_ || _) eqn:E; [done|]. intros [= <-].
  apply orb_false_iff in E as [?%Z.ltb_ge ?%Z.ltb_ge]. lia.
Qed.

(** What the loading of the ports has checked. *)
Lemma load_ports_ok env options : load_ports env = Ok options →
  Forall (λ entry, 1024 ≤ entry.2 ≤ 65535)%Z (configured_ports options)
  ∧ dashboardRangeStart (base options) = DASHBOARD_PORT_RANGE_START
  ∧ dashboardRangeEnd (base options) = DASHBOARD_PORT_RANGE_END
  ∧ validateGatewayPort "NEMOCLAW_GATEWAY_PORT" (gatewayPort options) (base options) = Ok tt
  ∧ validateLlamaCppPortReservation options = Ok tt.
Proof.
  unfold load_ports, parseGatewayPort. intros H.
  repeat (let a := fresh "port" in let Ea := fresh "Ep" in
          apply result_bind_ok in H as (a & Ea & H)).
  match goal with Hb : (parsePort _ _ _ ≫= _) = Ok _ |- _ =>
    apply result_bind_ok in Hb as (gateway & Eg & Hb); apply result_bind_ok in Hb as ([] & Hv & [= <-]) end.
  match goal with u : unit |- _ => destruct u end. injection H as <-.
  repeat match goal with Hp : parsePort _ _ _ = Ok _ |- _ =>
    apply parsePort_range in Hp; [|by vm_compute] end.
  split; [|done]. repeat (apply Forall_cons_2; [done|]). apply Forall_nil_2.
Qed.

(** the port configuration that loads is in range and free of collisions with the
    gateway: every configured port is an unprivileged port, none is the fixed port of
    llama.cpp, and the gateway's port is outside the dashboard's range and is neither the
    port nor the default port of another service.  A runtime adapter whose port passes its
    own validation collides with no configured service either. *)
Theorem loaded_ports_clear env options : load_ports env = Ok options →
  (∀ name p, (name, p) ∈ configured_ports options → (1024 ≤ p ≤ 65535)%Z ∧ p ≠ LLAMA_CPP_PORT)
  ∧ (gatewayPort options < DASHBOARD_PORT_RANGE_START ∨ DASHBOARD_PORT_RANGE_END < gatewayPort options)%Z
  ∧ (∀ name p, (name, p) ∈ reserved_services ++ [openrouter_default; https_pin_default]
                 ++ service_ports (base options) ++ [openrouter_port (base options); https_pin_port (base options)] →
       p ≠ gatewayPort options)
  ∧ (∀ envVar port, validateOpenRouterRuntimeAdapterPort envVar port options = Ok tt →
       ∀ name p, (name, p) ∈ gateway_port options :: service_ports (base options) ++ [https_pin_port (base options)] →
       p ≠ port)
  ∧ (∀ envVar port, validateHttpsPinRuntimeAdapterPort envVar port options = Ok tt →
       ∀ name p, (name, p) ∈ gateway_port options :: service_ports (base options) ++ [openrouter_port (base options)] →
       p ≠ port).
Proof.
  intros H. apply load_ports_ok in H as (Hr & Es & Ee & Hg & Hl). split_and!.
  - intros name p Hin. rewrite Forall_forall in Hr. split; [by apply (Hr (name, p))|].
    unfold validateLlamaCppPortReservation in Hl. destruct (with_port _ _) eqn:E; [done|].
    rewrite with_port_none in E. by eapply E.
  - apply validate_port_ok in Hg as [Hg _]. by rewrite Es, Ee in Hg.
  - intros name p Hin. apply validate_port_ok in Hg as [_ Hg]. apply (Hg name). by rewrite <- (assoc_L (++)).
  - intros envVar port Hv name p Hin. apply validate_port_ok in Hv as [_ Hv]. apply (Hv name), elem_of_app. by right.
  - intros envVar port Hv name p Hin. apply validate_port_ok in Hv as [_ Hv]. apply (Hv name), elem_of_app. by right.
Qed.

(** ** Witnesses *)

Definition sample_env : environment := λ name, if name =s "NEMOCLAW_GATEWAY_PORT" then Some "9000" else None.
Definition sample_ports : RuntimeAdapterPortValidationOptions :=
  mkAdapterOptions (mkPortOptions 18789 18789 18799 8000 11434 11435 11436 11437 11438) 9000.

Lemma loaded_ports_clear_witness : load_ports sample_env = Ok sample_ports ∧ 11434%Z ≠ gatewayPort sample_ports.
Proof.
  split; [vm_compute; reflexivity|].
  refine (proj1 (proj2 (proj2 (loaded_ports_clear sample_env sample_ports _))) "Ollama inference" 11434%Z _).
  - vm_compute. reflexivity.
  - by do 2 right; left.
Defined.

Lemma sandbox_gateway_resolved_witness :
  resolveSandboxGatewayName (Some (mkBinding (JStr "nemoclaw-9000") (JNum (NInt 8081)))) = Ok "nemoclaw-8081".
Proof.
  exact (proj1 (proj2 (sandbox_gateway_resolved (mkBinding (JStr "nemoclaw-9000") (JNum (NInt 8081))))) 8081%Z eq_refl).
Defined.

Lemma gateway_names_canonical_witness : resolveGatewayPortFromName "nemoclaw-65535" = Some 65535%Z.
Proof. exact (proj1 gateway_names_canonical 65535%Z eq_refl). Defined.
