(* ===== verification/RouteGuard.v ===== *)
(** * The route guard

    src/lib/inference/gateway-route-compatibility.ts: one OpenShell gateway has one
    inference route, shared by every sandbox registered on it; the guard compares a requested
    route with the durable rows before the route is changed.  With it the endpoint
    canonicalisation of src/lib/core/url-utils.ts, over the platform's URL parser. *)

From S2P Require Import Prelude Json Regex Checkpoint Gateway.

(** ** core/url-utils.ts *)

Inductive EndpointFlavor : Type := Anthropic | OpenAI.

(** [new URL(s)], [url.href], and [url.pathname] after an assignment. *)
Record UrlParser := mkUrlParser {
  parse_url : string → option URL;
  href : URL → string;
  assigned_path : URL → string → string
}.

Definition is_slash (c : ascii) : bool := Ascii.eqb c "/".
(** [s.replace(/\/+$/, "")]. *)
Definition trim_slashes (s : string) : string := of_chars (drop_while_end is_slash (chars s)).

Fixpoint stripEndpointSuffix (pathname : string) (suffixes : list string) : string :=
  match suffixes with
  | [] => pathname
  | suffix :: suffixes' =>
      if pathname =s suffix then ""
      else if ends_with suffix pathname
           then of_chars (take (String.length pathname - String.length suffix) (chars pathname))
           else stripEndpointSuffix pathname suffixes'
  end.

Definition MAX_CANONICAL_ENDPOINT_LENGTH : nat := 2048.
Definition endpoint_suffixes (flavor : EndpointFlavor) : list string :=
  match flavor with
  | Anthropic => ["/v1/messages"; "/v1/models"; "/v1"; "/messages"; "/models"]
  | OpenAI => ["/responses"; "/chat/completions"; "/completions"; "/models"]
  end.
(** [/[?#].*$/]. *)
Definition query_or_hash : regex :=
  seqs [Chr (one_of "?#"); many (Chr (λ c, negb (code c =? 10)%N && negb (code c =? 13)%N)); Eol].

Section Endpoint.
Context (urls : UrlParser).

Definition normalizeProviderBaseUrl (value : string) (flavor : EndpointFlavor) : string :=
  let raw := js_trim value in
  if raw =s "" then ""
  else match parse_url urls raw with
       | Some url =>
           let path := trim_slashes (stripEndpointSuffix (trim_slashes (pathname url)) (endpoint_suffixes flavor)) in
           let path := assigned_path urls url (if truthy path then path else "/") in
           if path =s "/" then origin url else origin url +:+ path
       | None => trim_slashes (of_chars (replace_all query_or_hash (λ _ _, []) (chars raw)))
       end.

(** Of a property of a row; anything but a string is no endpoint. *)
Definition canonicalEndpoint (value : json) (flavor : EndpointFlavor) : option string :=
  let raw := match value with JStr s => js_trim s | _ => "" end in
  if negb (truthy raw) || (MAX_CANONICAL_ENDPOINT_LENGTH <? String.length raw)%nat then None
  else match parse_url urls raw with
       | None => None
       | Some parsed =>
           if (negb (protocol parsed =s "http:") && negb (protocol parsed =s "https:"))
              || truthy (username parsed) || truthy (password parsed)
           then None
           else Some (normalizeProviderBaseUrl (href urls parsed) flavor)
       end.
End Endpoint.

(** ** The rows and the routes

    A route is five properties of a registry row, whatever they hold. *)
Record GatewayInferenceRoute := mkRoute {
  r_provider : json;
  r_model : json;
  r_endpointUrl : json;
  r_preferredInferenceApi : json;
  r_credentialEnv : json
}.
Record RouteSandbox := mkEntry {
  s_name : string;
  s_binding : SandboxGatewayBinding;
  s_route : GatewayInferenceRoute
}.

Inductive GatewayRouteConflictReason : Type :=
| ProviderModel | CustomEndpoint | CustomApi | ProviderCredential
| IncompleteRoute | IncompleteCustomRoute | InvalidGatewayBinding.
#[export] Instance reason_eq_dec : EqDecision GatewayRouteConflictReason.
Proof. solve_decision. Defined.
Inductive conflict_scope : Type := Requested | Registered.

Record GatewayRouteConflict := mkConflict {
  c_sandboxName : string;
  c_reason : GatewayRouteConflictReason;
  c_scope : conflict_scope;
  c_recordedRoute : option (string * string)
}.
Record GatewayRouteRefusal := mkRefusal {
  gr_gatewayName : string;
  gr_sandboxName : option string;
  gr_route : string * string;
  gr_conflicts : list GatewayRouteConflict
}.
Inductive GatewayRouteCompatibilityResult : Type :=
| Compatible
| Incompatible (refusal : GatewayRouteRefusal).

Record GatewayRouteCompatibilityRequest := mkRequest {
  q_gatewayName : string;
  q_sandboxName : option string;
  q_route : GatewayInferenceRoute;
  q_sandboxes : list RouteSandbox
}.

Inductive guard_error : Type :=
| NoProviderAndModel | NoProvider | PeerNotConfigured
| RouteConflict (refusal : GatewayRouteRefusal).

Definition CUSTOM_ROUTE_PROVIDERS : list string :=
  ["compatible-endpoint"; "compatible-anthropic-endpoint"; "llama-cpp-local"].
Definition SUPPORTED_INFERENCE_APIS : list string :=
  ["openai-completions"; "anthropic-messages"; "openai-responses"].

Definition nonEmptyString (value : json) : option string :=
  match value with
  | JStr s => let trimmed := js_trim s in if truthy trimmed then Some trimmed else None
  | _ => None
  end.
Definition configuredRoute (route : GatewayInferenceRoute) : option (string * string) :=
  match nonEmptyString (r_provider route), nonEmptyString (r_model route) with
  | Some provider, Some model => Some (provider, model)
  | _, _ => None
  end.
Definition endpointFlavor (provider : string) : EndpointFlavor :=
  if provider =s "compatible-anthropic-endpoint" then Anthropic else OpenAI.
Definition normalizedInferenceApi (value : json) : option string :=
  match nonEmptyString value with
  | Some api => if includes SUPPORTED_INFERENCE_APIS api then Some api else None
  | None => None
  end.

Definition conflict (sandbox : RouteSandbox) (reason : GatewayRouteConflictReason)
    (recorded : option (string * string)) : GatewayRouteConflict :=
  mkConflict (s_name sandbox) reason Registered recorded.

(** [sandbox.name === request.sandboxName]. *)
Definition is_target (sandboxName : option string) (sandbox : RouteSandbox) : bool :=
  match sandboxName with Some n => s_name sandbox =s n | None => false end.

Section Guard.
Context (urls : UrlParser).

(** A truthy endpoint: the normalized text may be empty. *)
Definition route_endpoint (provider : string) (route : GatewayInferenceRoute) : option string :=
  match canonicalEndpoint urls (r_endpointUrl route) (endpointFlavor provider) with
  | Some e => if truthy e then Some e else None
  | None => None
  end.
Definition route_api (route : GatewayInferenceRoute) : option string :=
  normalizedInferenceApi (r_preferredInferenceApi route).

Definition customRouteConflict (provider : string) (requested recorded : GatewayInferenceRoute)
    : option GatewayRouteConflictReason :=
  match route_endpoint provider requested, route_endpoint provider recorded, route_api requested, route_api recorded with
  | Some requestedEndpoint, Some recordedEndpoint, Some requestedApi, Some recordedApi =>
      if negb (requestedEndpoint =s recordedEndpoint) then Some CustomEndpoint
      else if negb (requestedApi =s recordedApi) then Some CustomApi
      else None
  | _, _, _, _ => Some IncompleteCustomRoute
  end.
Definition providerCredentialConflict (requested recorded : GatewayInferenceRoute) : bool :=
  negb (bool_decide (nonEmptyString (r_credentialEnv requested) = nonEmptyString (r_credentialEnv recorded))).

(** A custom route without a durable endpoint or API family. *)
Definition incomplete_custom (provider : string) (route : GatewayInferenceRoute) : bool :=
  includes CUSTOM_ROUTE_PROVIDERS provider
  && match route_endpoint provider route, route_api route with Some _, Some _ => false | _, _ => true end.

(** The conflicts of one registered row with the request. *)
Definition row_conflicts (gatewayName : string) (route : GatewayInferenceRoute) (requested : string * string)
    (sandbox : RouteSandbox) : list GatewayRouteConflict :=
  match resolveSandboxGatewayName (Some (s_binding sandbox)) with
  | Throw _ => [conflict sandbox InvalidGatewayBinding None]
  | Ok recordedGatewayName =>
      if negb (recordedGatewayName =s gatewayName) then []
      else match configuredRoute (s_route sandbox) with
           | None => [conflict sandbox IncompleteRoute None]
           | Some recorded =>
               if incomplete_custom recorded.1 (s_route sandbox)
               then [conflict sandbox IncompleteCustomRoute (Some recorded)]
               else
                 let identity :=
                   if recorded.1 =s requested.1 then
                     (if includes CUSTOM_ROUTE_PROVIDERS requested.1
                      then match customRouteConflict requested.1 route (s_route sandbox) with
                           | Some reason => [conflict sandbox reason (Some recorded)]
                           | None => []
                           end
                      else [])
                     ++ (if providerCredentialConflict route (s_route sandbox)
                         then [conflict sandbox ProviderCredential (Some recorded)] else [])
                   else [] in
                 match identity with
                 | _ :: _ => identity
                 | [] => if negb (recorded.1 =s requested.1) || negb (recorded.2 =s requested.2)
                         then [conflict sandbox ProviderModel (Some recorded)] else []
                 end
           end
  end.

Definition checkGatewayRouteCompatibility (request : GatewayRouteCompatibilityRequest)
    : result guard_error GatewayRouteCompatibilityResult :=
  match configuredRoute (q_route request) with
  | None => Throw NoProviderAndModel
  | Some requested =>
      if incomplete_custom requested.1 (q_route request)
      then Ok (Incompatible (mkRefusal (q_gatewayName request) (q_sandboxName request) requested
             [mkConflict (default "requested route" (q_sandboxName request)) IncompleteCustomRoute Requested None]))
      else
        match flat_map (row_conflicts (q_gatewayName request) (q_route request) requested)
                (List.filter (λ s, negb (is_target (q_sandboxName request) s)) (q_sandboxes request)) with
        | [] => Ok Compatible
        | conflicts => Ok (Incompatible (mkRefusal (q_gatewayName request) (q_sandboxName request) requested conflicts))
        end
  end.

Definition assertGatewayRouteCompatibility (request : GatewayRouteCompatibilityRequest) : result guard_error unit :=
  result ← checkGatewayRouteCompatibility request;
  match result with
  | Compatible => Ok tt
  | Incompatible refusal => Throw (RouteConflict refusal)
  end.
End Guard.

(** True only for differences of provider and model that changing the route reconciles. *)
Definition isAdvisoryGatewayRouteConflict (refusal : GatewayRouteRefusal) : bool :=
  negb (bool_decide (gr_conflicts refusal = []))
  && forallb (λ c, match c_scope c with Requested => false | Registered => true end
                   && bool_decide (c_reason c = ProviderModel)) (gr_conflicts refusal).

(** ** Discovery *)

(** What a row means for discovery: another gateway's, a peer, or a conflict. *)
Inductive discovery_row : Type :=
| Elsewhere
| Peer
| Unusable (c : GatewayRouteConflict).
Definition classify_row (gatewayName : string) (sandbox : RouteSandbox) : discovery_row :=
  match resolveSandboxGatewayName (Some (s_binding sandbox)) with
  | Throw _ => Unusable (conflict sandbox InvalidGatewayBinding None)
  | Ok recordedGatewayName =>
      if negb (recordedGatewayName =s gatewayName) then Elsewhere
      else if configuredRoute (s_route sandbox) then Peer
      else Unusable (conflict sandbox IncompleteRoute None)
  end.

Inductive GatewayRouteDiscoveryResult : Type :=
| Discovered (requiredModel requiredEndpointUrl requiredInferenceApi : option string)
| DiscoveryRefused (refusal : GatewayRouteRefusal).

(** [nonEmptyString(value) ?? recorded]. *)
Definition or_recorded (value recorded : json) : json :=
  match nonEmptyString value with Some s => JStr s | None => recorded end.

Section Preflight.
Context (urls : UrlParser).

Definition preflightGatewayRouteDiscovery (request : GatewayRouteCompatibilityRequest)
    : result guard_error GatewayRouteDiscoveryResult :=
  match nonEmptyString (r_provider (q_route request)) with
  | None => Throw NoProvider
  | Some provider =>
      let others := List.filter (λ s, negb (is_target (q_sandboxName request) s)) (q_sandboxes request) in
      let peers := List.filter (λ s, match classify_row (q_gatewayName request) s with Peer => true | _ => false end) others in
      let discoveryConflicts :=
        flat_map (λ s, match classify_row (q_gatewayName request) s with Unusable c => [c] | _ => [] end) others in
      let requestedModel := nonEmptyString (r_model (q_route request)) in
      let refuse model conflicts :=
        DiscoveryRefused (mkRefusal (q_gatewayName request) (q_sandboxName request) (provider, model) conflicts) in
      match discoveryConflicts with
      | _ :: _ => Ok (refuse (default "model discovery pending" requestedModel) discoveryConflicts)
      | [] =>
          match peers with
          | [] => Ok (Discovered None None None)
          | reference :: _ =>
              match configuredRoute (s_route reference) with
              | None => Throw PeerNotConfigured
              | Some recorded =>
                  if negb (provider =s recorded.1)
                     || match requestedModel with Some m => negb (m =s recorded.2) | None => false end
                  then Ok (refuse (default recorded.2 requestedModel)
                             (map (λ s, conflict s ProviderModel (configuredRoute (s_route s))) peers))
                  else
                    let candidate := mkRoute (JStr provider) (JStr (default recorded.2 requestedModel))
                      (or_recorded (r_endpointUrl (q_route request)) (r_endpointUrl (s_route reference)))
                      (or_recorded (r_preferredInferenceApi (q_route request)) (r_preferredInferenceApi (s_route reference)))
                      (or_recorded (r_credentialEnv (q_route request)) (r_credentialEnv (s_route reference))) in
                    compatibility ← checkGatewayRouteCompatibility urls
                      (mkRequest (q_gatewayName request) (q_sandboxName request) candidate (q_sandboxes request));
                    match compatibility with
                    | Incompatible refusal => Ok (DiscoveryRefused refusal)
                    | Compatible =>
                        let custom := includes CUSTOM_ROUTE_PROVIDERS provider in
                        Ok (Discovered (Some recorded.2)
                              (if custom then nonEmptyString (r_endpointUrl (s_route reference)) else None)
                              (if custom then normalizedInferenceApi (r_preferredInferenceApi (s_route reference)) else None))
                    end
              end
          end
      end
  end.
End Preflight.

(** ** What the guard compares *)

(** The effective route of a gateway: the provider and the model, the endpoint and the API
    family of a custom provider, and the credential; none when it is not complete. *)
Definition route_key : Type := (string * string) * option (string * string) * option string.

Section Key.
Context (urls : UrlParser).

Definition effective_route (route : GatewayInferenceRoute) : option route_key :=
  match configuredRoute route with
  | None => None
  | Some pm =>
      let credential := nonEmptyString (r_credentialEnv route) in
      if includes CUSTOM_ROUTE_PROVIDERS pm.1 then
        match route_endpoint urls pm.1 route, route_api route with
        | Some e, Some a => Some (pm, Some (e, a), credential)
        | _, _ => None
        end
      else Some (pm, None, credential)
  end.

Definition bound (s : RouteSandbox) : Prop := ∃ n, resolveSandboxGatewayName (Some (s_binding s)) = Ok n.
Definition on_gateway (g : string) (s : RouteSandbox) : Prop := resolveSandboxGatewayName (Some (s_binding s)) = Ok g.

(** Every row is on a gateway, and those on [g] agree on its effective route. *)
Definition agrees (g : string) (key : route_key) (s : RouteSandbox) : Prop :=
  bound s ∧ (on_gateway g s → effective_route (s_route s) = Some key).
Definition shared (g : string) (rows : list RouteSandbox) : Prop := ∃ key, Forall (agrees g key) rows.

(** The same provider with the same endpoint, API family and credential. *)
Definition same_identity (k k' : route_key) : Prop := k.1.1.1 = k'.1.1.1 → k.1.2 = k'.1.2 ∧ k.2 = k'.2.

Lemma effective_incomplete route pm : configuredRoute route = Some pm →
  incomplete_custom urls pm.1 route = false ↔ is_Some (effective_route route).
Proof.
  intros E. unfold effective_route, incomplete_custom. rewrite E.
  destruct (includes _ _); cbn [andb]; [|by split].
  destruct (route_endpoint urls pm.1 route), (route_api route); by split; [|intros []].
Qed.

Lemma effective_configured route k : effective_route route = Some k → configuredRoute route = Some k.1.1.
Proof.
  unfold effective_route. destruct (configuredRoute route) as [pm|]; [|done].
  repeat case_match; intros [= <-]; done.
Qed.

(** The parts of an effective route. *)
Lemma effective_parts route k : effective_route route = Some k →
  k.2 = nonEmptyString (r_credentialEnv route)
  ∧ k.1.2 = if includes CUSTOM_ROUTE_PROVIDERS k.1.1.1
            then match route_endpoint urls k.1.1.1 route, route_api route with
                 | Some e, Some a => Some (e, a)
                 | _, _ => None
                 end
            else None.
Proof.
  unfold effective_route. destruct (configuredRoute route) as [pm|]; [|done].
  destruct (includes _ _) eqn:Ei.
  - destruct (route_endpoint urls pm.1 route) eqn:E1, (route_api route) eqn:E2; try done.
    intros [= <-]. cbn [fst snd]. by rewrite Ei, E1.
  - intros [= <-]. cbn [fst snd]. by rewrite Ei.
Qed.

Lemma effective_custom route k : effective_route route = Some k →
  includes CUSTOM_ROUTE_PROVIDERS k.1.1.1 = true →
  ∃ e a, route_endpoint urls k.1.1.1 route = Some e ∧ route_api route = Some a.
Proof.
  intros Ek Ec. unfold effective_route in Ek. destruct (configuredRoute route) as [pm|]; [|done].
  destruct (includes CUSTOM_ROUTE_PROVIDERS pm.1) eqn:Ei.
  - destruct (route_endpoint urls pm.1 route) eqn:E1, (route_api route) eqn:E2; try done.
    injection Ek as <-. eauto.
  - injection Ek as <-. cbn in Ec. congruence.
Qed.

(** The identity conflicts of two complete routes of one provider. *)
Lemma custom_conflict route recorded k k' : effective_route route = Some k → effective_route recorded = Some k' →
  k.1.1.1 = k'.1.1.1 → includes CUSTOM_ROUTE_PROVIDERS k.1.1.1 = true →
  (customRouteConflict urls k.1.1.1 route recorded = None ↔ k.1.2 = k'.1.2)
  ∧ ∀ reason, customRouteConflict urls k.1.1.1 route recorded = Some reason → reason ≠ ProviderModel.
Proof.
  intros Ek Ek' Ep Ec. destruct (effective_parts _ _ Ek) as [_ ->]. destruct (effective_parts _ _ Ek') as [_ ->].
  destruct (effective_custom _ _ Ek Ec) as (e & a & E1 & E2). rewrite Ep in Ec.
  destruct (effective_custom _ _ Ek' Ec) as (e' & a' & E3 & E4).
  unfold customRouteConflict. rewrite <- Ep in *. rewrite Ec, E1, E2, E3, E4.
  destruct (String.eqb_spec e e') as [->|Ne]; cbn [negb]; [destruct (String.eqb_spec a a') as [->|Na]|]; cbn [negb].
  - split; [by split|done].
  - split; [|by intros ? [= <-]]. split; [done|]. intros [= ?]. congruence.
  - split; [|by intros ? [= <-]]. split; [done|]. intros [= ?]. congruence.
Qed.

Lemma credential_conflict route recorded k k' : effective_route route = Some k → effective_route recorded = Some k' →
  providerCredentialConflict route recorded = false ↔ k.2 = k'.2.
Proof.
  intros Ek Ek'. destruct (effective_parts _ _ Ek) as [-> _]. destruct (effective_parts _ _ Ek') as [-> _].
  unfold providerCredentialConflict. by rewrite negb_false_iff, bool_decide_eq_true.
Qed.

(** The identity part of the conflicts of a row. *)
Definition identity_conflicts (route : GatewayInferenceRoute) (provider : string) (s : RouteSandbox)
    (recorded : option (string * string)) : list GatewayRouteConflict :=
  (if includes CUSTOM_ROUTE_PROVIDERS provider
   then match customRouteConflict urls provider route (s_route s) with
        | Some reason => [conflict s reason recorded]
        | None => []
        end
   else [])
  ++ (if providerCredentialConflict route (s_route s) then [conflict s ProviderCredential recorded] else []).

Lemma identity_conflicts_spec route s recorded k k' :
  effective_route route = Some k → effective_route (s_route s) = Some k' → k.1.1.1 = k'.1.1.1 →
  let cs := identity_conflicts route k.1.1.1 s recorded in
  (cs = [] ↔ k.1.2 = k'.1.2 ∧ k.2 = k'.2)
  ∧ (Forall (λ c, c_reason c = ProviderModel) cs → cs = []) ∧ Forall (λ c, c_scope c = Registered) cs.
Proof.
  intros Ek Ek' Ep. cbn zeta. unfold identity_conflicts.
  pose proof (credential_conflict _ _ _ _ Ek Ek') as Hc.
  destruct (includes CUSTOM_ROUTE_PROVIDERS k.1.1.1) eqn:Ec.
  - destruct (custom_conflict _ _ _ _ Ek Ek' Ep Ec) as [Hn Hr].
    destruct (customRouteConflict urls k.1.1.1 route (s_route s)) as [reason|].
    + cbn [app]. split_and!; [|intros [H _]%Forall_cons; by destruct (Hr reason)|].
      * split; [done|]. intros [H _]. by apply Hn in H.
      * constructor; [done|]. by destruct (providerCredentialConflict _ _); repeat constructor.
    + cbn [app]. destruct (providerCredentialConflict _ _).
      * split_and!; [|by intros [H _]%Forall_cons|by repeat constructor]. split; [done|]. intros [_ H]. by apply Hc in H.
      * split_and!; [|done|constructor]. split; [|done]. intros _. split; [by apply Hn|by apply Hc].
  - assert (E2 : k.1.2 = k'.1.2).
    { destruct (effective_parts _ _ Ek) as [_ ->]. destruct (effective_parts _ _ Ek') as [_ ->].
      by rewrite <- Ep, Ec. }
    cbn [app]. destruct (providerCredentialConflict _ _).
    + split_and!; [|by intros [H _]%Forall_cons|by repeat constructor]. split; [done|]. intros [_ H]. by apply Hc in H.
    + split_and!; [|done|constructor]. split; [|done]. intros _. split; [done|by apply Hc].
Qed.

(** What each list of conflicts of a row means, for a complete request. *)
Lemma row_conflicts_spec g route k s : effective_route route = Some k →
  let cs := row_conflicts urls g route k.1.1 s in
  (cs = [] ↔ agrees g k s)
  ∧ (Forall (λ c, c_reason c = ProviderModel) cs →
       bound s ∧ (on_gateway g s → ∃ k', effective_route (s_route s) = Some k' ∧ same_identity k k'))
  ∧ Forall (λ c, c_scope c = Registered) cs.
Proof.
  intros Ek. cbn zeta. unfold agrees, bound, on_gateway, row_conflicts.
  destruct (resolveSandboxGatewayName (Some (s_binding s))) as [n|e].
  2:{ split_and!; [|by intros [H _]%Forall_cons|by repeat constructor]. split; [done|]. by intros [[? ?] _]. }
  destruct (String.eqb_spec n g) as [->|Hng]; cbn [negb].
  2:{ split_and!; [|intros _; split; [by exists n|congruence]|constructor].
      split; [|done]. intros _. split; [by exists n|congruence]. }
  destruct (configuredRoute (s_route s)) as [pm|] eqn:Epm.
  2:{ split_and!; [|by intros [H _]%Forall_cons|by repeat constructor]. split; [done|]. intros [_ H].
      specialize (H eq_refl). apply effective_configured in H. congruence. }
  destruct (incomplete_custom urls pm.1 (s_route s)) eqn:Ei.
  { split_and!; [|by intros [H _]%Forall_cons|by repeat constructor]. split; [done|]. intros [_ H].
    specialize (H eq_refl). apply not_false_iff_true in Ei. destruct Ei. apply effective_incomplete; [done|by eexists]. }
  apply (effective_incomplete _ _ Epm) in Ei as [k' Ek']. pose proof (effective_configured _ _ Ek') as Epm'.
  rewrite Epm in Epm'. injection Epm' as ->.
  fold (identity_conflicts route k.1.1.1 s (Some k'.1.1)).
  destruct (String.eqb_spec k'.1.1.1 k.1.1.1) as [Ep|Np].
  - destruct (identity_conflicts_spec route s (Some k'.1.1) k k' Ek Ek' (eq_sym Ep)) as (Hn & Hf & Hs).
    destruct (identity_conflicts _ _ _ _) as [|c cs].
    + destruct (proj1 Hn eq_refl) as [H1 H2]. cbn [negb orb].
      assert (Hid : same_identity k k') by (intros _; done).
      destruct (String.eqb_spec k'.1.1.2 k.1.1.2) as [Em|Nm]; cbn [negb].
      * split_and!; [|intros _; split; [by eexists|intros _; by exists k']|constructor].
        split; [|done]. intros _. split; [by eexists|]. intros _. rewrite Ek'. f_equal.
        destruct k as [[[] ?] ?], k' as [[[] ?] ?]. cbn in *. congruence.
      * split_and!; [|intros _; split; [by eexists|intros _; by exists k']|by repeat constructor].
        split; [done|]. intros [_ H]. specialize (H eq_refl). rewrite Ek' in H. injection H as ->. done.
    + split_and!; [|intros H; by apply Hf in H|done]. split; [done|]. intros [_ H]. specialize (H eq_refl).
      rewrite Ek' in H. injection H as ->. by apply Hn.
  - cbn [negb orb]. assert (Hid : same_identity k k') by (intros H; congruence).
    split_and!; [|intros _; split; [by eexists|intros _; by exists k']|by repeat constructor].
    split; [done|]. intros [_ H]. specialize (H eq_refl). rewrite Ek' in H. injection H as ->. done.
Qed.

(** The rows a request is compared with. *)
Definition others (request : GatewayRouteCompatibilityRequest) : list RouteSandbox :=
  List.filter (λ s, negb (is_target (q_sandboxName request) s)) (q_sandboxes request).

Lemma in_others request s : s ∈ others request ↔ s ∈ q_sandboxes request ∧ is_target (q_sandboxName request) s = false.
Proof.
  unfold others. by rewrite !list_elem_of_In, filter_In, negb_true_iff.
Qed.

Lemma flat_map_nil {A B} (f : A → list B) l : flat_map f l = [] ↔ Forall (λ x, f x = []) l.
Proof.
  induction l as [|x l IH]; cbn [flat_map]; [by split|]. rewrite Forall_cons, <- IH. split.
  - by intros [-> ->]%app_nil.
  - by intros [-> ->].
Qed.

(** The guard accepts exactly the complete routes that every other row agrees with. *)
Lemma check_compatible request : checkGatewayRouteCompatibility urls request = Ok Compatible ↔
  ∃ key, effective_route (q_route request) = Some key ∧ Forall (agrees (q_gatewayName request) key) (others request).
Proof.
  unfold checkGatewayRouteCompatibility. destruct (configuredRoute (q_route request)) as [pm|] eqn:Epm.
  2:{ split; [done|]. intros (key & Hk & _). apply effective_configured in Hk. congruence. }
  destruct (incomplete_custom urls pm.1 (q_route request)) eqn:Ei.
  { split; [done|]. intros (key & Hk & _). exfalso. apply not_false_iff_true in Ei. apply Ei.
    apply effective_incomplete; [done|by eexists]. }
  apply (effective_incomplete _ _ Epm) in Ei as [key Hk]. pose proof (effective_configured _ _ Hk) as Ek.
  rewrite Epm in Ek. injection Ek as ->. fold (others request).
  transitivity (flat_map (row_conflicts urls (q_gatewayName request) (q_route request) key.1.1) (others request) = []).
  { by destruct (flat_map _ _). }
  rewrite flat_map_nil. split.
  - intros H. exists key. split; [done|]. eapply Forall_impl; [exact H|]. intros s. by apply row_conflicts_spec.
  - intros (key' & Hk' & H). rewrite Hk in Hk'. injection Hk' as <-. eapply Forall_impl; [exact H|].
    intros s. by apply row_conflicts_spec.
Qed.

(** What an advisory refusal leaves to be changed. *)
Lemma check_advisory request refusal : checkGatewayRouteCompatibility urls request = Ok (Incompatible refusal) →
  isAdvisoryGatewayRouteConflict refusal = true →
  ∃ key, effective_route (q_route request) = Some key
    ∧ Forall (λ s, bound s ∧ (on_gateway (q_gatewayName request) s →
        ∃ key', effective_route (s_route s) = Some key' ∧ same_identity key key')) (others request).
Proof.
  unfold checkGatewayRouteCompatibility. destruct (configuredRoute (q_route request)) as [pm|] eqn:Epm; [|done].
  destruct (incomplete_custom urls pm.1 (q_route request)) eqn:Ei; [by intros [= <-]|].
  apply (effective_incomplete _ _ Epm) in Ei as [key Hk]. pose proof (effective_configured _ _ Hk) as Ek.
  rewrite Epm in Ek. injection Ek as ->. fold (others request).
  set (cs := flat_map _ _). intros H Ha.
  assert (Hc : gr_conflicts refusal = cs) by (destruct cs; [done|by injection H as <-]).
  unfold isAdvisoryGatewayRouteConflict in Ha. rewrite Hc in Ha. apply andb_true_iff in Ha as [_ Ha].
  exists key. split; [done|]. apply Forall_forall. intros s Hs.
  apply (row_conflicts_spec (q_gatewayName request) _ _ s Hk). apply Forall_forall. intros c Hin.
  rewrite forallb_forall in Ha. specialize (Ha c).
  assert (Hin' : In c cs) by (apply in_flat_map; exists s; split; by apply list_elem_of_In).
  apply Ha, andb_true_iff in Hin' as [_ Hr]. by apply bool_decide_eq_true in Hr.
Qed.

(** The rows after the guarded mutation: the target's row, written anew, and the others. *)
Definition written (request : GatewayRouteCompatibilityRequest) (row : RouteSandbox) (rows : list RouteSandbox) : Prop :=
  on_gateway (q_gatewayName request) row ∧ effective_route (s_route row) = effective_route (q_route request)
  ∧ Forall (λ s, s = row ∨ s ∈ others request) rows.
End Key.

(** C8: the guard is sound and exact.  It accepts a route exactly when the route is
    complete and every other registered row, started or not, is on some gateway and, on this
    one, has the same provider, model, endpoint, API family and credential.  Writing the row
    of an accepted request keeps the gateway's rows in agreement, on the requested route,
    and keeps every other gateway's rows in agreement; a row whose gateway binding is invalid
    or that lacks a complete route on this gateway makes the guard refuse. *)
Theorem route_guard_exact urls request :
  (checkGatewayRouteCompatibility urls request = Ok Compatible ↔
     ∃ key, effective_route urls (q_route request) = Some key
            ∧ Forall (agrees urls (q_gatewayName request) key) (others request))
  ∧ (checkGatewayRouteCompatibility urls request = Ok Compatible → ∀ row rows, written urls request row rows →
       shared urls (q_gatewayName request) rows
       ∧ ∀ g, shared urls g (q_sandboxes request) → g ≠ q_gatewayName request → shared urls g rows)
  ∧ (checkGatewayRouteCompatibility urls request = Throw NoProviderAndModel ↔ configuredRoute (q_route request) = None)
  ∧ (assertGatewayRouteCompatibility urls request = Ok tt ↔ checkGatewayRouteCompatibility urls request = Ok Compatible).
Proof.
  split_and!.
  - apply check_compatible.
  - intros (key & Hk & Ho)%check_compatible row rows (Hg & He & Hr). split.
    + exists key. eapply Forall_impl; [exact Hr|]. intros s [->|Hs]; [|by rewrite Forall_forall in Ho; apply Ho].
      split; [by eexists|]. intros _. by rewrite He.
    + intros g [k Hs] Hne. exists k. eapply Forall_impl; [exact Hr|]. rewrite Forall_forall in Hs.
      intros s [->|Hin]; [|apply Hs; by apply in_others in Hin as [Hin _]].
      split; [by eexists|]. unfold on_gateway in *. congruence.
  - unfold checkGatewayRouteCompatibility. destruct (configuredRoute _) as [pm|]; [|by split].
    split; [|done]. destruct (incomplete_custom _ _ _); [done|]. by destruct (flat_map _ _).
  - unfold assertGatewayRouteCompatibility. destruct (checkGatewayRouteCompatibility urls request) as [[]|]; cbn; by split.
Qed.

(** a refusal is advisory only when changing the route reconciles it.  The requested
    route is then complete, every other row is on some gateway, and on this one it has a
    complete route that, for the same provider, has the same endpoint, API family and
    credential; so re-pointing the shared route never replaces the configuration of a
    provider that another registered sandbox uses. *)
Theorem advisory_keeps_providers urls request refusal :
  checkGatewayRouteCompatibility urls request = Ok (Incompatible refusal) →
  isAdvisoryGatewayRouteConflict refusal = true →
  ∃ key, effective_route urls (q_route request) = Some key ∧ ∀ s, s ∈ others request →
    bound s ∧ (on_gateway (q_gatewayName request) s →
      ∃ key', effective_route urls (s_route s) = Some key' ∧ same_identity key key').
Proof.
  intros H Ha. destruct (check_advisory urls request refusal H Ha) as (key & Hk & Hf). exists key.
  split; [done|]. by apply Forall_forall.
Qed.

(** ** Discovery *)

Definition with_route (request : GatewayRouteCompatibilityRequest) (route : GatewayInferenceRoute)
    : GatewayRouteCompatibilityRequest :=
  mkRequest (q_gatewayName request) (q_sandboxName request) route (q_sandboxes request).

Lemma others_with_route request route : others (with_route request route) = others request.
Proof. done. Qed.

Lemma classify_peer g s : classify_row g s = Peer → on_gateway g s ∧ is_Some (configuredRoute (s_route s)).
Proof.
  unfold classify_row, on_gateway. destruct (resolveSandboxGatewayName _) as [n|]; [|done].
  destruct (String.eqb_spec n g) as [->|]; cbn [negb]; [|done]. by destruct (configuredRoute _).
Qed.

(** Without conflicts and peers no other row is on the gateway. *)
Lemma no_peer_elsewhere g rows :
  flat_map (λ s, match classify_row g s with Unusable c => [c] | _ => [] end) rows = [] →
  Forall (λ s, bound s ∧ (classify_row g s ≠ Peer → ¬ on_gateway g s)) rows.
Proof.
  rewrite flat_map_nil. intros H. eapply Forall_impl; [exact H|]. intros s. unfold classify_row, bound, on_gateway.
  destruct (resolveSandboxGatewayName _) as [n|e]; [|done]. intros Hc. split; [by exists n|].
  intros Hp Hg. injection Hg as ->. rewrite String.eqb_refl in *. cbn [negb] in *.
  by destruct (configuredRoute _).
Qed.

(** discovery is constrained by exactly what the guard will accept.  When it is allowed,
    every other row has a valid gateway binding; without a peer on the gateway it is free, and
    then the guard accepts every complete route; with a peer, the guard accepts a route
    exactly when its effective route is the peer's, and the constraints are the peer's model,
    endpoint and API family. *)
Theorem discovery_constraints_exact urls request model endpoint api :
  preflightGatewayRouteDiscovery urls request = Ok (Discovered model endpoint api) →
  (∀ s, s ∈ others request → bound s)
  ∧ ((model = None ∧ (∀ s, s ∈ others request → ¬ on_gateway (q_gatewayName request) s)
      ∧ ∀ route, checkGatewayRouteCompatibility urls (with_route request route) = Ok Compatible
                 ↔ is_Some (effective_route urls route))
     ∨ ∃ reference key, reference ∈ others request ∧ on_gateway (q_gatewayName request) reference
         ∧ effective_route urls (s_route reference) = Some key
         ∧ nonEmptyString (r_provider (q_route request)) = Some key.1.1.1
         ∧ (∀ m, nonEmptyString (r_model (q_route request)) = Some m → m = key.1.1.2)
         ∧ model = Some key.1.1.2 ∧ api = snd <$> key.1.2
         ∧ endpoint = (if includes CUSTOM_ROUTE_PROVIDERS key.1.1.1
                       then nonEmptyString (r_endpointUrl (s_route reference)) else None)
         ∧ ∀ route, checkGatewayRouteCompatibility urls (with_route request route) = Ok Compatible
                    ↔ effective_route urls route = Some key).
Proof.
  unfold preflightGatewayRouteDiscovery. destruct (nonEmptyString (r_provider (q_route request))) as [provider|]; [|done].
  fold (others request). destruct (flat_map _ _) as [|c cs] eqn:Ec; [|done].
  apply no_peer_elsewhere in Ec. rewrite Forall_forall in Ec.
  intros H. split; [intros s Hs; by apply Ec|].
  destruct (List.filter _ (others request)) as [|reference peers] eqn:Ep.
  - injection H as <- <- <-. left. split; [done|].
    assert (Hno : ∀ s, s ∈ others request → ¬ on_gateway (q_gatewayName request) s).
    { intros s Hs. apply Ec; [done|]. intros Hp. apply list_elem_of_In in Hs.
      assert (Hin : In s (List.filter (λ s, match classify_row (q_gatewayName request) s with Peer => true | _ => false end) (others request)))
        by (apply filter_In; by rewrite Hp).
      by rewrite Ep in Hin. }
    split; [done|]. intros route. rewrite check_compatible, others_with_route. cbn [with_route q_route q_gatewayName]. split.
    + intros (key & Hk & _). by eexists.
    + intros [key Hk]. exists key. split; [done|]. apply Forall_forall. intros s Hs. split; [by apply Ec|].
      intros Hg. by destruct (Hno s Hs).
  - right. assert (Hin : In reference (reference :: peers)) by by left.
    rewrite <- Ep in Hin. apply filter_In in Hin as [Hin Hp]. apply list_elem_of_In in Hin.
    destruct (classify_row _ reference) eqn:Ecl; try done. apply classify_peer in Ecl as [Hg [recorded Hr]].
    rewrite Hr in H. destruct (_ || _) eqn:Et; [done|]. apply orb_false_iff in Et as [Ept Em].
    apply negb_false_iff, String.eqb_eq in Ept. subst provider.
    apply result_bind_ok in H as ([|refusal] & Hck & H); [|done]. injection H as <- <- <-.
    apply check_compatible in Hck as (key & _ & Hall). change (others _) with (others request) in Hall.
    cbn [q_gatewayName] in Hall. rewrite Forall_forall in Hall.
    destruct (Hall _ Hin) as [_ Hkey]. specialize (Hkey Hg).
    pose proof (effective_configured _ _ _ Hkey) as Hrk. rewrite Hr in Hrk. injection Hrk as ->.
    exists reference, key. split_and!; try done.
    + intros m Hm. rewrite Hm in Em. by apply negb_false_iff, String.eqb_eq in Em.
    + destruct (effective_parts urls _ _ Hkey) as [_ ->]. destruct (includes _ _) eqn:Ei; [|done].
      destruct (effective_custom urls _ _ Hkey Ei) as (e & a & -> & Ha). rewrite Ha. exact Ha.
    + intros route. rewrite check_compatible, others_with_route. cbn [with_route q_route q_gatewayName]. split.
      * intros (k & Hk & Hf). rewrite Forall_forall in Hf. destruct (Hf _ Hin) as [_ Hf']. specialize (Hf' Hg). congruence.
      * intros Hk. exists key. split; [done|]. by apply Forall_forall.
Qed.

(** ** Witnesses *)

Definition sample_url : URL := mkURL "https:" "api.example.com" "" "/v1" "" "" "" "" "https://api.example.com".
Definition sample_urls : UrlParser :=
  mkUrlParser (λ s, if s =s "https://api.example.com/v1" then Some sample_url else None)
              (λ _, "https://api.example.com/v1") (λ _ p, p).
Definition sample_route (model : string) : GatewayInferenceRoute :=
  mkRoute (JStr "compatible-endpoint") (JStr model) (JStr "https://api.example.com/v1")
          (JStr "openai-completions") (JStr "COMPATIBLE_API_KEY").
Definition sample_entry (name : string) (model : string) : RouteSandbox :=
  mkEntry name (mkBinding JUndef JUndef) (sample_route model).
Definition sample_request (model : string) : GatewayRouteCompatibilityRequest :=
  mkRequest "nemoclaw" (Some "b") (sample_route model) [sample_entry "a" "m1"; sample_entry "b" "m0"].

Example sample_endpoint : canonicalEndpoint sample_urls (JStr " https://api.example.com/v1 ") OpenAI
  = Some "https://api.example.com/v1".
Proof. vm_compute. reflexivity. Qed.

Lemma route_guard_exact_witness :
  checkGatewayRouteCompatibility sample_urls (sample_request "m1") = Ok Compatible
  ∧ shared sample_urls "nemoclaw" [sample_entry "a" "m1"; sample_entry "b" "m1"].
Proof.
  split; [vm_compute; reflexivity|].
  refine (proj1 (proj1 (proj2 (route_guard_exact sample_urls (sample_request "m1"))) _ (sample_entry "b" "m1") _ _)).
  - vm_compute. reflexivity.
  - split; [reflexivity|split; [reflexivity|]].
    apply Forall_cons_2; [right; vm_compute; left|apply Forall_cons_2; [left; reflexivity|apply Forall_nil_2]].
Defined.

Lemma advisory_keeps_providers_witness : ∃ refusal,
  checkGatewayRouteCompatibility sample_urls (sample_request "m2") = Ok (Incompatible refusal)
  ∧ bound (sample_entry "a" "m1").
Proof.
  eexists. split; [vm_compute; reflexivity|].
  destruct (advisory_keeps_providers sample_urls (sample_request "m2") _ eq_refl eq_refl) as (key & _ & H).
  refine (proj1 (H (sample_entry "a" "m1") _)). vm_compute. left.
Defined.

Definition open_request : GatewayRouteCompatibilityRequest :=
  mkRequest "nemoclaw" (Some "b")
    (mkRoute (JStr "compatible-endpoint") JUndef JUndef JUndef JUndef) [sample_entry "a" "m1"; sample_entry "b" "m0"].

Lemma discovery_constraints_exact_witness :
  preflightGatewayRouteDiscovery sample_urls open_request
    = Ok (Discovered (Some "m1") (Some "https://api.example.com/v1") (Some "openai-completions"))
  ∧ bound (sample_entry "a" "m1").
Proof.
  split; [vm_compute; reflexivity|].
  refine (proj1 (discovery_constraints_exact sample_urls open_request (Some "m1") (Some "https://api.example.com/v1")
    (Some "openai-completions") _) (sample_entry "a" "m1") _); [vm_compute; reflexivity|vm_compute; left].
Defined.
