(* ===== verification/IpAddress.v ===== *)
(** * IP addresses

    What the code uses of the platform's net module and URL host printer: the texts that are
    IPv4 and IPv6 literals, the subnets of a BlockList, and the canonical text of an IPv6
    address.  The operations of the program that are built on them are in PrivateNetworks.v
    and Endpoint.v. *)

From S2P Require Import Prelude Json.

Local Notation length := List.length (only parsing).

(** ** Literals *)

(** An IPv4 address is a 32-bit number, an IPv6 address its eight 16-bit pieces. *)
Inductive ip : Type := V4 (n : N) | V6 (pieces : list N).
#[export] Instance ip_eq_dec : EqDecision ip.
Proof. solve_decision. Defined.

Definition DOT : ascii := ".".
Definition COLON : ascii := ":".
Definition PERCENT : ascii := "%".

Definition hex_value (c : ascii) : N :=
  if is_digit c then code c - 48 else if in_range 97 102 c then code c - 87 else code c - 55.
(** One to four hexadecimal digits. *)
Definition hex_group (l : list ascii) : option N :=
  if bool_decide (l ≠ []) && (length l <=? 4)%nat && forallb is_hex l
  then Some (fold_left (λ a c, a * 16 + hex_value c)%N l 0%N) else None.
(** A decimal number up to 255 without leading zeros. *)
Definition octet (s : string) : option N :=
  match chars s with
  | [] => None
  | c :: l =>
      if forallb is_digit (c :: l) && (length l <=? 2)%nat && (bool_decide (l = []) || negb (Ascii.eqb c "0"))
         && (digits_value s <=? 255)%N
      then Some (digits_value s) else None
  end.

Definition parse_ipv4 (s : string) : option N :=
  match map octet (js_split DOT s) with
  | [Some a; Some b; Some c; Some d] => Some (((a * 256 + b) * 256 + c) * 256 + d)%N
  | _ => None
  end.

(** The groups of a text between colons; the last may be an IPv4 address, of two pieces. *)
Fixpoint groups (v4_last : bool) (tokens : list string) : option (list N) :=
  match tokens with
  | [] => None
  | [t] =>
      match hex_group (chars t) with
      | Some g => Some [g]
      | None => if v4_last then n ← parse_ipv4 t; Some [n / 65536; n mod 65536]%N else None
      end
  | t :: tokens' => g ← hex_group (chars t); gs ← groups v4_last tokens'; Some (g :: gs)
  end.
Definition half (v4_last : bool) (l : list ascii) : option (list N) :=
  match l with [] => Some [] | _ => groups v4_last (js_split COLON (of_chars l)) end.
(** Around the first [::]. *)
Fixpoint at_double (l : list ascii) : option (list ascii * list ascii) :=
  match l with
  | c :: (d :: r) as l' =>
      if Ascii.eqb c COLON && Ascii.eqb d COLON then Some ([], r)
      else '(a, b) ← at_double l'; Some (c :: a, b)
  | _ => None
  end.
Definition pieces_of (l : list ascii) : option (list N) :=
  match at_double l with
  | None => gs ← half true l; if (length gs =? 8)%nat then Some gs else None
  | Some (a, b) =>
      ga ← half false a; gb ← half true b;
      if (length ga + length gb <=? 7)%nat
      then Some (ga ++ replicate (8 - (length ga + length gb)) 0%N ++ gb) else None
  end.

(** The zone of a scoped address, behind the first percent sign. *)
Definition zone_char (c : ascii) : bool := is_alnum c || one_of "-.:" c.
Fixpoint split_zone (l : list ascii) : list ascii * option (list ascii) :=
  match l with
  | [] => ([], None)
  | c :: l' => if Ascii.eqb c PERCENT then ([], Some l')
               else let '(a, z) := split_zone l' in (c :: a, z)
  end.
Definition zone_ok (zone : option (list ascii)) : bool :=
  match zone with None => true | Some z => bool_decide (z ≠ []) && forallb zone_char z end.
Definition parse_ipv6 (s : string) : option (list N) :=
  let '(a, zone) := split_zone (chars s) in
  if zone_ok zone then pieces_of a else None.
Definition scoped (s : string) : bool := existsb (Ascii.eqb PERCENT) (chars s).

(** The address a literal denotes, and [isIP]. *)
Definition read_ip (s : string) : option ip :=
  match parse_ipv4 s with Some n => Some (V4 n) | None => V6 <$> parse_ipv6 s end.
Definition isIP (s : string) : nat :=
  match read_ip s with None => 0 | Some (V4 _) => 4 | Some (V6 _) => 6 end.

(** ** Subnets *)

Definition number (pieces : list N) : N := fold_left (λ a p, a * 65536 + p)%N pieces 0%N.
(** [::ffff:a.b.c.d]. *)
Definition mapped (n : N) : N := (65535 * 4294967296 + n)%N.

(** [addSubnet(address, prefix, family)]. *)
Record Subnet := mkSubnet { s_address : ip; s_prefix : N }.
Definition BlockList : Type := list Subnet.

Definition same_prefix (width prefix a b : N) : bool :=
  (N.shiftr a (width - prefix) =? N.shiftr b (width - prefix))%N.
Definition in_subnet (address : ip) (net : Subnet) : bool :=
  match address, s_address net with
  | V4 a, V4 b => same_prefix 32 (s_prefix net) a b
  | V4 a, V6 b => same_prefix 128 (s_prefix net) (mapped a) (number b)
  | V6 a, V6 b => same_prefix 128 (s_prefix net) (number a) (number b)
  | V6 a, V4 b => (N.shiftr (number a) 32 =? 65535)%N
                  && same_prefix 32 (s_prefix net) (number a mod 4294967296) b
  end.
Definition blocked (list : BlockList) (address : ip) : bool := existsb (in_subnet address) list.
(** [isIP(address) !== 0 && list.check(address, family)]. *)
Definition check (list : BlockList) (address : string) : bool :=
  match read_ip address with Some a => blocked list a | None => false end.

(** ** The canonical text of an IPv6 address *)

Definition hex_piece (n : N) : string :=
  of_chars (map hex_digit (drop_while (N.eqb 0) [n / 4096; n / 256 mod 16; n / 16 mod 16] ++ [n mod 16])%N).
Fixpoint zeros (l : list N) : nat :=
  match l with 0%N :: l' => S (zeros l') | _ => 0 end.
(** The first longest run of zeros, with its length. *)
Fixpoint longest_run (i : nat) (l : list N) : nat * nat :=
  match l with
  | [] => (i, 0)
  | _ :: l' => let '(j, n) := longest_run (S i) l' in
               if (n <=? zeros l)%nat then (i, zeros l) else (j, n)
  end.
Definition colons (l : list N) : string := js_join ":" (map hex_piece l).
Definition print_ipv6 (pieces : list N) : string :=
  let '(i, n) := longest_run 0 pieces in
  if (2 <=? n)%nat then colons (take i pieces) +:+ "::" +:+ colons (drop (i + n) pieces)
  else colons pieces.
(** [new URL(`http://[${address}]/`).hostname] without its brackets; a zone is no part of a
    URL, and the constructor throws. *)
Definition url_ipv6 (address : string) : option string :=
  if scoped address then None else print_ipv6 <$> parse_ipv6 address.

(** ** Canonical texts are read back *)

Definition wf_pieces (pieces : list N) : Prop := length pieces = 8 ∧ Forall (λ p, p < 65536)%N pieces.
Definition wf_ip (a : ip) : Prop :=
  match a with V4 n => (n < 4294967296)%N | V6 pieces => wf_pieces pieces end.

Lemma hex_value_bound c : is_hex c = true → (hex_value c < 16)%N.
Proof. destruct c as [[] [] [] [] [] [] [] []]; vm_compute; done. Qed.

Lemma hex_digit_value n : (n < 16)%N → is_lower_hex (hex_digit n) = true ∧ hex_value (hex_digit n) = n.
Proof.
  intros Hn. assert (In n (map N.of_nat (seq 0 16))) as Hin.
  { apply in_map_iff. exists (N.to_nat n). split; [lia|]. apply in_seq. lia. }
  clear Hn. cbn in Hin. repeat destruct Hin as [<-|Hin]; try done.
Qed.

Lemma hex_fold_bound l a :
  forallb is_hex l = true → (fold_left (λ a c, a * 16 + hex_value c) l a < (a + 1) * 16 ^ N.of_nat (length l))%N.
Proof.
  revert a. induction l as [|c l IH]; intros a; cbn [forallb fold_left].
  - intros _. change (16 ^ N.of_nat (length []))%N with 1%N. lia.
  - intros [Hc Hl]%andb_true_iff. specialize (IH (a * 16 + hex_value c)%N Hl). apply hex_value_bound in Hc.
    rewrite length_cons, Nat2N.inj_succ, N.pow_succ_r'. nia.
Qed.

Lemma hex_group_bound l n : hex_group l = Some n → (n < 65536)%N.
Proof.
  unfold hex_group. intros [[[_ Hl%Nat.leb_le]%andb_true_iff Hx]%andb_true_iff [= <-]]%if_some.
  pose proof (hex_fold_bound l 0 Hx) as Hf.
  assert (16 ^ N.of_nat (length l) ≤ 16 ^ 4)%N by (apply N.pow_le_mono_r; lia). lia.
Qed.

Lemma digits_bound l a :
  forallb is_digit l = true →
  (fold_left (λ a c, 10 * a + (code c - 48)) l a < (a + 1) * 10 ^ N.of_nat (length l))%N.
Proof.
  revert a. induction l as [|c l IH]; intros a; cbn [forallb fold_left].
  - intros _. change (10 ^ N.of_nat (length []))%N with 1%N. lia.
  - intros [Hc Hl]%andb_true_iff. specialize (IH (10 * a + (code c - 48))%N Hl).
    unfold is_digit, in_range in Hc. rewrite length_cons, Nat2N.inj_succ, N.pow_succ_r'.
    apply andb_true_iff in Hc as [H1%N.leb_le H2%N.leb_le]. nia.
Qed.

Lemma octet_bound s n : octet s = Some n → (n < 256)%N.
Proof.
  unfold octet. destruct (chars s) as [|c l]; [done|]. intros [[_ Hn%N.leb_le]%andb_true_iff [= <-]]%if_some. lia.
Qed.

Lemma parse_ipv4_bound s n : parse_ipv4 s = Some n → (n < 4294967296)%N.
Proof.
  unfold parse_ipv4. destruct (js_split DOT s) as [|a [|b [|c [|d [|]]]]]; cbn [map]; try (repeat case_match; done).
  destruct (octet a) eqn:Ea, (octet b) eqn:Eb, (octet c) eqn:Ec, (octet d) eqn:Ed; try done.
  apply octet_bound in Ea, Eb, Ec, Ed. intros [= <-]. lia.
Qed.

Lemma groups_wf b tokens gs : groups b tokens = Some gs → Forall (λ p, p < 65536)%N gs.
Proof.
  revert gs. induction tokens as [|t tokens IH]; intros gs; [done|]. cbn [groups].
  destruct tokens as [|u tokens].
  - destruct (hex_group (chars t)) as [g|] eqn:E.
    { intros [= <-]. constructor; [by eapply hex_group_bound|done]. }
    destruct b; [|done]. intros H. opt_inv H. apply parse_ipv4_bound in E0.
    repeat constructor; [apply N.Div0.div_lt_upper_bound; lia | apply N.mod_lt; lia].
  - intros H. opt_inv H. constructor; [by eapply hex_group_bound|]. by eapply IH.
Qed.

Lemma half_wf b l gs : half b l = Some gs → Forall (λ p, p < 65536)%N gs.
Proof. destruct l; cbn [half]; [by intros [= <-]|]. apply groups_wf. Qed.

Lemma pieces_of_wf l p : pieces_of l = Some p → wf_pieces p.
Proof.
  unfold pieces_of. destruct (at_double l) as [[a b]|]; intros H; opt_inv H.
  - apply half_wf in E, E0. apply Nat.leb_le in E1. split.
    + rewrite !length_app, length_replicate. lia.
    + apply Forall_app. split; [done|]. apply Forall_app. split; [|done].
      apply Forall_replicate. lia.
  - apply half_wf in E. apply Nat.eqb_eq in E0. done.
Qed.

Lemma read_ip_wf s a : read_ip s = Some a → wf_ip a.
Proof.
  unfold read_ip. destruct (parse_ipv4 s) eqn:E.
  - intros [= <-]. by apply parse_ipv4_bound in E.
  - intros H. opt_inv H. unfold parse_ipv6 in E0. destruct (split_zone _). destruct (zone_ok _); [|done].
    by apply pieces_of_wf in E0.
Qed.

(** A printed piece. *)
Lemma drop_while_in {A} (p : A → bool) l x : In x (drop_while p l) → In x l.
Proof. induction l as [|y l IH]; [done|]. cbn [drop_while]. destruct (p y); [|done]. right. by apply IH. Qed.

Lemma nibbles_small n d :
  (n < 65536)%N → In d ([n / 4096; n / 256 mod 16; n / 16 mod 16] ++ [n mod 16])%N → (d < 16)%N.
Proof.
  intros Hn Hd. cbn [app In] in Hd.
  destruct Hd as [<-|[<-|[<-|[<-|[]]]]]; [apply N.Div0.div_lt_upper_bound; lia|by apply N.mod_lt..].
Qed.

Lemma hex_piece_digits n : (n < 65536)%N → forallb is_lower_hex (chars (hex_piece n)) = true.
Proof.
  intros Hn. unfold hex_piece. rewrite chars_of_chars. apply forallb_forall. intros c [d [<- Hd]]%in_map_iff.
  apply hex_digit_value, (nibbles_small n); [done|].
  apply in_app_iff in Hd as [Hd%drop_while_in|Hd]; apply in_app_iff; auto.
Qed.

Lemma hex_piece_not_empty n : chars (hex_piece n) ≠ [].
Proof. unfold hex_piece. rewrite chars_of_chars, map_app. by destruct (map _ _). Qed.

Lemma fold_hex_digits l a :
  Forall (λ d, d < 16)%N l →
  fold_left (λ a c, a * 16 + hex_value c)%N (map hex_digit l) a = fold_left (λ a d, a * 16 + d)%N l a.
Proof.
  intros Hl. revert a. induction Hl as [|d l Hd Hl IH]; intros a; [done|]. cbn [map fold_left].
  by rewrite (proj2 (hex_digit_value d Hd)), IH.
Qed.

Lemma fold_leading_zeros l :
  fold_left (λ a d, a * 16 + d)%N (drop_while (N.eqb 0) l) 0%N = fold_left (λ a d, a * 16 + d)%N l 0%N.
Proof.
  induction l as [|x l IH]; [done|]. cbn [drop_while]. destruct (N.eqb_spec 0 x) as [<-|]; [|done].
  by rewrite IH.
Qed.

Lemma lower_hex_hex c : is_lower_hex c = true → is_hex c = true.
Proof. unfold is_hex. by intros ->. Qed.

Lemma hex_group_piece n : (n < 65536)%N → hex_group (chars (hex_piece n)) = Some n.
Proof.
  intros Hn. unfold hex_group. rewrite bool_decide_eq_true_2 by apply hex_piece_not_empty.
  assert (forallb is_hex (chars (hex_piece n)) = true) as ->.
  { apply forallb_forall. intros c Hc. apply lower_hex_hex.
    pose proof (hex_piece_digits n Hn) as Hd. rewrite forallb_forall in Hd. auto. }
  assert (length (chars (hex_piece n)) ≤ 4) as Hlen.
  { unfold hex_piece. rewrite chars_of_chars, length_map, length_app. cbn [drop_while].
    repeat case_match; cbn; lia. }
  apply Nat.leb_le in Hlen as ->. cbn [andb]. f_equal. unfold hex_piece. rewrite chars_of_chars.
  rewrite fold_hex_digits.
  2:{ apply Forall_forall. intros d Hd%list_elem_of_In. apply (nibbles_small n); [done|].
      apply in_app_iff in Hd as [Hd%drop_while_in|Hd]; apply in_app_iff; auto. }
  rewrite fold_left_app, fold_leading_zeros. cbn [fold_left].
  zify; Z.to_euclidean_division_equations; lia.
Qed.

Definition colon_free (l : list ascii) : Prop := Forall (λ c, Ascii.eqb c COLON = false) l.

Lemma hex_piece_colon_free n : (n < 65536)%N → colon_free (chars (hex_piece n)).
Proof.
  intros Hn. apply Forall_forall. intros c Hc%list_elem_of_In.
  pose proof (hex_piece_digits n Hn) as Hd. rewrite forallb_forall in Hd. specialize (Hd c Hc).
  destruct (Ascii.eqb_spec c COLON) as [->|]; [discriminate Hd|done].
Qed.

Lemma at_double_word w l : colon_free w → at_double (w ++ l) = prod_map (w ++.) id <$> at_double l.
Proof.
  induction 1 as [|c w Hc Hw IH]; cbn [app at_double]; [by destruct (at_double l) as [[]|]|].
  rewrite IH, Hc. cbn [andb]. destruct (w ++ l) as [|d r] eqn:E.
  - by apply app_eq_nil in E as [-> ->].
  - by destruct (at_double l) as [[]|].
Qed.

Lemma at_double_cons c l d r :
  l = d :: r → Ascii.eqb d COLON = false → at_double (c :: l) = prod_map (c ::.) id <$> at_double l.
Proof.
  intros -> Hd. change (at_double (c :: d :: r)) with
    (if Ascii.eqb c COLON && Ascii.eqb d COLON then Some ([], r) else '(a, b) ← at_double (d :: r); Some (c :: a, b)).
  rewrite Hd, andb_false_r. by destruct (at_double (d :: r)) as [[]|].
Qed.

Lemma colons_cons x y l : chars (colons (x :: y :: l)) = chars (hex_piece x) ++ COLON :: chars (colons (y :: l)).
Proof. unfold colons. cbn [map]. apply (join_chars COLON). Qed.

Lemma colons_one x : colons [x] = hex_piece x.
Proof. done. Qed.

Lemma colons_first y l : (y < 65536)%N → ∃ c r, chars (colons (y :: l)) = c :: r ∧ Ascii.eqb c COLON = false.
Proof.
  intros Hy. pose proof (hex_piece_colon_free y Hy) as Hc. pose proof (hex_piece_not_empty y) as Hne.
  destruct (chars (hex_piece y)) as [|c r] eqn:E; [done|]. inversion Hc; subst. destruct l as [|z l].
  - rewrite colons_one, E. eauto.
  - rewrite colons_cons, E. cbn [app]. eauto.
Qed.

Lemma at_double_colons l t :
  Forall (λ p, p < 65536)%N l → at_double (chars (colons l) ++ t) = prod_map (chars (colons l) ++.) id <$> at_double t.
Proof.
  induction 1 as [|x l Hx Hl IH]; [cbn; by destruct (at_double t) as [[]|]|]. destruct l as [|y l].
  { rewrite colons_one. by apply at_double_word, hex_piece_colon_free. }
  rewrite colons_cons, <- app_assoc, at_double_word by by apply hex_piece_colon_free.
  inversion Hl as [|? ? Hy _]; subst. destruct (colons_first y l Hy) as (c & r & E & Hc).
  rewrite <- app_comm_cons, (at_double_cons COLON _ c (r ++ t)) by (done || by rewrite E). rewrite IH.
  destruct (at_double t) as [[]|]; [|done]. unfold prod_map. cbn. by rewrite <- app_assoc.
Qed.

Lemma split_colons l : l ≠ [] → Forall (λ p, p < 65536)%N l → js_split COLON (colons l) = map hex_piece l.
Proof.
  intros Hne Hl. apply (split_join COLON); [by destruct l|]. apply Forall_map. eapply Forall_impl; [exact Hl|].
  intros p Hp. unfold sep_free. apply negb_true_iff. apply not_true_iff_false. intros [c [Hc E]]%existsb_exists.
  pose proof (hex_piece_colon_free p Hp) as Hf. unfold colon_free in Hf. rewrite Forall_forall in Hf.
  apply list_elem_of_In, Hf in Hc. by rewrite Ascii.eqb_sym, E in Hc.
Qed.

Lemma groups_pieces b l : l ≠ [] → Forall (λ p, p < 65536)%N l → groups b (map hex_piece l) = Some l.
Proof.
  intros Hne Hl. induction Hl as [|x l Hx Hl IH]; [done|]. destruct l as [|y l].
  - cbn [map groups]. by rewrite hex_group_piece.
  - change (groups b (map hex_piece (x :: y :: l))) with
      (g ← hex_group (chars (hex_piece x)); gs ← groups b (map hex_piece (y :: l)); Some (g :: gs)).
    by rewrite hex_group_piece, IH.
Qed.

Lemma half_colons b l : Forall (λ p, p < 65536)%N l → half b (chars (colons l)) = Some l.
Proof.
  intros Hl. destruct l as [|x l]; [done|]. inversion Hl as [|? ? Hx _]; subst.
  destruct (colons_first x l Hx) as (c & r & E & _). rewrite E. cbn [half]. rewrite <- E, of_chars_chars.
  rewrite split_colons by done. by apply groups_pieces.
Qed.

(** The compressed run is made of zeros. *)
Lemma zeros_spec l : take (zeros l) l = replicate (zeros l) 0%N ∧ zeros l ≤ length l.
Proof.
  induction l as [|[|p] l [IH1 IH2]]; [done| |cbn; split; [done|lia]].
  cbn [zeros take replicate length]. split; [by rewrite IH1|lia].
Qed.

Lemma longest_run_spec k l i n :
  longest_run k l = (i, n) →
  k ≤ i ∧ (i - k) + n ≤ length l ∧ take n (drop (i - k) l) = replicate n 0%N.
Proof.
  revert k i n. induction l as [|x l IH]; intros k i n; [cbn; intros [= <- <-]; rewrite Nat.sub_diag; done|].
  cbn [longest_run]. destruct (longest_run (S k) l) as [j m] eqn:E. apply IH in E as (H1 & H2 & H3).
  destruct (Nat.leb_spec m (zeros (x :: l))) as [Hm|Hm]; intros [= <- <-].
  - rewrite Nat.sub_diag. destruct (zeros_spec (x :: l)) as [Hz1 Hz2]. split_and!; [done|exact Hz2|done].
  - replace (j - k) with (S (j - S k)) by lia. split_and!; [lia|cbn; lia|done].
Qed.

Lemma compressed_pieces i n (l : list N) :
  i + n ≤ length l → take n (drop i l) = replicate n 0%N → take i l ++ replicate n 0%N ++ drop (i + n) l = l.
Proof.
  intros _ <-. rewrite <- drop_drop. rewrite take_drop. apply take_drop.
Qed.

Lemma pieces_of_print p : wf_pieces p → pieces_of (chars (print_ipv6 p)) = Some p.
Proof.
  intros [Hlen Hp]. unfold print_ipv6. destruct (longest_run 0 p) as [i n] eqn:E.
  apply longest_run_spec in E as (_ & H1 & H2). rewrite Nat.sub_0_r in H1, H2.
  assert (Forall (λ p, p < 65536)%N (take i p)) as Ha by by apply Forall_take.
  assert (Forall (λ p, p < 65536)%N (drop (i + n) p)) as Hb by by apply Forall_drop.
  unfold pieces_of. destruct (Nat.leb_spec 2 n) as [Hn|Hn].
  - rewrite !chars_app, at_double_colons by done. cbn. rewrite app_nil_r, !half_colons by done. cbn.
    rewrite length_take, length_drop. replace (min i (length p) + _)%nat with (8 - n)%nat by lia.
    destruct (Nat.leb_spec (8 - n) 7) as [_|]; [|lia]. replace (8 - (8 - n)) with n by lia.
    by rewrite compressed_pieces.
  - rewrite <- (app_nil_r (chars (colons p))), at_double_colons by done. cbn.
    rewrite app_nil_r, half_colons by done. cbn. by rewrite Hlen.
Qed.

Definition ipv6_char (c : ascii) : bool := is_lower_hex c || Ascii.eqb c COLON.

Lemma colons_chars l : Forall (λ p, p < 65536)%N l → forallb ipv6_char (chars (colons l)) = true.
Proof.
  assert (∀ p, (p < 65536)%N → forallb ipv6_char (chars (hex_piece p)) = true) as Hpiece.
  { intros p Hp. pose proof (hex_piece_digits p Hp) as Hd. rewrite forallb_forall in *.
    intros c Hc. unfold ipv6_char. by rewrite Hd. }
  induction 1 as [|x l Hx Hl IH]; [done|]. destruct l as [|y l]; [by apply Hpiece|].
  rewrite colons_cons, forallb_app, Hpiece by done. exact IH.
Qed.

Lemma print_ipv6_chars p : wf_pieces p → forallb ipv6_char (chars (print_ipv6 p)) = true.
Proof.
  intros [_ Hp]. unfold print_ipv6. destruct (longest_run 0 p) as [i n]. case_match; [|by apply colons_chars].
  rewrite !chars_app, !forallb_app, !colons_chars; [done|by apply Forall_drop|by apply Forall_take].
Qed.

Lemma chars_without p c l : p c = false → forallb p l = true → existsb (Ascii.eqb c) l = false.
Proof.
  intros Hc Hl. apply not_true_iff_false. intros [d [Hd E]]%existsb_exists.
  rewrite forallb_forall in Hl. apply Ascii.eqb_eq in E as ->. by rewrite Hl in Hc.
Qed.

Lemma split_without sep s : sep_free sep s = true → js_split sep s = [s].
Proof. intros Hs. apply (split_join sep [s]); [done|]. by repeat constructor. Qed.

Lemma not_ipv4 s : sep_free DOT s = true → parse_ipv4 s = None.
Proof. intros Hs. unfold parse_ipv4. rewrite split_without by done. cbn [map]. by destruct (octet s). Qed.

Lemma split_zone_none l : existsb (Ascii.eqb PERCENT) l = false → split_zone l = (l, None).
Proof.
  induction l as [|c l IH]; [done|]. cbn [existsb split_zone]. intros [Hc Hl]%orb_false_iff.
  by rewrite Ascii.eqb_sym, Hc, IH.
Qed.

Lemma parse_ipv6_plain s : scoped s = false → parse_ipv6 s = pieces_of (chars s).
Proof. intros Hs. unfold parse_ipv6. by rewrite split_zone_none. Qed.

Lemma print_ipv6_plain p : wf_pieces p → scoped (print_ipv6 p) = false.
Proof. intros Hp. by eapply chars_without, print_ipv6_chars. Qed.

Lemma parse_print_ipv6 p : wf_pieces p → parse_ipv6 (print_ipv6 p) = Some p.
Proof. intros Hp. rewrite parse_ipv6_plain by by apply print_ipv6_plain. by apply pieces_of_print. Qed.

Lemma read_print_ipv6 p : wf_pieces p → read_ip (print_ipv6 p) = Some (V6 p).
Proof.
  intros Hp. unfold read_ip. rewrite not_ipv4; [by rewrite parse_print_ipv6|].
  unfold sep_free. rewrite (chars_without ipv6_char); [done|done|].
  by apply print_ipv6_chars.
Qed.

Lemma lower_plain s : forallb (λ c, negb (is_upper c) && (code c <? 192)%N) (chars s) = true → js_lower s = s.
Proof.
  intros Hs. unfold js_lower. rewrite <- (of_chars_chars s) at 2. f_equal.
  induction (chars s) as [|c l IH]; [done|]. cbn [forallb map] in *. bools. rewrite IH by done. f_equal.
  unfold to_lower_char, in_range. apply N.ltb_lt in H1. rewrite H.
  by destruct (N.leb_spec 192 (code c)); [lia|].
Qed.

Lemma ipv6_char_lower c : ipv6_char c = true → negb (is_upper c) && (code c <? 192)%N = true.
Proof. destruct c as [[] [] [] [] [] [] [] []]; vm_compute; done. Qed.

Lemma print_ipv6_lower p : wf_pieces p → js_lower (print_ipv6 p) = print_ipv6 p.
Proof.
  intros Hp. apply lower_plain. pose proof (print_ipv6_chars p Hp) as H. rewrite forallb_forall in *.
  intros c Hc. by apply ipv6_char_lower, H.
Qed.

(** ** Subnets are intervals *)

(** The number of an address in the space of IPv6. *)
Definition ip_number (a : ip) : N := match a with V4 n => mapped n | V6 p => number p end.

Lemma number_bound l a :
  Forall (λ p, p < 65536)%N l → (fold_left (λ a p, a * 65536 + p) l a < (a + 1) * 65536 ^ N.of_nat (length l))%N.
Proof.
  intros Hl. revert a. induction Hl as [|p l Hp Hl IH]; intros a; cbn [fold_left].
  - change (65536 ^ N.of_nat (length []))%N with 1%N. lia.
  - specialize (IH (a * 65536 + p)%N). rewrite length_cons, Nat2N.inj_succ, N.pow_succ_r'. nia.
Qed.

Lemma mapped_parts n : (n < 4294967296)%N → (mapped n / 4294967296 = 65535 ∧ mapped n mod 4294967296 = n)%N.
Proof. intros Hn. unfold mapped. zify; Z.to_euclidean_division_equations; lia. Qed.

(** An IPv4 address and its mapped IPv6 form are in the same subnets. *)
Lemma in_subnet_number a b net : wf_ip a → wf_ip b → ip_number a = ip_number b → in_subnet a net = in_subnet b net.
Proof.
  assert (∀ n p, (n < 4294967296)%N → mapped n = number p → in_subnet (V4 n) net = in_subnet (V6 p) net) as H46.
  { intros n p Hn E. unfold in_subnet. rewrite <- E. destruct (s_address net); [|done].
    change 4294967296%N with (2 ^ 32)%N in *. rewrite N.shiftr_div_pow2.
    destruct (mapped_parts n Hn) as [E1 E2]. change 4294967296%N with (2 ^ 32)%N in *. by rewrite E1, E2. }
  destruct a as [n|p], b as [m|q]; cbn [wf_ip ip_number]; intros Ha Hb E.
  - unfold mapped in E. by replace m with n by lia.
  - by apply H46.
  - symmetry. by apply H46.
  - unfold in_subnet. by rewrite E.
Qed.

Lemma blocked_number list a b : wf_ip a → wf_ip b → ip_number a = ip_number b → blocked list a = blocked list b.
Proof.
  intros Ha Hb E. unfold blocked. induction list as [|net l IH]; [done|]. cbn [existsb].
  by rewrite (in_subnet_number a b), IH.
Qed.

(** The addresses from the first to the last of a subnet. *)
Definition within_subnet (width prefix base a : N) : Prop :=
  (base / 2 ^ (width - prefix) * 2 ^ (width - prefix) ≤ a
   < (base / 2 ^ (width - prefix) + 1) * 2 ^ (width - prefix))%N.

Lemma same_prefix_spec width prefix base a :
  same_prefix width prefix a base = true ↔ within_subnet width prefix base a.
Proof.
  unfold same_prefix, within_subnet. rewrite N.eqb_eq, !N.shiftr_div_pow2.
  pose proof (N.pow_nonzero 2 (width - prefix) ltac:(done)) as Hm. set (m := (2 ^ (width - prefix))%N) in *. clearbody m.
  split.
  - intros <-. pose proof (N.Div0.div_mod a m) as E. pose proof (N.mod_lt a m Hm) as Hr.
    revert E Hr. generalize (a / m)%N (a mod m)%N. intros q r -> Hr. split; nia.
  - generalize (base / m)%N. intros q [H1 H2]. symmetry. apply (N.div_unique _ _ _ (a - q * m)); lia.
Qed.

(** A subnet that another covers. *)
Definition covers (outer inner : Subnet) : bool :=
  match s_address outer, s_address inner with
  | V4 a, V4 b => (s_prefix outer <=? s_prefix inner)%N && (s_prefix inner <=? 32)%N
                  && same_prefix 32 (s_prefix outer) a b
  | V6 a, V6 b => (s_prefix outer <=? s_prefix inner)%N && (s_prefix inner <=? 128)%N
                  && same_prefix 128 (s_prefix outer) (number a) (number b)
  | _, _ => false
  end.

Lemma same_prefix_covers width outer inner a b x :
  (outer ≤ inner)%N → (inner ≤ width)%N → same_prefix width outer a b = true →
  same_prefix width inner x b = true → same_prefix width outer x a = true.
Proof.
  unfold same_prefix. rewrite !N.eqb_eq. intros H1 H2 E1 E2. rewrite E1.
  replace (width - outer)%N with ((width - inner) + (inner - outer))%N by lia.
  by rewrite <- !N.shiftr_shiftr, E2.
Qed.

Lemma covers_in_subnet outer inner a : covers outer inner = true → in_subnet a inner = true → in_subnet a outer = true.
Proof.
  unfold covers, in_subnet. destruct (s_address outer) as [o|o], (s_address inner) as [i|i]; [|done|done|].
  - intros [[H1%N.leb_le H2%N.leb_le]%andb_true_iff H3]%andb_true_iff.
    destruct a as [n|p]; [by eapply same_prefix_covers|].
    intros [-> H4]%andb_true_iff. by eapply same_prefix_covers.
  - intros [[H1%N.leb_le H2%N.leb_le]%andb_true_iff H3]%andb_true_iff.
    destruct a as [n|p]; by eapply same_prefix_covers.
Qed.

Lemma blocked_covered inner outer a :
  forallb (λ net, existsb (λ net', covers net' net) outer) inner = true → blocked inner a = true → blocked outer a = true.
Proof.
  unfold blocked. rewrite forallb_forall. intros Hc [net [Hnet Ha]]%existsb_exists.
  specialize (Hc net Hnet). apply existsb_exists in Hc as (net' & Hnet' & Hcov).
  apply existsb_exists. exists net'. split; [done|]. by eapply covers_in_subnet.
Qed.

(** When an address is in a subnet, on numbers alone. *)
Definition subnet_holds (net : Subnet) (x : N) : Prop :=
  match s_address net with
  | V4 b => ∃ m, (m < 4294967296)%N ∧ x = mapped m ∧ within_subnet 32 (s_prefix net) b m
  | V6 b => within_subnet 128 (s_prefix net) (number b) x
  end.

Lemma in_subnet_spec a net : wf_ip a → in_subnet a net = true ↔ subnet_holds net (ip_number a).
Proof.
  intros Ha. unfold in_subnet, subnet_holds. destruct (s_address net) as [b|b].
  - destruct a as [n|p]; cbn [ip_number wf_ip] in *.
    + rewrite same_prefix_spec. split; [by exists n|].
      intros (m & _ & E & H). unfold mapped in E. by replace n with m by lia.
    + rewrite andb_true_iff, same_prefix_spec, N.eqb_eq, N.shiftr_div_pow2.
      change (2 ^ 32)%N with 4294967296%N. split.
      * intros [H1 H2]. exists (number p mod 4294967296)%N. split_and!; [by apply N.mod_lt| |done].
        unfold mapped. rewrite <- H1. pose proof (N.Div0.div_mod (number p) 4294967296). lia.
      * intros (m & Hm & E & H). rewrite E. destruct (mapped_parts m Hm) as [E1 E2]. by rewrite E1, E2.
  - destruct a as [n|p]; apply same_prefix_spec.
Qed.

Lemma blocked_spec list a : wf_ip a → blocked list a = true ↔ ∃ net, net ∈ list ∧ subnet_holds net (ip_number a).
Proof.
  intros Ha. unfold blocked. rewrite existsb_exists. split; intros (net & H1 & H2); exists net.
  - split; [by apply list_elem_of_In|]. by apply in_subnet_spec.
  - split; [by apply list_elem_of_In|]. by apply in_subnet_spec.
Qed.
