(* ===== verification/Policy.v ===== *)
(** * Network policies and reviewed exclusions from the baseline

    policy/preset-parsing.ts and policy/baseline-exclusion.ts.  A policy is a YAML document; an operator may exclude an
    entry of an agent's baseline after reviewing it, and the approval is bound to the
    reviewed content by a digest of the entry's canonical form.

    The YAML library is the parameter [Yaml]; its law is that a document prints to a text
    that parses to it.  A parsed document is a tree (no aliases). *)

From S2P Require Import Prelude Json Canonical.

(** [YAML.parse] ([None] when it throws) and [YAML.stringify]. *)
Class Yaml := {
  yaml_parse : string → option json;
  yaml_stringify : json → string;
}.

Record yaml_law (yaml : Yaml) : Prop := {
  yaml_round_trip : ∀ j, plain_document j → yaml_parse (yaml_stringify j) = Some j;
  yaml_text : ∀ j, yaml_stringify j ≠ "";
}.

Section WithYaml.
Context {yaml : Yaml}.

(** ** preset-parsing.ts *)

Definition isPolicyDocument (value : json) : option (list (string * json)) := isObjectRecord value.
Definition isPolicyObject (value : json) : option (list (string * json)) := isObjectRecord value.
Definition isPresetPolicyMap (value : json) : bool :=
  match isPolicyObject value with
  | Some o => negb (bool_decide (o = [])) && forallb (λ kv, bool_decide (is_Some (isPolicyObject kv.2))) o
  | None => false
  end.
Definition parseNetworkPolicies (content : string) : option (list (string * json)) :=
  if truthy content then
    parsed ← yaml_parse content;
    document ← isPolicyDocument parsed;
    isPolicyObject (jget document "network_policies")
  else None.

(** ** baseline-exclusion.ts *)

Definition PROTECTED_BASELINE_EXCLUSION_KEYS : list string := ["managed_inference"].
Definition isProtectedBaselineExclusionKey (key : string) : bool :=
  includes PROTECTED_BASELINE_EXCLUSION_KEYS key.

Record BaselineExclusionRequest := mkRequest {
  q_agent : string;
  q_key : string;
  q_digest : string;
}.

Inductive BaselineExclusionRuntimeStatus : Type :=
| Excluded | AgentChanged | BaselineUnreadable | ContentChanged | NoLongerInBaseline
| LivePolicyUnreadable | LivePolicyMismatch.

(** [undefined] (unreadable) is the outer [None], [null] (no entry) the inner one. *)
Definition evaluateBaselineExclusionRuntimeStatus (exclusion : BaselineExclusionRequest)
    (currentAgent : string) (currentBaselineDigest liveDigest : option (option string))
    : BaselineExclusionRuntimeStatus :=
  if negb (q_agent exclusion =s currentAgent) then AgentChanged
  else match currentBaselineDigest with
       | None => BaselineUnreadable
       | Some None => NoLongerInBaseline
       | Some (Some digest) =>
           if negb (digest =s q_digest exclusion) then ContentChanged
           else match liveDigest with
                | None => LivePolicyUnreadable
                | Some None => Excluded
                | Some (Some _) => LivePolicyMismatch
                end
       end.

(** The recursion of [canonicalJsonValue], with keys in the order of their code units. *)
Definition canonicalize (value : json) : json := canonicalJsonValue (collation := code_units) value.

Inductive BaselineDriftReason : Type := DriftMissing | DriftChanged.
#[export] Instance drift_eq_dec : EqDecision BaselineDriftReason.
Proof. solve_decision. Defined.

Inductive exclusion_error : Type :=
| BaselineExclusionDriftError (key : string) (reason : BaselineDriftReason)
| ProtectedBaselineExclusionError (key : string)
| BaselineExclusionSourceError (key approvedAgent currentAgent : string).

Section Digest.
(** The hexadecimal SHA-256 digest of a text. *)
Variable sha256 : string → string.

Definition digestBaselineEntry (entry : json) : string := sha256 (json_text (canonicalize entry)).

Definition getBaselineEntry (basePolicyContent key : string) : option (list (string * json)) :=
  networkPolicies ← parseNetworkPolicies basePolicyContent;
  if hasOwn networkPolicies key then isPolicyObject (jget networkPolicies key) else None.

Definition listBaselineEntryKeys (basePolicyContent : string) : list string :=
  match parseNetworkPolicies basePolicyContent with Some policies => policies.*1 | None => [] end.

Record BaselineExclusionResolution := mkResolution {
  res_entry : option (list (string * json));
  res_currentDigest : option string;
  res_drift : option BaselineDriftReason;
}.
Definition resolveBaselineExclusion (basePolicyContent : string) (request : BaselineExclusionRequest)
    : BaselineExclusionResolution :=
  match getBaselineEntry basePolicyContent (q_key request) with
  | None => mkResolution None None (Some DriftMissing)
  | Some entry =>
      let currentDigest := digestBaselineEntry (JObj entry) in
      mkResolution (Some entry) (Some currentDigest)
        (if currentDigest =s q_digest request then None else Some DriftChanged)
  end.

Definition parsePolicyDocumentOrNull (policyContent : string) : option (list (string * json)) :=
  parsed ← yaml_parse policyContent; isPolicyDocument parsed.

(** [{ policy, removed }]: the removal is [None] when nothing was removed. *)
Definition removeBaselineEntryFromPolicy (currentPolicy key : string) : string * bool :=
  match parsePolicyDocumentOrNull currentPolicy with
  | Some document =>
      match jget document "network_policies" with
      | JObj networkPolicies =>
          if hasOwn networkPolicies key then
            (yaml_stringify (JObj (set_prop document "network_policies"
                                      (JObj (remove networkPolicies key)))), true)
          else (currentPolicy, false)
      | _ => (currentPolicy, false)
      end
  | None => (currentPolicy, false)
  end.

(** The loop's [content] and [excludedKeys]. *)
Fixpoint applyBaselineExclusions_from (content : string) (excludedKeys : list string)
    (requests : list BaselineExclusionRequest) (currentAgent : string)
    : result exclusion_error (string * list string) :=
  match requests with
  | [] => Ok (content, excludedKeys)
  | request :: requests' =>
      throw_unless (q_agent request =s currentAgent)
        (BaselineExclusionSourceError (q_key request) (q_agent request) currentAgent);;
      throw_unless (negb (isProtectedBaselineExclusionKey (q_key request)))
        (ProtectedBaselineExclusionError (q_key request));;
      match res_drift (resolveBaselineExclusion content request) with
      | Some reason => Throw (BaselineExclusionDriftError (q_key request) reason)
      | None =>
          let '(policy, removed) := removeBaselineEntryFromPolicy content (q_key request) in
          throw_unless removed (BaselineExclusionDriftError (q_key request) DriftMissing);;
          applyBaselineExclusions_from policy (excludedKeys ++ [q_key request]) requests' currentAgent
      end
  end.
Definition applyBaselineExclusions (basePolicyContent : string)
    (requests : list BaselineExclusionRequest) (currentAgent : string)
    : result exclusion_error (string * list string) :=
  applyBaselineExclusions_from basePolicyContent [] requests currentAgent.

(** [Number(value) || 1] of a document's version: [to_number] is [Number] on what is no
    number itself. *)
Definition version_or_one (to_number : json → jsnum) (value : json) : jsnum :=
  match (match value with
         | JNum n => n
         | JUndef => NNonFinite "NaN"
         | v => to_number v
         end) with
  | NInt 0 => NInt 1
  | NNonFinite literal => if literal =s "NaN" then NInt 1 else NNonFinite literal
  | n => n
  end.
Definition mergeBaselineEntryIntoPolicy (to_number : json → jsnum) (currentPolicy key : string)
    (entry : list (string * json)) : string :=
  let document := default [("version", JNum (NInt 1))] (parsePolicyDocumentOrNull currentPolicy) in
  let networkPolicies :=
    match jget document "network_policies" with JObj existing => existing | _ => [] end in
  yaml_stringify (JObj
    (set_prop (set_prop document "version" (JNum (version_or_one to_number (jget document "version"))))
       "network_policies" (JObj (set_prop networkPolicies key (JObj entry))))).
End Digest.
End WithYaml.

(** ** The approval and what it was given for *)

Section Approvals.
Context {yaml : Yaml}.
Variable sha256 : string → string.
Implicit Types (content key : string) (r : BaselineExclusionRequest).

Lemma digest_exact e e' :
  well_keyed (λ _, True) e → well_keyed (λ _, True) e' → plain_json e = true → plain_json e' = true →
  (sha256 (json_text (canonicalize e)) = sha256 (json_text (canonicalize e')) →
   json_text (canonicalize e) = json_text (canonicalize e')) →
  digestBaselineEntry sha256 e = digestBaselineEntry sha256 e' ↔ json_same (λ _, True) e e'.
Proof.
  intros Hw Hw' Hp Hp' Hsha. unfold digestBaselineEntry.
  pose proof (canonical_text_exact (collation := code_units) e e' code_units_collate Hw Hw' Hp Hp') as H.
  fold (canonicalize e) (canonicalize e') in H. rewrite <- H. split; [exact Hsha|by intros ->].
Qed.

(** A policy document and its entries. *)
Definition is_policy content (document policies : list (string * json)) : Prop :=
  content ≠ "" ∧ yaml_parse content = Some (JObj document)
  ∧ own document "network_policies" = Some (JObj policies) ∧ plain_props document.

(** The document once the entries of some keys are gone. *)
Definition without_keys (policies : list (string * json)) (keys : list string) : list (string * json) :=
  fold_left remove keys policies.
Definition policy_without (document policies : list (string * json)) (keys : list string)
    : list (string * json) :=
  match keys with
  | [] => document
  | _ => set_prop document "network_policies" (JObj (without_keys policies keys))
  end.

(** When a request is accepted, and how it is refused otherwise, with some keys gone. *)
Definition refusal (policies : list (string * json)) (gone : list string) (currentAgent : string) r
    : option exclusion_error :=
  if negb (q_agent r =s currentAgent) then
    Some (BaselineExclusionSourceError (q_key r) (q_agent r) currentAgent)
  else if isProtectedBaselineExclusionKey (q_key r) then Some (ProtectedBaselineExclusionError (q_key r))
  else if bool_decide (q_key r ∈ gone) then Some (BaselineExclusionDriftError (q_key r) DriftMissing)
  else match own policies (q_key r) with
       | Some (JObj entry) =>
           if digestBaselineEntry sha256 (JObj entry) =s q_digest r then None
           else Some (BaselineExclusionDriftError (q_key r) DriftChanged)
       | _ => Some (BaselineExclusionDriftError (q_key r) DriftMissing)
       end.

Lemma own_without policies keys k :
  own (without_keys policies keys) k = if bool_decide (k ∈ keys) then None else own policies k.
Proof.
  unfold without_keys. revert policies. induction keys as [|k' keys IH]; intros policies; cbn [fold_left].
  - by rewrite bool_decide_eq_false_2 by apply not_elem_of_nil.
  - rewrite IH, own_remove. case_bool_decide as H1; case_bool_decide as H2; try done.
    + destruct H2. by right.
    + apply elem_of_cons in H2 as [->|H2]; [by rewrite decide_True|done].
    + rewrite decide_False; [done|]. intros ->. destruct H2. by left.
Qed.

Lemma without_app policies keys keys' :
  without_keys policies (keys ++ keys') = without_keys (without_keys policies keys) keys'.
Proof. unfold without_keys. apply fold_left_app. Qed.
Lemma entry_exact content document policies key :
  is_policy content document policies →
  getBaselineEntry content key = match own policies key with Some (JObj entry) => Some entry | _ => None end.
Proof.
  intros (Hne & Hp & Ho & _). unfold getBaselineEntry, parseNetworkPolicies.
  rewrite (proj2 (truthy_true content) Hne), Hp. cbn. rewrite jget_own, Ho. cbn.
  rewrite hasOwn_own, jget_own. destruct (own policies key) as [[]|]; done.
Qed.

(** Removing an entry leaves the policy without it. *)
Lemma removal_exact content document policies key entry :
  yaml_law yaml → is_policy content document policies → own policies key = Some entry → ∃ content',
  removeBaselineEntryFromPolicy content key = (content', true)
  ∧ is_policy content' (set_prop document "network_policies" (JObj (remove policies key))) (remove policies key).
Proof.
  intros [Hlaw Htext] (Hne & Hp & Ho & Hd) He. unfold removeBaselineEntryFromPolicy, parsePolicyDocumentOrNull.
  rewrite Hp. cbn [mbind option_bind isPolicyDocument isObjectRecord]. rewrite jget_own, Ho. cbn [default from_option id]. rewrite hasOwn_own, He.
  rewrite bool_decide_eq_true_2 by by eexists. eexists. split; [done|].
  assert (Hr : plain_props (remove policies key)).
  { apply plain_remove, plain_object. by eapply plain_own. }
  assert (Hs : plain_props (set_prop document "network_policies" (JObj (remove policies key)))).
  { apply plain_set_prop; [done|]. by apply plain_object. }
  split_and!; [apply Htext| |by rewrite own_set_prop, decide_True|done]. by apply Hlaw, plain_object.
Qed.

(** The document the loop has reached, from the document it began with. *)
Lemma policy_without_more document policies gone key :
  own document "network_policies" = Some (JObj policies) →
  set_prop (policy_without document policies gone) "network_policies"
    (JObj (remove (without_keys policies gone) key))
  = policy_without document policies (gone ++ [key]).
Proof.
  intros Ho. unfold policy_without. rewrite without_app.
  assert (Hput : ∀ (o : list (string * json)) k v v', own o k = Some v' → set_prop o k v = put o k v).
  { intros o k v v' E. unfold set_prop. by rewrite hasOwn_own, bool_decide_eq_true_2 by by eexists. }
  destruct gone as [|g gone]; [done|]. cbn [app].
  rewrite (Hput document _ _ _ Ho). rewrite (Hput document _ _ _ Ho).
  erewrite Hput; [|by rewrite own_put, decide_True].
  change (without_keys (without_keys policies (g :: gone)) [key]) with (remove (without_keys policies (g :: gone)) key).
  generalize (JObj (remove (without_keys policies (g :: gone)) key)) (JObj (without_keys policies (g :: gone))).
  intros v w. clear. induction document as [|[k x] d IH]; cbn; [done|].
  destruct (k =s "network_policies") eqn:E; cbn; [done|]. by rewrite E, IH.
Qed.

(** What the loop does from where it has come. *)
Lemma apply_from_exact document policies currentAgent requests content gone :
  yaml_law yaml → own document "network_policies" = Some (JObj policies) → NoDup gone →
  is_policy content (policy_without document policies gone) (without_keys policies gone) →
  match applyBaselineExclusions_from sha256 content gone requests currentAgent with
  | Ok (content', keys) =>
      keys = gone ++ (q_key <$> requests) ∧ NoDup keys
      ∧ is_policy content' (policy_without document policies keys) (without_keys policies keys)
      ∧ ∀ done r rest, requests = done ++ r :: rest →
          refusal policies (gone ++ (q_key <$> done)) currentAgent r = None
  | Throw e => ∃ done r rest, requests = done ++ r :: rest
      ∧ refusal policies (gone ++ (q_key <$> done)) currentAgent r = Some e
      ∧ ∀ before r' after, done = before ++ r' :: after →
          refusal policies (gone ++ (q_key <$> before)) currentAgent r' = None
  end.
Proof.
  intros Hlaw Ho. revert content gone. induction requests as [|r requests IH]; intros content gone Hn Hc.
  { cbn. rewrite app_nil_r. split_and!; [done|done|done|]. by intros [] ? ?. }
  cbn [applyBaselineExclusions_from].
  assert (Hfail : ∀ e, refusal policies gone currentAgent r = Some e →
    ∃ done r0 rest, r :: requests = done ++ r0 :: rest
      ∧ refusal policies (gone ++ (q_key <$> done)) currentAgent r0 = Some e
      ∧ ∀ before r' after, done = before ++ r' :: after →
          refusal policies (gone ++ (q_key <$> before)) currentAgent r' = None).
  { intros e E. exists [], r, requests. rewrite fmap_nil, app_nil_r. split_and!; [done|done|by intros []]. }
  unfold refusal in Hfail. unfold throw_unless at 1.
  destruct (q_agent r =s currentAgent) eqn:Ea; cbn [negb] in Hfail; cbn [mbind result_bind]; [|by apply Hfail].
  unfold throw_unless at 1. destruct (isProtectedBaselineExclusionKey (q_key r)) eqn:Ep;
    cbn [negb mbind result_bind]; [by apply Hfail|].
  assert (Hr : refusal policies gone currentAgent r
               = if bool_decide (q_key r ∈ gone) then Some (BaselineExclusionDriftError (q_key r) DriftMissing)
                 else match own policies (q_key r) with
                      | Some (JObj entry) => if digestBaselineEntry sha256 (JObj entry) =s q_digest r then None
                                             else Some (BaselineExclusionDriftError (q_key r) DriftChanged)
                      | _ => Some (BaselineExclusionDriftError (q_key r) DriftMissing)
                      end) by (unfold refusal; by rewrite Ea, Ep).
  unfold resolveBaselineExclusion. rewrite (entry_exact _ _ _ _ Hc), own_without.
  destruct (bool_decide (q_key r ∈ gone)) eqn:Eg; [by apply Hfail|]. apply bool_decide_eq_false_1 in Eg.
  destruct (own policies (q_key r)) as [v|] eqn:Ev; [|by apply Hfail].
  destruct v as [| | | | | |entry]; try by apply Hfail. cbn [res_drift].
  destruct (digestBaselineEntry sha256 (JObj entry) =s q_digest r) eqn:Ed; [|by apply Hfail].
  destruct (removal_exact content _ _ (q_key r) (JObj entry) Hlaw Hc) as (content' & -> & Hc').
  { by rewrite own_without, bool_decide_eq_false_2. }
  cbn [throw_unless mbind result_bind]. rewrite policy_without_more in Hc' by done.
  change (remove (without_keys policies gone) (q_key r)) with (without_keys (without_keys policies gone) [q_key r]) in Hc'.
  rewrite <- without_app in Hc'.
  assert (Hn' : NoDup (gone ++ [q_key r])).
  { apply NoDup_app. split_and!; [done| |apply NoDup_singleton]. by intros x Hx ->%list_elem_of_singleton. }
  specialize (IH content' (gone ++ [q_key r]) Hn' Hc').
  destruct (applyBaselineExclusions_from sha256 content' _ requests currentAgent) as [[content'' keys]|e].
  - destruct IH as (-> & Hk & Hp & Hall). rewrite fmap_cons, <- app_assoc in *. split_and!; [done..|].
    intros [|r' done] r0 rest [= <- E]; [by rewrite fmap_nil, app_nil_r, Hr|]. subst.
    specialize (Hall done r0 rest eq_refl). by rewrite <- app_assoc in Hall.
  - destruct IH as (done & r0 & rest & -> & E & Hall). exists (r :: done), r0, rest.
    rewrite <- app_assoc in E. split_and!; [done|done|].
    intros [|r1 before] r' after [= <- Eb]; [by rewrite fmap_nil, app_nil_r, Hr|].
    specialize (Hall before r' after Eb). by rewrite <- app_assoc in Hall.
Qed.
End Approvals.

(** ** Properties *)

(** C9: excluding entries from a baseline is exact.  The exclusions succeed only when
    every request was approved for the agent, names an unprotected entry of the baseline,
    none twice, and the entry has the approved digest; the policy that results is then the
    baseline without exactly those entries.  Otherwise they fail with what is wrong with
    the first request that may not be replayed, and nothing is returned. *)
Theorem exclusions_exact {yaml : Yaml} sha256 content document policies requests currentAgent :
  yaml_law yaml → is_policy content document policies →
  match applyBaselineExclusions sha256 content requests currentAgent with
  | Ok (content', keys) =>
      keys = q_key <$> requests ∧ NoDup keys
      ∧ Forall (λ r, q_agent r = currentAgent ∧ isProtectedBaselineExclusionKey (q_key r) = false
                     ∧ ∃ entry, own policies (q_key r) = Some (JObj entry)
                                ∧ digestBaselineEntry sha256 (JObj entry) = q_digest r) requests
      ∧ is_policy content' (policy_without document policies keys) (without_keys policies keys)
      ∧ ∀ k, own (without_keys policies keys) k = if bool_decide (k ∈ keys) then None else own policies k
  | Throw e => ∃ accepted r rest, requests = accepted ++ r :: rest
      ∧ refusal sha256 policies (q_key <$> accepted) currentAgent r = Some e
      ∧ ∀ before r' after, accepted = before ++ r' :: after →
          refusal sha256 policies (q_key <$> before) currentAgent r' = None
  end.
Proof.
  intros Hlaw Hp. pose proof Hp as (_ & _ & Ho & _).
  pose proof (apply_from_exact sha256 document policies currentAgent requests content [] Hlaw Ho
    (NoDup_nil_2) Hp) as H. unfold applyBaselineExclusions.
  destruct (applyBaselineExclusions_from _ _ _ _ _) as [[content' keys]|e]; [|exact H].
  destruct H as (-> & Hn & Hc & Hall). cbn [app] in *. split_and!; [done|done| |done|apply own_without].
  apply Forall_forall. intros r Hr. apply list_elem_of_split in Hr as (before & after & ->).
  specialize (Hall before r after eq_refl). unfold refusal in Hall.
  destruct (q_agent r =s currentAgent) eqn:Ea; [|done]. bools.
  destruct (isProtectedBaselineExclusionKey (q_key r)); [done|]. cbn [negb] in Hall.
  destruct (bool_decide _); [done|]. destruct (own policies (q_key r)) as [[| | | | | |entry]|]; try done.
  destruct (digestBaselineEntry sha256 (JObj entry) =s q_digest r) eqn:Ed; [|done]. bools.
  split_and!; [done|done|]. by exists entry.
Qed.

(** C18: an approval stands for what was reviewed.  A request that carries the digest of
    a reviewed entry is accepted for a baseline exactly when the baseline's entry says the
    same as the reviewed one, whatever the order of keys, given that the hash tells their
    two texts apart. *)
Theorem approval_binds_content {yaml : Yaml} sha256 content document policies agent key reviewed :
  is_policy content document policies → plain_document reviewed →
  (∀ entry, own policies key = Some (JObj entry) →
     sha256 (json_text (canonicalize (JObj entry))) = sha256 (json_text (canonicalize reviewed)) →
     json_text (canonicalize (JObj entry)) = json_text (canonicalize reviewed)) →
  res_drift (resolveBaselineExclusion sha256 content
    (mkRequest agent key (digestBaselineEntry sha256 reviewed))) = None
  ↔ ∃ entry, own policies key = Some (JObj entry) ∧ json_same (λ _, True) (JObj entry) reviewed.
Proof.
  intros Hp Hrev Hsha. unfold resolveBaselineExclusion. cbn [q_key q_digest].
  rewrite (entry_exact _ _ _ _ Hp).
  assert (Hent : ∀ entry, own policies key = Some (JObj entry) → plain_document (JObj entry)).
  { intros entry E. destruct Hp as (_ & _ & Ho & Hd). apply (plain_own policies key); [|done].
    apply plain_object. by eapply plain_own. }
  destruct (own policies key) as [[| | | | | |entry]|]; cbn [res_drift]; try (by split; [|intros (? & ? & ?)]).
  destruct (Hent entry eq_refl) as [Hw Hpl], Hrev as [Hw' Hpl'].
  pose proof (digest_exact sha256 (JObj entry) reviewed Hw Hw' Hpl Hpl' (Hsha entry eq_refl)) as H.
  destruct (_ =s _) eqn:E; bools.
  - split; [|done]. intros _. exists entry. split; [done|]. by apply H.
  - split; [done|]. intros (entry' & [= <-] & Hs). destruct E. by apply H.
Qed.

(** ** On a concrete policy *)

#[local] Instance coded_yaml : Yaml := {| yaml_parse := read_coded; yaml_stringify := coded_text |}.
Lemma coded_yaml_law : yaml_law coded_yaml.
Proof.
  split; [|intros j; apply coded_text_nonempty]. intros j [_ Hp]. by apply read_coded_text.
Qed.

Definition sample_entry (host : string) : json :=
  JObj [("name", JStr host); ("endpoints", JArr [JObj [("host", JStr host); ("port", JNum (NInt 443))]])].
Definition sample_policies : list (string * json) :=
  [("github", sample_entry "github.com"); ("pypi", sample_entry "pypi.org")].
Definition sample_document : list (string * json) :=
  [("version", JNum (NInt 1)); ("network_policies", JObj sample_policies)].

Lemma sample_is_policy : is_policy (yaml_stringify (JObj sample_document)) sample_document sample_policies.
Proof.
  assert (Hd : plain_document (JObj sample_document)) by (apply plain_document_b; reflexivity).
  split_and!; [apply coded_text_nonempty|by apply coded_yaml_law|done|by apply plain_object].
Qed.

(** The digest of a text that is the text itself: it tells all texts apart. *)
Definition sample_digest (text : string) : string := text.
Definition sample_request (agent key host : string) : BaselineExclusionRequest :=
  mkRequest agent key (digestBaselineEntry sample_digest (sample_entry host)).

(** One exclusion removes its entry; the same entry twice is refused, and so is an entry
    whose content changed since. *)
Lemma exclusions_exact_witness :
  match applyBaselineExclusions sample_digest (yaml_stringify (JObj sample_document))
          [sample_request "langchain-deepagents-code" "pypi" "pypi.org"] "langchain-deepagents-code" with
  | Ok (_, keys) => keys = ["pypi"]
  | Throw _ => False
  end
  ∧ ∀ e, applyBaselineExclusions sample_digest (yaml_stringify (JObj sample_document))
           [sample_request "openclaw" "pypi" "pypi.org"] "hermes" = Throw e →
         e = BaselineExclusionSourceError "pypi" "openclaw" "hermes".
Proof.
  pose proof (exclusions_exact sample_digest _ _ _
    [sample_request "langchain-deepagents-code" "pypi" "pypi.org"] "langchain-deepagents-code"
    coded_yaml_law sample_is_policy) as H.
  pose proof (exclusions_exact sample_digest _ _ _ [sample_request "openclaw" "pypi" "pypi.org"] "hermes"
    coded_yaml_law sample_is_policy) as H'.
  split.
  - destruct (applyBaselineExclusions _ _ _ _) as [[c keys]|e]; [by destruct H as (-> & _)|].
    destruct H as ([|a l] & r & rest & E & Hr & _).
    + injection E as <- _. vm_compute in Hr. discriminate Hr.
    + injection E as _ E. by destruct l.
  - intros e E. rewrite E in H'. destruct H' as ([|a l] & r & rest & El & Hr & _).
    + injection El as <- _. vm_compute in Hr. by injection Hr as <-.
    + injection El as _ El. destruct l; discriminate El.
Defined.

Lemma approval_binds_content_witness :
  res_drift (resolveBaselineExclusion sample_digest (yaml_stringify (JObj sample_document))
    (sample_request "openclaw" "pypi" "pypi.org")) = None.
Proof.
  apply (approval_binds_content sample_digest _ sample_document sample_policies "openclaw" "pypi"
    (sample_entry "pypi.org")); [exact sample_is_policy|apply plain_document_b; reflexivity|by intros entry _ H|].
  exists (match sample_entry "pypi.org" with JObj o => o | _ => [] end). split; [done|apply same_refl].
Defined.
