(* ===== verification/PrivateNetworks.v ===== *)
(** * Private networks

    src/lib/private-networks.ts and its twin in the plugin,
    nemoclaw/src/blueprint/private-networks.ts: the block list that address checks use, read
    from nemoclaw-blueprint/private-networks.yaml, and the tests on addresses and host names.
    The two modules share their validation and their tests; they differ in how long the list
    that was read is kept. *)

From S2P Require Import Prelude Json Checkpoint IpAddress.

(** ** The document *)

Inductive family : Type := Ipv4 | Ipv6.
#[export] Instance family_eq_dec : EqDecision family.
Proof. solve_decision. Defined.

Record NetworkEntry := mkNetworkEntry { n_address : string; n_prefix : N; n_purpose : string }.
Record NameEntry := mkNameEntry { e_name : string; e_purpose : string }.
Record NetworkDocument := mkNetworkDocument {
  d_ipv4 : list NetworkEntry;
  d_ipv6 : list NetworkEntry;
  d_names : list NameEntry
}.

(** What an entry is refused for, and what a document or its file is. *)
Inductive entry_error : Type := NotAnObject | NoAddress | BadAddress | BadPrefix | NoName | NoPurpose.
Inductive network_error : Type :=
| FileMissing | FileUnreadable | NotYaml | NoArrays
| BadNetwork (f : family) (index : nat) (e : entry_error)
| BadName (index : nat) (e : entry_error).

(** [record.key] of an object or an array; the keys read here are no index of an array. *)
Definition record_property (entry : json) (key : string) : option json :=
  match entry with
  | JObj o => Some (jget o key)
  | JArr _ => Some JUndef
  | _ => None
  end.
Definition non_empty (v : json) : option string :=
  match v with JStr s => if truthy s then Some s else None | _ => None end.
Definition purpose_of (v : json) : option string :=
  match v with JStr s => if truthy (js_trim s) then Some s else None | _ => None end.
Definition family_number (f : family) : nat := match f with Ipv4 => 4 | Ipv6 => 6 end.
Definition max_prefix (f : family) : Z := match f with Ipv4 => 32 | Ipv6 => 128 end.
Definition prefix_of (f : family) (v : json) : option N :=
  match v with
  | JNum (NInt z) => if (z <? 0)%Z || (max_prefix f <? z)%Z then None else Some (Z.to_N z)
  | _ => None
  end.

Definition validateNetworkEntry (entry : json) (f : family) (index : nat) : result network_error NetworkEntry :=
  let fails e := BadNetwork f index e in
  address ← of_option (fails NotAnObject) (record_property entry "address");
  prefix ← of_option (fails NotAnObject) (record_property entry "prefix");
  purpose ← of_option (fails NotAnObject) (record_property entry "purpose");
  address ← of_option (fails NoAddress) (non_empty address);
  _ ← throw_unless (isIP address =? family_number f)%nat (fails BadAddress);
  prefix ← of_option (fails BadPrefix) (prefix_of f prefix);
  purpose ← of_option (fails NoPurpose) (purpose_of purpose);
  Ok (mkNetworkEntry address prefix purpose).

Definition validateNameEntry (entry : json) (index : nat) : result network_error NameEntry :=
  let fails e := BadName index e in
  name ← of_option (fails NotAnObject) (record_property entry "name");
  purpose ← of_option (fails NotAnObject) (record_property entry "purpose");
  name ← of_option (fails NoName) (non_empty name);
  purpose ← of_option (fails NoPurpose) (purpose_of purpose);
  Ok (mkNameEntry name purpose).

(** [l.map((entry, i) => f(entry, i))], where [f] may throw. *)
Fixpoint map_entries {E A B} (f : A → nat → result E B) (i : nat) (l : list A) : result E (list B) :=
  match l with
  | [] => Ok []
  | x :: l' => y ← f x i; ys ← map_entries f (S i) l'; Ok (y :: ys)
  end.

Definition document_of (parsed : json) : result network_error NetworkDocument :=
  match parsed with
  | JObj o =>
      match jget o "ipv4", jget o "ipv6", jget o "names" with
      | JArr ipv4, JArr ipv6, JArr names =>
          ipv4 ← map_entries (λ entry, validateNetworkEntry entry Ipv4) 0 ipv4;
          ipv6 ← map_entries (λ entry, validateNetworkEntry entry Ipv6) 0 ipv6;
          names ← map_entries validateNameEntry 0 names;
          Ok (mkNetworkDocument ipv4 ipv6 names)
      | _, _, _ => Throw NoArrays
      end
  | _ => Throw NoArrays
  end.

(** ** What is kept of it *)

Record LoadedNetworks := mkLoaded {
  networks : NetworkDocument;
  blockList : BlockList;
  normalisedNames : list string
}.

(** [s.replace(/\.$/, "")], and the brackets of an IPv6 host. *)
Definition without_dot (s : string) : string :=
  if ends_with "." s then of_chars (take (String.length s - 1) (chars s)) else s.
Definition without_brackets (s : string) : string :=
  if starts_with "[" s && ends_with "]" s
  then of_chars (take (String.length s - 2) (drop 1 (chars s))) else s.
Definition normalised (s : string) : string := js_lower (without_dot s).

Definition subnet_of (e : NetworkEntry) : option Subnet :=
  a ← read_ip (n_address e); Some (mkSubnet a (n_prefix e)).
Definition loaded (d : NetworkDocument) : LoadedNetworks :=
  mkLoaded d (omap subnet_of (d_ipv4 d) ++ omap subnet_of (d_ipv6 d))
    (map (λ e, normalised (e_name e)) (d_names d)).

Section Parse.
Context (parseYaml : string → option json).

Definition parseDocument (raw : string) : result network_error NetworkDocument :=
  parsed ← of_option NotYaml (parseYaml raw); document_of parsed.

(** ** The list of the CLI, read once *)

(** The file as a process finds it. *)
Inductive file_state : Type := Missing | Unreadable | Content (raw : string).

Definition load (file : file_state) : ST (option LoadedNetworks) network_error LoadedNetworks :=
  cached ← st_get;
  match cached with
  | Some c => mret c
  | None =>
      match file with
      | Missing => st_throw FileMissing
      | Unreadable => st_throw FileUnreadable
      | Content raw =>
          d ← st_lift (parseDocument raw);
          let c := loaded d in
          _ ← st_modify (λ _, Some c);
          mret c
      end
  end.

(** ** The list of the plugin, checked again every second *)

(** What the plugin finds at a call: the clock, the directory that is configured or guessed,
    and for a path the stats of the file (nothing when it is missing) and its state. *)
Record PluginHost := mkPluginHost {
  now : Z;
  NEMOCLAW_BLUEPRINT_PATH : option string;
  devGuess : string;
  dev_file_exists : bool;
  stat_of : string → result network_error (Z * Z);
  file_of : string → file_state
}.
Record CachedNetworks := mkCached {
  c_source : string;
  c_mtimeMs : Z;
  c_size : Z;
  c_checkedAtMs : Z;
  c_loaded : LoadedNetworks
}.

Definition STAT_CHECK_INTERVAL_MS : Z := 1000.
Definition resolveBlueprintPath (h : PluginHost) : string :=
  match NEMOCLAW_BLUEPRINT_PATH h with
  | Some p => if truthy p then p else if dev_file_exists h then devGuess h else "."
  | None => if dev_file_exists h then devGuess h else "."
  end.
(** [join(directory, "private-networks.yaml")], up to the normal form of the path. *)
Definition source_of (h : PluginHost) : string := resolveBlueprintPath h +:+ "/private-networks.yaml".
Definition readPrivateNetworksFile (h : PluginHost) (source : string) : result network_error string :=
  match file_of h source with
  | Missing => Throw FileMissing
  | Unreadable => Throw FileUnreadable
  | Content raw => Ok raw
  end.

Definition is_fresh (h : PluginHost) (c : CachedNetworks) : bool :=
  (now h - c_checkedAtMs c <? STAT_CHECK_INTERVAL_MS)%Z.
Definition same_file (source : string) (mtimeMs size : Z) (c : CachedNetworks) : bool :=
  (c_source c =s source) && (c_mtimeMs c =? mtimeMs)%Z && (c_size c =? size)%Z.

Definition plugin_load (h : PluginHost) : ST (option CachedNetworks) network_error LoadedNetworks :=
  cached ← st_get;
  match (match cached with Some c => if is_fresh h c then Some c else None | None => None end) with
  | Some c => mret (c_loaded c)
  | None =>
      let source := source_of h in
      '(mtimeMs, size) ← st_lift (stat_of h source);
      match (match cached with Some c => if same_file source mtimeMs size c then Some c else None | None => None end) with
      | Some c =>
          let c' := mkCached (c_source c) (c_mtimeMs c) (c_size c) (now h) (c_loaded c) in
          _ ← st_modify (λ _, Some c');
          mret (c_loaded c')
      | None =>
          raw ← st_lift (readPrivateNetworksFile h source);
          d ← st_lift (parseDocument raw);
          let c' := mkCached source mtimeMs size (now h) (loaded d) in
          _ ← st_modify (λ _, Some c');
          mret (c_loaded c')
      end
  end.
End Parse.

(** ** The tests *)

Definition matches_name (nets : LoadedNetworks) (name : string) : bool :=
  existsb (λ reserved, (name =s reserved) || ends_with ("." +:+ reserved) name) (normalisedNames nets).

Section Tests.
Context (nets : LoadedNetworks).

Definition isPrivateIp (address : string) : bool := check (blockList nets) address.
Definition isPrivateHostname (hostname : string) : bool :=
  let name := normalised (without_brackets hostname) in
  matches_name nets name || isPrivateIp name.
End Tests.

(** The exported tests load the list themselves; the CLI asks what is an address first. *)
Section LoadedTests.
Context (parseYaml : string → option json).

Definition cli_isPrivateIp (file : file_state) (address : string) : ST (option LoadedNetworks) network_error bool :=
  if (isIP address =? 0)%nat then mret false
  else nets ← load parseYaml file; mret (check (blockList nets) address).
Definition cli_isPrivateHostname (file : file_state) (hostname : string)
    : ST (option LoadedNetworks) network_error bool :=
  let name := normalised (without_brackets hostname) in
  nets ← load parseYaml file;
  if matches_name nets name then mret true else cli_isPrivateIp file name.

Definition plugin_isPrivateIp (h : PluginHost) (address : string) : ST (option CachedNetworks) network_error bool :=
  nets ← plugin_load parseYaml h; mret (isPrivateIp nets address).
Definition plugin_isPrivateHostname (h : PluginHost) (hostname : string)
    : ST (option CachedNetworks) network_error bool :=
  nets ← plugin_load parseYaml h; mret (isPrivateHostname nets hostname).
End LoadedTests.

Definition OPENSHELL_SANDBOX_HOST_BRIDGE : string := "host.openshell.internal".

(** [Number(url.port)], which is empty or decimal digits. *)
Definition isAllowedOpenShellSandboxBridgeUrl (url : URL) : bool :=
  let port := digits_value (port url) in
  (normalised (without_brackets (hostname url)) =s OPENSHELL_SANDBOX_HOST_BRIDGE)
  && (protocol url =s "http:")
  && (1024 <=? port)%N && (port <=? 65535)%N
  && negb (truthy (username url)) && negb (truthy (password url))
  && negb (truthy (search url)) && negb (truthy (hash url)).

Definition isLoopbackHostname (hostname : string) : bool :=
  let name := normalised (without_brackets hostname) in
  if name =s "localhost" then true
  else match read_ip name with
       | Some (V4 _) => starts_with "127." name
       | Some (V6 _) => name =s "::1"
       | None => false
       end.

(** ** The list that is shipped (nemoclaw-blueprint/private-networks.yaml) *)

Definition shipped_ipv4 : list NetworkEntry :=
  [
    mkNetworkEntry "0.0.0.0" 8 "This network";
    mkNetworkEntry "10.0.0.0" 8 "Private /8 (enterprise-scale)";
    mkNetworkEntry "100.64.0.0" 10 "CGNAT shared address space";
    mkNetworkEntry "127.0.0.0" 8 "Loopback";
    mkNetworkEntry "169.254.0.0" 16 "Link-local";
    mkNetworkEntry "172.16.0.0" 12 "Private /12";
    mkNetworkEntry "192.0.0.0" 24 "IETF protocol assignments (includes DS-Lite)";
    mkNetworkEntry "192.0.2.0" 24 "TEST-NET-1 documentation";
    mkNetworkEntry "192.31.196.0" 24 "AS112 DNS anycast (RFC 7535)";
    mkNetworkEntry "192.52.193.0" 24 "AMT relay anycast (RFC 7450)";
    mkNetworkEntry "192.88.99.0" 24 "Deprecated 6to4 relay anycast (RFC 7526)";
    mkNetworkEntry "192.168.0.0" 16 "Private /16 (home/small-network default)";
    mkNetworkEntry "192.175.48.0" 24 "AS112 direct delegation anycast (RFC 7534)";
    mkNetworkEntry "198.18.0.0" 15 "Benchmark testing";
    mkNetworkEntry "198.51.100.0" 24 "TEST-NET-2 documentation";
    mkNetworkEntry "203.0.113.0" 24 "TEST-NET-3 documentation";
    mkNetworkEntry "224.0.0.0" 4 "Multicast";
    mkNetworkEntry "240.0.0.0" 4 "Reserved for future use (includes 255.255.255.255 limited broadcast)"
  ].
Definition shipped_ipv6 : list NetworkEntry :=
  [
    mkNetworkEntry "::" 128 "Unspecified";
    mkNetworkEntry "::1" 128 "Loopback";
    mkNetworkEntry "::" 96 "Deprecated IPv4-compatible encodings that can hide private IPv4 targets";
    mkNetworkEntry "64:ff9b::" 96 "NAT64 well-known prefix";
    mkNetworkEntry "64:ff9b:1::" 48 "NAT64 local-use prefix";
    mkNetworkEntry "100::" 64 "Discard prefix";
    mkNetworkEntry "100:0:0:1::" 64 "Dummy IPv6 Prefix (IANA non-forwardable)";
    mkNetworkEntry "2001::" 23 "IETF protocol assignments (Teredo, benchmarking, ORCHID, and related special-purpose space)";
    mkNetworkEntry "2001:db8::" 32 "Documentation";
    mkNetworkEntry "2002::" 16 "6to4";
    mkNetworkEntry "2620:4f:8000::" 48 "AS112 IPv6 anycast (RFC 7534)";
    mkNetworkEntry "3fff::" 20 "Documentation (RFC 9637)";
    mkNetworkEntry "5f00::" 16 "IPv6 Segment Routing (SRv6) SIDs (RFC 9602)";
    mkNetworkEntry "fc00::" 7 "Unique local addresses";
    mkNetworkEntry "fe80::" 10 "Link-local";
    mkNetworkEntry "fec0::" 10 "Deprecated site-local addresses";
    mkNetworkEntry "ff00::" 8 "Multicast"
  ].
Definition shipped_names : list NameEntry :=
  [
    mkNameEntry "localhost" "RFC 6761 loopback special-use name";
    mkNameEntry "local" "RFC 6762 mDNS link-local names (Bonjour / Avahi / zeroconf)";
    mkNameEntry "internal" "ICANN-reserved private-use TLD (2024-02-11 Board Resolution)";
    mkNameEntry "metadata" "Cloud instance metadata service hostname alias"
  ].
Definition shipped_document : NetworkDocument := mkNetworkDocument shipped_ipv4 shipped_ipv6 shipped_names.
Definition shipped : LoadedNetworks := loaded shipped_document.

(** ** A document that loads *)

Definition entry_ok (f : family) (e : NetworkEntry) : Prop :=
  isIP (n_address e) = family_number f ∧ (Z.of_N (n_prefix e) ≤ max_prefix f)%Z
  ∧ js_trim (n_purpose e) ≠ "".

Lemma validateNetworkEntry_ok v f i e : validateNetworkEntry v f i = Ok e → entry_ok f e.
Proof.
  unfold validateNetworkEntry. intros H. res_inv H. subst e. unfold entry_ok. cbn [n_address n_prefix n_purpose].
  split_and!; [by apply Nat.eqb_eq| |].
  - unfold prefix_of in Ha4. destruct a0 as [| | |[z| |]| | |]; try done. case_match eqn:E; [done|].
    injection Ha4 as <-. apply orb_false_iff in E as [?%Z.ltb_ge ?%Z.ltb_ge]. lia.
  - unfold purpose_of in Ha5. destruct a1; try done. by apply if_some in Ha5 as [?%truthy_true <-].
Qed.

Lemma map_entries_ok {E A B} (f : A → nat → result E B) (P : B → Prop) i l ys :
  (∀ x i y, f x i = Ok y → P y) → map_entries f i l = Ok ys → Forall P ys ∧ List.length ys = List.length l.
Proof.
  intros Hf. revert i ys. induction l as [|x l IH]; intros i ys; cbn [map_entries]; intros H; res_inv H.
  - by subst ys.
  - subst ys. apply Hf in Ha. apply IH in Ha0 as [H1 H2]. split; [by constructor|]. cbn. by rewrite H2.
Qed.

Record document_ok (d : NetworkDocument) : Prop := {
  ok_ipv4 : Forall (entry_ok Ipv4) (d_ipv4 d);
  ok_ipv6 : Forall (entry_ok Ipv6) (d_ipv6 d)
}.

Lemma document_of_ok v d : document_of v = Ok d → document_ok d.
Proof.
  unfold document_of. destruct v; try done. repeat case_match; try done. intros Hd. res_inv Hd. subst d.
  apply (map_entries_ok _ (entry_ok Ipv4)) in Ha as [? _]; [|intros ???; apply validateNetworkEntry_ok].
  apply (map_entries_ok _ (entry_ok Ipv6)) in Ha0 as [? _]; [|intros ???; apply validateNetworkEntry_ok].
  by split.
Qed.

(** ** Addresses *)

(** An entry of a document that loads is a subnet of its family. *)
Lemma entry_subnet f e : entry_ok f e → ∃ a, read_ip (n_address e) = Some a ∧ subnet_of e = Some (mkSubnet a (n_prefix e)).
Proof.
  intros (Hip & _). unfold isIP in Hip. unfold subnet_of. destruct (read_ip (n_address e)) as [a|]; [|by destruct f].
  by exists a.
Qed.

Lemma entries_kept f l : Forall (entry_ok f) l → List.length (omap subnet_of l) = List.length l.
Proof.
  induction 1 as [|e l He Hl IH]; [done|]. destruct (entry_subnet f e He) as (a & _ & E). cbn. rewrite E. cbn.
  by f_equal.
Qed.

Lemma isPrivateIp_spec nets address :
  isPrivateIp nets address = true
  ↔ ∃ a net, read_ip address = Some a ∧ net ∈ blockList nets ∧ subnet_holds net (ip_number a).
Proof.
  unfold isPrivateIp, check. destruct (read_ip address) as [a|] eqn:E.
  - rewrite (blocked_spec _ a) by by eapply read_ip_wf. split; [intros (net & H); by exists a, net|].
    intros (a' & net & [= <-] & H). by exists net.
  - split; [done|]. by intros (a & net & ? & _).
Qed.

Lemma loaded_subnets d net :
  net ∈ blockList (loaded d) ↔ ∃ e, (e ∈ d_ipv4 d ∨ e ∈ d_ipv6 d) ∧ subnet_of e = Some net.
Proof.
  cbn [loaded blockList]. rewrite elem_of_app, !list_elem_of_omap. split.
  - intros [(e & ? & ?)|(e & ? & ?)]; exists e; auto.
  - intros (e & [?|?] & ?); [left|right]; by exists e.
Qed.

Lemma isPrivateIp_spelling nets s t a b :
  read_ip s = Some a → read_ip t = Some b → ip_number a = ip_number b → isPrivateIp nets s = isPrivateIp nets t.
Proof.
  intros Hs Ht E. unfold isPrivateIp, check. rewrite Hs, Ht. apply blocked_number; [by eapply read_ip_wf..|done].
Qed.

(** ** Names *)

Definition labels (name : string) : list string := js_split DOT name.

Lemma split_chars_sep sep l r cur : split_chars sep (l ++ sep :: r) cur = split_chars sep l cur ++ split_chars sep r [].
Proof.
  revert cur. induction l as [|c l IH]; intros cur; cbn [app split_chars].
  - by rewrite Ascii.eqb_refl.
  - destruct (Ascii.eqb c sep); [|apply IH]. by rewrite IH.
Qed.

Lemma labels_sep t r : labels (t +:+ "." +:+ r) = labels t ++ labels r.
Proof. unfold labels, js_split. rewrite !chars_app. apply (split_chars_sep DOT). Qed.

Lemma labels_inj s t : labels s = labels t → s = t.
Proof. intros E. rewrite <- (join_split DOT s), <- (join_split DOT t). unfold labels in E. by rewrite E. Qed.

Lemma labels_join_app pre post :
  pre ≠ [] → post ≠ [] →
  js_join (one_char DOT) (pre ++ post) = js_join (one_char DOT) pre +:+ "." +:+ js_join (one_char DOT) post.
Proof.
  intros Hpre Hpost. apply chars_inj. rewrite !chars_app. change (chars ".") with [DOT].
  induction pre as [|x pre IH]; [done|]. destruct pre as [|y pre].
  - destruct post as [|z post]; [done|]. cbn [app]. rewrite join_chars. done.
  - cbn [app] in *. rewrite !join_chars. rewrite IH by done. by rewrite <- app_assoc.
Qed.

(** A reserved name matches itself and every name below it. *)
Lemma reserved_spec name reserved :
  (name =s reserved) || ends_with ("." +:+ reserved) name = true ↔ ∃ pre, labels name = pre ++ labels reserved.
Proof.
  rewrite orb_true_iff, String.eqb_eq, ends_with_spec. split.
  - intros [->|[t E]]; [by exists []|]. exists (labels (of_chars t)).
    rewrite <- labels_sep. f_equal. apply chars_inj. by rewrite (chars_app (of_chars t)), chars_of_chars, E.
  - intros [[|x pre] E]; [left; by apply labels_inj|right].
    exists (chars (js_join (one_char DOT) (x :: pre))).
    rewrite <- (join_split DOT name). fold (labels name). rewrite E, labels_join_app by (done || apply split_not_nil).
    unfold labels. by rewrite join_split, chars_app.
Qed.

Lemma matches_name_spec nets name :
  matches_name nets name = true ↔ ∃ reserved pre, reserved ∈ normalisedNames nets ∧ labels name = pre ++ labels reserved.
Proof.
  unfold matches_name. rewrite existsb_exists. split.
  - intros (r & Hr & [pre E]%reserved_spec). exists r, pre. split; [by apply list_elem_of_In|done].
  - intros (r & pre & Hr & E). exists r. split; [by apply list_elem_of_In|]. apply reserved_spec. by exists pre.
Qed.

(** The normal form of a host: brackets, one trailing dot and letter case do not count. *)
Definition host_name (hostname : string) : string := normalised (without_brackets hostname).

Lemma isPrivateHostname_spec nets hostname :
  isPrivateHostname nets hostname = true
  ↔ (∃ reserved pre, reserved ∈ normalisedNames nets ∧ labels (host_name hostname) = pre ++ labels reserved)
    ∨ (∃ a net, read_ip (host_name hostname) = Some a ∧ net ∈ blockList nets ∧ subnet_holds net (ip_number a)).
Proof. unfold isPrivateHostname. by rewrite orb_true_iff, matches_name_spec, isPrivateIp_spec. Qed.

Lemma loaded_ip_spec d s : document_ok d →
  isPrivateIp (loaded d) s = true
  ↔ ∃ a e base, read_ip s = Some a ∧ (e ∈ d_ipv4 d ∨ e ∈ d_ipv6 d) ∧ read_ip (n_address e) = Some base
                ∧ subnet_holds (mkSubnet base (n_prefix e)) (ip_number a).
Proof.
  intros [H4 H6]. rewrite isPrivateIp_spec. split.
  - intros (a & net & Ha & (e & He & Hs)%loaded_subnets & Hh). exists a, e.
    unfold subnet_of in Hs. opt_inv Hs. eauto.
  - intros (a & e & base & Ha & He & Hb & Hh). exists a, (mkSubnet base (n_prefix e)). split_and!; [done| |done].
    apply loaded_subnets. exists e. split; [done|]. unfold subnet_of. by rewrite Hb.
Qed.

Lemma isPrivateHostname_or nets h :
  isPrivateHostname nets h = matches_name nets (host_name h) || isPrivateIp nets (host_name h).
Proof. done. Qed.

(** C28: Over every document that loads, an address text is private exactly when the number
    it denotes lies between the first and the last address of the subnet of some entry, an
    IPv4 address and its mapped IPv6 form being one number, so that no spelling of an address
    escapes; a host is private exactly when its labels end with those of a reserved name, or
    when it is a private address.  Every entry that was read is enforced. *)
Theorem private_hosts_exact v d (Hd : document_of v = Ok d) :
  (∀ s, isPrivateIp (loaded d) s = true
        ↔ ∃ a e base, read_ip s = Some a ∧ (e ∈ d_ipv4 d ∨ e ∈ d_ipv6 d) ∧ read_ip (n_address e) = Some base
                      ∧ subnet_holds (mkSubnet base (n_prefix e)) (ip_number a))
  ∧ (∀ s t a b, read_ip s = Some a → read_ip t = Some b → ip_number a = ip_number b →
       isPrivateIp (loaded d) s = isPrivateIp (loaded d) t)
  ∧ (∀ h, isPrivateHostname (loaded d) h = true
          ↔ (∃ e pre, e ∈ d_names d ∧ labels (host_name h) = pre ++ labels (normalised (e_name e)))
            ∨ isPrivateIp (loaded d) (host_name h) = true)
  ∧ List.length (blockList (loaded d)) = List.length (d_ipv4 d) + List.length (d_ipv6 d).
Proof.
  pose proof (document_of_ok v d Hd) as Hok. split_and!.
  - intros s. by apply loaded_ip_spec.
  - intros s t a b. apply isPrivateIp_spelling.
  - intros h. rewrite isPrivateHostname_or, orb_true_iff, matches_name_spec. cbn [loaded normalisedNames].
    apply or_iff_compat_r. split.
    + intros (r & pre & (e & -> & He)%list_elem_of_fmap & E). by exists e, pre.
    + intros (e & pre & He & E). exists (normalised (e_name e)), pre. split; [|done].
      apply list_elem_of_fmap. by exists e.
  - cbn [loaded blockList]. rewrite length_app. destruct Hok as [H4 H6].
    by rewrite (entries_kept Ipv4), (entries_kept Ipv6).
Qed.

Definition sample_document : json :=
  JObj [("ipv4", JArr [JObj [("address", JStr "10.0.0.0"); ("prefix", JNum (NInt 8)); ("purpose", JStr "Private")]]);
        ("ipv6", JArr [JObj [("address", JStr "fc00::"); ("prefix", JNum (NInt 7)); ("purpose", JStr "Local")]]);
        ("names", JArr [JObj [("name", JStr "Internal."); ("purpose", JStr "Private names")]])].
Definition sample_networks : NetworkDocument :=
  mkNetworkDocument [mkNetworkEntry "10.0.0.0" 8 "Private"] [mkNetworkEntry "fc00::" 7 "Local"]
    [mkNameEntry "Internal." "Private names"].

Lemma private_hosts_exact_witness :
  document_of sample_document = Ok sample_networks
  ∧ isPrivateIp (loaded sample_networks) "10.9.8.7" = isPrivateIp (loaded sample_networks) "::FFFF:0a09:807"
  ∧ isPrivateHostname (loaded sample_networks) "Host.INTERNAL." = true.
Proof.
  assert (document_of sample_document = Ok sample_networks) as E by reflexivity. split; [exact E|].
  destruct (private_hosts_exact sample_document sample_networks E) as (_ & Hs & Hn & _). split.
  - apply (Hs "10.9.8.7" "::FFFF:0a09:807" (V4 168364039) (V6 [0; 0; 0; 0; 0; 65535; 2569; 2055]%N)); reflexivity.
  - apply Hn. left. exists (mkNameEntry "Internal." "Private names"), ["host"]. split; [left|reflexivity].
Defined.

(** ** How old the list of the plugin can be *)

Section Age.
Context (parseYaml : string → option json).

(** The calls of one process, each with what it finds. *)
Fixpoint plugin_calls (cached : option CachedNetworks) (calls : list PluginHost)
    : list (result network_error LoadedNetworks) :=
  match calls with
  | [] => []
  | h :: calls' =>
      let '(r, cached') := plugin_load parseYaml h cached in r :: plugin_calls cached' calls'
  end.

(** A list that call [i] read, and that call [j] found unchanged by the stats of its file. *)
Definition read_and_seen (calls : list PluginHost) (c : CachedNetworks) (i j : nat) : Prop :=
  ∃ hi hj raw d,
    calls !! i = Some hi ∧ calls !! j = Some hj ∧ i ≤ j
    ∧ source_of hi = c_source c ∧ source_of hj = c_source c
    ∧ file_of hi (c_source c) = Content raw ∧ parseDocument parseYaml raw = Ok d ∧ c_loaded c = loaded d
    ∧ stat_of hi (c_source c) = Ok (c_mtimeMs c, c_size c) ∧ stat_of hj (c_source c) = Ok (c_mtimeMs c, c_size c)
    ∧ c_checkedAtMs c = now hj.
Definition backed (calls : list PluginHost) (cached : option CachedNetworks) : Prop :=
  ∀ c, cached = Some c → ∃ i j, read_and_seen calls c i j.

Lemma read_and_seen_later calls h c i j : read_and_seen calls c i j → read_and_seen (calls ++ [h]) c i j.
Proof.
  intros (hi & hj & raw & d & Hi & Hj & H). exists hi, hj, raw, d.
  split; [by apply lookup_app_l_Some|]. split; [by apply lookup_app_l_Some|done].
Qed.

Lemma read_now calls h raw d m z :
  stat_of h (source_of h) = Ok (m, z) → file_of h (source_of h) = Content raw → parseDocument parseYaml raw = Ok d →
  read_and_seen (calls ++ [h]) (mkCached (source_of h) m z (now h) (loaded d)) (List.length calls) (List.length calls).
Proof.
  intros Es Ef Ed. assert ((calls ++ [h]) !! List.length calls = Some h) as Hh by by rewrite lookup_app_r, Nat.sub_diag.
  by exists h, h, raw, d.
Qed.

Lemma seen_again calls h c i j m z :
  read_and_seen calls c i j → stat_of h (source_of h) = Ok (m, z) → same_file (source_of h) m z c = true →
  read_and_seen (calls ++ [h]) (mkCached (c_source c) (c_mtimeMs c) (c_size c) (now h) (c_loaded c)) i (List.length calls).
Proof.
  intros (hi & hj & raw & d & Hi & Hj & Hij & E1 & _ & E3 & E4 & E5 & E6 & _) Es Hs. unfold same_file in Hs.
  bools. subst m z. exists hi, h, raw, d. cbn [c_source c_mtimeMs c_size c_loaded c_checkedAtMs].
  assert ((calls ++ [h]) !! List.length calls = Some h) as Hh by by rewrite lookup_app_r, Nat.sub_diag.
  apply lookup_lt_Some in Hi as Hlt. split; [by apply lookup_app_l_Some|]. split; [done|]. split; [lia|].
  repeat split; try done; congruence.
Qed.

(** One call: it keeps the list it returns, and either it has just looked at the file or
    the last look is less than a second old. *)
Definition answers (calls : list PluginHost) (h : PluginHost) (nets : LoadedNetworks) (cached : option CachedNetworks) : Prop :=
  ∃ c i j, cached = Some c ∧ nets = c_loaded c ∧ read_and_seen (calls ++ [h]) c i j
           ∧ (j = List.length calls ∨ (now h - c_checkedAtMs c < STAT_CHECK_INTERVAL_MS)%Z).

Lemma plugin_load_step calls h cached r cached' :
  backed calls cached → plugin_load parseYaml h cached = (r, cached') →
  backed (calls ++ [h]) cached' ∧ (∀ nets, r = Ok nets → answers calls h nets cached').
Proof.
  intros Hb. assert (Hkeep : backed (calls ++ [h]) cached).
  { intros c Hc. destruct (Hb c Hc) as (i & j & H). exists i, j. by apply read_and_seen_later. }
  assert (Hanswer : ∀ c i j, read_and_seen (calls ++ [h]) c i j →
    j = List.length calls ∨ (now h - c_checkedAtMs c < STAT_CHECK_INTERVAL_MS)%Z →
    backed (calls ++ [h]) (Some c) ∧ (∀ nets, Ok (c_loaded c) = Ok (E := network_error) nets → answers calls h nets (Some c))).
  { intros c i j H Hj. split; [intros c' [= <-]; by exists i, j|]. intros nets [= <-]. by exists c, i, j. }
  unfold plugin_load, mbind, ST_bind, mret, ST_ret, st_get, st_lift, st_modify.
  destruct (match cached with Some c => if is_fresh h c then Some c else None | None => None end) as [c|] eqn:Ef.
  { cbn; intros [= <- <-]. destruct cached as [c0|]; [|done]. apply if_some in Ef as [Ef ->].
    destruct (Hkeep c eq_refl) as (i & j & H). apply (Hanswer c i j H). right. by apply Z.ltb_lt. }
  destruct (stat_of h (source_of h)) as [[m z]|e] eqn:Es; [|cbn; by intros [= <- <-]]. clear Ef.
  destruct (match cached with Some c => if same_file _ m z c then Some c else None | None => None end) as [c|] eqn:Ec.
  { cbn; intros [= <- <-]. destruct cached as [c0|]; [|done]. apply if_some in Ec as [Ec ->].
    destruct (Hb c eq_refl) as (i & j & H). apply (Hanswer _ i _ (seen_again calls h c i j m z H Es Ec)). by left. }
  unfold readPrivateNetworksFile. destruct (file_of h (source_of h)) as [| |raw] eqn:Efile; [cbn; by intros [= <- <-]..|].
  destruct (parseDocument parseYaml raw) as [d|e] eqn:Ed; [|cbn; by intros [= <- <-]].
  cbn; intros [= <- <-]. apply (Hanswer _ _ _ (read_now calls h raw d m z Es Efile Ed)). by left.
Qed.

Lemma plugin_calls_answers calls calls' cached k nets :
  backed calls cached → plugin_calls cached calls' !! k = Some (Ok nets) →
  ∃ h cached', calls' !! k = Some h ∧ answers (calls ++ take k calls') h nets cached'.
Proof.
  revert calls cached k. induction calls' as [|h calls' IH]; intros calls cached k Hb; [done|].
  cbn [plugin_calls]. destruct (plugin_load parseYaml h cached) as [r cached'] eqn:E.
  apply (plugin_load_step calls) in E as [Hb' Hr]; [|done]. destruct k as [|k]; cbn.
  - intros [= ->]. exists h, cached'. split; [done|]. rewrite app_nil_r. by apply Hr.
  - intros Hk. destruct (IH _ _ _ Hb' Hk) as (h' & c' & H1 & H2). exists h', c'. split; [done|].
    by rewrite <- (assoc_L (++)) in H2.
Qed.

(** A list the plugin checks addresses with was parsed from the file at one of the
    process's calls, and the stats the file had then were seen on it again at the same or a
    later call that is this one or less than a second ago: a change of the list that the
    file's stats show is enforced within a second, and a list that cannot be read any more is
    not used any longer than that. *)
Theorem plugin_list_current calls k nets (Hk : plugin_calls None calls !! k = Some (Ok nets)) :
  ∃ i j hi hj hk source raw d stats,
    calls !! i = Some hi ∧ calls !! j = Some hj ∧ calls !! k = Some hk ∧ i ≤ j ≤ k
    ∧ source_of hi = source ∧ source_of hj = source
    ∧ file_of hi source = Content raw ∧ parseDocument parseYaml raw = Ok d ∧ nets = loaded d
    ∧ stat_of hi source = Ok stats ∧ stat_of hj source = Ok stats
    ∧ (j = k ∨ (now hk - now hj < STAT_CHECK_INTERVAL_MS)%Z).
Proof.
  destruct (plugin_calls_answers [] calls None k nets) as (h & c' & Hh & c & i & j & -> & -> & Hseen & Hj); [done..|].
  destruct Hseen as (hi & hj & raw & d & Hi & Hj' & Hij & E1 & E2 & E3 & E4 & E5 & E6 & E7 & E8).
  cbn [app] in *. rewrite <- (take_S_r calls k h Hh) in Hi, Hj'.
  apply lookup_take_Some in Hi as [Hi ?], Hj' as [Hj' ?]. apply lookup_lt_Some in Hh as Hlt.
  rewrite length_take_le in Hj by lia. exists i, j, hi, hj, h, (c_source c), raw, d, (c_mtimeMs c, c_size c).
  rewrite E8 in Hj. split_and!; try done; lia.
Qed.
End Age.

(** The list is changed between two calls; the third call is too soon to see it, and the
    fourth one does. *)
Definition sample_call (at_ms : Z) (raw : string) (stats : Z * Z) : PluginHost :=
  mkPluginHost at_ms (Some "/blueprint") "" false (λ _, Ok stats) (λ _, Content raw).
Definition sample_yaml (raw : string) : option json :=
  if raw =s "first" then Some sample_document
  else if raw =s "second" then Some (JObj [("ipv4", JArr []); ("ipv6", JArr []); ("names", JArr [])]) else None.
Definition sample_calls : list PluginHost :=
  [sample_call 0 "first" (1, 9)%Z; sample_call 1500 "first" (1, 9)%Z; sample_call 2000 "second" (1900, 9)%Z;
   sample_call 2500 "second" (1900, 9)%Z].

Lemma plugin_list_current_witness :
  plugin_calls sample_yaml None sample_calls
    = [Ok (loaded sample_networks); Ok (loaded sample_networks); Ok (loaded sample_networks); Ok (mkLoaded (mkNetworkDocument [] [] []) [] [])]
  ∧ ∃ i j, i ≤ j ≤ 2 ∧ ∃ hi, sample_calls !! i = Some hi ∧ file_of hi (source_of hi) = Content "first".
Proof.
  assert (E : plugin_calls sample_yaml None sample_calls
    = [Ok (loaded sample_networks); Ok (loaded sample_networks); Ok (loaded sample_networks); Ok (mkLoaded (mkNetworkDocument [] [] []) [] [])])
    by (vm_compute; reflexivity).
  split; [exact E|].
  destruct (plugin_list_current sample_yaml sample_calls 2 (loaded sample_networks)) as
    (i & j & hi & hj & hk & source & raw & d & stats & Hi & _ & _ & Hij & <- & _ & Hf & Hd & Hn & _); [by rewrite E|].
  exists i, j. split; [exact Hij|]. exists hi. split; [exact Hi|]. rewrite Hf. unfold parseDocument, sample_yaml in Hd.
  destruct (String.eqb_spec raw "first") as [->|_]; [reflexivity|]. exfalso. destruct (raw =s "second"); [|discriminate].
  injection Hd as <-. discriminate.
Defined.

(** ** The list of the CLI is read once *)

Lemma cli_load_kept parseYaml c file : load parseYaml file (Some c) = (Ok c, Some c).
Proof. done. Qed.

Lemma cli_load_fails_closed parseYaml file e cached :
  load parseYaml file None = (Throw e, cached) →
  cached = None ∧ ∀ h, fst (cli_isPrivateHostname parseYaml file h None) = Throw e.
Proof.
  intros H. assert (cached = None) as ->.
  { unfold load, mbind, ST_bind, st_get, st_throw, st_lift, st_modify in H. destruct file; cbn in H; try by injection H.
    by destruct (parseDocument parseYaml raw); cbn in H; [|injection H]. }
  split; [done|]. intros h. unfold cli_isPrivateHostname. unfold mbind, ST_bind. by rewrite H.
Qed.

Lemma cli_tests parseYaml c file h a :
  cli_isPrivateIp parseYaml file a (Some c) = (Ok (isPrivateIp c a), Some c)
  ∧ cli_isPrivateHostname parseYaml file h (Some c) = (Ok (isPrivateHostname c h), Some c).
Proof.
  assert (Hip : ∀ a, cli_isPrivateIp parseYaml file a (Some c) = (Ok (isPrivateIp c a), Some c)).
  { intros s. unfold cli_isPrivateIp, isPrivateIp, check, isIP. by destruct (read_ip s) as [[]|]. }
  split; [apply Hip|]. unfold cli_isPrivateHostname, isPrivateHostname, mbind, ST_bind. rewrite cli_load_kept.
  by destruct (matches_name c _); [|apply Hip].
Qed.

(** ** Facts of the list that is shipped *)

Lemma read_literal_v4 t n : read_ip ("127." +:+ t) = Some (V4 n) → (n / 16777216 = 127)%N.
Proof.
  unfold read_ip. destruct (parse_ipv4 _) as [m|] eqn:E; [|by destruct (parse_ipv6 _)]. intros [= ->].
  unfold parse_ipv4 in E. change ("127." +:+ t) with ("127" +:+ "." +:+ t) in E. fold (labels ("127" +:+ "." +:+ t)) in E.
  rewrite labels_sep in E. change (labels "127") with ["127"] in E. cbn [app map] in E.
  change (octet "127") with (Some 127%N) in E. destruct (map octet (labels t)) as [|[a|] [|[b|] [|[c|] [|]]]] eqn:El; try done.
  assert (Forall (λ o, ∀ x, o = Some x → x < 256)%N (map octet (labels t))) as Hb.
  { apply Forall_map, Forall_forall. intros s _ x. apply octet_bound. }
  rewrite El in Hb. inversion Hb as [|? ? Ha Hb1]; subst. inversion Hb1 as [|? ? Hb' Hb2]; subst.
  inversion Hb2 as [|? ? Hc _]; subst. specialize (Ha a eq_refl). specialize (Hb' b eq_refl). specialize (Hc c eq_refl).
  injection E as <-. zify; Z.to_euclidean_division_equations; lia.
Qed.

Lemma shipped_covers_loopback n : (n / 16777216 = 127)%N → (n < 4294967296)%N → blocked (blockList shipped) (V4 n) = true.
Proof.
  intros Hn Hb. apply (blocked_covered [mkSubnet (V4 2130706432) 8]); [vm_compute; done|].
  unfold blocked. cbn [existsb in_subnet s_address s_prefix]. unfold same_prefix.
  rewrite !N.shiftr_div_pow2. change (2 ^ (32 - 8))%N with 16777216%N. by rewrite Hn.
Qed.

(** Loopback is part of what is private. *)
Lemma loopback_private h : isLoopbackHostname h = true → isPrivateHostname shipped h = true.
Proof.
  unfold isLoopbackHostname. rewrite isPrivateHostname_or. fold (host_name h). set (name := host_name h).
  destruct (String.eqb_spec name "localhost") as [->|_]; [done|].
  destruct (read_ip name) as [[n|p]|] eqn:E; [| |done].
  - intros [t Ht]%prefix_spec. apply orb_true_iff. right. unfold isPrivateIp, check. rewrite E.
    apply shipped_covers_loopback; [rewrite Ht in E; by eapply read_literal_v4|]. by apply read_ip_wf in E.
  - intros ->%String.eqb_eq. done.
Qed.
