(* ===== verification/Ssrf.v ===== *)
(** * Endpoints that reach no private network

    nemoclaw/src/blueprint/ssrf.ts (the endpoint validation of the plugin) and the URL part of
    src/lib/sandbox/config.ts (the URLs in a value that [config set] writes): both refuse a
    private host, resolve every other name, refuse a private answer, and pin the address that
    was checked.  The platform's URL parser is a parameter, with the laws used of it. *)

From S2P Require Import Prelude Json Checkpoint RouteGuard IpAddress PrivateNetworks.

(** ** The platform *)

(** The URL parser with the assignment [url.hostname = text]. *)
Record HostParser := mkHostParser {
  host_urls :> UrlParser;
  assigned_host : URL → string → URL
}.

Definition is_http (u : URL) : bool := (protocol u =s "http:") || (protocol u =s "https:").
(** The host a literal is in a URL: an IPv6 address is canonical and in brackets. *)
Definition canonical_host (address : string) : string :=
  match read_ip address with
  | Some (V6 p) => "[" +:+ print_ipv6 p +:+ "]"
  | _ => address
  end.
(** [family === 6 ? `[${address}]` : address]. *)
Definition host_syntax (address : string) (fam : nat) : string :=
  if (fam =? 6)%nat then "[" +:+ address +:+ "]" else address.

(** What is relied on of the parser: the host of an HTTP URL that is an IP literal is its
    canonical text; assigning a literal without a zone changes the host to that and nothing
    else; and what a URL is printed as is read as that URL. *)
Record url_laws (urls : HostParser) : Prop := {
  literal_canonical s u : parse_url urls s = Some u → is_http u = true →
    isIP (without_brackets (hostname u)) ≠ 0 → hostname u = canonical_host (without_brackets (hostname u));
  assigned_literal s u address : parse_url urls s = Some u → is_http u = true →
    isIP address ≠ 0 → scoped address = false →
    let u' := assigned_host urls u (host_syntax address (isIP address)) in
    hostname u' = canonical_host address ∧ protocol u' = protocol u
    ∧ username u' = username u ∧ password u' = password u ∧ parse_url urls (href urls u') = Some u'
}.

(** [lookup(host, { all: true })]: the answers with their families, or an exception. *)
Definition DnsLookup : Type := string → option (list (string * nat)).
(** What the resolver of the platform answers with. *)
Definition dns_law (lookup : DnsLookup) : Prop :=
  ∀ host answers address fam, lookup host = Some answers → (address, fam) ∈ answers →
    isIP address = fam ∧ fam ≠ 0 ∧ scoped address = false.

Inductive url_error : Type :=
| NotAUrl | UnsupportedScheme (scheme : string) | NoHostname | UrlCredentials
| PrivateHost (host : string) | Unresolvable (host : string) | PrivateAnswer (address : string)
| DnsBackedHttps (host : string).

(** ** The shared steps *)

Section Steps.
Context (nets : LoadedNetworks).

(** The answers of a lookup, none of them private. *)
Definition public_answers (lookup : DnsLookup) (host name : string) : result url_error (string * nat) :=
  match lookup name with
  | None | Some [] => Throw (Unresolvable host)
  | Some (first :: rest) =>
      match List.find (λ answer, isPrivateIp nets answer.1) (first :: rest) with
      | Some answer => Throw (PrivateAnswer answer.1)
      | None => Ok first
      end
  end.
End Steps.

(** ** ssrf.ts *)

Record ValidatedEndpoint := mkEndpoint {
  v_url : string;
  v_pinnedUrl : string;
  v_protocol : string;
  v_hostname : string;
  v_resolved : option (string * nat);
  v_dnsResolved : bool
}.

Definition ALLOWED_SCHEMES : list string := ["https:"; "http:"].
Definition hostnameForDnsLookup (hostname : string) : string := without_brackets hostname.

Section Endpoint.
Context (urls : HostParser) (nets : LoadedNetworks) (lookup : DnsLookup).

Definition validateEndpointUrl (url : string) : result url_error ValidatedEndpoint :=
  parsed ← of_option NotAUrl (parse_url urls url);
  _ ← throw_unless (includes ALLOWED_SCHEMES (protocol parsed)) (UnsupportedScheme (protocol parsed));
  _ ← throw_unless (truthy (hostname parsed)) NoHostname;
  _ ← throw_unless (negb (truthy (username parsed) || truthy (password parsed))) UrlCredentials;
  _ ← throw_unless (negb (isPrivateHostname nets (hostname parsed))) (PrivateHost (hostname parsed));
  let lookupHostname := hostnameForDnsLookup (hostname parsed) in
  if negb (isIP lookupHostname =? 0)%nat
  then Ok (mkEndpoint url url (protocol parsed) (hostname parsed) None false)
  else
    first ← public_answers nets lookup (hostname parsed) lookupHostname;
    let pinned := assigned_host urls parsed (host_syntax first.1 first.2) in
    Ok (mkEndpoint url (href urls pinned) (protocol parsed) (hostname parsed) (Some first) true).

Definition safeEndpointUrlForDownstream (validated : ValidatedEndpoint) : result url_error string :=
  if (v_protocol validated =s "https:") && v_dnsResolved validated
  then Throw (DnsBackedHttps (v_hostname validated))
  else Ok (if v_protocol validated =s "http:" then v_pinnedUrl validated else v_url validated).
End Endpoint.

(** ** Lemmas on literals *)

Lemma without_brackets_bracketed s : without_brackets ("[" +:+ s +:+ "]") = s.
Proof.
  unfold without_brackets. replace (starts_with "[" _) with true.
  2:{ symmetry. apply prefix_spec. by exists (s +:+ "]"). }
  replace (ends_with "]" _) with true.
  2:{ symmetry. apply ends_with_spec. exists ("["%char :: chars s). by rewrite !chars_app. }
  cbn [andb]. rewrite !chars_app. cbn [drop app]. change (chars "[") with ["["%char]. cbn [app drop].
  rewrite <- length_chars, !chars_app, !length_app.
  change (List.length (chars "[")) with 1. change (List.length (chars "]")) with 1.
  replace (1 + _ - 2) with (List.length (chars s)) by lia.
  by rewrite drop_0, take_app_length, of_chars_chars.
Qed.

(** The characters of an IPv4 literal. *)
Definition ipv4_char (c : ascii) : bool := is_digit c || Ascii.eqb c DOT.

Lemma octet_digits s n : octet s = Some n → forallb is_digit (chars s) = true ∧ chars s ≠ [].
Proof.
  unfold octet. destruct (chars s) as [|c l]; [done|]. intros [H _]%if_some.
  apply andb_true_iff in H as [[[H _]%andb_true_iff _]%andb_true_iff _]. by split.
Qed.

Lemma parse_ipv4_octets s n : parse_ipv4 s = Some n →
  labels s ≠ [] ∧ Forall (λ t, forallb is_digit (chars t) = true ∧ chars t ≠ []) (labels s).
Proof.
  unfold parse_ipv4. fold (labels s). destruct (labels s) as [|a [|b [|c [|d [|]]]]]; cbn [map]; try (repeat case_match; done).
  destruct (octet a) eqn:Ea, (octet b) eqn:Eb, (octet c) eqn:Ec, (octet d) eqn:Ed; try done.
  intros _. split; [done|]. repeat constructor; by eapply octet_digits.
Qed.

Lemma parse_ipv4_chars s n : parse_ipv4 s = Some n → forallb ipv4_char (chars s) = true.
Proof.
  intros [_ Hl]%parse_ipv4_octets. rewrite <- (join_split DOT s). fold (labels s).
  assert (Hd : ∀ t, forallb is_digit (chars t) = true → forallb ipv4_char (chars t) = true).
  { intros t. rewrite !forallb_forall. intros H c Hc. unfold ipv4_char. by rewrite H. }
  induction Hl as [|t l [Ht _] Hl IH]; [done|]. destruct l as [|t' l].
  - cbn. by apply Hd.
  - rewrite join_chars, forallb_app, Hd by done. exact IH.
Qed.

(** A literal in canonical form is its own normal form. *)
Lemma without_dot_id s : ends_with "." s = false → without_dot s = s.
Proof. intros E. unfold without_dot. by rewrite E. Qed.

Lemma last_char_not p s : p DOT = false → forallb p (chars s) = true → ends_with "." s = false.
Proof.
  intros Hp Hs. apply not_true_iff_false. intros [t Ht]%ends_with_spec. rewrite Ht, forallb_app in Hs.
  change (chars ".") with [DOT] in Hs. cbn in Hs. rewrite Hp in Hs. by rewrite andb_false_r in Hs.
Qed.

Lemma ipv4_no_dot s n : parse_ipv4 s = Some n → ends_with "." s = false.
Proof.
  intros [_ Hl]%parse_ipv4_octets. apply not_true_iff_false. intros [t Ht]%ends_with_spec.
  assert (s = of_chars t +:+ "." +:+ "") as ->.
  { apply chars_inj. rewrite Ht, !chars_app, chars_of_chars. by rewrite app_nil_r. }
  rewrite labels_sep in Hl. apply Forall_app in Hl as [_ Hl]. inversion Hl as [|? ? [_ Hne] _]; subst. done.
Qed.

Lemma ipv4_char_lower c : ipv4_char c = true → negb (is_upper c) && (code c <? 192)%N = true.
Proof. destruct c as [[] [] [] [] [] [] [] []]; vm_compute; done. Qed.

Lemma normalised_ipv4 s n : parse_ipv4 s = Some n → normalised s = s.
Proof.
  intros E. unfold normalised. rewrite without_dot_id by by eapply ipv4_no_dot. apply lower_plain.
  pose proof (parse_ipv4_chars s n E) as H. rewrite forallb_forall in *. intros c Hc. by apply ipv4_char_lower, H.
Qed.

Lemma normalised_ipv6 p : wf_pieces p → normalised (print_ipv6 p) = print_ipv6 p.
Proof.
  intros Hp. unfold normalised. rewrite without_dot_id, print_ipv6_lower; [done|done|].
  by eapply last_char_not, print_ipv6_chars.
Qed.

(** The literal between the brackets of a canonical host. *)
Definition canonical_text (address : string) : string :=
  match read_ip address with Some (V6 p) => print_ipv6 p | _ => address end.

Lemma read_ip_v6 s p : read_ip s = Some (V6 p) → wf_pieces p.
Proof. intros H. by apply read_ip_wf in H. Qed.

Lemma ipv4_no_brackets s n : parse_ipv4 s = Some n → without_brackets s = s.
Proof.
  intros H%parse_ipv4_chars. unfold without_brackets. replace (starts_with "[" s) with false; [done|].
  symmetry. apply not_true_iff_false. intros [t ->]%prefix_spec. rewrite chars_app in H. done.
Qed.

Lemma read_ip_v4 s n : read_ip s = Some (V4 n) → parse_ipv4 s = Some n.
Proof. unfold read_ip. destruct (parse_ipv4 s); [by intros [= ->]|]. by destruct (parse_ipv6 s). Qed.

Lemma without_brackets_canonical s : isIP s ≠ 0 → without_brackets (canonical_host s) = canonical_text s.
Proof.
  unfold isIP, canonical_host, canonical_text. destruct (read_ip s) as [[n|p]|] eqn:E; [| |done]; intros _.
  - eapply ipv4_no_brackets. by apply read_ip_v4.
  - apply without_brackets_bracketed.
Qed.

Lemma canonical_text_normal s : isIP s ≠ 0 →
  normalised (canonical_text s) = canonical_text s ∧ read_ip (canonical_text s) = read_ip s.
Proof.
  unfold isIP, canonical_text. destruct (read_ip s) as [[n|p]|] eqn:E; [| |done]; intros _.
  - split; [|done]. eapply normalised_ipv4. by apply read_ip_v4.
  - apply read_ip_v6 in E. split; [by apply normalised_ipv6|by apply read_print_ipv6].
Qed.

Lemma isIP_read s : isIP s ≠ 0 ↔ is_Some (read_ip s).
Proof.
  unfold isIP. destruct (read_ip s) as [[]|]; [by split; [eexists|]..|]. split; [done|]. by intros [? [=]].
Qed.

(** ** A host that passed *)

Section Safe.
Context (urls : HostParser) (nets : LoadedNetworks).
Context (Hurls : url_laws urls).

(** A URL whose host is an address, and not a private one. *)
Definition public_literal (out : string) : Prop :=
  ∃ u a, parse_url urls out = Some u ∧ is_http u = true ∧ read_ip (without_brackets (hostname u)) = Some a
         ∧ isPrivateIp nets (without_brackets (hostname u)) = false.

Lemma literal_public s u :
  parse_url urls s = Some u → is_http u = true → isIP (without_brackets (hostname u)) ≠ 0 →
  isPrivateHostname nets (hostname u) = false → public_literal s.
Proof using Hurls.
  intros Hs Hu Hip Hpriv. destruct (proj1 (isIP_read _) Hip) as [a Ha]. exists u, a. split_and!; [done..|].
  pose proof (literal_canonical urls Hurls s u Hs Hu Hip) as Hc.
  rewrite isPrivateHostname_or in Hpriv. apply orb_false_iff in Hpriv as [_ Hpriv].
  unfold host_name in Hpriv. set (t := without_brackets (hostname u)) in *.
  assert (t = canonical_text t) as E by (rewrite <- without_brackets_canonical by done; by rewrite <- Hc).
  destruct (canonical_text_normal t Hip) as [Hn _]. by rewrite E, Hn, <- E in Hpriv.
Qed.

Lemma pinned_public s u address :
  parse_url urls s = Some u → is_http u = true → isIP address ≠ 0 → scoped address = false →
  isPrivateIp nets address = false →
  public_literal (href urls (assigned_host urls u (host_syntax address (isIP address)))).
Proof using Hurls.
  intros Hs Hu Hip Hsc Hpriv.
  destruct (assigned_literal urls Hurls s u address Hs Hu Hip Hsc) as (Hh & Hp & _ & _ & Hparse).
  destruct (canonical_text_normal address Hip) as [_ Hr]. destruct (proj1 (isIP_read _) Hip) as [a Ha].
  eexists _, a. split; [exact Hparse|]. rewrite Hh, without_brackets_canonical by done.
  unfold is_http, isPrivateIp, check in *. by rewrite Hp, Hr, Ha in *.
Qed.

Lemma public_answers_ok lookup host name first :
  public_answers nets lookup host name = Ok first →
  ∃ answers, lookup name = Some answers ∧ first ∈ answers ∧ ∀ answer, answer ∈ answers → isPrivateIp nets answer.1 = false.
Proof using Type.
  unfold public_answers. destruct (lookup name) as [[|x l]|]; try done.
  destruct (List.find _ _) as [?|] eqn:E; [done|]. intros [= ->]. exists (first :: l). split_and!; [done|left|].
  intros answer Hin. apply (find_none _ _ E). by apply list_elem_of_In.
Qed.

Lemma answer_public lookup s u host name first : dns_law lookup →
  parse_url urls s = Some u → is_http u = true → public_answers nets lookup host name = Ok first →
  public_literal (href urls (assigned_host urls u (host_syntax first.1 first.2))).
Proof using Hurls.
  intros Hdns Hs Hu (answers & Hl & Hin & Hpub)%public_answers_ok. destruct first as [address fam].
  destruct (Hdns _ _ _ _ Hl Hin) as (<- & Hne & Hsc). eapply pinned_public; eauto.
Qed.
End Safe.

Lemma allowed_scheme u : includes ALLOWED_SCHEMES (protocol u) = is_http u.
Proof. unfold includes, is_http. cbn. by rewrite orb_false_r, orb_comm. Qed.

(** What a validation checked, in the order of the code. *)
Lemma validateEndpointUrl_ok urls nets lookup url v :
  validateEndpointUrl urls nets lookup url = Ok v →
  ∃ u, parse_url urls url = Some u ∧ is_http u = true ∧ username u = "" ∧ password u = ""
       ∧ isPrivateHostname nets (hostname u) = false
       ∧ v_url v = url ∧ v_protocol v = protocol u
       ∧ ((isIP (without_brackets (hostname u)) ≠ 0 ∧ v_pinnedUrl v = url ∧ v_dnsResolved v = false)
          ∨ (isIP (without_brackets (hostname u)) = 0 ∧ v_dnsResolved v = true
             ∧ ∃ first, public_answers nets lookup (hostname u) (without_brackets (hostname u)) = Ok first
                        ∧ v_pinnedUrl v = href urls (assigned_host urls u (host_syntax first.1 first.2)))).
Proof.
  unfold validateEndpointUrl. intros H.
  apply result_bind_ok in H as (u & Hu%of_option_ok & H).
  apply result_bind_ok in H as ([] & Hs%throw_unless_ok & H). rewrite allowed_scheme in Hs.
  apply result_bind_ok in H as ([] & _ & H).
  apply result_bind_ok in H as ([] & Hc%throw_unless_ok & H).
  apply result_bind_ok in H as ([] & Hp%throw_unless_ok & H).
  apply negb_true_iff, orb_false_iff in Hc as [Hc1%negb_false_iff%String.eqb_eq Hc2%negb_false_iff%String.eqb_eq].
  apply negb_true_iff in Hp. exists u. unfold hostnameForDnsLookup in H.
  destruct (Nat.eqb_spec (isIP (without_brackets (hostname u))) 0) as [E|E]; cbn [negb] in H.
  - apply result_bind_ok in H as (first & Hf & H). injection H as <-. cbn. split_and!; try done.
    right. split_and!; [done..|]. by exists first.
  - injection H as <-. cbn. split_and!; try done. by left.
Qed.

(** C15: Whatever the name server answers, an endpoint that is given to a provider is an
    HTTP or HTTPS URL without credentials whose host is an IP address outside every private
    network, so nothing is resolved again when it is used: a literal address is used as it
    is, an HTTP name is replaced by an address that was checked, and an HTTPS name is
    refused. *)
Theorem downstream_endpoint_public urls nets lookup url v out
    (Hurls : url_laws urls) (Hdns : dns_law lookup)
    (Hv : validateEndpointUrl urls nets lookup url = Ok v)
    (Hout : safeEndpointUrlForDownstream v = Ok out) :
  public_literal urls nets out
  ∧ (∀ u, parse_url urls out = Some u → username u = "" ∧ password u = "")
  ∧ (v_dnsResolved v = false → out = url) ∧ (v_dnsResolved v = true → v_protocol v = "http:").
Proof.
  apply validateEndpointUrl_ok in Hv as (u & Hu & Hh & Hn & Hw & Hpriv & Eurl & Eproto & Hcase).
  unfold safeEndpointUrlForDownstream in Hout. rewrite Eproto, Eurl in *.
  destruct Hcase as [(Hip & Epin & Edns)|(Hip & Edns & first & Hfirst & Epin)]; rewrite Edns, Epin in *.
  - rewrite andb_false_r in Hout. assert (out = url) as -> by by destruct (protocol u =s "http:"); injection Hout.
    split; [by eapply literal_public|]. split; [|by split]. intros u' Hu'. simplify_eq. done.
  - rewrite andb_true_r in Hout. unfold is_http in Hh.
    destruct (String.eqb_spec (protocol u) "http:") as [E|E]; [|cbn in Hh; by rewrite Hh in Hout].
    rewrite E in Hout. cbn in Hout. injection Hout as <-.
    assert (is_http u = true) as Hhttp by by unfold is_http; rewrite E.
    split; [by eapply answer_public|]. split; [|done].
    apply public_answers_ok in Hfirst as (answers & Hl & Hin & _). destruct first as [address fam].
    destruct (Hdns _ _ _ _ Hl Hin) as (<- & Hne & Hsc).
    destruct (assigned_literal urls Hurls url u address Hu Hhttp Hne Hsc) as (_ & _ & E1 & E2 & Hparse).
    cbn [fst snd]. rewrite Hparse. intros u' [= <-]. by rewrite E1, E2.
Qed.

(** ** A parser with the laws

    The URLs [http://HOST/] and [https://HOST/]. *)

Definition canon (host : string) : string :=
  let t := without_brackets host in if (isIP t =? 0)%nat then host else canonical_host t.
Definition plain_url (proto host : string) : URL :=
  mkURL proto (canon host) "" "/" "" "" "" "" (proto +:+ "//" +:+ canon host).
Definition print_plain (u : URL) : string := protocol u +:+ "//" +:+ hostname u +:+ "/".
Definition between_slashes (n : nat) (s : string) : string := of_chars (take (String.length s - S n) (drop n (chars s))).
Definition parse_plain (s : string) : option URL :=
  if starts_with "http://" s && ends_with "/" s then Some (plain_url "http:" (between_slashes 7 s))
  else if starts_with "https://" s && ends_with "/" s then Some (plain_url "https:" (between_slashes 8 s))
  else None.
Definition plain_parser : HostParser :=
  mkHostParser (mkUrlParser parse_plain print_plain (λ _ path, path)) (λ u host, plain_url (protocol u) host).

Lemma canonical_host_text s : isIP s ≠ 0 → canonical_host (canonical_text s) = canonical_host s.
Proof.
  intros Hip. destruct (canonical_text_normal s Hip) as [_ Hr]. unfold canonical_host. rewrite Hr.
  unfold canonical_text. by destruct (read_ip s) as [[]|].
Qed.

Lemma isIP_canonical s : isIP s ≠ 0 → isIP (canonical_text s) = isIP s.
Proof. intros Hip. destruct (canonical_text_normal s Hip) as [_ Hr]. unfold isIP. by rewrite Hr. Qed.

Lemma canon_literal host : isIP (without_brackets (canon host)) ≠ 0 → canon host = canonical_host (without_brackets (canon host)).
Proof.
  unfold canon. destruct (Nat.eqb_spec (isIP (without_brackets host)) 0) as [E|E]; [by rewrite E|].
  intros _. by rewrite without_brackets_canonical, canonical_host_text.
Qed.

Lemma canon_idem host : canon (canon host) = canon host.
Proof.
  unfold canon at 1. destruct (Nat.eqb_spec (isIP (without_brackets (canon host))) 0) as [E|E]; [done|].
  by rewrite <- canon_literal.
Qed.

Lemma between_slashes_app p s :
  between_slashes (String.length p) (p +:+ s +:+ "/") = s.
Proof.
  unfold between_slashes. rewrite <- !length_chars, !chars_app, !length_app. change (List.length (chars "/")) with 1.
  rewrite drop_app_length. replace (_ - _) with (List.length (chars s)) by lia. by rewrite take_app_length, of_chars_chars.
Qed.

Lemma ends_with_app s t : ends_with t (s +:+ t) = true.
Proof. apply ends_with_spec. exists (chars s). by rewrite chars_app. Qed.

Lemma parse_print_plain proto host : proto = "http:" ∨ proto = "https:" →
  parse_plain (print_plain (plain_url proto host)) = Some (plain_url proto host).
Proof.
  assert (Hidem : plain_url proto (canon host) = plain_url proto host) by by unfold plain_url; rewrite canon_idem.
  unfold print_plain. cbn [plain_url protocol hostname]. intros [-> | ->].
  - change ("http:" +:+ "//" +:+ canon host +:+ "/") with ("http://" +:+ canon host +:+ "/"). unfold parse_plain.
    replace (starts_with "http://" _) with true by by symmetry; apply prefix_spec; eexists.
    replace (ends_with "/" _) with true by by symmetry; apply (ends_with_app ("http://" +:+ canon host) "/").
    cbn [andb]. rewrite (between_slashes_app "http://"). by f_equal.
  - change ("https:" +:+ "//" +:+ canon host +:+ "/") with ("https://" +:+ canon host +:+ "/"). unfold parse_plain.
    replace (starts_with "http://" _) with false by done. cbn [andb].
    replace (starts_with "https://" _) with true by by symmetry; apply prefix_spec; eexists.
    replace (ends_with "/" _) with true by by symmetry; apply (ends_with_app ("https://" +:+ canon host) "/").
    cbn [andb]. rewrite (between_slashes_app "https://"). by f_equal.
Qed.

Lemma parse_plain_url s u : parse_plain s = Some u → ∃ proto host, (proto = "http:" ∨ proto = "https:") ∧ u = plain_url proto host.
Proof.
  unfold parse_plain. destruct (_ && _); [intros [= <-]; eauto|]. destruct (_ && _); [|done]. intros [= <-]. eauto.
Qed.

Lemma plain_laws : url_laws plain_parser.
Proof.
  split; cbn -[parse_plain print_plain plain_url].
  - intros s u (proto & host & _ & ->)%parse_plain_url _. apply canon_literal.
  - intros s u address (proto & host & Hp & ->)%parse_plain_url _ Hip Hsc.
    assert (without_brackets (host_syntax address (isIP address)) = address) as Hw.
    { unfold host_syntax, isIP. destruct (read_ip address) as [[n|p]|] eqn:E; cbn.
      - eapply ipv4_no_brackets. by apply read_ip_v4.
      - apply without_brackets_bracketed.
      - unfold isIP in Hip. by rewrite E in Hip. }
    split; [|split_and!; [done..|]; by apply parse_print_plain].
    cbn [plain_url hostname]. unfold canon. rewrite Hw. by apply Nat.eqb_neq in Hip as ->.
Qed.

Definition sample_lookup : DnsLookup := λ host,
  if host =s "example.com" then Some [("93.184.216.34", 4); ("2606:2800::1", 6)] else None.
Lemma sample_dns : dns_law sample_lookup.
Proof.
  intros host answers address fam. unfold sample_lookup. destruct (host =s "example.com"); [|done].
  intros [= <-] [[= -> ->]|[[= -> ->]|[]%elem_of_nil]%elem_of_cons]%elem_of_cons; done.
Qed.

Lemma downstream_endpoint_public_witness :
  (v ← validateEndpointUrl plain_parser shipped sample_lookup "http://example.com/"; safeEndpointUrlForDownstream v)
  = Ok "http://93.184.216.34/"
  ∧ public_literal plain_parser shipped "http://93.184.216.34/".
Proof.
  split; [vm_compute; reflexivity|].
  destruct (downstream_endpoint_public plain_parser shipped sample_lookup "http://example.com/"
              (mkEndpoint "http://example.com/" "http://93.184.216.34/" "http:" "example.com" (Some ("93.184.216.34", 4)) true)
              "http://93.184.216.34/" plain_laws sample_dns ltac:(vm_compute; reflexivity) ltac:(vm_compute; reflexivity))
    as [H _]. exact H.
Defined.
