(* ===== verification/ConfigSet.v ===== *)
(** * Writing a sandbox's configuration

    src/lib/sandbox/config.ts: the checks of [config set] on the key, the value and the
    configuration that is there, the validation and the pinning of every URL in the value,
    and the write under the mutation lock.  The configuration is read twice, and anything may
    happen in between; reading, locking and writing themselves, and the validation of the
    OpenClaw schema, are what the handler is given. *)

From S2P Require Import Prelude Json Secrets Checkpoint RouteGuard IpAddress PrivateNetworks Ssrf.

(** ** Paths *)

Definition DOT_TEXT : string := ".".
Definition UNSAFE_KEY_SEGMENTS : list string := ["__proto__"; "constructor"; "prototype"; "toString"; "hasOwnProperty"].

(** What an object inherits from [Object.prototype]: functions, and the prototype itself. *)
Definition PROTOTYPE_FUNCTIONS : list string :=
  ["constructor"; "__defineGetter__"; "__defineSetter__"; "hasOwnProperty"; "__lookupGetter__"; "__lookupSetter__";
   "isPrototypeOf"; "propertyIsEnumerable"; "toString"; "valueOf"; "toLocaleString"].
Inductive member : Type := Value (v : json) | InheritedFunction | ThePrototype.
Definition inherited (key : string) : member :=
  if includes PROTOTYPE_FUNCTIONS key then InheritedFunction
  else if key =s "__proto__" then ThePrototype else Value JUndef.
Definition read_member (m : member) (key : string) : member :=
  match m with
  | Value (JObj o) => match own o key with Some v => Value v | None => inherited key end
  | ThePrototype => if includes PROTOTYPE_FUNCTIONS key then InheritedFunction
                    else Value (if key =s "__proto__" then JNull else JUndef)
  | _ => Value JUndef
  end.

Section Extract.
(** [Number(key)] when it is an integer. *)
Context (to_integer : string → option Z).

Fixpoint extract (current : member) (keys : list string) : member :=
  match keys with
  | [] => current
  | key :: keys' =>
      match current with
      | Value JNull | Value JUndef => Value JUndef
      | Value (JArr l) =>
          match to_integer key with
          | Some i => if (i <? 0)%Z then Value JUndef else extract (Value (default JUndef (l !! Z.to_nat i))) keys'
          | None => Value JUndef
          end
      | Value (JObj _) | ThePrototype => extract (read_member current key) keys'
      | _ => Value JUndef
      end
  end.
Definition extractDotpath (obj : json) (dotpath : string) : member := extract (Value obj) (labels dotpath).
End Extract.

(** [current[key]] of the objects on the way, made when there is none. *)
Definition object_at (o : list (string * json)) (key : string) : list (string * json) :=
  match jget o key with JObj o' => o' | _ => [] end.
Fixpoint set_path (o : list (string * json)) (keys : list string) (value : json) : list (string * json) :=
  match keys with
  | [] => o
  | [key] => set_prop o key value
  | key :: keys' => set_prop o key (JObj (set_path (object_at o key) keys' value))
  end.
Definition setDotpath (o : list (string * json)) (dotpath : string) (value : json) : list (string * json) :=
  if truthy (default "" (last (labels dotpath))) then set_path o (labels dotpath) value else o.

Inductive dotpath_error : Type := EmptyKey | EmptySegment | ReservedSegment (key : string).
Fixpoint validate_segments (keys : list string) : result dotpath_error unit :=
  match keys with
  | [] => Ok tt
  | key :: keys' =>
      if negb (truthy key) then Throw EmptySegment
      else if includes UNSAFE_KEY_SEGMENTS key then Throw (ReservedSegment key)
      else validate_segments keys'
  end.
Definition validateConfigDotpath (dotpath : string) : result dotpath_error unit :=
  if negb (truthy dotpath) then Throw EmptyKey else validate_segments (labels dotpath).

Inductive clobber_reason : Type := NumericSegment | NotAnObject (what : string).
Definition describeNonConfigValue (value : json) : string :=
  match value with
  | JNull => "null"
  | JArr _ => "an array"
  | JStr _ => "a string"
  | JNum _ => "a number"
  | JBool _ => "a boolean"
  | JUndef => "a undefined"
  | JObj _ => "a object"
  end.
Definition numeric_segment (key : string) : bool := truthy key && forallb is_digit (chars key).
Definition joined (keys : list string) : string := js_join DOT_TEXT keys.

(** The keys already seen, in order, and the ones to come. *)
Fixpoint first_numeric (seen keys : list string) : option (string * clobber_reason) :=
  match keys with
  | [] => None
  | key :: keys' =>
      if numeric_segment key then Some (joined (seen ++ [key]), NumericSegment)
      else first_numeric (seen ++ [key]) keys'
  end.
Fixpoint blocked_ancestor (current : json) (seen keys : list string) : option (string * clobber_reason) :=
  match keys with
  | [] | [_] => None
  | key :: keys' =>
      match current with
      | JObj o =>
          match own o key with
          | None => None
          | Some (JObj o') => blocked_ancestor (JObj o') (seen ++ [key]) keys'
          | Some next => Some (joined (seen ++ [key]), NotAnObject (describeNonConfigValue next))
          end
      | _ =>
          Some (if truthy (joined seen) then joined seen else "(root)", NotAnObject (describeNonConfigValue current))
      end
  end.
Definition findClobberingAncestor (obj : json) (dotpath : string) : option (string * clobber_reason) :=
  match first_numeric [] (labels dotpath) with
  | Some refusal => Some refusal
  | None => blocked_ancestor obj [] (labels dotpath)
  end.

Inductive NewKeyGate : Type := AcceptKey | PromptKey | RefuseKey.
Record NewKeyGateInputs := mkGateInputs {
  acceptNewPath : bool; acceptEnv : option string; isTTY : bool; nonInteractiveEnv : option string
}.
Definition classifyNewKeyGate (inputs : NewKeyGateInputs) : NewKeyGate :=
  if acceptNewPath inputs || bool_decide (acceptEnv inputs = Some "1") then AcceptKey
  else if negb (isTTY inputs && negb (bool_decide (nonInteractiveEnv inputs = Some "1"))) then RefuseKey
  else PromptKey.

(** ** URLs in a value *)

Inductive config_url_error : Type :=
| InvalidUrl | SchemeNotAllowed (scheme : string) | NoUrlHostname | Rejected (e : url_error) | DnsBackedHttpsUrl.
(** [err.urlValue] and [err.message]. *)
Definition ConfigUrlValidationError : Type := string * config_url_error.

Definition http_prefixed (lower : string) : bool := starts_with "http://" lower || starts_with "https://" lower.
Definition url_text (value : string) : bool := http_prefixed (js_lower (js_trim value)).

Record DnsValidatedUrl := mkValidated { protocol_ : string; originalUrl : string; pinnedUrl : string }.
Record ConfigUrlValidationOptions := mkUrlOptions {
  allowOpenShellBridge : bool;
  allowOpenShellBridgePath : option (list string → bool)
}.
Definition bridge_allowed (options : ConfigUrlValidationOptions) (path : list string) : bool :=
  allowOpenShellBridge options || from_option (λ f, f path) false (allowOpenShellBridgePath options).

Section Urls.
Context (urls : HostParser) (nets : LoadedNetworks) (lookup : DnsLookup) (options : ConfigUrlValidationOptions).

(** Nothing when the text is no URL at all. *)
Definition parseHttpUrl (value : string) : result config_url_error (option URL) :=
  let trimmed := js_trim value in
  match parse_url urls trimmed with
  | None => if http_prefixed (js_lower trimmed) then Throw InvalidUrl else Ok None
  | Some parsed =>
      if negb (protocol parsed =s "http:") && negb (protocol parsed =s "https:") then Throw (SchemeNotAllowed (protocol parsed))
      else if negb (truthy (hostname parsed)) then Throw NoUrlHostname
      else Ok (Some parsed)
  end.

Definition assertPublicHost (host : string) : result config_url_error unit :=
  throw_unless (negb (isPrivateHostname nets host)) (Rejected (PrivateHost host)).

Definition validateUrlValue (value : string) (path : list string) : result config_url_error unit :=
  parsed ← parseHttpUrl value;
  match parsed with
  | None => Ok tt
  | Some parsed =>
      if bridge_allowed options path && isAllowedOpenShellSandboxBridgeUrl parsed then Ok tt
      else assertPublicHost (hostname parsed)
  end.

Definition validateUrlValueWithDnsResult (value : string) (path : list string)
    : result config_url_error (option DnsValidatedUrl) :=
  let original := js_trim value in
  parsed ← parseHttpUrl original;
  match parsed with
  | None => Ok None
  | Some parsed =>
      if bridge_allowed options path && isAllowedOpenShellSandboxBridgeUrl parsed
      then Ok (Some (mkValidated (protocol parsed) original original))
      else
        _ ← assertPublicHost (hostname parsed);
        let lookupHostname := hostnameForDnsLookup (hostname parsed) in
        if negb (isIP lookupHostname =? 0)%nat then Ok (Some (mkValidated (protocol parsed) original original))
        else
          match public_answers nets lookup (hostname parsed) lookupHostname with
          | Throw e => Throw (Rejected e)
          | Ok first =>
              let pinned := assigned_host urls parsed (host_syntax first.1 first.2) in
              Ok (Some (mkValidated (protocol parsed) original (href urls pinned)))
          end
  end.

(** A string of the value. *)
Definition rewrite_text (value : string) (path : list string) : result ConfigUrlValidationError string :=
  let trimmed := js_trim value in
  if negb (http_prefixed (js_lower trimmed)) then Ok value
  else
    match validateUrlValueWithDnsResult trimmed path with
    | Throw e => Throw (trimmed, e)
    | Ok None => Ok value
    | Ok (Some validated) =>
        if (protocol_ validated =s "https:") && negb (pinnedUrl validated =s originalUrl validated)
        then Throw (trimmed, DnsBackedHttpsUrl)
        else Ok (if protocol_ validated =s "http:" then pinnedUrl validated else originalUrl validated)
    end.

(** The elements are validated at the same time; of several failures the model reports the
    first one in order.  Assigning [__proto__] to the copy makes no property of it. *)
Fixpoint rewriteConfigUrlsWithDnsPinning (value : json) (path : list string) : result ConfigUrlValidationError json :=
  match value with
  | JStr s => s' ← rewrite_text s path; Ok (JStr s')
  | JArr l =>
      l' ← (fix elems (l : list json) (index : N) : result ConfigUrlValidationError (list json) :=
              match l with
              | [] => Ok []
              | x :: l' =>
                  x' ← rewriteConfigUrlsWithDnsPinning x (path ++ [pretty index]);
                  rest ← elems l' (index + 1)%N; Ok (x' :: rest)
              end) l 0%N;
      Ok (JArr l')
  | JObj o =>
      o' ← (fix props (o : list (string * json)) : result ConfigUrlValidationError (list (string * json)) :=
              match o with
              | [] => Ok []
              | (key, entry) :: o' =>
                  entry' ← rewriteConfigUrlsWithDnsPinning entry (path ++ [key]);
                  rest ← props o'; Ok (if key =s "__proto__" then rest else (key, entry') :: rest)
              end) o;
      Ok (JObj o')
  | _ => Ok value
  end.
End Urls.

Definition configSetAllowsOpenShellBridge (agentName key : string) (relativePath : list string) : bool :=
  let segments := labels key ++ relativePath in
  if existsb (includes UNSAFE_KEY_SEGMENTS) segments then false
  else if agentName =s "hermes" then bool_decide (segments = ["model"; "base_url"])
  else if agentName =s "openclaw" then
    match segments with
    | [a; b; provider; d] =>
        (a =s "models") && (b =s "providers") && truthy provider && negb (numeric_segment provider) && (d =s "baseUrl")
    | _ => false
    end
  else false.

(** ** What is shown of a value *)

Definition redactUrlForLogs (urls : HostParser) (urlValue : string) : string :=
  match parse_url urls urlValue with
  | Some parsed =>
      protocol parsed +:+ "//" +:+ hostname parsed
      +:+ (if truthy (port parsed) then ":" +:+ port parsed else "") +:+ pathname parsed
  | None => "<invalid-url>"
  end.
Definition redactStringForConfigPreview (value : string) : string :=
  if http_prefixed (js_lower (js_trim value)) then "[REDACTED_URL]" else "[REDACTED_STRING]".
Fixpoint redactConfigValueForPreview (value : json) : json :=
  match value with
  | JStr s => JStr (redactStringForConfigPreview s)
  | JArr l => JArr (map redactConfigValueForPreview l)
  | JObj o =>
      JObj ((fix props (o : list (string * json)) : list (string * json) :=
               match o with
               | [] => []
               | (key, entry) :: o' =>
                   if key =s "__proto__" then props o'
                   else (key, if isCredentialField key then JStr "[REDACTED]" else redactConfigValueForPreview entry) :: props o'
               end) o)
  | _ => value
  end.

(** ** The handler *)

(** What the run is given: the agent's configuration, its two readings with the digest of the
    text that was read, the state of the shields at each, and the answer of the user. *)
Record ConfigSetInput := mkConfigSetInput {
  agentName : string;
  format : string;
  key : option string;
  value : option string;
  restart : bool;
  gate_inputs : NewKeyGateInputs;
  confirmed : bool;
  shields_down : bool;
  shields_down_locked : bool;
  first_text : string;
  second_text : string
}.
(** The functions it calls: the format's parser ([None] when it refuses the text), the digest
    of a text, [JSON.parse] of the value, the printed body, and the issues the OpenClaw schema
    has with a body. *)
Record ConfigFormat := mkConfigFormat {
  parse_config : string → option (list (string * json));
  digest : string → string;
  parse_value : string → option json;
  compose : json → string;
  schema_issues : string → list string
}.

Inductive config_set_error : Type :=
| KeyRequired | ValueRequired | InvalidKey (e : dotpath_error) | RestartUnsupported | NotAvailable
| ShieldsUp | Unreadable_ | NotBound | GatewaySection | Clobbers (segment : string) (reason : clobber_reason)
| KeyMissing | Aborted | UrlValidation (e : ConfigUrlValidationError) | SchemaIssues (issues : list string)
| ChangedMeanwhile | CandidateChanged.

Definition guarded_agent (agent : string) : bool := (agent =s "openclaw") || (agent =s "hermes").
Definition is_undefined_member (m : member) : bool := match m with Value JUndef => true | _ => false end.
Definition new_key_allowed (input : ConfigSetInput) (old : member) : result config_set_error unit :=
  if negb (is_undefined_member old) then Ok tt
  else match classifyNewKeyGate (gate_inputs input) with
       | AcceptKey => Ok tt
       | RefuseKey => Throw KeyMissing
       | PromptKey => throw_unless (confirmed input) Aborted
       end.

Section Handler.
Context (urls : HostParser) (nets : LoadedNetworks) (lookup : DnsLookup).
Context (to_integer : string → option Z) (fmt : ConfigFormat).

Definition parseCliConfigValue (rawValue : string) : json := default (JStr rawValue) (parse_value fmt rawValue).

(** The configuration that is written. *)
Definition configSet (input : ConfigSetInput) : result config_set_error json :=
  key ← of_option KeyRequired (match key input with Some k => if truthy k then Some k else None | None => None end);
  raw ← of_option ValueRequired (value input);
  _ ← match validateConfigDotpath key with Ok _ => Ok tt | Throw e => Throw (InvalidKey e) end;
  let guarded := guarded_agent (agentName input) in
  _ ← throw_unless (negb (restart input) || guarded) RestartUnsupported;
  _ ← throw_unless (negb (format input =s "toml")) NotAvailable;
  _ ← throw_unless (negb guarded || shields_down input) ShieldsUp;
  config ← of_option Unreadable_ (parse_config fmt (first_text input));
  _ ← throw_unless (truthy (digest fmt (first_text input))) NotBound;
  let parsedValue := parseCliConfigValue raw in
  _ ← throw_unless (negb (starts_with "gateway." key || (key =s "gateway"))) GatewaySection;
  let oldValue := extractDotpath to_integer (JObj config) key in
  _ ← match findClobberingAncestor (JObj config) key with
      | Some (segment, reason) => Throw (Clobbers segment reason)
      | None => Ok tt
      end;
  _ ← new_key_allowed input oldValue;
  let options := mkUrlOptions false (Some (configSetAllowsOpenShellBridge (agentName input) key)) in
  safeValue ← match rewriteConfigUrlsWithDnsPinning urls nets lookup options parsedValue [] with
              | Ok v => Ok v
              | Throw e => Throw (UrlValidation e)
              end;
  let candidate := compose fmt (JObj (setDotpath config key safeValue)) in
  let openclaw := agentName input =s "openclaw" in
  _ ← match (if openclaw then schema_issues fmt candidate else []) with
      | [] => Ok tt
      | issues => Throw (SchemaIssues issues)
      end;
  _ ← throw_unless (negb guarded || shields_down_locked input) ShieldsUp;
  currentConfig ← of_option Unreadable_ (parse_config fmt (second_text input));
  _ ← throw_unless (digest fmt (second_text input) =s digest fmt (first_text input)) ChangedMeanwhile;
  let written := JObj (setDotpath currentConfig key safeValue) in
  _ ← throw_unless (negb openclaw || (compose fmt written =s candidate)) CandidateChanged;
  Ok written.
End Handler.

(** ** What a path holds *)

Definition at_key (v : json) (key : string) : option json :=
  match v with
  | JObj o => own o key
  | JArr l => n ← array_index key; l !! N.to_nat n
  | _ => None
  end.
Fixpoint at_path (v : json) (path : list string) : option json :=
  match path with
  | [] => Some v
  | key :: path' => x ← at_key v key; at_path x path'
  end.
Definition is_object (v : json) : Prop := ∃ o, v = JObj o.

Lemma at_path_set o p v : p ≠ [] → at_path (JObj (set_path o p v)) p = Some v.
Proof.
  revert o. induction p as [|k p IH]; intros o; [done|]. intros _. destruct p as [|k' p].
  - cbn. by rewrite own_set_prop, decide_True.
  - change (set_path o (k :: k' :: p) v) with (set_prop o k (JObj (set_path (object_at o k) (k' :: p) v))).
    cbn [at_path at_key]. rewrite own_set_prop, decide_True by done. by apply IH.
Qed.

(** No ancestor of the path is something else than an object. *)
Definition clear_path (v : json) (p : list string) : Prop :=
  ∀ q x, q `prefix_of` p → q ≠ p → at_path v q = Some x → is_object x.

Lemma clear_path_step o k k' p x : clear_path (JObj o) (k :: k' :: p) → own o k = Some x → clear_path x (k' :: p) ∧ is_object x.
Proof.
  intros Hc Hk. split.
  - intros q y Hq Hne Hy. apply (Hc (k :: q)); [by apply prefix_cons|congruence|]. cbn. by rewrite Hk.
  - apply (Hc [k]); [by exists (k' :: p)|done|]. cbn. by rewrite Hk.
Qed.


Lemma at_path_other o p q v :
  p ≠ [] → ¬ p `prefix_of` q → ¬ q `prefix_of` p → clear_path (JObj o) p →
  at_path (JObj (set_path o p v)) q = at_path (JObj o) q.
Proof.
  revert o q. induction p as [|k p IH]; intros o q; [done|]. intros _ Hpq Hqp Hc.
  destruct q as [|j q]; [by destruct Hqp; apply prefix_nil|]. destruct p as [|k' p].
  - cbn. rewrite own_set_prop. case_decide as E; [|done]. subst j. destruct Hpq. by exists q.
  - change (set_path o (k :: k' :: p) v) with (set_prop o k (JObj (set_path (object_at o k) (k' :: p) v))).
    cbn [at_path at_key]. rewrite own_set_prop. case_decide as E; [|done]. subst j. cbn [mbind option_bind].
    assert (¬ (k' :: p) `prefix_of` q) by (intros H; apply Hpq; by apply prefix_cons).
    assert (¬ q `prefix_of` (k' :: p)) by (intros H'; apply Hqp; by apply prefix_cons).
    unfold object_at. rewrite jget_own. destruct (own o k) as [x|] eqn:Ex; cbn [default].
    + destruct (clear_path_step _ _ _ _ _ Hc Ex) as [Hx [o' ->]]. cbn. by apply IH.
    + rewrite IH; [destruct q; [by destruct H0; apply prefix_nil|done]|done..|]. intros q' y Hq' Hne. destruct q'; [by intros [= <-]; exists []|done].
Qed.

Lemma blocked_ancestor_clear v seen p : is_object v → blocked_ancestor v seen p = None → clear_path v p.
Proof.
  revert v seen. induction p as [|k p IH]; intros v seen [o ->] Hb q x Hq Hne Hx.
  - apply prefix_nil_inv in Hq. by subst.
  - destruct q as [|j q]; [by injection Hx as <-; eexists|].
    apply prefix_cons_inv_1 in Hq as Hj. subst j. apply prefix_cons_inv_2 in Hq.
    destruct p as [|k' p]; [apply prefix_nil_inv in Hq; by subst|].
    cbn [blocked_ancestor] in Hb. cbn [at_path at_key] in Hx. destruct (own o k) as [y|]; [|done].
    destruct y as [| | | | | |o']; try discriminate Hb.
    eapply (IH (JObj o')); [by eexists|exact Hb|exact Hq|congruence|exact Hx].
Qed.

Lemma validate_segments_ok keys u : validate_segments keys = Ok u →
  Forall (λ k, k ≠ "" ∧ k ∉ UNSAFE_KEY_SEGMENTS) keys.
Proof.
  induction keys as [|k keys IH]; cbn [validate_segments]; [done|].
  destruct (truthy k) eqn:Ek; [|done]. destruct (includes UNSAFE_KEY_SEGMENTS k) eqn:Eu; [done|].
  intros H. constructor; [|by apply IH]. split; [by apply truthy_true|].
  intros Hin%includes_spec. congruence.
Qed.

Lemma validateConfigDotpath_ok dotpath u : validateConfigDotpath dotpath = Ok u →
  Forall (λ k, k ≠ "" ∧ k ∉ UNSAFE_KEY_SEGMENTS) (labels dotpath).
Proof. unfold validateConfigDotpath. destruct (truthy dotpath); [|done]. apply validate_segments_ok. Qed.

Lemma validate_segments_holds keys : Forall (λ k, k ≠ "" ∧ k ∉ UNSAFE_KEY_SEGMENTS) keys → validate_segments keys = Ok tt.
Proof.
  induction 1 as [|k keys [Hne Hu] _ IH]; cbn [validate_segments]; [done|]. apply truthy_true in Hne as ->. cbn [negb].
  destruct (includes UNSAFE_KEY_SEGMENTS k) eqn:E; [by apply includes_spec in E|done].
Qed.

Lemma validateConfigDotpath_holds dotpath : Forall (λ k, k ≠ "" ∧ k ∉ UNSAFE_KEY_SEGMENTS) (labels dotpath) →
  truthy dotpath = true ∧ validateConfigDotpath dotpath = Ok tt.
Proof.
  intros H. assert (Ht : truthy dotpath = true).
  { destruct dotpath; [|done]. apply Forall_inv in H as [H _]. by destruct H. }
  split; [done|]. unfold validateConfigDotpath. rewrite Ht. by apply validate_segments_holds.
Qed.

Lemma setDotpath_path o dotpath v : Forall (λ k, k ≠ "" ∧ k ∉ UNSAFE_KEY_SEGMENTS) (labels dotpath) →
  setDotpath o dotpath v = set_path o (labels dotpath) v.
Proof.
  intros Hk. unfold setDotpath. destruct (last (labels dotpath)) as [k|] eqn:El.
  - apply last_Some_elem_of in El. rewrite Forall_forall in Hk. destruct (Hk k El) as [Hne _].
    cbn. by apply truthy_true in Hne as ->.
  - apply last_None in El. by destruct (split_not_nil DOT dotpath).
Qed.

Lemma first_numeric_none seen keys : first_numeric seen keys = None → Forall (λ k, numeric_segment k = false) keys.
Proof.
  revert seen. induction keys as [|k keys IH]; intros seen; cbn [first_numeric]; [done|].
  destruct (numeric_segment k) eqn:E; [done|]. intros H. constructor; [done|]. by eapply IH.
Qed.

Lemma first_numeric_holds seen keys : Forall (λ k, numeric_segment k = false) keys → first_numeric seen keys = None.
Proof.
  intros H. revert seen. induction H as [|k keys Hk _ IH]; intros seen; cbn [first_numeric]; [done|]. by rewrite Hk.
Qed.

Lemma clear_unblocked o seen p : clear_path (JObj o) p → blocked_ancestor (JObj o) seen p = None.
Proof.
  revert o seen. induction p as [|k [|k' p] IH]; intros o seen Hc; [done..|].
  change (blocked_ancestor (JObj o) seen (k :: k' :: p)) with
    (match own o k with
     | None => None
     | Some (JObj o') => blocked_ancestor (JObj o') (seen ++ [k]) (k' :: p)
     | Some next => Some (joined (seen ++ [k]), NotAnObject (describeNonConfigValue next))
     end).
  destruct (own o k) as [x|] eqn:Ex; [|done]. destruct (clear_path_step _ _ _ _ _ Hc Ex) as [Hx [o' ->]]. by apply IH.
Qed.

(** ** What the URLs of a value become *)

Section Rewrites.
Context (urls : HostParser) (nets : LoadedNetworks) (lookup : DnsLookup) (options : ConfigUrlValidationOptions).

(** The text of an allowed bridge URL, or a URL with a public address that is the text itself
    or, for HTTP, the text's URL with another host. *)
Definition bridge_text (path : list string) (s : string) : Prop :=
  bridge_allowed options path = true ∧ ∃ u, parse_url urls s = Some u ∧ isAllowedOpenShellSandboxBridgeUrl u = true.
Definition same_or_pinned (s out : string) : Prop :=
  out = s ∨ ∃ u host, parse_url urls s = Some u ∧ protocol u = "http:" ∧ out = href urls (assigned_host urls u host).

Inductive rewrites : list string → json → json → Prop :=
| rw_text path s : url_text s = false → rewrites path (JStr s) (JStr s)
| rw_bridge path s : url_text s = true → bridge_text path (js_trim s) → rewrites path (JStr s) (JStr (js_trim s))
| rw_public path s out : url_text s = true → public_literal urls nets out → same_or_pinned (js_trim s) out →
    rewrites path (JStr s) (JStr out)
| rw_array path l l' : rewrites_elems path 0 l l' → rewrites path (JArr l) (JArr l')
| rw_object path o o' : rewrites_props path o o' → rewrites path (JObj o) (JObj o')
| rw_other path v : match v with JStr _ | JArr _ | JObj _ => False | _ => True end → rewrites path v v
with rewrites_elems : list string → N → list json → list json → Prop :=
| rw_nil path i : rewrites_elems path i [] []
| rw_cons path i x x' l l' : rewrites (path ++ [pretty i]) x x' → rewrites_elems path (i + 1) l l' →
    rewrites_elems path i (x :: l) (x' :: l')
with rewrites_props : list string → list (string * json) → list (string * json) → Prop :=
| rw_no_props path : rewrites_props path [] []
| rw_prop path k x x' o o' : rewrites (path ++ [k]) x x' → k ≠ "__proto__" → rewrites_props path o o' →
    rewrites_props path ((k, x) :: o) ((k, x') :: o')
| rw_proto path x x' o o' : rewrites (path ++ ["__proto__"]) x x' → rewrites_props path o o' →
    rewrites_props path (("__proto__", x) :: o) o'.


Context (Hurls : url_laws urls) (Hdns : dns_law lookup).

Lemma parseHttpUrl_ok v parsed : parseHttpUrl urls v = Ok (Some parsed) →
  parse_url urls (js_trim v) = Some parsed ∧ is_http parsed = true.
Proof using Type.
  unfold parseHttpUrl. destruct (parse_url urls (js_trim v)) as [u|]; [|by destruct (http_prefixed _)].
  destruct (_ && _) eqn:E; [done|]. destruct (negb (truthy _)); [done|]. intros [= <-]. split; [done|].
  unfold is_http. revert E. by destruct (protocol u =s "http:"), (protocol u =s "https:").
Qed.

Lemma parseHttpUrl_prefixed v : http_prefixed (js_lower (js_trim v)) = true → parseHttpUrl urls v ≠ Ok None.
Proof using Type.
  intros Hp. unfold parseHttpUrl. rewrite Hp. destruct (parse_url urls (js_trim v)) as [u|]; [|done].
  destruct (_ && _); [done|]. by destruct (negb _).
Qed.

(** A validated URL: allowed, a literal, or pinned. *)
Lemma validated_cases t path validated : js_trim t = t →
  validateUrlValueWithDnsResult urls nets lookup options t path = Ok (Some validated) →
  ∃ u, parse_url urls t = Some u ∧ is_http u = true ∧ protocol_ validated = protocol u ∧ originalUrl validated = t
       ∧ ((bridge_text path t ∧ pinnedUrl validated = t)
          ∨ (public_literal urls nets t ∧ pinnedUrl validated = t)
          ∨ (isIP (without_brackets (hostname u)) = 0 ∧ ∃ host, pinnedUrl validated = href urls (assigned_host urls u host)
             ∧ public_literal urls nets (pinnedUrl validated))).
Proof using Hurls Hdns.
  intros Ht. unfold validateUrlValueWithDnsResult. rewrite Ht. intros H.
  apply result_bind_ok in H as ([u|] & Hu & H); [|done]. apply parseHttpUrl_ok in Hu as [Hu Hh]. rewrite Ht in Hu.
  exists u. destruct (_ && _) eqn:Eb.
  { apply andb_true_iff in Eb as [Eb1 Eb2]. injection H as <-. split_and!; try done. left. split; [|done].
    split; [done|]. by exists u. }
  apply result_bind_ok in H as ([] & Hpub%throw_unless_ok%negb_true_iff & H). unfold hostnameForDnsLookup in H.
  destruct (Nat.eqb_spec (isIP (without_brackets (hostname u))) 0) as [Hip|Hip]; cbn [negb] in H.
  - destruct (public_answers _ _ _ _) as [first|e] eqn:Ef; [|done]. injection H as <-. split_and!; try done.
    right; right. split; [done|]. eexists. split; [done|]. by eapply answer_public.
  - injection H as <-. split_and!; try done. right; left. split; [|done]. by eapply literal_public.
Qed.

(** A pinned text is never the text of a name. *)
Lemma pinned_differs t u out : parse_url urls t = Some u → isIP (without_brackets (hostname u)) = 0 →
  public_literal urls nets out → out ≠ t.
Proof using Type.
  intros Hu Hip (u' & a & Hu' & _ & Ha & _) ->. rewrite Hu in Hu'. injection Hu' as <-.
  assert (isIP (without_brackets (hostname u)) ≠ 0) by (apply isIP_read; by eexists). done.
Qed.

Lemma rewrite_text_ok s path out : rewrite_text urls nets lookup options s path = Ok out → rewrites path (JStr s) (JStr out).
Proof using Hurls Hdns.
  unfold rewrite_text. fold (url_text s). destruct (url_text s) eqn:Eurl; cbn [negb]; [|intros [= <-]; by constructor].
  assert (Hpre : parseHttpUrl urls (js_trim s) ≠ Ok None) by (apply parseHttpUrl_prefixed; by rewrite js_trim_idem).
  destruct (validateUrlValueWithDnsResult urls nets lookup options (js_trim s) path) as [[validated|]|e] eqn:Ev; [| |done].
  2:{ unfold validateUrlValueWithDnsResult in Ev. rewrite js_trim_idem in Ev.
      apply result_bind_ok in Ev as ([u|] & Hu & Ev); [|done]. destruct (_ && _); [done|].
      apply result_bind_ok in Ev as ([] & _ & Ev). destruct (negb _); [done|]. by destruct (public_answers _ _ _ _). }
  apply validated_cases in Ev as (u & Hu & Hh & -> & -> & Hcase); [|apply js_trim_idem].
  destruct Hcase as [[Hb ->]|[[Hp ->]|(Hip & host & Epin & Hp)]].
  - rewrite String.eqb_refl, andb_false_r. intros [= <-]. destruct (protocol u =s "http:"); by apply rw_bridge.
  - rewrite String.eqb_refl, andb_false_r. intros [= <-].
    destruct (protocol u =s "http:"); apply rw_public; try done; by left.
  - pose proof (pinned_differs _ _ _ Hu Hip Hp) as Hne. apply String.eqb_neq in Hne as ->. unfold is_http in Hh.
    destruct (String.eqb_spec (protocol u) "http:") as [E|E]; cbn in Hh; [|by rewrite Hh].
    rewrite E. cbn. intros [= <-]. apply rw_public; [done..|]. right. by exists u, host.
Qed.

Lemma rewrite_refines v path v' :
  rewriteConfigUrlsWithDnsPinning urls nets lookup options v path = Ok v' → rewrites path v v'.
Proof using Hurls Hdns.
  revert path v'. induction v as [| | | |s|l IH|o IH] using json_ind; intros path v'; try (intros [= <-]; by constructor).
  - cbn [rewriteConfigUrlsWithDnsPinning]. intros (s' & Hs & [= <-])%result_bind_ok. by apply rewrite_text_ok.
  - cbn [rewriteConfigUrlsWithDnsPinning]. intros (l' & Hl & [= <-])%result_bind_ok. apply rw_array.
    revert Hl. generalize 0%N. revert l'. induction IH as [|x l Hx Hl IHl]; intros l' i.
    + intros [= <-]. constructor.
    + intros (x' & Hx' & (rest & Hr & [= <-])%result_bind_ok)%result_bind_ok. constructor; [by apply Hx|by apply IHl].
  - cbn [rewriteConfigUrlsWithDnsPinning]. intros (o' & Ho & [= <-])%result_bind_ok. apply rw_object.
    revert o' Ho. induction IH as [|[k x] o Hx Ho IHo]; intros o'.
    + intros [= <-]. constructor.
    + intros (x' & Hx' & (rest & Hr & [= <-])%result_bind_ok)%result_bind_ok.
      destruct (String.eqb_spec k "__proto__") as [->|Hne].
      * apply rw_proto with x'; [by apply Hx|by apply IHo].
      * constructor; [by apply Hx|done|by apply IHo].
Qed.
End Rewrites.

(** ** What [config set] writes *)

Lemma gateway_label k : starts_with "gateway." k || (k =s "gateway") = false → head (labels k) ≠ Some "gateway".
Proof.
  intros [H1 H2]%orb_false_iff Hh. destruct (labels k) as [|a l] eqn:E; [done|]. injection Hh as ->.
  apply String.eqb_neq in H2. destruct l as [|b l].
  - apply H2, labels_inj. by rewrite E.
  - apply not_true_iff_false in H1. apply H1, prefix_spec. exists (js_join (one_char DOT) (b :: l)).
    rewrite <- (join_split DOT k). fold (labels k). rewrite E. done.
Qed.

Lemma gateway_free k : head (labels k) ≠ Some "gateway" → starts_with "gateway." k || (k =s "gateway") = false.
Proof.
  intros H. apply orb_false_iff. split.
  - apply not_true_iff_false. intros [t ->]%prefix_spec. apply H. unfold labels, js_split. rewrite chars_app.
    change (chars "gateway.") with (chars "gateway" ++ [DOT]). rewrite <- (assoc_L (++)).
    change ([DOT] ++ chars t) with (DOT :: chars t). by rewrite split_chars_sep.
  - apply String.eqb_neq. by intros ->.
Qed.

Section Written.
Context (urls : HostParser) (nets : LoadedNetworks) (lookup : DnsLookup).
Context (to_integer : string → option Z) (fmt : ConfigFormat).

(** Who lets a key be written that the configuration does not have: an option, a variable,
    or a person who is asked and agrees. *)
Definition new_key_consent (input : ConfigSetInput) : Prop :=
  acceptNewPath (gate_inputs input) = true ∨ acceptEnv (gate_inputs input) = Some "1"
  ∨ (isTTY (gate_inputs input) = true ∧ nonInteractiveEnv (gate_inputs input) ≠ Some "1" ∧ confirmed input = true).

(** Everything a run that writes has checked, for the key, the text of the value, the
    configuration it read, and the value it writes. *)
Record config_set_granted (input : ConfigSetInput) (k raw : string) (config : list (string * json)) (safe written : json) : Prop := {
  cg_key : key input = Some k;
  cg_value : value input = Some raw;
  cg_segments : Forall (λ s, s ≠ "" ∧ s ∉ UNSAFE_KEY_SEGMENTS) (labels k);
  cg_numeric : Forall (λ s, numeric_segment s = false) (labels k);
  cg_gateway : head (labels k) ≠ Some "gateway";
  cg_restart : restart input = true → guarded_agent (agentName input) = true;
  cg_format : format input ≠ "toml";
  cg_shields : guarded_agent (agentName input) = true → shields_down input = true ∧ shields_down_locked input = true;
  cg_first : parse_config fmt (first_text input) = Some config;
  cg_bound : digest fmt (first_text input) ≠ "";
  cg_same : digest fmt (second_text input) = digest fmt (first_text input);
  cg_clear : clear_path (JObj config) (labels k);
  cg_consent : extractDotpath to_integer (JObj config) k = Value JUndef → new_key_consent input;
  cg_safe : rewriteConfigUrlsWithDnsPinning urls nets lookup
              (mkUrlOptions false (Some (configSetAllowsOpenShellBridge (agentName input) k)))
              (parseCliConfigValue fmt raw) [] = Ok safe;
  cg_schema : agentName input = "openclaw" → schema_issues fmt (compose fmt written) = [];
  cg_written : written = JObj (set_path config (labels k) safe)
}.

Lemma new_key_spec input m : new_key_allowed input m = Ok tt ↔ (m = Value JUndef → new_key_consent input).
Proof using Type.
  unfold new_key_allowed, new_key_consent, classifyNewKeyGate.
  assert (Hm : is_undefined_member m = true ↔ m = Value JUndef) by (destruct m as [[]| |]; split; (done || congruence)).
  destruct (is_undefined_member m); cbn [negb]; [|split; [intros _ E; apply Hm in E; done|done]].
  assert (m = Value JUndef) as -> by by apply Hm.
  destruct (acceptNewPath _); cbn [orb]; [by split; [left|]|].
  case_bool_decide as Ha; [by split; [right; left|]|].
  destruct (isTTY _); cbn [andb negb]; [|split; [done|naive_solver]].
  case_bool_decide as Hn; cbn [negb]; [split; [done|naive_solver]|].
  destruct (confirmed input); split; naive_solver.
Qed.

Section SameText.
Context (input : ConfigSetInput) (written : json).
Hypothesis same_text : digest fmt (second_text input) = digest fmt (first_text input) → second_text input = first_text input.

Lemma configSet_granted : configSet urls nets lookup to_integer fmt input = Ok written →
  ∃ k raw config safe, config_set_granted input k raw config safe written.
Proof using same_text.
  unfold configSet. intros H.
  apply result_bind_ok in H as (k & Hk%of_option_ok & H).
  assert (key input = Some k) as Ekey by (destruct (key input); [|done]; by apply if_some in Hk as [_ ->]).
  apply result_bind_ok in H as (raw & Hraw%of_option_ok & H).
  apply result_bind_ok in H as ([] & Hseg & H).
  destruct (validateConfigDotpath k) as [u|] eqn:Epath; [|done]. apply validateConfigDotpath_ok in Epath as Hsegments.
  apply result_bind_ok in H as ([] & Hre%throw_unless_ok & H).
  apply result_bind_ok in H as ([] & Hfm%throw_unless_ok%negb_true_iff%String.eqb_neq & H).
  apply result_bind_ok in H as ([] & Hsh1%throw_unless_ok & H).
  apply result_bind_ok in H as (config & Hconf%of_option_ok & H).
  apply result_bind_ok in H as ([] & Hbound%throw_unless_ok%truthy_true & H).
  apply result_bind_ok in H as ([] & Hgw%throw_unless_ok%negb_true_iff%gateway_label & H).
  apply result_bind_ok in H as ([] & Hcl & H).
  destruct (findClobberingAncestor (JObj config) k) as [[]|] eqn:Eclear; [done|].
  apply result_bind_ok in H as ([] & Hnew & H). pose proof (proj1 (new_key_spec _ _) Hnew) as Hconsent.
  apply result_bind_ok in H as (safe & Hsafe & H).
  destruct (rewriteConfigUrlsWithDnsPinning _ _ _ _ _ _) as [safe'|] eqn:Esafe; [|done]. injection Hsafe as ->.
  apply result_bind_ok in H as ([] & Hissues & H).
  apply result_bind_ok in H as ([] & Hsh2%throw_unless_ok & H).
  apply result_bind_ok in H as (config' & Hconf'%of_option_ok & H).
  apply result_bind_ok in H as ([] & Hdig%throw_unless_ok%String.eqb_eq & H).
  apply result_bind_ok in H as ([] & _ & H). injection H as <-.
  rewrite (same_text Hdig), Hconf in Hconf'. injection Hconf' as <-. rewrite setDotpath_path in * by done.
  unfold findClobberingAncestor in Eclear. destruct (first_numeric [] (labels k)) eqn:Enum; [done|].
  exists k, raw, config, safe. split; try done.
  - by eapply first_numeric_none.
  - by destruct (restart input).
  - intros Hg. rewrite Hg in Hsh1, Hsh2. by cbn in Hsh1, Hsh2.
  - apply blocked_ancestor_clear in Eclear; [done|by eexists].
  - intros Ea. rewrite Ea in Hissues. cbn in Hissues. by destruct (schema_issues _ _).
Qed.

Lemma granted_configSet k raw config safe : config_set_granted input k raw config safe written →
  configSet urls nets lookup to_integer fmt input = Ok written.
Proof using same_text.
  intros []. destruct (validateConfigDotpath_holds k) as [Ht Hv]; [done|]. unfold configSet.
  rewrite cg_key0, Ht. cbn [of_option mbind result_bind]. rewrite cg_value0. cbn [of_option mbind result_bind].
  rewrite Hv. cbn [mbind result_bind].
  replace (negb (restart input) || guarded_agent (agentName input)) with true
    by (destruct (restart input); [by rewrite cg_restart0|done]). cbn [throw_unless mbind result_bind].
  apply String.eqb_neq in cg_format0. rewrite cg_format0. cbn [negb throw_unless mbind result_bind].
  replace (negb (guarded_agent (agentName input)) || shields_down input) with true
    by (destruct (guarded_agent _); [by destruct cg_shields0 as [-> _]|done]). cbn [throw_unless mbind result_bind].
  rewrite cg_first0. cbn [of_option mbind result_bind]. apply truthy_true in cg_bound0. rewrite cg_bound0.
  cbn [throw_unless mbind result_bind]. rewrite (gateway_free k cg_gateway0). cbn [negb throw_unless mbind result_bind].
  unfold findClobberingAncestor. rewrite (first_numeric_holds [] _ cg_numeric0), (clear_unblocked _ [] _ cg_clear0).
  cbn [mbind result_bind]. rewrite (proj2 (new_key_spec _ _) cg_consent0). cbn [mbind result_bind].
  rewrite cg_safe0. cbn [mbind result_bind]. rewrite !setDotpath_path, <- cg_written0 by done.
  replace (if agentName input =s "openclaw" then schema_issues fmt (compose fmt written) else []) with ([] : list string)
    by (destruct (String.eqb_spec (agentName input) "openclaw"); [by rewrite cg_schema0|done]). cbn [mbind result_bind].
  replace (negb (guarded_agent (agentName input)) || shields_down_locked input) with true
    by (destruct (guarded_agent _); [by destruct cg_shields0 as [_ ->]|done]). cbn [throw_unless mbind result_bind].
  rewrite (same_text cg_same0), cg_first0, String.eqb_refl. cbn [of_option throw_unless mbind result_bind].
  rewrite setDotpath_path, <- cg_written0, String.eqb_refl, orb_true_r by done. done.
Qed.
End SameText.

End Written.

(** A preview holds no text of the value. *)
Fixpoint all_texts (P : string → Prop) (v : json) : Prop :=
  match v with
  | JStr s => P s
  | JArr l => (fix elems (l : list json) : Prop := match l with [] => True | x :: l' => all_texts P x ∧ elems l' end) l
  | JObj o => (fix props (o : list (string * json)) : Prop :=
                 match o with [] => True | kv :: o' => all_texts P kv.2 ∧ props o' end) o
  | _ => True
  end.

Lemma preview_hides_texts v :
  all_texts (λ s, s ∈ ["[REDACTED_URL]"; "[REDACTED_STRING]"; "[REDACTED]"]) (redactConfigValueForPreview v).
Proof.
  induction v as [| | | |s|l IH|o IH] using json_ind; try done.
  - cbn. unfold redactStringForConfigPreview. destruct (http_prefixed _); set_solver.
  - cbn. induction IH as [|x l Hx Hl IHl]; [done|]. by split.
  - cbn. induction IH as [|[k x] o Hx Ho IHo]; [done|]. destruct (k =s "__proto__"); [done|]. cbn.
    split; [|done]. destruct (isCredentialField k); [cbn; set_solver|done].
Qed.

Definition sample_format : ConfigFormat :=
  mkConfigFormat
    (λ t, if t =s "model: {name: nano}" then Some [("model", JObj [("name", JStr "nano")]); ("gateway", JStr "token")] else None)
    id (λ _, None) (λ _, "") (λ _, []).
Definition sample_config_set : ConfigSetInput :=
  mkConfigSetInput "hermes" "yaml" (Some "model.base_url") (Some "http://example.com/") false
    (mkGateInputs true None false None) false true true "model: {name: nano}" "model: {name: nano}".
Definition sample_written : json :=
  JObj [("model", JObj [("name", JStr "nano"); ("base_url", JStr "http://93.184.216.34/")]); ("gateway", JStr "token")].


(** Nobody agreed: the new key is refused, without a terminal or after a no. *)
Example new_key_refused :
  let run inputs answer := configSet plain_parser shipped sample_lookup (λ _, None) sample_format
    (mkConfigSetInput "hermes" "yaml" (Some "model.base_url") (Some "http://example.com/") false inputs answer true true
       "model: {name: nano}" "model: {name: nano}") in
  run (mkGateInputs false None false None) true = Throw KeyMissing
  ∧ run (mkGateInputs false None true (Some "1")) true = Throw KeyMissing
  ∧ run (mkGateInputs false None true None) false = Throw Aborted.
Proof. repeat split; vm_compute; reflexivity. Qed.

(** A URL that the platform's parser accepts without the slashes is not recognised as one,
    and is written as it is. *)
Example slashless_url_unchecked urls nets lookup options :
  rewriteConfigUrlsWithDnsPinning urls nets lookup options (JStr "http:169.254.169.254/latest") []
  = Ok (JStr "http:169.254.169.254/latest").
Proof. reflexivity. Qed.

(** A key that every object inherits counts as one that exists: nobody is asked. *)
Example inherited_key_not_new to_integer config :
  own config "valueOf" = None →
  is_undefined_member (extractDotpath to_integer (JObj config) "valueOf") = false.
Proof. intros E. unfold extractDotpath. change (labels "valueOf") with ["valueOf"]. cbn. by rewrite E. Qed.
