(* ===== verification/Endpoint.v ===== *)
(** * Endpoints on trusted private hosts

    src/lib/security/trusted-private-endpoint.ts and its inference wrapper
    src/lib/inference/endpoint-ssrf-preflight.ts: the preflight that resolves an endpoint
    before a privileged request, the hosts an operator trusts on a private network, and the
    capabilities the preflight issues for the addresses it admitted.  A capability is an
    object that only this module creates: the model keeps the ones issued so far, in order,
    and a value is either a reference to one of them or some other value. *)

From S2P Require Import Prelude Json Checkpoint RouteGuard IpAddress PrivateNetworks Ssrf.

(** ** Data *)

Record TrustedPrivateEndpointCapability := mkCapability { cap_host : string; cap_addresses : list string }.
(** [TRUSTED_PRIVATE_ENDPOINT_CAPABILITIES]; the contents of an issued object are frozen. *)
Definition Issued : Type := list TrustedPrivateEndpointCapability.
Inductive capability_value : Type := Reference (id : nat) | AnotherValue.

Inductive host_error : Type :=
| EmptyHost | MalformedHost | NotIpv6Literal | NotExactHost | HasPort | NotIpLiteral | HostTooLong.
Inductive pin_error : Type :=
| HostError (e : host_error) | NoPins | DisallowedPin | DuplicatePins | NoPrivatePin | PublicPin
| NotIssued | HostMismatch | AddressMismatch
(** [new URL] in normalizeIpLiteral, on an address with a zone. *)
| UrlThrows.

Inductive reason_code : Type := PrivateAnswerCode | RejectedCode | UnresolvedCode.
(** The result of the preflight; [trustedPrivateEndpoint] is there with the capability. *)
Inductive EndpointSsrfPreflightResult : Type :=
| PreflightRejected (code : reason_code) (offendingAddress : option string)
| PreflightOk (addresses : list string) (capability : option capability_value).

(** What a lookup gives: an exception, something else than an array, or the addresses, of
    which some may be no strings. *)
Inductive lookup_result : Type := LookupThrows | NotAnArray | Answers (l : list (option string)).
Definition EndpointDnsLookupFn : Type := string → lookup_result.

Record TrustedPrivateEndpointPins := mkPins { pin_host : string; pin_addresses : list string }.
Record TrustedPrivateEndpointReplay := mkReplay { replay_pins : TrustedPrivateEndpointPins; replay_capability : capability_value }.

Definition OPENSHELL_MANAGED_HOSTS : list string :=
  ["inference.local"; "host.openshell.internal"; "host.docker.internal"; "host.containers.internal"].
Definition addSubnet (address : string) (prefix : N) : BlockList :=
  match read_ip address with Some a => [mkSubnet a prefix] | None => [] end.
Definition OPERATOR_TRUSTABLE_PRIVATE_NETWORKS : BlockList :=
  addSubnet "10.0.0.0" 8 ++ addSubnet "100.64.0.0" 10 ++ addSubnet "172.16.0.0" 12
  ++ addSubnet "192.168.0.0" 16 ++ addSubnet "fc00::" 7.

(** ** Names and addresses *)

Definition isOperatorTrustablePrivateIp (address : string) : bool :=
  check OPERATOR_TRUSTABLE_PRIVATE_NETWORKS address.
Definition isOpenShellManagedHost (hostname : string) : bool :=
  includes OPENSHELL_MANAGED_HOSTS (normalised (without_brackets hostname)).

(** Throws on an address with a zone. *)
Definition normalizeIpLiteral (address : string) : option string :=
  if negb (isIP address =? 6)%nat then Some (js_lower address) else js_lower <$> url_ipv6 address.
Definition normalizeEndpointHostname (hostname : string) : option string :=
  let normalized := normalised (without_brackets hostname) in
  if (isIP normalized =? 0)%nat then Some normalized else normalizeIpLiteral normalized.

Definition contains (part s : string) : bool :=
  existsb (λ n, starts_with part (of_chars (drop n (chars s)))) (seq 0 (S (String.length s))).
(** [/^\d+(?:\.\d+){3}$/]. *)
Definition four_numbers (s : string) : bool :=
  (List.length (labels s) =? 4)%nat && forallb (λ l, truthy l && forallb is_digit (chars l)) (labels s).
(** [/^[a-z0-9](?:[a-z0-9-]*[a-z0-9])?$/], of at most 63 characters. *)
Definition label_char (c : ascii) : bool := is_lower c || is_digit c || Ascii.eqb c "-".
Definition label_end (c : ascii) : bool := is_lower c || is_digit c.
Definition label_ok (l : string) : bool :=
  truthy l && (String.length l <=? 63)%nat && forallb label_char (chars l)
  && from_option label_end false (head (chars l)) && from_option label_end false (last (chars l)).

Definition of_url (o : option string) : result pin_error string := of_option UrlThrows o.

Definition normalizeTrustedPrivateHost (raw : string) : result pin_error string :=
  let value := js_trim raw in
  if negb (truthy value) then Throw (HostError EmptyHost)
  else if starts_with "[" value || ends_with "]" value then
    if negb (starts_with "[" value && ends_with "]" value) then Throw (HostError MalformedHost)
    else
      let address := js_lower (without_brackets value) in
      if negb (isIP address =? 6)%nat then Throw (HostError NotIpv6Literal) else of_url (normalizeIpLiteral address)
  else if contains "://" value || existsb (one_of "\/?#@*") (chars value) || starts_with "." value || contains "%" value
  then Throw (HostError NotExactHost)
  else
    let normalized := normalised value in
    if negb (truthy normalized) || ends_with "." normalized then Throw (HostError MalformedHost)
    else if negb (isIP normalized =? 0)%nat then of_url (normalizeIpLiteral normalized)
    else if contains ":" normalized then Throw (HostError HasPort)
    else if four_numbers normalized then Throw (HostError NotIpLiteral)
    else if (253 <? String.length normalized)%nat then Throw (HostError HostTooLong)
    else if forallb label_ok (labels normalized) then Ok normalized else Throw (HostError MalformedHost).

(** [l.map(f)] where [f] may throw. *)
Fixpoint map_result {E A B} (f : A → result E B) (l : list A) : result E (list B) :=
  match l with [] => Ok [] | x :: l' => y ← f x; ys ← map_result f l'; Ok (y :: ys) end.

Definition parseTrustedPrivateHosts (value : option string) : result pin_error (list string) :=
  let input := js_trim (default "" value) in
  if negb (truthy input) then Ok []
  else hosts ← map_result normalizeTrustedPrivateHost (js_split "," input); Ok (distinct hosts).
Definition parseTrustedPrivateInferenceHostsFromEnv (env : string → option string) : result pin_error (list string) :=
  a ← parseTrustedPrivateHosts (env "NEMOCLAW_TRUSTED_PRIVATE_HOSTS");
  b ← parseTrustedPrivateHosts (env "NEMOCLAW_TRUSTED_PRIVATE_INFERENCE_HOSTS");
  Ok (distinct (a ++ b)).

(** ** Pins and capabilities *)

Section Pins.
Context (nets : LoadedNetworks).

Definition canonical_pin (address : string) : result pin_error string :=
  if (isIP address =? 0)%nat || contains "%" address then Throw DisallowedPin
  else
    normalizedAddress ← of_url (normalizeIpLiteral address);
    if isPrivateIp nets normalizedAddress && negb (isOperatorTrustablePrivateIp normalizedAddress) then Throw DisallowedPin
    else Ok normalizedAddress.

Definition canonicalizeTrustedPrivateEndpointPins (host : string) (addresses : list string) (requireAllPrivate : bool)
    : result pin_error TrustedPrivateEndpointPins :=
  normalizedHost ← normalizeTrustedPrivateHost host;
  _ ← throw_unless (negb (bool_decide (addresses = []))) NoPins;
  normalizedAddresses ← map_result canonical_pin addresses;
  _ ← throw_unless (no_dup_b normalizedAddresses) DuplicatePins;
  _ ← throw_unless (existsb isOperatorTrustablePrivateIp normalizedAddresses) NoPrivatePin;
  _ ← throw_unless (negb (requireAllPrivate && existsb (λ a, negb (isOperatorTrustablePrivateIp a)) normalizedAddresses)) PublicPin;
  Ok (mkPins normalizedHost (sort_strings normalizedAddresses)).

Definition issueTrustedPrivateEndpointCapability (host : string) (addresses : list string)
    : ST Issued pin_error capability_value :=
  normalized ← st_lift (map_result (λ a, of_url (normalizeIpLiteral a)) addresses);
  issued ← st_get;
  _ ← st_modify (λ l, l ++ [mkCapability host (sort_strings (distinct normalized))]);
  mret (Reference (List.length issued)).

Definition issued_capability (issued : Issued) (value : capability_value) : option TrustedPrivateEndpointCapability :=
  match value with Reference id => issued !! id | AnotherValue => None end.
Definition isTrustedPrivateEndpointCapability (issued : Issued) (value : capability_value) : bool :=
  bool_decide (is_Some (issued_capability issued value)).

Definition assertTrustedPrivateEndpointCapability (issued : Issued) (host : string) (addresses : list string)
    (capability : capability_value) (requireAllPrivate : bool) : result pin_error TrustedPrivateEndpointReplay :=
  c ← of_option NotIssued (issued_capability issued capability);
  pins ← canonicalizeTrustedPrivateEndpointPins host addresses requireAllPrivate;
  _ ← throw_unless (cap_host c =s pin_host pins) HostMismatch;
  _ ← throw_unless (bool_decide (pin_addresses pins = addresses) && bool_decide (cap_addresses c = pin_addresses pins)) AddressMismatch;
  Ok (mkReplay pins capability).

Definition replayTrustedPrivateEndpoint (host : string) (addresses : list string) (requireAllPrivate : bool)
    : ST Issued pin_error TrustedPrivateEndpointReplay :=
  pins ← st_lift (canonicalizeTrustedPrivateEndpointPins host addresses requireAllPrivate);
  capability ← issueTrustedPrivateEndpointCapability (pin_host pins) (pin_addresses pins);
  mret (mkReplay pins capability).

(** ** The preflight *)

(** The answers one by one; a failure ends the preflight. *)
Inductive answer_outcome : Type := Resolved (l : list string) | Refused (r : EndpointSsrfPreflightResult) | Threw.
Fixpoint check_answers (trusted : bool) (answers : list (option string)) : answer_outcome :=
  match answers with
  | [] => Resolved []
  | None :: _ => Refused (PreflightRejected RejectedCode None)
  | Some address :: answers' =>
      if (isIP address =? 0)%nat then Refused (PreflightRejected RejectedCode None)
      else
        match normalizeIpLiteral address with
        | None => Threw
        | Some a =>
            if isPrivateIp nets a && (negb trusted || negb (isOperatorTrustablePrivateIp a))
            then Refused (PreflightRejected PrivateAnswerCode (Some a))
            else match check_answers trusted answers' with Resolved l => Resolved (a :: l) | other => other end
        end
  end.

Definition assertEndpointResolvesPublic (urls : HostParser) (lookup : EndpointDnsLookupFn)
    (trustedPrivateHosts : list string) (endpointUrl : string) : ST Issued pin_error EndpointSsrfPreflightResult :=
  match parse_url urls endpointUrl with
  | None => mret (PreflightRejected RejectedCode None)
  | Some parsed =>
      let host := hostname parsed in
      normalizedHostname ← st_lift (of_url (normalizeEndpointHostname host));
      match map_result normalizeTrustedPrivateHost trustedPrivateHosts with
      | Throw _ => mret (PreflightRejected RejectedCode None)
      | Ok trustedHosts =>
          let trusted := includes trustedHosts normalizedHostname in
          if isLoopbackHostname host || isOpenShellManagedHost host then mret (PreflightRejected RejectedCode None)
          else if isPrivateHostname nets host && negb trusted then mret (PreflightRejected RejectedCode None)
          else if negb (isIP normalizedHostname =? 0)%nat then
            if negb (isPrivateIp nets normalizedHostname) then mret (PreflightOk [] None)
            else if trusted && isOperatorTrustablePrivateIp normalizedHostname then
              capability ← issueTrustedPrivateEndpointCapability normalizedHostname [normalizedHostname];
              mret (PreflightOk [] (Some capability))
            else mret (PreflightRejected RejectedCode None)
          else
            match lookup normalizedHostname with
            | LookupThrows | NotAnArray | Answers [] => mret (PreflightRejected UnresolvedCode None)
            | Answers answers =>
                match check_answers trusted answers with
                | Threw => st_throw UrlThrows
                | Refused r => mret r
                | Resolved resolvedAddresses =>
                    let canonicalAddresses := sort_strings (distinct resolvedAddresses) in
                    if trusted && existsb (isPrivateIp nets) resolvedAddresses then
                      capability ← issueTrustedPrivateEndpointCapability normalizedHostname canonicalAddresses;
                      mret (PreflightOk canonicalAddresses (Some capability))
                    else mret (PreflightOk canonicalAddresses None)
                end
            end
      end
  end.

(** The inference wrapper keeps the local routes out of the check. *)
Definition inference_assertEndpointResolvesPublic (urls : HostParser) (lookup : EndpointDnsLookupFn)
    (trustedPrivateHosts : list string) (endpointUrl : string) : ST Issued pin_error EndpointSsrfPreflightResult :=
  match parse_url urls endpointUrl with
  | Some parsed =>
      if isLoopbackHostname (hostname parsed) || isOpenShellManagedHost (hostname parsed)
      then mret (PreflightOk [] None)
      else assertEndpointResolvesPublic urls lookup trustedPrivateHosts endpointUrl
  | None => assertEndpointResolvesPublic urls lookup trustedPrivateHosts endpointUrl
  end.
End Pins.

(** ** The pins of a probe *)

(** The text of an address in a [--resolve] argument. *)
Definition encoded_address (address : string) : string :=
  if contains ":" address then "[" +:+ address +:+ "]" else address.
Definition default_port (u : URL) : string :=
  if truthy (port u) then port u else if protocol u =s "https:" then "443" else "80".
Definition buildResolvePinArgs (urls : HostParser) (targetUrl : string) (pinnedAddresses : option (list string)) : list string :=
  match pinnedAddresses with
  | None | Some [] => []
  | Some pins =>
      match parse_url urls targetUrl with
      | None => []
      | Some url =>
          let host := without_brackets (hostname url) in
          let addresses := distinct (List.filter truthy pins) in
          if negb (truthy host) || bool_decide (addresses = []) then []
          else ["--resolve"; host +:+ ":" +:+ default_port url +:+ ":" +:+ js_join "," (map encoded_address addresses)]
      end
  end.

#[global] Arguments contains : simpl never.
#[global] Arguments normalizeIpLiteral : simpl never.
#[global] Arguments isPrivateIp : simpl never.
#[global] Arguments isOperatorTrustablePrivateIp : simpl never.

(** ** Lemmas on texts *)

Lemma contains_char part s c : contains part s = true → c ∈ chars part → c ∈ chars s.
Proof.
  unfold contains. intros [n [_ [t Ht]%prefix_spec]]%existsb_exists Hc.
  apply (f_equal chars) in Ht. rewrite chars_of_chars, chars_app in Ht.
  rewrite <- (take_drop n (chars s)), Ht, !elem_of_app. auto.
Qed.

Lemma contains_none p part s : existsb (λ c, negb (p c)) (chars part) = true → forallb p (chars s) = true → contains part s = false.
Proof.
  intros [c [Hc Hp]]%existsb_exists Hs. apply not_true_iff_false. intros H.
  apply list_elem_of_In, (contains_char _ _ _ H), list_elem_of_In in Hc. rewrite forallb_forall in Hs.
  by rewrite Hs in Hp.
Qed.

Lemma starts_with_none p part s : truthy part = true → forallb (λ c, negb (p c)) (chars part) = true → forallb p (chars s) = true →
  starts_with part s = false.
Proof.
  intros Ht Hp Hs. apply not_true_iff_false. intros [t ->]%prefix_spec. rewrite chars_app, forallb_app in Hs.
  destruct part as [|c part]; [done|]. cbn in Hp, Hs. destruct (p c); done.
Qed.

Lemma ends_with_none p c s : p c = false → forallb p (chars s) = true → ends_with (one_char c) s = false.
Proof.
  intros Hp Hs. apply not_true_iff_false. intros [t Ht]%ends_with_spec. rewrite Ht, forallb_app in Hs.
  cbn in Hs. rewrite Hp, andb_false_r in Hs. done.
Qed.

Lemma one_of_none p set s : forallb (λ c, negb (p c)) (chars set) = true → forallb p (chars s) = true →
  existsb (one_of set) (chars s) = false.
Proof.
  intros Hset Hs. apply not_true_iff_false. intros [c [Hc Ho]]%existsb_exists.
  apply existsb_exists in Ho as (d & Hd & E%Ascii.eqb_eq). subst d. rewrite forallb_forall in *.
  specialize (Hset c Hd). by rewrite Hs in Hset.
Qed.

Lemma trim_none p s : forallb (λ c, negb (p c && is_space c)) (map ascii_of_nat (seq 0 256)) = true →
  forallb p (chars s) = true → js_trim s = s.
Proof.
  intros Hp Hs. assert (Hsp : Forall (λ c, is_space c = false) (chars s)).
  { apply Forall_forall. intros c Hc%list_elem_of_In. rewrite forallb_forall in Hp, Hs. specialize (Hs c Hc).
    assert (In c (map ascii_of_nat (seq 0 256))) as Hin.
    { apply in_map_iff. exists (nat_of_ascii c). split; [apply ascii_nat_embedding|]. apply in_seq.
      pose proof (nat_ascii_bounded c). lia. }
    specialize (Hp c Hin). rewrite Hs in Hp. by destruct (is_space c). }
  assert (Hd : ∀ l, Forall (λ c, is_space c = false) l → drop_while is_space l = l).
  { intros l [|c l' Hc _]; [done|]. cbn. by rewrite Hc. }
  unfold js_trim, drop_while_end. rewrite (Hd (chars s)) by done.
  rewrite Hd; [by rewrite rev_involutive, of_chars_chars|].
  rewrite Forall_forall in *. intros c Hc. apply Hsp. by apply list_elem_of_In, in_rev, list_elem_of_In.
Qed.

(** The characters of a normalised host: those of names and of literals. *)
Definition host_char (c : ascii) : bool := label_char c || Ascii.eqb c DOT || Ascii.eqb c COLON.

Lemma host_chars_trim s : forallb host_char (chars s) = true → js_trim s = s.
Proof. apply trim_none. vm_compute. done. Qed.

Lemma forallb_weaken {A} (p q : A → bool) l : (∀ x, p x = true → q x = true) → forallb p l = true → forallb q l = true.
Proof. rewrite !forallb_forall. auto. Qed.

Lemma canonical_text_chars a : isIP a ≠ 0 → forallb host_char (chars (canonical_text a)) = true.
Proof.
  unfold isIP, canonical_text. destruct (read_ip a) as [[n|p]|] eqn:E; [| |done]; intros _.
  - apply read_ip_v4, parse_ipv4_chars in E. eapply forallb_weaken, E.
    intros c. destruct c as [[] [] [] [] [] [] [] []]; vm_compute; done.
  - apply read_ip_v6, print_ipv6_chars in E. eapply forallb_weaken, E.
    intros c. destruct c as [[] [] [] [] [] [] [] []]; vm_compute; done.
Qed.

(** ** Normalised literals and hosts *)

Lemma host_char_lower c : host_char c = true → negb (is_upper c) && (code c <? 192)%N = true.
Proof. destruct c as [[] [] [] [] [] [] [] []]; vm_compute; done. Qed.

Lemma host_chars_lower s : forallb host_char (chars s) = true → js_lower s = s.
Proof. intros H. apply lower_plain. by eapply forallb_weaken, H; apply host_char_lower. Qed.

Lemma read_ip_not_v4 a p : read_ip a = Some (V6 p) → parse_ipv6 a = Some p.
Proof. unfold read_ip. destruct (parse_ipv4 a); [done|]. destruct (parse_ipv6 a); [|done]. by intros [= ->]. Qed.

Lemma normalizeIpLiteral_spec a t : isIP a ≠ 0 → normalizeIpLiteral a = Some t ↔ t = canonical_text a ∧ scoped a = false.
Proof.
  unfold normalizeIpLiteral, isIP, canonical_text. destruct (read_ip a) as [[n|p]|] eqn:E; [| |done]; intros _; cbn.
  - apply read_ip_v4, parse_ipv4_chars in E as Hc. rewrite lower_plain.
    2:{ eapply forallb_weaken, Hc. apply ipv4_char_lower. }
    assert (scoped a = false) as Hs by (by apply (chars_without ipv4_char)). split; [by intros [= <-]|by intros [-> _]].
  - unfold url_ipv6. destruct (scoped a); [split; [done|by intros [_ ?]]|].
    rewrite (read_ip_not_v4 _ _ E). cbn. rewrite print_ipv6_lower by by eapply read_ip_v6.
    split; [by intros [= <-]|by intros [-> _]].
Qed.

Lemma canonical_text_plain a : isIP a ≠ 0 → scoped (canonical_text a) = false.
Proof. intros H. apply (chars_without host_char); [done|by apply canonical_text_chars]. Qed.

Lemma canonical_text_idem a : isIP a ≠ 0 → canonical_text (canonical_text a) = canonical_text a.
Proof.
  intros Hip. destruct (canonical_text_normal a Hip) as [_ Hr]. unfold canonical_text at 1. rewrite Hr.
  unfold canonical_text. by destruct (read_ip a) as [[]|].
Qed.

(** A literal in its canonical text. *)
Definition canonical_literal (t : string) : Prop := isIP t ≠ 0 ∧ canonical_text t = t.

Lemma canonical_text_literal a : isIP a ≠ 0 → canonical_literal (canonical_text a).
Proof. intros H. split; [by rewrite isIP_canonical|by apply canonical_text_idem]. Qed.

Lemma normalizeIpLiteral_literal t : canonical_literal t → normalizeIpLiteral t = Some t.
Proof.
  intros [Hip Hc]. apply normalizeIpLiteral_spec; [done|]. split; [done|]. rewrite <- Hc. by apply canonical_text_plain.
Qed.

Lemma normalizeIpLiteral_canonical a t : isIP a ≠ 0 → normalizeIpLiteral a = Some t → canonical_literal t.
Proof. intros Hip [-> _]%normalizeIpLiteral_spec; [|done]. by apply canonical_text_literal. Qed.

Lemma literal_chars t : canonical_literal t → forallb host_char (chars t) = true.
Proof. intros [Hip <-]. by apply canonical_text_chars. Qed.

Lemma literal_normalised t : canonical_literal t → normalised t = t.
Proof. intros [Hip <-]. apply canonical_text_normal in Hip as [H _]. done. Qed.

Lemma literal_not_empty t : canonical_literal t → truthy t = true.
Proof. intros [Hip _]. apply truthy_true. by intros ->. Qed.

(** The exact host names: labels of letters, digits and inner hyphens. *)
Definition exact_name (h : string) : Prop :=
  isIP h = 0 ∧ truthy h = true ∧ ends_with "." h = false ∧ String.length h ≤ 253
  ∧ four_numbers h = false ∧ forallb label_ok (labels h) = true.

Lemma label_ok_chars l : label_ok l = true → forallb label_char (chars l) = true ∧ truthy l = true.
Proof. unfold label_ok. intros H. bools. split; [done|by apply truthy_true]. Qed.

Lemma exact_name_chars h : exact_name h → forallb (λ c, label_char c || Ascii.eqb c DOT) (chars h) = true.
Proof.
  intros (_ & _ & _ & _ & _ & Hl). rewrite <- (join_split DOT h). fold (labels h). rewrite forallb_forall in Hl.
  assert (Hl' : Forall (λ l, label_ok l = true) (labels h)) by (apply Forall_forall; intros l Hin; by apply Hl, list_elem_of_In).
  clear Hl. induction Hl' as [|l ls Hl Hls IH]; [done|].
  assert (Hc : forallb (λ c, label_char c || Ascii.eqb c DOT) (chars l) = true).
  { eapply forallb_weaken; [|by apply label_ok_chars]. intros c Hc. cbn in Hc. by rewrite Hc. }
  destruct ls as [|l' ls]; [exact Hc|]. rewrite join_chars, forallb_app, Hc. exact IH.
Qed.

Lemma starts_with_dot h : starts_with "." h = true → ∃ ls, labels h = "" :: ls.
Proof. intros [t ->]%prefix_spec. exists (labels t). change ("." +:+ t) with ("" +:+ "." +:+ t). by rewrite labels_sep. Qed.

Lemma exact_name_no_dot h : exact_name h → starts_with "." h = false.
Proof.
  intros (_ & _ & _ & _ & _ & Hl). apply not_true_iff_false. intros [ls E]%starts_with_dot.
  rewrite E in Hl. done.
Qed.

Lemma literal_no_dot t : canonical_literal t → starts_with "." t = false.
Proof.
  intros [Hip <-]. apply not_true_iff_false. revert Hip. unfold isIP, canonical_text.
  destruct (read_ip t) as [[n|p]|] eqn:E; [| |done]; intros _.
  - apply read_ip_v4, parse_ipv4_octets in E as [_ Hl]. intros [ls E]%starts_with_dot. rewrite E in Hl.
    inversion Hl as [|? ? [_ Hne] _]; subst. done.
  - apply read_ip_v6, print_ipv6_chars in E. apply not_true_iff_false. by apply (starts_with_none ipv6_char).
Qed.

Definition normal_host (h : string) : Prop := canonical_literal h ∨ exact_name h.

Lemma normalizeTrustedPrivateHost_ok raw h : normalizeTrustedPrivateHost raw = Ok h → normal_host h.
Proof.
  unfold normalizeTrustedPrivateHost, of_url. set (value := js_trim raw). destruct (negb (truthy value)); [done|].
  destruct (starts_with "[" value || ends_with "]" value).
  - destruct (negb (_ && _)); [done|]. destruct (Nat.eqb_spec (isIP (js_lower (without_brackets value))) 6) as [E|]; [|done].
    intros H%of_option_ok. left. eapply normalizeIpLiteral_canonical, H. by rewrite E.
  - destruct (_ || _ || _ || _); [done|]. set (n := normalised value).
    destruct (negb (truthy n) || ends_with "." n) eqn:E1; [done|]. apply orb_false_iff in E1 as [Ht%negb_false_iff Hd].
    destruct (Nat.eqb_spec (isIP n) 0) as [E|E]; cbn [negb].
    + destruct (contains ":" n); [done|]. destruct (four_numbers n) eqn:E4; [done|].
      destruct (Nat.ltb_spec 253 (String.length n)); [done|]. destruct (forallb label_ok (labels n)) eqn:El; [|done].
      intros [= <-]. right. by split_and!.
    + intros H%of_option_ok. left. by eapply normalizeIpLiteral_canonical.
Qed.

(** The texts that none of the refusals of an exact host concerns. *)
Lemma normal_host_chars h : normal_host h →
  forallb host_char (chars h) = true ∧ starts_with "." h = false ∧ truthy h = true ∧ normalised h = h ∧ ends_with "." h = false.
Proof.
  intros [H|H].
  - pose proof (literal_chars h H). split_and!; [done|by apply literal_no_dot|by apply literal_not_empty|by apply literal_normalised|].
    destruct H as [Hip <-]. unfold canonical_text. destruct (read_ip h) as [[n|p]|] eqn:E.
    + eapply ipv4_no_dot. by apply read_ip_v4.
    + eapply last_char_not, print_ipv6_chars; [done|]. by eapply read_ip_v6.
    + unfold isIP in Hip. by rewrite E in Hip.
  - pose proof (exact_name_chars h H) as Hc.
    assert (Hh : forallb host_char (chars h) = true).
    { eapply forallb_weaken, Hc. intros c Hcc. unfold host_char. by rewrite Hcc. }
    pose proof (exact_name_no_dot h H) as Hdot. destruct H as (_ & Ht & He & _). split_and!; try done.
    unfold normalised. by rewrite without_dot_id, host_chars_lower.
Qed.

Lemma normalizeTrustedPrivateHost_fix h : normal_host h → normalizeTrustedPrivateHost h = Ok h.
Proof.
  intros Hn. destruct (normal_host_chars h Hn) as (Hc & Hdot & Ht & Hnorm & He).
  unfold normalizeTrustedPrivateHost. rewrite (host_chars_trim h Hc), Ht. cbn [negb].
  rewrite (starts_with_none host_char "[") by done. rewrite (ends_with_none host_char "]"%char) by done. cbn [orb].
  rewrite (contains_none host_char "://") by done. rewrite (one_of_none host_char) by done.
  rewrite (contains_none host_char "%") by done. rewrite Hdot. cbn [orb]. rewrite Hnorm, Ht, He. cbn [negb orb].
  destruct Hn as [Hl|Hname].
  - destruct (Nat.eqb_spec (isIP h) 0) as [E|_]; [by destruct Hl|]. cbn [negb].
    by rewrite normalizeIpLiteral_literal.
  - pose proof (exact_name_chars h Hname) as Hchars. destruct Hname as (Hip & _ & _ & Hlen & H4 & Hl).
    rewrite Hip. cbn [Nat.eqb negb]. rewrite (contains_none (λ c, label_char c || Ascii.eqb c DOT) ":") by done.
    rewrite H4, Hl. by destruct (Nat.ltb_spec 253 (String.length h)); [lia|].
Qed.

(** ** Canonical pins *)

Section Canonical.
Context (nets : LoadedNetworks).

(** An address that may be pinned: public, or in the space an operator may trust. *)
Definition pin_ok (a : string) : Prop :=
  canonical_literal a ∧ (isPrivateIp nets a = true → isOperatorTrustablePrivateIp a = true).

Lemma canonical_pin_ok address t : canonical_pin nets address = Ok t → pin_ok t ∧ t = canonical_text address.
Proof.
  unfold canonical_pin, of_url. destruct (_ || _) eqn:E0; [done|]. apply orb_false_iff in E0 as [Hip%Nat.eqb_neq _].
  intros (a & Ha%of_option_ok & H)%result_bind_ok. destruct (_ && _) eqn:E; [done|]. injection H as <-.
  split; [split; [by eapply normalizeIpLiteral_canonical|]|by apply normalizeIpLiteral_spec in Ha as [-> _]].
  intros Hp. rewrite Hp in E. cbn in E. by apply negb_false_iff in E.
Qed.

Lemma canonical_pin_fix a : pin_ok a → canonical_pin nets a = Ok a.
Proof.
  intros [Hl Hp]. unfold canonical_pin, of_url. rewrite (normalizeIpLiteral_literal a Hl). cbn.
  destruct Hl as [Hip Hc]. apply Nat.eqb_neq in Hip as Hip'. rewrite Hip'.
  rewrite (contains_none host_char "%") by (done || by apply literal_chars). cbn.
  destruct (isPrivateIp nets a) eqn:E; [|done]. by rewrite Hp.
Qed.

Lemma map_result_ok {E A B} (f : A → result E B) l ys : map_result f l = Ok ys → Forall2 (λ x y, f x = Ok y) l ys.
Proof.
  revert ys. induction l as [|x l IH]; intros ys; cbn [map_result]; [by intros [= <-]|].
  intros (y & Hy & (ys' & Hys & [= <-])%result_bind_ok)%result_bind_ok. constructor; [done|]. by apply IH.
Qed.

Lemma map_result_fix {E A} (f : A → result E A) l : Forall (λ x, f x = Ok x) l → map_result f l = Ok l.
Proof. induction 1 as [|x l Hx Hl IH]; [done|]. cbn. by rewrite Hx; cbn; rewrite IH. Qed.

(** Pins that canonicalise to themselves. *)
Record pins_ok (host : string) (addresses : list string) : Prop := {
  po_host : normal_host host;
  po_addresses : Forall pin_ok addresses;
  po_distinct : NoDup addresses;
  po_ascending : ascending addresses = true;
  po_private : Exists (λ a, isOperatorTrustablePrivateIp a = true) addresses
}.

Lemma canonicalize_ok host addresses all pins :
  canonicalizeTrustedPrivateEndpointPins nets host addresses all = Ok pins →
  pins_ok (pin_host pins) (pin_addresses pins)
  ∧ normalizeTrustedPrivateHost host = Ok (pin_host pins) ∧ pin_addresses pins = sort_strings (map canonical_text addresses)
  ∧ (all = true → Forall (λ a, isOperatorTrustablePrivateIp a = true) (pin_addresses pins)).
Proof.
  unfold canonicalizeTrustedPrivateEndpointPins.
  intros (h & Hh & H)%result_bind_ok. apply result_bind_ok in H as ([] & _ & H).
  apply result_bind_ok in H as (l & Hl%map_result_ok & H).
  apply result_bind_ok in H as ([] & Hd%throw_unless_ok & H). unfold no_dup_b in Hd. apply bool_decide_eq_true in Hd.
  apply result_bind_ok in H as ([] & Hp%throw_unless_ok & H).
  apply result_bind_ok in H as ([] & Hall%throw_unless_ok & H). injection H as <-. cbn.
  assert (Hl' : Forall pin_ok l ∧ l = map canonical_text addresses).
  { clear -Hl. induction Hl as [|x y l l' Hxy Hl [IH1 IH2]]; [done|]. apply canonical_pin_ok in Hxy as [H1 ->].
    split; [by constructor|]. cbn. by rewrite IH2. }
  destruct Hl' as [Hl' ->]. split_and!.
  - split; cbn.
    + by eapply normalizeTrustedPrivateHost_ok.
    + by rewrite sort_strings_perm.
    + by rewrite sort_strings_perm.
    + apply sort_strings_ascending.
    + rewrite sort_strings_perm. apply existsb_exists in Hp as (a & Ha & H). apply Exists_exists. exists a.
      split; [by apply list_elem_of_In|done].
  - done.
  - done.
  - intros ->. rewrite sort_strings_perm. apply negb_true_iff in Hall. cbn in Hall.
    apply Forall_forall. intros a Ha%list_elem_of_In. apply not_false_iff_true. intros Hf.
    apply not_true_iff_false in Hall. apply Hall, existsb_exists. exists a. by rewrite Hf.
Qed.

Lemma canonicalize_fix host addresses : pins_ok host addresses →
  canonicalizeTrustedPrivateEndpointPins nets host addresses false = Ok (mkPins host addresses).
Proof.
  intros [Hh Ha Hd Hs Hp]. unfold canonicalizeTrustedPrivateEndpointPins.
  rewrite normalizeTrustedPrivateHost_fix by done. cbn [mbind result_bind].
  rewrite bool_decide_eq_false_2 by (by intros ->; apply Exists_nil in Hp). cbn [negb throw_unless mbind result_bind].
  rewrite map_result_fix by (eapply Forall_impl; [exact Ha|]; apply canonical_pin_fix). cbn [mbind result_bind].
  unfold no_dup_b. rewrite bool_decide_eq_true_2 by done. cbn [throw_unless mbind result_bind].
  replace (existsb isOperatorTrustablePrivateIp addresses) with true.
  - cbn. by rewrite sort_ascending.
  - symmetry. apply existsb_exists. apply Exists_exists in Hp as (a & Hin & H). exists a.
    split; [by apply list_elem_of_In|done].
Qed.
End Canonical.

(** ** What the preflight admits *)

Section Preflight.
Context (nets : LoadedNetworks) (urls : HostParser).

(** What may be reached for a host: a public address, or one in the trusted space when the
    operator named the host. *)
Definition admitted (trusted : bool) (a : string) : Prop :=
  isPrivateIp nets a = true → trusted = true ∧ isOperatorTrustablePrivateIp a = true.

Lemma check_answers_ok trusted answers l : check_answers nets trusted answers = Resolved l →
  ∃ addresses, answers = map Some addresses ∧ l = map canonical_text addresses
    ∧ Forall (λ a, isIP a ≠ 0 ∧ scoped a = false) addresses ∧ Forall (λ t, canonical_literal t ∧ admitted trusted t) l.
Proof using Type.
  revert l. induction answers as [|[a|] answers IH]; intros l; cbn [check_answers]; [by intros [= <-]; exists []| |done].
  destruct (Nat.eqb_spec (isIP a) 0) as [|Hip]; [done|]. destruct (normalizeIpLiteral a) as [t|] eqn:Et; [|done].
  apply normalizeIpLiteral_spec in Et as [-> Hs]; [|done]. destruct (_ && _) eqn:Ep; [done|].
  destruct (check_answers nets trusted answers) as [l'| |]; [|done..]. intros [= <-].
  destruct (IH l' eq_refl) as (addresses & -> & -> & H1 & H2). exists (a :: addresses).
  split_and!; [done..|by constructor|]. constructor; [|done]. split; [by apply canonical_text_literal|].
  intros Hp. rewrite Hp in Ep. cbn in Ep. by apply orb_false_iff in Ep as [?%negb_false_iff ?%negb_false_iff].
Qed.

Lemma sort_distinct_stable l : sort_strings (distinct (sort_strings (distinct l))) = sort_strings (distinct l).
Proof using Type.
  rewrite distinct_NoDup; [apply sort_ascending, sort_strings_ascending|]. rewrite sort_strings_perm. apply NoDup_distinct.
Qed.

Lemma issue_literals host pins issued : Forall canonical_literal pins →
  issueTrustedPrivateEndpointCapability host pins issued
  = (Ok (Reference (List.length issued)), issued ++ [mkCapability host (sort_strings (distinct pins))]).
Proof using Type.
  intros Hp. unfold issueTrustedPrivateEndpointCapability, mbind, ST_bind, st_lift, st_get, st_modify, mret, ST_ret, of_url.
  rewrite map_result_fix; [done|]. eapply Forall_impl; [exact Hp|]. intros a Ha. cbn. by rewrite normalizeIpLiteral_literal.
Qed.

Lemma normalizeEndpointHostname_literal host h : normalizeEndpointHostname host = Some h → isIP h ≠ 0 → canonical_literal h.
Proof using Type.
  unfold normalizeEndpointHostname. destruct (Nat.eqb_spec (isIP (normalised (without_brackets host))) 0) as [E|E].
  - by intros [= <-].
  - intros H _. by eapply normalizeIpLiteral_canonical.
Qed.

Lemma trusted_normal hosts trustedHosts h :
  map_result normalizeTrustedPrivateHost hosts = Ok trustedHosts → h ∈ trustedHosts → normal_host h.
Proof using Type.
  intros H%map_result_ok Hin. apply list_elem_of_lookup in Hin as [i Hi].
  destruct (Forall2_lookup_r _ _ _ _ _ H Hi) as (raw & _ & Hraw). by eapply normalizeTrustedPrivateHost_ok.
Qed.

(** The outcome of an accepted preflight, for the URL, its host, the trusted hosts and the
    addresses that are reached. *)
Record accepted (lookup : EndpointDnsLookupFn) (trustedPrivateHosts : list string) (url : string) (addresses : list string)
    (capability : option capability_value) (issued issued' : Issued)
    (u : URL) (host : string) (trusted reached : list string) : Prop := {
  ac_parsed : parse_url urls url = Some u;
  ac_normalized : normalizeEndpointHostname (hostname u) = Some host;
  ac_hosts : map_result normalizeTrustedPrivateHost trustedPrivateHosts = Ok trusted;
  ac_not_local : isLoopbackHostname (hostname u) = false ∧ isOpenShellManagedHost (hostname u) = false;
  ac_reserved : isPrivateHostname nets (hostname u) = true → host ∈ trusted;
  ac_reached : Forall (λ a, canonical_literal a ∧ admitted (includes trusted host) a) reached;
  ac_answers : (isIP host ≠ 0 ∧ reached = [host] ∧ addresses = [])
    ∨ (isIP host = 0 ∧ addresses = reached
       ∧ ∃ answers, answers ≠ [] ∧ lookup host = Answers (map Some answers)
                    ∧ addresses = sort_strings (distinct (map canonical_text answers)));
  ac_capability :
    (capability = None ∧ issued' = issued ∧ Forall (λ a, isPrivateIp nets a = false) reached)
    ∨ (capability = Some (Reference (List.length issued)) ∧ issued' = issued ++ [mkCapability host reached]
       ∧ host ∈ trusted ∧ Exists (λ a, isPrivateIp nets a = true) reached)
}.

Lemma check_answers_refused trusted answers addresses capability :
  check_answers nets trusted answers ≠ Refused (PreflightOk addresses capability).
Proof using Type.
  induction answers as [|[a|] answers IH]; cbn [check_answers]; [done| |done].
  destruct (isIP a =? 0)%nat; [done|]. destruct (normalizeIpLiteral a); [|done]. destruct (_ && _); [done|].
  by destruct (check_answers nets trusted answers).
Qed.

(** The pins of the answers, in the order they are kept. *)
Lemma resolved_pins trusted answers l : check_answers nets trusted answers = Resolved l →
  ∃ addresses, answers = map Some addresses ∧ sort_strings (distinct l) = sort_strings (distinct (map canonical_text addresses))
    ∧ Forall (λ t, canonical_literal t ∧ admitted trusted t) (sort_strings (distinct l)).
Proof using Type.
  intros (addresses & -> & -> & _ & Hl)%check_answers_ok. exists addresses. split_and!; [done..|].
  rewrite sort_strings_perm. apply Forall_forall. intros t Ht. rewrite elem_of_distinct in Ht. rewrite Forall_forall in Hl. exact (Hl t Ht).
Qed.

Lemma existsb_private l : existsb (isPrivateIp nets) l = true ↔ Exists (λ a, isPrivateIp nets a = true) (sort_strings (distinct l)).
Proof using Type.
  rewrite sort_strings_perm, existsb_exists, Exists_exists. split; intros (a & Ha & H); exists a; (split; [|done]).
  - by apply elem_of_distinct, list_elem_of_In.
  - by apply list_elem_of_In, elem_of_distinct.
Qed.

Lemma none_private l : existsb (isPrivateIp nets) l = false → Forall (λ a, isPrivateIp nets a = false) (sort_strings (distinct l)).
Proof using Type.
  intros H. apply not_true_iff_false in H. rewrite existsb_private in H. apply Forall_forall. intros a Ha.
  apply not_true_iff_false. intros Hp. apply H, Exists_exists. by exists a.
Qed.

(** Everything but an acceptance leaves the issued capabilities as they were. *)
Lemma preflight_cases lookup trustedPrivateHosts url issued r issued' :
  assertEndpointResolvesPublic nets urls lookup trustedPrivateHosts url issued = (r, issued') →
  (issued' = issued ∧ ∀ addresses capability, r ≠ Ok (PreflightOk addresses capability))
  ∨ ∃ addresses capability u host trusted reached,
      r = Ok (PreflightOk addresses capability)
      ∧ accepted lookup trustedPrivateHosts url addresses capability issued issued' u host trusted reached.
Proof using Type.
  unfold assertEndpointResolvesPublic. destruct (parse_url urls url) as [u|] eqn:Eu; [|intros [= <- <-]; by left].
  unfold of_url, st_lift. unfold mbind at 1, ST_bind at 1.
  destruct (normalizeEndpointHostname (hostname u)) as [host|] eqn:Eh; cbn [of_option]; [|intros [= <- <-]; by left].
  destruct (map_result normalizeTrustedPrivateHost trustedPrivateHosts) as [trusted|] eqn:Et; [|intros [= <- <-]; by left].
  destruct (_ || _) eqn:El; [intros [= <- <-]; by left|]. apply orb_false_iff in El.
  destruct (_ && _) eqn:Ep; [intros [= <- <-]; by left|].
  assert (Hres : isPrivateHostname nets (hostname u) = true → host ∈ trusted).
  { intros Hp. rewrite Hp in Ep. cbn in Ep. by apply negb_false_iff, includes_spec in Ep. }
  destruct (Nat.eqb_spec (isIP host) 0) as [Eip|Eip]; cbn [negb].
  - destruct (lookup host) as [| |[|x answers]] eqn:Elk; try (intros [= <- <-]; by left).
    destruct (check_answers nets (includes trusted host) (x :: answers)) as [l|r'|] eqn:Ec.
    2:{ intros [= <- <-]. left. split; [done|]. intros addresses capability E.
        injection E as ->. by apply check_answers_refused in Ec. }
    2:{ intros [= <- <-]; by left. }
    apply resolved_pins in Ec as (addresses & Ea & Esort & Hl).
    assert (Hanswers : isIP host = 0 ∧ sort_strings (distinct l) = sort_strings (distinct l)
       ∧ ∃ answers', answers' ≠ [] ∧ lookup host = Answers (map Some answers')
          ∧ sort_strings (distinct l) = sort_strings (distinct (map canonical_text answers'))).
    { split_and!; [done..|]. exists addresses. rewrite Elk, Ea. split_and!; [by intros ->|done..]. }
    destruct (includes trusted host && existsb (isPrivateIp nets) l) eqn:Etr.
    + apply andb_true_iff in Etr as [Etr Epr%existsb_private]. unfold mbind, ST_bind. rewrite issue_literals.
      2:{ eapply Forall_impl; [exact Hl|]. by intros t [? _]. }
      rewrite sort_distinct_stable. intros [= <- <-]. right. eexists _, _, u, host, trusted, _. split; [done|].
      split; try done; [by right|]. right. split_and!; [done..|by apply includes_spec|done].
    + intros [= <- <-]. right. eexists _, _, u, host, trusted, _. split; [done|].
      split; try done; [by right|]. left. split_and!; [done..|]. apply andb_false_iff in Etr as [Etr|Epr]; [|by apply none_private].
      eapply Forall_impl; [exact Hl|]. intros t [_ Ha]. apply not_true_iff_false. intros Hp.
      destruct (Ha Hp) as [Htr _]. congruence.
  - pose proof (normalizeEndpointHostname_literal _ _ Eh Eip) as Hlit.
    destruct (isPrivateIp nets host) eqn:Epriv; cbn [negb].
    + destruct (includes trusted host && isOperatorTrustablePrivateIp host) eqn:Etr; [|intros [= <- <-]; by left].
      apply andb_true_iff in Etr as [Etr Eop]. unfold mbind, ST_bind. rewrite issue_literals by by apply Forall_singleton.
      intros [= <- <-]. right. eexists [], _, u, host, trusted, [host]. split; [done|].
      split; try done; [by apply Forall_singleton|by left|]. right. split_and!; [done..|by apply includes_spec|by constructor].
    + intros [= <- <-]. right. eexists [], None, u, host, trusted, [host]. split; [done|].
      split; try done; [|by left|].
      * apply Forall_singleton. split; [done|]. unfold admitted. by rewrite Epriv.
      * left. split_and!; [done..|]. by apply Forall_singleton.
Qed.

(** ** Capabilities *)

(** The stores a process can have. *)
Inductive issued_by_code : Issued → Prop :=
| issued_none : issued_by_code []
| issued_preflight issued lookup hosts url r issued' :
    issued_by_code issued → assertEndpointResolvesPublic nets urls lookup hosts url issued = (r, issued') → issued_by_code issued'
| issued_inference issued lookup hosts url r issued' :
    issued_by_code issued → inference_assertEndpointResolvesPublic nets urls lookup hosts url issued = (r, issued') →
    issued_by_code issued'
| issued_replay issued host addresses all r issued' :
    issued_by_code issued → replayTrustedPrivateEndpoint nets host addresses all issued = (r, issued') → issued_by_code issued'.

Definition capability_ok (c : TrustedPrivateEndpointCapability) : Prop := pins_ok nets (cap_host c) (cap_addresses c).

Lemma accepted_capability lookup hosts url addresses capability issued issued' u host trusted reached :
  accepted lookup hosts url addresses capability issued issued' u host trusted reached →
  Forall capability_ok issued → Forall capability_ok issued'.
Proof using Type.
  intros H Hi. destruct (ac_capability _ _ _ _ _ _ _ _ _ _ _ H) as [(_ & -> & _)|(_ & -> & Htr & Hpriv)]; [done|].
  apply Forall_app. split; [done|]. apply Forall_singleton. unfold capability_ok. cbn.
  pose proof (ac_reached _ _ _ _ _ _ _ _ _ _ _ H) as Hre.
  assert (Hshape : NoDup reached ∧ ascending reached = true).
  { destruct (ac_answers _ _ _ _ _ _ _ _ _ _ _ H) as [(_ & -> & _)|(_ & <- & answers & _ & _ & ->)].
    - split; [apply NoDup_singleton|done].
    - split; [rewrite sort_strings_perm; apply NoDup_distinct|apply sort_strings_ascending]. }
  destruct Hshape as [Hnd Hasc]. split; try done.
  - by eapply trusted_normal; [apply H|].
  - eapply Forall_impl; [exact Hre|]. intros a [Hl Ha]. split; [done|]. intros Hp. by apply Ha.
  - apply Exists_exists in Hpriv as (a & Ha & Hp). apply Exists_exists. exists a. split; [done|].
    rewrite Forall_forall in Hre. by apply (Hre a Ha).
Qed.

Lemma preflight_capabilities lookup hosts url issued r issued' :
  assertEndpointResolvesPublic nets urls lookup hosts url issued = (r, issued') →
  Forall capability_ok issued → Forall capability_ok issued'.
Proof using Type.
  intros [[-> _]|(addresses & capability & u & host & trusted & reached & _ & Ha)]%preflight_cases; [done|].
  by eapply accepted_capability.
Qed.

Lemma replay_cases host addresses all issued r issued' :
  replayTrustedPrivateEndpoint nets host addresses all issued = (r, issued') →
  (∃ e, r = Throw e ∧ issued' = issued)
  ∨ ∃ pins, canonicalizeTrustedPrivateEndpointPins nets host addresses all = Ok pins
      ∧ r = Ok (mkReplay pins (Reference (List.length issued)))
      ∧ issued' = issued ++ [mkCapability (pin_host pins) (pin_addresses pins)].
Proof using Type.
  unfold replayTrustedPrivateEndpoint, mbind, ST_bind, st_lift.
  destruct (canonicalizeTrustedPrivateEndpointPins nets host addresses all) as [pins|e] eqn:E; [|intros [= <- <-]; left; eauto].
  apply canonicalize_ok in E as (Hpins & _). rewrite issue_literals.
  2:{ eapply Forall_impl; [apply Hpins|]. by intros a [? _]. }
  intros [= <- <-]. right. exists pins. split_and!; [done..|].
  by rewrite distinct_NoDup, sort_ascending by apply Hpins.
Qed.

Lemma issued_ok issued : issued_by_code issued → Forall capability_ok issued.
Proof using Type.
  induction 1 as [|issued lookup hosts url r issued' _ IH H|issued lookup hosts url r issued' _ IH H|issued host addresses all r issued' _ IH H].
  - constructor.
  - by eapply preflight_capabilities.
  - unfold inference_assertEndpointResolvesPublic in H. destruct (parse_url urls url); [|by eapply preflight_capabilities].
    destruct (_ || _); [by injection H as _ <-|by eapply preflight_capabilities].
  - apply replay_cases in H as [(e & _ & ->)|(pins & Hpins & _ & ->)]; [done|].
    apply Forall_app. split; [done|]. apply Forall_singleton. by apply canonicalize_ok in Hpins as [? _].
Qed.

Lemma assert_issued issued id c host :
  issued !! id = Some c → capability_ok c → normalizeTrustedPrivateHost host = Ok (cap_host c) →
  assertTrustedPrivateEndpointCapability nets issued host (cap_addresses c) (Reference id) false
  = Ok (mkReplay (mkPins (cap_host c) (cap_addresses c)) (Reference id)).
Proof using Type.
  intros Hc Hok Hn. unfold assertTrustedPrivateEndpointCapability. cbn [issued_capability]. rewrite Hc. cbn [of_option mbind result_bind].
  assert (Hcan : canonicalizeTrustedPrivateEndpointPins nets host (cap_addresses c) false = Ok (mkPins (cap_host c) (cap_addresses c))).
  { pose proof (canonicalize_fix nets _ _ Hok) as Hfix. unfold canonicalizeTrustedPrivateEndpointPins in *.
    rewrite Hn. by rewrite normalizeTrustedPrivateHost_fix in Hfix by apply Hok. }
  rewrite Hcan. cbn [mbind result_bind pin_host pin_addresses]. rewrite String.eqb_refl. cbn.
  by rewrite !bool_decide_eq_true_2.
Qed.

(** C19: Authority over private addresses cannot be forged or widened: after any sequence of
    preflights and replays, a value proves a set of pins exactly when it is a reference to a
    capability that was issued, for the same normalised host and exactly its addresses; those
    are distinct canonical literals in order, one of them private, and every private one in
    the space an operator may trust. *)
Theorem capability_proves_exact_pins issued host addresses value r (Hissued : issued_by_code issued) :
  assertTrustedPrivateEndpointCapability nets issued host addresses value false = Ok r
  ↔ ∃ id c, value = Reference id ∧ issued !! id = Some c ∧ capability_ok c
            ∧ normalizeTrustedPrivateHost host = Ok (cap_host c) ∧ addresses = cap_addresses c
            ∧ r = mkReplay (mkPins (cap_host c) (cap_addresses c)) value.
Proof using Type.
  apply issued_ok in Hissued. split.
  - unfold assertTrustedPrivateEndpointCapability.
    intros (c & Hc%of_option_ok & H)%result_bind_ok. apply result_bind_ok in H as (pins & Hpins & H).
    apply result_bind_ok in H as ([] & Hh%throw_unless_ok%String.eqb_eq & H).
    apply result_bind_ok in H as ([] & Ha%throw_unless_ok & H). injection H as <-.
    apply andb_true_iff in Ha as [Ha1%bool_decide_eq_true Ha2%bool_decide_eq_true].
    destruct value as [id|]; [|done]. exists id, c. apply canonicalize_ok in Hpins as (_ & Hn & _).
    split_and!; try done; try congruence.
    + rewrite Forall_lookup in Hissued. by eapply Hissued.
    + rewrite Hh, Ha2. by destruct pins.
  - intros (id & c & -> & Hc & Hok & Hn & -> & ->). by apply assert_issued.
Qed.
End Preflight.

(** ** Trust has limits *)

(** The space an operator may trust is private. *)
Lemma trustable_private a : isOperatorTrustablePrivateIp a = true → isPrivateIp shipped a = true.
Proof.
  unfold isOperatorTrustablePrivateIp, isPrivateIp, check. destruct (read_ip a) as [x|]; [|done].
  apply blocked_covered. vm_compute. done.
Qed.

(** The space an operator may trust, by the first and the last address of each of its
    networks, and the loopback and link-local addresses, the cloud metadata service among
    them; an IPv4 address has the number of its mapped form. *)
Definition octets (a b c d : N) : N := (((a * 256 + b) * 256 + c) * 256 + d)%N.
Definition in_v4 (first last x : N) : Prop := (mapped first ≤ x ≤ mapped last)%N.
Definition trustable_number (x : N) : Prop :=
  in_v4 (octets 10 0 0 0) (octets 10 255 255 255) x
  ∨ in_v4 (octets 100 64 0 0) (octets 100 127 255 255) x
  ∨ in_v4 (octets 172 16 0 0) (octets 172 31 255 255) x
  ∨ in_v4 (octets 192 168 0 0) (octets 192 168 255 255) x
  ∨ (64512 * 2 ^ 112 ≤ x < 65024 * 2 ^ 112)%N.                      (* fc00:: to fdff:... *)
Definition local_number (x : N) : Prop :=
  in_v4 (octets 127 0 0 0) (octets 127 255 255 255) x
  ∨ in_v4 (octets 169 254 0 0) (octets 169 254 255 255) x
  ∨ x = 1%N                                                         (* ::1 *)
  ∨ (65152 * 2 ^ 112 ≤ x < 65216 * 2 ^ 112)%N.                      (* fe80:: to febf:... *)

Lemma v4_holds b prefix x first last : (prefix ≤ 32)%N →
  first = (b / 2 ^ (32 - prefix) * 2 ^ (32 - prefix))%N → (last + 1 = (b / 2 ^ (32 - prefix) + 1) * 2 ^ (32 - prefix))%N →
  (last < 4294967296)%N → subnet_holds (mkSubnet (V4 b) prefix) x ↔ in_v4 first last x.
Proof.
  intros _ Ef El Hl. unfold subnet_holds, within_subnet, in_v4. cbn [s_address s_prefix]. rewrite <- Ef, <- El. split.
  - intros (m & _ & -> & Hm). unfold mapped. lia.
  - intros Hx. exists (x - mapped 0)%N. unfold mapped in *. lia.
Qed.

Lemma trustable_exact a x : read_ip a = Some x →
  isOperatorTrustablePrivateIp a = true ↔ trustable_number (ip_number x).
Proof.
  intros Ha. unfold isOperatorTrustablePrivateIp, check. rewrite Ha. apply read_ip_wf in Ha. rewrite blocked_spec by done.
  change OPERATOR_TRUSTABLE_PRIVATE_NETWORKS with
    [mkSubnet (V4 167772160) 8; mkSubnet (V4 1681915904) 10; mkSubnet (V4 2886729728) 12;
     mkSubnet (V4 3232235520) 16; mkSubnet (V6 [64512; 0; 0; 0; 0; 0; 0; 0]%N) 7].
  unfold trustable_number.
  rewrite <- (v4_holds 167772160 8), <- (v4_holds 1681915904 10), <- (v4_holds 2886729728 12),
    <- (v4_holds 3232235520 16) by done.
  assert (H6 : subnet_holds (mkSubnet (V6 [64512; 0; 0; 0; 0; 0; 0; 0]%N) 7) (ip_number x)
               ↔ (64512 * 2 ^ 112 ≤ ip_number x < 65024 * 2 ^ 112)%N) by done.
  rewrite <- H6. clear H6. split.
  - intros (net & Hin & Hnet). apply list_elem_of_In in Hin. cbn [In] in Hin. destruct_or! Hin; subst net; tauto.
  - intros H. destruct_or! H; eexists; (split; [|exact H]); apply list_elem_of_In; cbn [In]; tauto.
Qed.

(** Every local address is private by the list that is shipped, and none is trustable. *)
Lemma local_private a x : read_ip a = Some x → local_number (ip_number x) → isPrivateIp shipped a = true.
Proof.
  intros Ha Hx. unfold isPrivateIp, check. rewrite Ha. apply read_ip_wf in Ha.
  apply (blocked_covered [mkSubnet (V4 2130706432) 8; mkSubnet (V4 2851995648) 16;
    mkSubnet (V6 [0; 0; 0; 0; 0; 0; 0; 1]%N) 128; mkSubnet (V6 [65152; 0; 0; 0; 0; 0; 0; 0]%N) 10]); [vm_compute; done|].
  apply blocked_spec; [done|]. destruct Hx as [Hx|[Hx|[Hx|Hx]]].
  - eexists. split; [left|]. by apply (v4_holds 2130706432 8 _ (octets 127 0 0 0) (octets 127 255 255 255)).
  - eexists. split; [right; left|]. by apply (v4_holds 2851995648 16 _ (octets 169 254 0 0) (octets 169 254 255 255)).
  - eexists. split; [do 2 right; left|]. rewrite Hx. done.
  - eexists. split; [do 3 right; left|]. exact Hx.
Qed.

Lemma local_not_trustable x : local_number x → ¬ trustable_number x.
Proof. unfold local_number, trustable_number, in_v4, mapped, octets. lia. Qed.

(** C6: A preflight that accepts reaches only addresses it has checked: the host is neither
    local nor managed; a literal host is reached itself, a name only through all the answers
    of one lookup, each a literal, in canonical form, sorted and without repetition, and
    pinned.  Every address is public, or the operator named this exact host and the address,
    of IPv4 or IPv6, lies in 10.0.0.0/8, 100.64.0.0/10, 172.16.0.0/12, 192.168.0.0/16 or
    fc00::/7.  A capability is issued for exactly the reached addresses, when one of them is
    private, and for nothing else.  With the list that is shipped no loopback and no
    link-local address, of IPv4 or IPv6, is ever reached, whoever is trusted. *)
Theorem preflight_reaches_checked nets urls lookup hosts url issued addresses capability issued'
    (Hrun : assertEndpointResolvesPublic nets urls lookup hosts url issued = (Ok (PreflightOk addresses capability), issued')) :
  ∃ u host trusted reached,
    accepted nets urls lookup hosts url addresses capability issued issued' u host trusted reached
    ∧ (∀ a, a ∈ reached → ∃ x, read_ip a = Some x
         ∧ (isPrivateIp nets a = true → host ∈ trusted ∧ trustable_number (ip_number x))
         ∧ (nets = shipped → ¬ local_number (ip_number x))).
Proof.
  apply preflight_cases in Hrun as [[_ H]|(addresses' & capability' & u & host & trusted & reached & E & Ha)].
  { by destruct (H addresses capability). }
  injection E as <- <-. exists u, host, trusted, reached. split; [done|]. intros a Hin.
  pose proof (ac_reached _ _ _ _ _ _ _ _ _ _ _ _ _ Ha) as Hre. rewrite Forall_forall in Hre.
  destruct (Hre a Hin) as [[Hip _] Hadm]. unfold isIP in Hip. destruct (read_ip a) as [x|] eqn:Hx; [|done].
  assert (Hok : isPrivateIp nets a = true → host ∈ trusted ∧ trustable_number (ip_number x)).
  { intros [Ht Hop]%Hadm. split; [by apply includes_spec|]. by apply (trustable_exact a). }
  exists x. split_and!; [done..|]. intros -> Hl.
  apply (local_not_trustable _ Hl), Hok. by eapply local_private.
Qed.

Definition sample_answers : EndpointDnsLookupFn := λ host,
  if host =s "models.corp" then Answers [Some "10.1.2.3"; Some "2001:DB9::0:1"; Some "10.1.2.3"] else LookupThrows.

Lemma preflight_reaches_checked_witness :
  let run := assertEndpointResolvesPublic shipped plain_parser sample_answers ["Models.Corp."] "https://models.corp/" [] in
  run = (Ok (PreflightOk ["10.1.2.3"; "2001:db9::1"] (Some (Reference 0))),
         [mkCapability "models.corp" ["10.1.2.3"; "2001:db9::1"]])
  ∧ ∃ u host trusted reached,
      accepted shipped plain_parser sample_answers ["Models.Corp."] "https://models.corp/" ["10.1.2.3"; "2001:db9::1"]
        (Some (Reference 0)) [] [mkCapability "models.corp" ["10.1.2.3"; "2001:db9::1"]] u host trusted reached.
Proof.
  cbv zeta.
  assert (H : assertEndpointResolvesPublic shipped plain_parser sample_answers ["Models.Corp."] "https://models.corp/" []
    = (Ok (PreflightOk ["10.1.2.3"; "2001:db9::1"] (Some (Reference 0))),
       [mkCapability "models.corp" ["10.1.2.3"; "2001:db9::1"]])) by (vm_compute; reflexivity).
  split; [exact H|].
  destruct (preflight_reaches_checked _ _ _ _ _ _ _ _ _ H) as (u & host & trusted & reached & Ha & _).
  exists u, host, trusted, reached. exact Ha.
Defined.

Lemma capability_proves_exact_pins_witness :
  assertTrustedPrivateEndpointCapability shipped [mkCapability "models.corp" ["10.1.2.3"; "2001:db9::1"]]
    "MODELS.corp" ["10.1.2.3"; "2001:db9::1"] (Reference 0) false
  = Ok (mkReplay (mkPins "models.corp" ["10.1.2.3"; "2001:db9::1"]) (Reference 0)).
Proof.
  assert (H : issued_by_code shipped plain_parser [mkCapability "models.corp" ["10.1.2.3"; "2001:db9::1"]]).
  { eapply (issued_preflight _ _ [] sample_answers ["Models.Corp."] "https://models.corp/"); [apply issued_none|].
    vm_compute. reflexivity. }
  apply (capability_proves_exact_pins shipped plain_parser _ "MODELS.corp" ["10.1.2.3"; "2001:db9::1"] (Reference 0) _ H).
  exists 0, (mkCapability "models.corp" ["10.1.2.3"; "2001:db9::1"]).
  pose proof (Forall_inv (issued_ok _ _ _ H)) as Hok.
  split; [reflexivity|]. split; [reflexivity|]. split; [exact Hok|]. split; [vm_compute; reflexivity|].
  split; reflexivity.
Defined.
