(* ===== verification/CurlArgs.v ===== *)
(** * The arguments of a curl probe

    src/lib/adapters/http/curl-args.ts, with the test for credential-shaped names of
    src/lib/security/credential-env.ts: which command lines a privileged probe may run, and
    that the addresses it connects to are those the preflight approved. *)

From S2P Require Import Prelude Json Regex Checkpoint RouteGuard IpAddress PrivateNetworks Ssrf Endpoint.

(** ** security/credential-env.ts *)

Definition sep_class : regex := Chr (one_of "_-").
Definition name_words (words : list string) : regex :=
  seqs (match words with [] => [] | w :: ws => lit_i w :: flat_map (λ w, [maybe sep_class; lit_i w]) ws end).
Definition CREDENTIAL_WORDS : list (list string) :=
  [["api"; "key"]; ["access"; "key"]; ["secret"; "key"]; ["auth"; "token"]; ["refresh"; "token"]; ["access"; "token"];
   ["client"; "secret"]; ["private"; "key"]; ["pass"; "code"]; ["personal"; "access"; "token"]; ["connection"; "string"];
   ["webhook"]; ["webhook"; "url"]; ["key"]; ["secret"]; ["token"]; ["password"]; ["passwd"]; ["passcode"]; ["auth"];
   ["authorization"]; ["credential"]; ["credentials"]; ["bearer"]; ["bearer"; "token"]; ["cookie"]; ["cookies"]; ["pat"];
   ["private"]; ["privatekey"]; ["pin"]; ["webhookurl"]; ["dsn"]; ["connectionstring"]].
Definition CREDENTIAL_SHAPED_NAME_PATTERN : regex :=
  seqs [Alt Bol sep_class; alts (map name_words CREDENTIAL_WORDS); Alt Eol sep_class].
Definition isCredentialShapedName (name : string) : bool := test CREDENTIAL_SHAPED_NAME_PATTERN name.

Definition SUPPORTED_CREDENTIAL_ENV_NAMES : list string :=
  ["NGC_API_KEY"; "NEMOCLAW_PROVIDER_KEY"; "NVIDIA_API_KEY"; "NVIDIA_INFERENCE_API_KEY"; "OPENAI_API_KEY";
   "OPENROUTER_API_KEY"; "ANTHROPIC_API_KEY"; "GEMINI_API_KEY"; "GOOGLE_API_KEY"; "COMPATIBLE_API_KEY";
   "COMPATIBLE_ANTHROPIC_API_KEY"; "NOUS_API_KEY"; "BRAVE_API_KEY"; "TAVILY_API_KEY"; "HF_TOKEN"; "HUGGINGFACE_TOKEN";
   "HUGGINGFACE_API_TOKEN"; "HUGGING_FACE_HUB_TOKEN"; "AWS_ACCESS_KEY_ID"; "AWS_BEARER_TOKEN_BEDROCK";
   "AWS_SECRET_ACCESS_KEY"; "AWS_SESSION_TOKEN"; "AZURE_API_KEY"; "GH_TOKEN"; "GITHUB_TOKEN";
   "NEMOCLAW_BEDROCK_RUNTIME_ADAPTER_TOKEN"; "NEMOCLAW_OLLAMA_PROXY_TOKEN"; "NEMOCLAW_LLAMACPP_LOCAL_TOKEN";
   "NEMOCLAW_VLLM_LOCAL_TOKEN"].
Definition shouldStripCredentialEnv (name : string) : bool :=
  includes SUPPORTED_CREDENTIAL_ENV_NAMES name || isCredentialShapedName name.
(** Of the defined variables, by name. *)
Definition scrubCredentialEnv (env : list (string * string)) : list (string * string) :=
  List.filter (λ kv, negb (shouldStripCredentialEnv kv.1)) env.
Definition buildScrubbedCurlProbeEnv (process_env extra : list (string * string)) : list (string * string) :=
  scrubCredentialEnv (fold_left (λ env kv, put env kv.1 kv.2) extra process_env).

(** ** Options *)

Record CurlProbeArgOptions := mkCurlOptions {
  trustedConfigFiles : list string;
  allowRedirects : bool;
  pinnedAddresses : option (list string);
  trustedPrivateCapability : option capability_value
}.

Definition CURL_CONFIG_OPTIONS : list string := ["--config"; "-K"].
Definition CURL_OPTIONS_THAT_READ_FILES : list string :=
  ["--cookie"; "-b"; "--netrc-file"; "--upload-file"; "-T"; "--cert"; "--key"; "--proxy-cert"; "--proxy-key"].
Definition CURL_OPTIONS_THAT_READ_IMPLICIT_FILES : list string := ["--netrc"; "--netrc-optional"].
Definition CURL_DATA_OPTIONS : list string :=
  ["--data"; "--data-raw"; "--data-binary"; "--data-ascii"; "--data-urlencode"; "--json"; "--form"; "-d"; "-F"].
Definition CURL_HEADER_OPTIONS : list string := ["--header"; "--proxy-header"; "-H"].
Definition CURL_SAFE_FLAG_OPTIONS : list string :=
  ["-s"; "-S"; "-sS"; "-sf"; "-f"; "--fail"; "--silent"; "--show-error"; "--compressed"; "--get"].
Definition CURL_REDIRECT_FLAG_OPTIONS : list string := ["-L"; "-sfL"; "--location"].
Definition CURL_SAFE_VALUE_OPTIONS : list string := ["--connect-timeout"; "--max-time"; "--max-filesize"; "-X"; "--request"].
Definition CURL_FORBIDDEN_MULTI_TRANSFER_OPTIONS : list string := ["--next"].
Definition CURL_SHORT_OPTIONS_WITH_VALUES : list string := ["-K"; "-b"; "-T"; "-d"; "-F"; "-H"; "-X"].
Definition CURL_FORBIDDEN_AUTH_HEADER_PREFIXES : list string :=
  ["authorization:"; "proxy-authorization:"; "x-api-key:"; "x-goog-api-key:"].

Inductive curl_error : Type :=
| UrlRequired | NotAUrl_ | NotHttp (proto : string) | EmbedsCredentials | CredentialQuery (param : string)
| MultiTransfer (option : string) | ReadsFiles (option : string) | MissingValue (option : string) | ConfigPath
| ConfigNotTrusted (option : string) | HeaderFromFile (option : string) | InlineCredentials (option : string) | UrlOption
| DataFromFile (option : string) | SecondResolve | RedirectNotAllowed (option : string) | Positional
| NotAllowed (option : string) | CapabilityWithoutPins | Pin (e : pin_error) | ResolveSyntax | NoApprovedPins
| ResolveTarget | ResolveNotIp | ResolvePrivate | ResolveNotPinned | CapabilityUnused.

(** A long option ends at its first equals sign; a short one with a value may have it at once. *)
Fixpoint split_equals (l : list ascii) : list ascii * option (list ascii) :=
  match l with
  | [] => ([], None)
  | c :: l' => if Ascii.eqb c "=" then ([], Some l')
               else let '(a, z) := split_equals l' in (c :: a, z)
  end.
Definition splitCurlOptionArg (arg : string) : string * option string :=
  if starts_with "--" arg then
    let '(option, inlineValue) := split_equals (chars arg) in (of_chars option, of_chars <$> inlineValue)
  else
    match List.find (λ option, starts_with option arg && (String.length option <? String.length arg)%nat)
            CURL_SHORT_OPTIONS_WITH_VALUES with
    | Some option => (option, Some (of_chars (drop (String.length option) (chars arg))))
    | None => (arg, None)
    end.

(** [/(^|=)@[^-]/], [/^[^=]+@[^-]/] and [/(^|=)<[^-]/]. *)
Definition not_dash : regex := Chr (λ c, negb (Ascii.eqb c "-")).
Definition at_file : regex := seqs [Alt Bol (lit "="); lit "@"; not_dash].
Definition named_at_file : regex := seqs [Bol; some_of (Chr (λ c, negb (Ascii.eqb c "="))); lit "@"; not_dash].
Definition form_file : regex := seqs [Alt Bol (lit "="); lit "<"; not_dash].
Definition curlValueReadsFromFile (option value : string) : bool :=
  (starts_with "@" value && negb (value =s "@-")) || test at_file value
  || ((option =s "--data-urlencode") && test named_at_file value)
  || (((option =s "--form") || (option =s "-F")) && test form_file value).
Definition curlHeaderValueReadsFromFile (value : string) : bool := starts_with "@" value && negb (value =s "@-").
(** [value.toLowerCase().trimStart()]. *)
Definition carries_secret (value : string) : bool :=
  let lower := of_chars (drop_while is_space (chars (js_lower value))) in
  existsb (λ prefix, starts_with prefix lower) CURL_FORBIDDEN_AUTH_HEADER_PREFIXES.

(** ** The URL and its pins *)

Section Probe.
(** [url.searchParams.keys()], and [path.resolve] in the working directory. *)
Context (nets : LoadedNetworks) (urls : HostParser) (search_keys : URL → list string) (resolve_path : string → string).
Context (issued : Issued) (opts : CurlProbeArgOptions).

Definition normalizeHttpProbeUrl (rawUrl : option string) : result curl_error string :=
  raw ← of_option UrlRequired (match rawUrl with Some r => if truthy (js_trim r) then Some r else None | None => None end);
  url ← of_option NotAUrl_ (parse_url urls raw);
  _ ← throw_unless (is_http url) (NotHttp (protocol url));
  _ ← throw_unless (negb (truthy (username url) || truthy (password url))) EmbedsCredentials;
  match List.find isCredentialShapedName (search_keys url) with
  | Some param => Throw (CredentialQuery param)
  | None => Ok (href urls url)
  end.

Definition normalizeCurlConfigPath (value : string) : result curl_error string :=
  if negb (truthy (js_trim value)) || existsb (Ascii.eqb (ascii_of_N 0)) (chars value) then Throw ConfigPath
  else Ok (resolve_path value).
Definition isTrustedCurlConfigPath (value : string) : result curl_error bool :=
  if bool_decide (trustedConfigFiles opts = []) then Ok false
  else
    candidate ← normalizeCurlConfigPath value;
    trusted ← map_result normalizeCurlConfigPath (trustedConfigFiles opts);
    Ok (includes trusted candidate).

Definition normalizeHostname (hostname : string) : string := normalised (without_brackets hostname).
Definition parseResolveAddresses (raw : string) : list string := map without_brackets (js_split "," raw).

Definition getTrustedPrivateResolveAddresses (target : URL) : result curl_error (list string) :=
  match trustedPrivateCapability opts with
  | None => Ok []
  | Some capability =>
      pinned ← of_option CapabilityWithoutPins (pinnedAddresses opts);
      let targetHost := normalizeHostname (hostname target) in
      let authorityAddresses :=
        if bool_decide (pinned = []) && negb (isIP targetHost =? 0)%nat then [targetHost] else pinned in
      match assertTrustedPrivateEndpointCapability nets issued (hostname target) authorityAddresses capability false with
      | Ok replay => Ok (pin_addresses (replay_pins replay))
      | Throw e => Throw (Pin e)
      end
  end.

(** Before and after the first colon. *)
Fixpoint split_colon (l : list ascii) : option (list ascii * list ascii) :=
  match l with
  | [] => None
  | c :: l' => if Ascii.eqb c COLON then Some ([], l') else '(a, b) ← split_colon l'; Some (c :: a, b)
  end.
(** [host:port:addresses], neither the host nor the port empty. *)
Definition resolve_parts (value : string) : option (string * string * string) :=
  '(h, rest) ← split_colon (chars value);
  '(p, addresses) ← split_colon rest;
  if bool_decide (h = []) || bool_decide (p = []) then None else Some (of_chars h, of_chars p, of_chars addresses).

Definition assertResolveMatchesApprovedEndpoint (value : string) (target : URL) : result curl_error unit :=
  '(h, p, raw) ← of_option ResolveSyntax (resolve_parts value);
  let host := normalizeHostname h in
  let addresses := parseResolveAddresses raw in
  let approved := distinct (default [] (pinnedAddresses opts)) in
  trustedPrivate ← getTrustedPrivateResolveAddresses target;
  _ ← throw_unless (negb (bool_decide (approved = []))) NoApprovedPins;
  _ ← throw_unless ((host =s normalizeHostname (hostname target)) && (p =s default_port target)) ResolveTarget;
  _ ← throw_unless (forallb (λ a, negb (isIP a =? 0)%nat) addresses) ResolveNotIp;
  _ ← throw_unless (forallb (λ a, negb (isPrivateIp nets a) || includes trustedPrivate a) addresses) ResolvePrivate;
  throw_unless (no_dup_b addresses && (List.length addresses =? List.length approved)%nat
                && forallb (includes approved) addresses) ResolveNotPinned.

(** ** The command line *)

Fixpoint check_args (target : URL) (args : list string) (sawResolve : bool) : result curl_error bool :=
  match args with
  | [] => Ok sawResolve
  | arg :: rest =>
      let '(option, inlineValue) := splitCurlOptionArg arg in
      (** The value, and the rest of the line behind it. *)
      let with_value (checks : string → result curl_error unit) (saw : bool) :=
        match inlineValue with
        | Some value => _ ← checks value; check_args target rest saw
        | None => match rest with
                  | [] => Throw (MissingValue option)
                  | value :: rest' => _ ← checks value; check_args target rest' saw
                  end
        end in
      if includes CURL_FORBIDDEN_MULTI_TRANSFER_OPTIONS option then Throw (MultiTransfer option)
      else if includes CURL_OPTIONS_THAT_READ_IMPLICIT_FILES option then Throw (ReadsFiles option)
      else if includes CURL_OPTIONS_THAT_READ_FILES option then with_value (λ _, Throw (ReadsFiles option)) sawResolve
      else if includes CURL_CONFIG_OPTIONS option then
        with_value (λ value, trusted ← isTrustedCurlConfigPath value; throw_unless trusted (ConfigNotTrusted option)) sawResolve
      else if includes CURL_HEADER_OPTIONS option then
        with_value (λ value, _ ← throw_unless (negb (curlHeaderValueReadsFromFile value)) (HeaderFromFile option);
                             throw_unless (negb (carries_secret value)) (InlineCredentials option)) sawResolve
      else if (arg =s "--url") || starts_with "--url=" arg then Throw UrlOption
      else if includes CURL_DATA_OPTIONS option then
        with_value (λ value, throw_unless (negb (curlValueReadsFromFile option value)) (DataFromFile option)) sawResolve
      else if option =s "--resolve" then
        if sawResolve then Throw SecondResolve
        else with_value (λ value, assertResolveMatchesApprovedEndpoint value target) true
      else if includes CURL_SAFE_VALUE_OPTIONS option then with_value (λ _, Ok tt) sawResolve
      else if includes CURL_SAFE_FLAG_OPTIONS option then check_args target rest sawResolve
      else if includes CURL_REDIRECT_FLAG_OPTIONS option then
        if allowRedirects opts then check_args target rest sawResolve else Throw (RedirectNotAllowed option)
      else if negb (starts_with "-" arg) then Throw Positional
      else Throw (NotAllowed option)
  end.

Definition validateCurlProbeArgs (argv : list string) : result curl_error (list string * string) :=
  let args := List.removelast argv in
  url ← normalizeHttpProbeUrl (last argv);
  parsedUrl ← of_option NotAUrl_ (parse_url urls url);
  trustedPrivate ← getTrustedPrivateResolveAddresses parsedUrl;
  sawResolve ← check_args parsedUrl args false;
  let targetAddress := normalizeHostname (hostname parsedUrl) in
  _ ← throw_unless (bool_decide (trustedPrivate = []) || sawResolve
                    || (negb (isIP targetAddress =? 0)%nat && includes trustedPrivate targetAddress)) CapabilityUnused;
  Ok (args, url).
Definition buildValidatedCurlCommandArgs (argv : list string) : result curl_error (list string) :=
  '(args, url) ← validateCurlProbeArgs argv; Ok (args ++ [url]).
End Probe.

Inductive CurlProbeMode : Type := Json | ChatStream | EventStream | EventStreamWithStatus.
Definition buildCurlProbeSpawnArgs (args : list string) (url bodyFile : string) (mode : CurlProbeMode) : list string :=
  let outputArgs := match mode with Json => ["-o"; bodyFile; "-w"; "%{http_code}"] | _ => ["-N"; "-o"; bodyFile] end in
  let statusArgs := match mode with ChatStream | EventStreamWithStatus => ["-w"; "%{http_code}"] | _ => [] end in
  args ++ outputArgs ++ statusArgs ++ [url].
Definition buildBoundedCurlProbeSpawnArgs (args : list string) (url statusMarker : string) : list string :=
  args ++ ["-w"; statusMarker +:+ "%{http_code}"; url].

(** ** What an accepted line is *)

Section Accepted.
Context (nets : LoadedNetworks) (urls : HostParser) (search_keys : URL → list string) (resolve_path : string → string).
Context (issued : Issued) (opts : CurlProbeArgOptions).

(** How curl reads an argument: an option alone, a long option with its value behind the
    first equals sign, or a short option with its value right behind it. *)
Definition short_valued : list string := ["-K"; "-b"; "-T"; "-d"; "-F"; "-H"; "-X"].
Inductive reads_arg : string → string → option string → Prop :=
| rg_alone option :
    (starts_with "--" option = true → "="%char ∉ chars option) →
    (∀ o value, o ∈ short_valued → option = o +:+ value → value = "") → reads_arg option option None
| rg_equals option value :
    starts_with "--" option = true → "="%char ∉ chars option → reads_arg (option +:+ "=" +:+ value) option (Some value)
| rg_attached option value :
    option ∈ short_valued → value ≠ "" → reads_arg (option +:+ value) option (Some value).

(** How it reads a line: flags, and options with their value in the argument or after it. *)
Inductive curl_use : Type := Flag (option : string) | Valued (option value : string).
Definition config_options : list string := ["--config"; "-K"].
Definition header_options : list string := ["--header"; "--proxy-header"; "-H"].
Definition data_options : list string :=
  ["--data"; "--data-raw"; "--data-binary"; "--data-ascii"; "--data-urlencode"; "--json"; "--form"; "-d"; "-F"].
Definition harmless_options : list string := ["--connect-timeout"; "--max-time"; "--max-filesize"; "-X"; "--request"].
Definition harmless_flags : list string :=
  ["-s"; "-S"; "-sS"; "-sf"; "-f"; "--fail"; "--silent"; "--show-error"; "--compressed"; "--get"].
Definition redirect_flags : list string := ["-L"; "-sfL"; "--location"].
Definition takes_value (option : string) : bool :=
  includes (config_options ++ header_options ++ data_options ++ "--resolve" :: harmless_options) option.
Inductive reads_as : list string → list curl_use → Prop :=
| ra_nil : reads_as [] []
| ra_flag arg option inline rest uses :
    reads_arg arg option inline → takes_value option = false → reads_as rest uses →
    reads_as (arg :: rest) (Flag option :: uses)
| ra_inline arg option value rest uses :
    reads_arg arg option (Some value) → takes_value option = true → reads_as rest uses →
    reads_as (arg :: rest) (Valued option value :: uses)
| ra_next arg option value rest uses :
    reads_arg arg option None → takes_value option = true → reads_as rest uses →
    reads_as (arg :: value :: rest) (Valued option value :: uses).

(** A configuration file is one of the trusted ones. *)
Definition trusted_config (value : string) : Prop :=
  ∃ trusted, trusted ∈ trustedConfigFiles opts ∧ resolve_path value = resolve_path trusted.
(** A header is no file and no credential of the four headers, after whatever blanks and in
    whatever case. *)
Definition credential_headers : list string := ["authorization"; "proxy-authorization"; "x-api-key"; "x-goog-api-key"].
Definition header_plain (value : string) : Prop :=
  (∀ rest, value = "@" +:+ rest → rest = "-")
  ∧ ∀ blank name rest, value = blank +:+ name +:+ ":" +:+ rest → Forall (λ c, is_space c = true) (chars blank) →
      js_lower name ∉ credential_headers.
(** Data begins with no file, and names none behind an equals sign, behind a name that is to
    be encoded, or as the text of a form field, but a file whose name begins with a dash. *)
Definition data_plain (option value : string) : Prop :=
  (∀ rest, value = "@" +:+ rest → rest = "-")
  ∧ (∀ a c rest, value = a +:+ "=@" +:+ String c rest → c = "-"%char)
  ∧ (option = "--data-urlencode" → ∀ a c rest, value = a +:+ "@" +:+ String c rest →
       a ≠ "" → "="%char ∉ chars a → c = "-"%char)
  ∧ (option = "--form" ∨ option = "-F" → ∀ a c rest, value = a +:+ "<" +:+ String c rest →
       a = "" ∨ (∃ field, a = field +:+ "=") → c = "-"%char).
(** The name of a query parameter has none of these words, in whatever case, between its
    ends, dashes and underscores. *)
Definition credential_words : list string :=
  ["key"; "secret"; "token"; "password"; "passwd"; "passcode"; "auth"; "authorization"; "credential"; "credentials";
   "bearer"; "cookie"; "cookies"; "pat"; "private"; "pin"; "dsn"; "webhook"].
Definition param_plain (param : string) : Prop :=
  ∀ a word b, param = a +:+ word +:+ b → (a = "" ∨ ∃ a' c, a = a' +:+ one_char c ∧ one_of "_-" c = true) →
    (b = "" ∨ ∃ c b', b = String c b' ∧ one_of "_-" c = true) → js_lower word ∉ credential_words.

(** A mapping to exactly the approved addresses; each private one is among the addresses of
    the capability that was issued for the host. *)
Definition resolve_allowed (target : URL) (value : string) : Prop :=
  ∃ h p raw approved, resolve_parts value = Some (h, p, raw) ∧ pinnedAddresses opts = Some approved
    ∧ normalizeHostname h = normalizeHostname (hostname target) ∧ p = default_port target
    ∧ NoDup (parseResolveAddresses raw) ∧ (∀ a, a ∈ parseResolveAddresses raw ↔ a ∈ approved)
    ∧ ∀ a, a ∈ parseResolveAddresses raw → isIP a ≠ 0
        ∧ (isPrivateIp nets a = true →
             ∃ id c, trustedPrivateCapability opts = Some (Reference id) ∧ issued !! id = Some c
                     ∧ normalizeTrustedPrivateHost (hostname target) = Ok (cap_host c) ∧ a ∈ cap_addresses c).

Definition use_allowed (target : URL) (u : curl_use) : Prop :=
  match u with
  | Flag option => option ∈ harmless_flags ∨ (allowRedirects opts = true ∧ option ∈ redirect_flags)
  | Valued option value =>
      (option ∈ config_options ∧ trusted_config value)
      ∨ (option ∈ header_options ∧ header_plain value)
      ∨ (option ∈ data_options ∧ data_plain option value)
      ∨ (option = "--resolve" ∧ resolve_allowed target value)
      ∨ option ∈ harmless_options
  end.
Definition is_resolve (u : curl_use) : bool :=
  match u with Valued option _ => option =s "--resolve" | Flag _ => false end.

(** The splitter reads an argument as curl does. *)
Lemma split_equals_spec l a z : split_equals l = (a, z) →
  "="%char ∉ a ∧ l = a ++ match z with Some z => "="%char :: z | None => [] end.
Proof using Type.
  revert a z. induction l as [|c l IH]; intros a z; cbn [split_equals].
  { intros [= <- <-]. split; [apply not_elem_of_nil|done]. }
  destruct (Ascii.eqb_spec c "=") as [->|Hc].
  { intros [= <- <-]. split; [apply not_elem_of_nil|done]. }
  destruct (split_equals l) as [a' z'] eqn:E. intros [= <- <-]. destruct (IH _ _ eq_refl) as [Hn ->].
  split; [|done]. apply not_elem_of_cons. split; [congruence|done].
Qed.

Lemma append_chars a b s : chars s = chars a ++ b → s = a +:+ of_chars b.
Proof using Type. intros E. apply chars_inj. by rewrite E, chars_app, chars_of_chars. Qed.

Lemma drop_prefix p s : drop (String.length p) (chars (p +:+ s)) = chars s.
Proof using Type. rewrite chars_app, <- length_chars. apply drop_app_length. Qed.

Lemma length_append p s : String.length (p +:+ s) = String.length p + String.length s.
Proof using Type. by rewrite <- !length_chars, chars_app, length_app. Qed.

Lemma split_reads arg option inline : splitCurlOptionArg arg = (option, inline) → reads_arg arg option inline.
Proof using Type.
  unfold splitCurlOptionArg. destruct (starts_with "--" arg) eqn:Ed.
  - destruct (split_equals (chars arg)) as [a z] eqn:E. intros [= <- <-].
    assert (Hd : starts_with "--" (of_chars a) = true).
    { apply prefix_spec in Ed as [t ->]. rewrite chars_app in E.
      change (chars "--") with ["-"%char; "-"%char] in E. cbn [app split_equals Ascii.eqb Bool.eqb] in E.
      destruct (split_equals (chars t)) as [a' z']. injection E as <- <-.
      apply prefix_spec. by exists (of_chars a'). }
    apply split_equals_spec in E as [Hn E]. destruct z as [z|]; cbn [fmap option_fmap option_map].
    + replace arg with (of_chars a +:+ "=" +:+ of_chars z); [apply rg_equals; [done|by rewrite chars_of_chars]|].
      apply chars_inj. by rewrite E, !chars_app, !chars_of_chars.
    + rewrite app_nil_r in E. rewrite <- E, of_chars_chars in *. apply rg_alone; [done|].
      intros o value Ho Eo. exfalso. apply prefix_spec in Ed as [t ->]. revert Eo.
      repeat (apply elem_of_cons in Ho as [->|Ho]; [done|]). by apply elem_of_nil in Ho.
  - destruct (List.find _ _) as [o|] eqn:Ef.
    + apply List.find_some in Ef as [Hin [[t ->]%prefix_spec Hl]%andb_true_iff]. intros [= <- <-].
      rewrite drop_prefix, of_chars_chars. apply Nat.ltb_lt in Hl. rewrite length_append in Hl.
      apply rg_attached; [by apply list_elem_of_In|]. intros ->. cbn in Hl. lia.
    + intros [= <- <-]. apply rg_alone; [congruence|]. intros o value Ho ->.
      eapply List.find_none in Ef; [|by apply list_elem_of_In]. cbn beta in Ef. unfold starts_with in Ef.
      rewrite (proj2 (prefix_spec o (o +:+ value)) (ex_intro _ value eq_refl)) in Ef.
      apply Nat.ltb_ge in Ef. rewrite length_append in Ef. destruct value; [done|]. cbn in Ef. lia.
Qed.

(** A test finds what stands in the text. *)
Lemma test_found r text b w a : wf r = true → chars text = chars b ++ chars w ++ chars a →
  lang r (rev (chars b), chars w ++ chars a) (rev (chars w) ++ rev (chars b), chars a) → test r text = true.
Proof using Type.
  intros Hw Et Hl. apply test_lang; [done|]. eexists _, _. split; [|exact Hl].
  unfold full_text. cbn [fst snd]. by rewrite rev_involutive, Et.
Qed.

Lemma config_trusted value : isTrustedCurlConfigPath resolve_path opts value = Ok true → trusted_config value.
Proof using Type.
  unfold isTrustedCurlConfigPath. case_bool_decide; [done|].
  intros (candidate & Hc & (l & Hl & [= Hin])%result_bind_ok)%result_bind_ok.
  apply includes_spec in Hin. apply map_result_ok in Hl. apply list_elem_of_lookup in Hin as [i Hi].
  destruct (Forall2_lookup_r _ _ _ _ _ Hl Hi) as (trusted & Ht & Hn). exists trusted.
  split; [by eapply list_elem_of_lookup_2|]. unfold normalizeCurlConfigPath in Hc, Hn.
  destruct (_ || _) in Hc; [done|]. destruct (_ || _) in Hn; [done|]. congruence.
Qed.

Lemma at_start value : starts_with "@" value && negb (value =s "@-") = false → ∀ rest, value = "@" +:+ rest → rest = "-".
Proof using Type.
  intros H rest ->. unfold starts_with in H. rewrite (proj2 (prefix_spec "@" ("@" +:+ rest)) (ex_intro _ rest eq_refl)) in H.
  apply negb_false_iff, String.eqb_eq in H. cbn in H. by injection H.
Qed.

Lemma blank_dropped l m : Forall (λ c, is_space c = true) l → drop_while is_space (l ++ m) = drop_while is_space m.
Proof using Type. induction 1 as [|c l Hc _ IH]; [done|]. cbn [app drop_while]. by rewrite Hc. Qed.

Lemma lower_blank c : is_space c = true → is_space (to_lower_char c) = true.
Proof using Type. destruct c as [[] [] [] [] [] [] [] []]; vm_compute; done. Qed.

Lemma header_checked value : curlHeaderValueReadsFromFile value = false → carries_secret value = false → header_plain value.
Proof using Type.
  intros Hf Hs. split; [by apply at_start|]. intros blank name rest -> Hb Hin.
  apply not_true_iff_false in Hs. apply Hs. unfold carries_secret. rewrite !js_lower_app.
  unfold js_lower at 1. rewrite chars_app, chars_of_chars, blank_dropped.
  2:{ apply Forall_fmap. eapply Forall_impl; [exact Hb|]. intros c. apply lower_blank. }
  apply existsb_exists. exists (js_lower name +:+ ":"). remember (js_lower name) as n eqn:En. clear En.
  revert n Hin. rewrite <- Forall_forall.
  repeat (apply Forall_cons; split;
    [split; [repeat first [left; reflexivity|right]|]; apply prefix_spec; exists (js_lower rest);
     apply chars_inj; rewrite chars_of_chars, !chars_app; reflexivity|]).
  by apply Forall_nil.
Qed.

Lemma data_checked option value : curlValueReadsFromFile option value = false → data_plain option value.
Proof using Type.
  unfold curlValueReadsFromFile.
  intros [[[Hs Ha]%orb_false_iff Hu]%orb_false_iff Hf]%orb_false_iff. split_and!; [by apply at_start|..].
  - intros a c rest ->. destruct (Ascii.eqb_spec c "-") as [|Hc]; [done|]. exfalso. revert Ha.
    apply not_false_iff_true. apply (test_found at_file _ a ("=@" +:+ one_char c) rest); [done|by rewrite !chars_app|].
    cbn. eexists. split; [right; eexists; split; [by eexists _, _, _|reflexivity]|].
    eexists. split; [eexists; split; [by eexists _, _, _|reflexivity]|].
    eexists. split; [eexists _, _, _; split_and!; [done| |done]|done]. by apply negb_true_iff, Ascii.eqb_neq.
  - intros -> a c rest -> Hne Heq. destruct (Ascii.eqb_spec c "-") as [|Hc]; [done|]. exfalso. revert Hu.
    apply not_false_iff_true. cbn [String.eqb Ascii.eqb Bool.eqb andb].
    apply (test_found named_at_file _ "" (a +:+ "@" +:+ one_char c) rest); [done|by rewrite !chars_app, <- !(assoc_L (++))|].
    rewrite !chars_app. cbn [named_at_file seqs fold_right lang fst]. eexists. split; [by split|].
    exists (rev (chars a), "@"%char :: c :: chars rest). split.
    { exists (List.length (chars a)). split_and!; [by destruct a; [|cbn; lia]|done|].
      rewrite <- (app_nil_r (rev (chars a))), <- !(assoc_L (++)). apply turns_chars.
      apply Forall_forall. intros d Hd. apply negb_true_iff, Ascii.eqb_neq. by intros ->. }
    eexists. split; [eexists; split; [by eexists _, _, _|reflexivity]|].
    eexists. split; [eexists _, _, _; split_and!; [done| |done]; by apply negb_true_iff, Ascii.eqb_neq|].
    cbn. by rewrite !rev_app_distr, app_nil_r.
  - intros Ho a c rest -> Hpre. destruct (Ascii.eqb_spec c "-") as [|Hc]; [done|]. exfalso.
    replace ((option =s "--form") || (option =s "-F")) with true in Hf by (symmetry; by destruct Ho as [->| ->]).
    revert Hf. apply not_false_iff_true. destruct Hpre as [->|[field ->]].
    + apply (test_found form_file _ "" ("<" +:+ one_char c) rest); [done..|].
      cbn. eexists. split; [by left|]. eexists. split; [eexists; split; [by eexists _, _, _|reflexivity]|].
      eexists. split; [eexists _, _, _; split_and!; [done| |done]|done]. by apply negb_true_iff, Ascii.eqb_neq.
    + apply (test_found form_file _ field ("=<" +:+ one_char c) rest); [done|by rewrite !chars_app, <- !(assoc_L (++))|].
      cbn. eexists. split; [right; eexists; split; [by eexists _, _, _|reflexivity]|].
      eexists. split; [eexists; split; [by eexists _, _, _|reflexivity]|].
      eexists. split; [eexists _, _, _; split_and!; [done| |done]|done]. by apply negb_true_iff, Ascii.eqb_neq.
Qed.

Lemma lower_ci c d : is_lower d = true → to_lower_char c = d → ci (Ascii.eqb d) c = true.
Proof using Type. intros Hd <-. revert Hd. destruct c as [[] [] [] [] [] [] [] []]; vm_compute; done. Qed.

Lemma lit_i_here w l b a : map to_lower_char l = chars w → forallb is_lower (chars w) = true →
  lang (lit_i w) (b, l ++ a) (rev l ++ b, a).
Proof using Type.
  unfold lit_i. generalize (chars w) as m. intros m. revert m b.
  induction l as [|c l IH]; intros [|d m] b E; try done. cbn in E. injection E as Ec E.
  cbn [forallb]. intros [Hd Hm]%andb_true_iff. cbn [fold_right lang app rev]. exists (c :: b, l ++ a).
  split; [by apply lang_chr_here, lower_ci|]. rewrite <- (assoc_L (++)). by apply IH.
Qed.

Lemma lang_alts r rs p q : r ∈ rs → lang r p q → lang (alts rs) p q.
Proof using Type.
  induction rs as [|r' rs IH]; [by intros ?%elem_of_nil|]. intros [->|Hin]%elem_of_cons Hl.
  - destruct rs; [done|]. by left.
  - destruct rs; [by apply elem_of_nil in Hin|]. right. by apply IH.
Qed.

Lemma param_checked param : isCredentialShapedName param = false → param_plain param.
Proof using Type.
  intros H a word b -> Ha Hb Hin. apply not_true_iff_false in H. apply H. clear H. unfold isCredentialShapedName.
  assert (Hw : name_words [js_lower word] ∈ map name_words CREDENTIAL_WORDS ∧ forallb is_lower (chars (js_lower word)) = true).
  { revert Hin. generalize (js_lower word) as w. intros w Hin.
    repeat (apply elem_of_cons in Hin as [->|Hin]; [split; [apply (list_elem_of_fmap_2 name_words CREDENTIAL_WORDS); apply (bool_decide_unpack _); vm_compute; exact I|reflexivity]|]).
    by apply elem_of_nil in Hin. }
  destruct Hw as [Hw Hlow].
  apply test_lang; [vm_compute; reflexivity|].
  assert (Hend : ∃ q, lang (Alt Eol sep_class) (rev (chars word) ++ rev (chars a), chars b) q).
  { destruct Hb as [->|(c & b' & -> & Hc)]; eexists; [by left|right; by apply lang_chr_here]. }
  destruct Hend as [q Hq].
  assert (Hstart : ∃ p, full_text p = chars (a +:+ word +:+ b)
            ∧ lang (Alt Bol sep_class) p (rev (chars a), chars word ++ chars b)).
  { destruct Ha as [->|(a' & c & -> & Hc)].
    - eexists. split; [|by left]. unfold full_text. cbn [fst snd]. by rewrite !chars_app.
    - exists (rev (chars a'), c :: chars word ++ chars b). split.
      + unfold full_text. cbn [fst snd]. by rewrite rev_involutive, !chars_app, <- !(assoc_L (++)).
      + right. rewrite chars_app, rev_app_distr. by apply lang_chr_here. }
  destruct Hstart as (p & Hp & Hl). exists p, q. split; [done|].
  eexists. split; [exact Hl|]. exists (rev (chars word) ++ rev (chars a), chars b). split; [|by exists q].
  eapply lang_alts; [exact Hw|]. eexists. split; [|reflexivity]. apply lit_i_here; [|done].
  unfold js_lower. by rewrite chars_of_chars.
Qed.

Lemma trusted_addresses target l a :
  issued_by_code nets urls issued → getTrustedPrivateResolveAddresses nets issued opts target = Ok l → a ∈ l →
  ∃ id c, trustedPrivateCapability opts = Some (Reference id) ∧ issued !! id = Some c
          ∧ normalizeTrustedPrivateHost (hostname target) = Ok (cap_host c) ∧ a ∈ cap_addresses c.
Proof using Type.
  intros Hi. unfold getTrustedPrivateResolveAddresses. destruct (trustedPrivateCapability opts) as [cap|]; [|intros [= <-]; by intros ?%elem_of_nil].
  intros (pinned & _ & H)%result_bind_ok.
  destruct (assertTrustedPrivateEndpointCapability _ _ _ _ _ _) as [replay|] eqn:E; [|done]. injection H as <-.
  pose proof (issued_ok _ _ _ Hi) as Hok. unfold assertTrustedPrivateEndpointCapability in E.
  apply result_bind_ok in E as (c & Hc%of_option_ok & E). apply result_bind_ok in E as (pins & Hpins & E).
  apply result_bind_ok in E as ([] & Hh%throw_unless_ok%String.eqb_eq & E).
  apply result_bind_ok in E as ([] & Ha%throw_unless_ok & E). injection E as <-. cbn.
  apply andb_true_iff in Ha as [_ Ha%bool_decide_eq_true]. apply canonicalize_ok in Hpins as (_ & Hn & _).
  destruct cap as [id|]; [|done]. intros Hin. exists id, c. by rewrite Ha, Hh.
Qed.

Lemma resolve_checked target value u : issued_by_code nets urls issued →
  assertResolveMatchesApprovedEndpoint nets issued opts value target = Ok u → resolve_allowed target value.
Proof using Type.
  intros Hi. unfold assertResolveMatchesApprovedEndpoint.
  intros ([[h p] raw] & Hp%of_option_ok & H)%result_bind_ok. apply result_bind_ok in H as (trusted & Ht & H).
  apply result_bind_ok in H as ([] & Hne%throw_unless_ok & H).
  apply result_bind_ok in H as ([] & Htarget%throw_unless_ok & H).
  apply result_bind_ok in H as ([] & Hip%throw_unless_ok & H).
  apply result_bind_ok in H as ([] & Hpriv%throw_unless_ok & H). apply throw_unless_ok in H.
  apply andb_true_iff in Htarget as [Hh%String.eqb_eq Hport%String.eqb_eq].
  apply andb_true_iff in H as [[Hnd%bool_decide_eq_true Hlen%Nat.eqb_eq]%andb_true_iff Hsub].
  destruct (pinnedAddresses opts) as [approved|] eqn:Ea; [|done]. cbn [default] in *.
  rewrite forallb_forall in Hip, Hpriv, Hsub.
  exists h, p, raw, approved. split_and!; try done.
  - intros a. rewrite <- (elem_of_distinct approved). split; intros Hin.
    + by apply includes_spec, Hsub, list_elem_of_In.
    + apply list_elem_of_In. apply list_elem_of_In in Hin. revert a Hin. change (List.incl (distinct approved) (parseResolveAddresses raw)).
      apply List.NoDup_length_incl; [by apply NoDup_ListNoDup|by rewrite Hlen|].
      intros a Hin. by apply list_elem_of_In, includes_spec, Hsub.
  - intros a Hin%list_elem_of_In. split; [by apply Nat.eqb_neq, negb_true_iff, Hip|].
    intros Hp'. specialize (Hpriv a Hin). rewrite Hp' in Hpriv. cbn in Hpriv. apply includes_spec in Hpriv.
    by eapply trusted_addresses.
Qed.
(** A line reads as allowed uses, and the resolve option is seen once at most. *)
Definition resolves (uses : list curl_use) : nat := List.length (List.filter is_resolve uses).
Definition accepted_line (target : URL) (saw saw' : bool) (line : list string) : Prop :=
  ∃ uses, reads_as line uses ∧ Forall (use_allowed target) uses ∧ Nat.b2n saw + resolves uses = Nat.b2n saw'.

Lemma takes_value_spec option : takes_value option = true ↔
  option ∈ CURL_CONFIG_OPTIONS ∨ option ∈ CURL_HEADER_OPTIONS ∨ option ∈ CURL_DATA_OPTIONS ∨ option = "--resolve"
  ∨ option ∈ CURL_SAFE_VALUE_OPTIONS.
Proof using Type. unfold takes_value. by rewrite includes_spec, !elem_of_app, elem_of_cons. Qed.

Lemma resolves_cons u uses : resolves (u :: uses) = Nat.b2n (is_resolve u) + resolves uses.
Proof using Type. unfold resolves. cbn. by destruct (is_resolve u). Qed.

(** One option with its value, and the rest of the line behind it. *)
Lemma accept_value target arg option inline rest (checks : string → result curl_error unit) saw saw' saw'' :
  splitCurlOptionArg arg = (option, inline) → takes_value option = true →
  (∀ value, checks value = Ok tt → use_allowed target (Valued option value)) →
  Nat.b2n saw + Nat.b2n (option =s "--resolve") = Nat.b2n saw' →
  (∀ line, List.length line ≤ List.length rest →
     check_args nets resolve_path issued opts target line saw' = Ok saw'' → accepted_line target saw' saw'' line) →
  match inline with
  | Some value => _ ← checks value; check_args nets resolve_path issued opts target rest saw'
  | None => match rest with
            | [] => Throw (MissingValue option)
            | value :: rest' => _ ← checks value; check_args nets resolve_path issued opts target rest' saw'
            end
  end = Ok saw'' →
  accepted_line target saw saw'' (arg :: rest).
Proof using Type.
  intros Hs%split_reads Ht Hok Hsaw IH H.
  assert (Hrun : ∃ value line, checks value = Ok tt ∧ check_args nets resolve_path issued opts target line saw' = Ok saw''
                 ∧ List.length line ≤ List.length rest
                 ∧ ∀ uses, reads_as line uses → reads_as (arg :: rest) (Valued option value :: uses)).
  { destruct inline as [value|]; [|destruct rest as [|value rest']; [done|]];
      apply result_bind_ok in H as ([] & Hc & H); eexists value, _; split_and!; eauto using ra_inline, ra_next; cbn; lia. }
  destruct Hrun as (value & line & Hc & Hrun & Hlen & Hread). apply IH in Hrun as (uses & Hu & Ha & Hn); [|done].
  exists (Valued option value :: uses). split_and!; [by apply Hread|by constructor; [apply Hok|]|].
  rewrite resolves_cons. cbn [is_resolve]. lia.
Qed.

Lemma accept_flag target arg option inline rest saw saw' :
  splitCurlOptionArg arg = (option, inline) → takes_value option = false → use_allowed target (Flag option) →
  accepted_line target saw saw' rest → accepted_line target saw saw' (arg :: rest).
Proof using Type.
  intros Hs%split_reads Ht Ha (uses & Hu & Hall & Hn). exists (Flag option :: uses).
  split_and!; [by eapply ra_flag|by constructor|by rewrite resolves_cons].
Qed.

Lemma flag_without_value option : includes (CURL_SAFE_FLAG_OPTIONS ++ CURL_REDIRECT_FLAG_OPTIONS) option = true → takes_value option = false.
Proof using Type.
  intros H%includes_spec. revert option H. rewrite <- Forall_forall. repeat (apply Forall_cons; split; [done|]). by apply Forall_nil.
Qed.

Lemma class_value option :
  includes (CURL_CONFIG_OPTIONS ++ CURL_HEADER_OPTIONS ++ CURL_DATA_OPTIONS ++ CURL_SAFE_VALUE_OPTIONS) option = true →
  takes_value option = true ∧ (option =s "--resolve") = false.
Proof using Type.
  intros H%includes_spec. revert option H. rewrite <- Forall_forall. repeat (apply Forall_cons; split; [done|]). by apply Forall_nil.
Qed.

(** An option of a class that takes a value and is not the resolve option. *)
Lemma accept_class target arg option inline rest checks saw saw' cls :
  splitCurlOptionArg arg = (option, inline) → includes cls option = true →
  cls ⊆ CURL_CONFIG_OPTIONS ++ CURL_HEADER_OPTIONS ++ CURL_DATA_OPTIONS ++ CURL_SAFE_VALUE_OPTIONS →
  (∀ value, checks value = Ok tt → use_allowed target (Valued option value)) →
  (∀ s line, List.length line ≤ List.length rest →
     check_args nets resolve_path issued opts target line s = Ok saw' → accepted_line target s saw' line) →
  match inline with
  | Some value => _ ← checks value; check_args nets resolve_path issued opts target rest saw
  | None => match rest with
            | [] => Throw (MissingValue option)
            | value :: rest' => _ ← checks value; check_args nets resolve_path issued opts target rest' saw
            end
  end = Ok saw' →
  accepted_line target saw saw' (arg :: rest).
Proof using Type.
  intros Hs Hin%includes_spec Hsub Hok IH. destruct (class_value option) as [Ht Hr]; [by apply includes_spec, Hsub|].
  apply accept_value; try done; [|by apply IH]. rewrite Hr. cbn. lia.
Qed.

Lemma check_args_accepted target n args saw saw' : issued_by_code nets urls issued → List.length args ≤ n →
  check_args nets resolve_path issued opts target args saw = Ok saw' → accepted_line target saw saw' args.
Proof using Type.
  intros Hi. revert args saw. induction n as [|n IH]; intros [|arg rest] saw Hlen; cbn [List.length] in Hlen; try lia.
  1,2: intros [= <-]; exists []; split_and!; [constructor..|unfold resolves; cbn; lia].
  cbn [check_args]. destruct (splitCurlOptionArg arg) as [option inline] eqn:Es.
  assert (IH' : ∀ s line, List.length line ≤ List.length rest →
     check_args nets resolve_path issued opts target line s = Ok saw' → accepted_line target s saw' line)
    by (intros s line Hl; apply IH; lia).
  assert (Hflag : includes (CURL_SAFE_FLAG_OPTIONS ++ CURL_REDIRECT_FLAG_OPTIONS) option = true → use_allowed target (Flag option) →
     check_args nets resolve_path issued opts target rest saw = Ok saw' → accepted_line target saw saw' (arg :: rest)).
  { intros Hf Ha H. eapply accept_flag; [done|by apply flag_without_value|done|by apply IH']. }
  destruct (includes CURL_FORBIDDEN_MULTI_TRANSFER_OPTIONS option); [done|].
  destruct (includes CURL_OPTIONS_THAT_READ_IMPLICIT_FILES option); [done|].
  destruct (includes CURL_OPTIONS_THAT_READ_FILES option); [by destruct inline, rest|].
  destruct (includes CURL_CONFIG_OPTIONS option) eqn:E1; [|destruct (includes CURL_HEADER_OPTIONS option) eqn:E2].
  { apply (accept_class target arg option inline rest (λ value, trusted ← isTrustedCurlConfigPath resolve_path opts value;
      throw_unless trusted (ConfigNotTrusted option)) _ _ _ Es E1); [by intros ? ?; rewrite !elem_of_app; auto| |done].
    intros value ([] & Hv & Hw%throw_unless_ok)%result_bind_ok; [|done].
    left. split; [by apply includes_spec|by apply config_trusted]. }
  { apply (accept_class target arg option inline rest (λ value,
      _ ← throw_unless (negb (curlHeaderValueReadsFromFile value)) (HeaderFromFile option);
      throw_unless (negb (carries_secret value)) (InlineCredentials option)) _ _ _ Es E2); [by intros ? ?; rewrite !elem_of_app; auto| |done].
    intros value ([] & Hv%throw_unless_ok%negb_true_iff & Hw%throw_unless_ok%negb_true_iff)%result_bind_ok.
    right; left. split; [by apply includes_spec|by apply header_checked]. }
  destruct (_ || _) eqn:Eurl; [done|]. destruct (includes CURL_DATA_OPTIONS option) eqn:E3.
  { apply (accept_class target arg option inline rest (λ value,
      throw_unless (negb (curlValueReadsFromFile option value)) (DataFromFile option)) _ _ _ Es E3); [by intros ? ?; rewrite !elem_of_app; auto| |done].
    intros value Hv%throw_unless_ok%negb_true_iff. right; right; left.
    split; [by apply includes_spec|by apply data_checked]. }
  destruct (String.eqb_spec option "--resolve") as [->|Hne].
  { destruct saw; [done|]. apply (accept_value target arg "--resolve" inline rest
      (λ value, assertResolveMatchesApprovedEndpoint nets issued opts value target) false true saw' Es); [done| |done|apply IH'].
    intros value Hv. right; right; right; left. split; [done|]. by eapply resolve_checked. }
  destruct (includes CURL_SAFE_VALUE_OPTIONS option) eqn:E4.
  { apply (accept_class target arg option inline rest (λ _, Ok tt) _ _ _ Es E4); [by intros ? ?; rewrite !elem_of_app; auto| |done].
    intros value _. do 4 right. by apply includes_spec. }
  destruct (includes CURL_SAFE_FLAG_OPTIONS option) eqn:E5;
    [|destruct (includes CURL_REDIRECT_FLAG_OPTIONS option) eqn:E6; [destruct (allowRedirects opts) eqn:Er; [|done]|by destruct (negb _)]];
    apply Hflag; rewrite ?includes_spec, ?elem_of_app in *; [by left|by left|by right|by right].
Qed.
(** ** The pins of an accepted preflight *)

Lemma split_colon_app l l' : existsb (Ascii.eqb COLON) l = false → split_colon (l ++ COLON :: l') = Some (l, l').
Proof using Type.
  induction l as [|c l IH]; intros H; [done|]. cbn [existsb] in H. apply orb_false_iff in H as [Hc Hl].
  cbn [app split_colon]. rewrite Ascii.eqb_sym, Hc. by rewrite IH.
Qed.

Lemma resolve_parts_of h p addresses : sep_free COLON h = true → sep_free COLON p = true → truthy h = true → truthy p = true →
  resolve_parts (h +:+ ":" +:+ p +:+ ":" +:+ addresses) = Some (h, p, addresses).
Proof using Type.
  unfold sep_free. intros Hh%negb_true_iff Hp%negb_true_iff Th Tp. unfold resolve_parts. rewrite !chars_app.
  change (chars ":") with [COLON]. cbn [app]. rewrite split_colon_app by done. cbn [mbind option_bind].
  rewrite split_colon_app by done. cbn [mbind option_bind].
  rewrite !of_chars_chars, !bool_decide_eq_false_2; [done| |]; [destruct p|destruct h]; done.
Qed.

Lemma encoded_literal a : canonical_literal a → sep_free "," (encoded_address a) = true ∧ without_brackets (encoded_address a) = a.
Proof using Type.
  intros Hl. pose proof (literal_chars a Hl) as Hc. unfold encoded_address.
  assert (Hcomma : sep_free "," a = true).
  { unfold sep_free. apply negb_true_iff, not_true_iff_false. intros (c & Hin & <-%Ascii.eqb_eq)%existsb_exists.
    rewrite forallb_forall in Hc. by apply Hc in Hin. }
  destruct (contains ":" a) eqn:E.
  - split; [|apply without_brackets_bracketed]. unfold sep_free in *. by rewrite !chars_app, !existsb_app; cbn; rewrite orb_false_r.
  - split; [done|]. unfold without_brackets. by rewrite (starts_with_none host_char "[" a).
Qed.

Lemma encoded_addresses l : l ≠ [] → Forall canonical_literal l → parseResolveAddresses (js_join "," (map encoded_address l)) = l.
Proof using Type.
  intros Hne Hl. unfold parseResolveAddresses. change (js_join "," (map encoded_address l)) with (js_join (one_char ",") (map encoded_address l)).
  rewrite split_join.
  - rewrite map_map. induction Hl as [|a l Ha Hl IH]; [done|]. cbn [map]. f_equal; [by apply encoded_literal|].
    destruct l; [done|by apply IH].
  - by destruct l.
  - apply Forall_fmap. eapply Forall_impl; [exact Hl|]. intros a Ha. by apply encoded_literal.
Qed.

(** What the parser gives for the name in a URL. *)
Record plain_name (u : URL) : Prop := {
  pn_normal : normalizeEndpointHostname (hostname u) = Some (hostname u);
  pn_bare : without_brackets (hostname u) = hostname u;
  pn_host : sep_free COLON (hostname u) = true ∧ truthy (hostname u) = true;
  pn_port : sep_free COLON (port u) = true
}.

Lemma default_port_ok u : plain_name u → sep_free COLON (default_port u) = true ∧ truthy (default_port u) = true.
Proof using Type.
  intros H. unfold default_port. destruct (truthy (port u)) eqn:E; [split; [apply H|done]|]. by destruct (_ =s _).
Qed.

Lemma plain_name_normal u : plain_name u → isIP (hostname u) = 0 → normalizeHostname (hostname u) = hostname u.
Proof using Type.
  intros H Hip. pose proof (pn_normal u H) as Hn. unfold normalizeEndpointHostname, normalizeHostname in *. rewrite (pn_bare u H) in *.
  destruct (Nat.eqb_spec (isIP (normalised (hostname u))) 0) as [E|E]; [by injection Hn|].
  apply normalizeIpLiteral_canonical in Hn; [|done]. by destruct Hn.
Qed.

Context (lookup : EndpointDnsLookupFn) (hosts : list string) (url : string) (addresses : list string).
Context (capability : option capability_value) (before : Issued) (u : URL) (host : string) (trusted reached : list string).
Context (Hacc : accepted nets urls lookup hosts url addresses capability before issued u host trusted reached).
Context (Hissued : issued_by_code nets urls issued) (Hne : addresses ≠ []) (Hname : plain_name u).
Context (Hpins : pinnedAddresses opts = Some addresses) (Hcap : trustedPrivateCapability opts = capability).

Lemma pinned_name : host = hostname u ∧ isIP host = 0 ∧ addresses = reached ∧ NoDup addresses ∧ Forall canonical_literal addresses.
Proof using Hacc Hne Hname.
  pose proof (ac_normalized _ _ _ _ _ _ _ _ _ _ _ _ _ Hacc) as Hn. rewrite (pn_normal u Hname) in Hn. injection Hn as Hn.
  pose proof (ac_reached _ _ _ _ _ _ _ _ _ _ _ _ _ Hacc) as Hre.
  destruct (ac_answers _ _ _ _ _ _ _ _ _ _ _ _ _ Hacc) as [(_ & _ & ?)|(Hip & Hr & answers & _ & _ & Ha)]; [done|].
  split_and!; [done..| |].
  - rewrite Ha, sort_strings_perm. apply NoDup_distinct.
  - rewrite Hr. eapply Forall_impl; [exact Hre|]. by intros a [? _].
Qed.

Lemma replayed_addresses : getTrustedPrivateResolveAddresses nets issued opts u
  = Ok (match capability with Some _ => addresses | None => [] end).
Proof using Hacc Hissued Hne Hname Hpins Hcap.
  destruct pinned_name as (Hh & Hip & Hr & _). unfold getTrustedPrivateResolveAddresses. rewrite Hcap, Hpins.
  destruct (ac_capability _ _ _ _ _ _ _ _ _ _ _ _ _ Hacc) as [(-> & _ & _)|(-> & Hi & Htr & _)]; [done|].
  cbn [of_option mbind result_bind]. rewrite (bool_decide_eq_false_2 _ Hne). cbn [andb].
  assert (Hl : issued !! List.length before = Some (mkCapability host reached)).
  { rewrite Hi. by apply list_lookup_middle. }
  pose proof (issued_ok _ _ _ Hissued) as Hok. rewrite Forall_lookup in Hok. apply Hok in Hl as Hc.
  rewrite Hr. change reached with (cap_addresses (mkCapability host reached)) at 1.
  rewrite (assert_issued nets issued _ _ _ Hl Hc); [done|]. rewrite <- Hh. apply normalizeTrustedPrivateHost_fix, Hc.
Qed.

Lemma pins_admitted a : a ∈ addresses → isPrivateIp nets a = true → capability ≠ None.
Proof using Hacc Hne Hname.
  destruct pinned_name as (_ & _ & Hr & _). intros Ha Hp.
  destruct (ac_capability _ _ _ _ _ _ _ _ _ _ _ _ _ Hacc) as [(_ & _ & Hpub)|(Ec & _)]; [|by rewrite Ec].
  rewrite Forall_forall in Hpub. rewrite Hr in Ha. apply Hpub in Ha. by rewrite Hp in Ha.
Qed.

Lemma pins_resolve : ∃ value, buildResolvePinArgs urls url (Some addresses) = ["--resolve"; value]
  ∧ assertResolveMatchesApprovedEndpoint nets issued opts value u = Ok tt.
Proof using Hacc Hissued Hne Hname Hpins Hcap.
  destruct pinned_name as (Hh & Hip & Hr & Hnd & Hlit). destruct (pn_host u Hname) as [Hcolon Ht].
  destruct (default_port_ok u Hname) as [Hpc Hpt].
  assert (Hall : List.filter truthy addresses = addresses).
  { clear -Hlit. induction Hlit as [|a l Ha Hl IH]; [done|]. cbn. by rewrite literal_not_empty, IH. }
  eexists. split.
  { unfold buildResolvePinArgs. destruct addresses eqn:E; [done|]. rewrite <- E in *.
    rewrite (ac_parsed _ _ _ _ _ _ _ _ _ _ _ _ _ Hacc), (pn_bare u Hname), Ht, Hall, distinct_NoDup by done.
    by rewrite (bool_decide_eq_false_2 _ Hne). }
  unfold assertResolveMatchesApprovedEndpoint. rewrite resolve_parts_of by done. cbn [of_option mbind result_bind].
  rewrite encoded_addresses, replayed_addresses, Hpins by done. cbn [default mbind result_bind].
  rewrite distinct_NoDup, (bool_decide_eq_false_2 _ Hne), !String.eqb_refl by done. cbn [negb throw_unless mbind result_bind andb].
  assert (Hb : ∀ f, (∀ a, a ∈ addresses → f a = true) → forallb f addresses = true).
  { intros f Hf. apply forallb_forall. intros a Ha%list_elem_of_In. by apply Hf. }
  rewrite !Hb; [by unfold no_dup_b; rewrite Nat.eqb_refl, (bool_decide_eq_true_2 _ Hnd)|..]; intros a Ha.
  - rewrite Forall_forall in Hlit. apply negb_true_iff, Nat.eqb_neq, (Hlit a Ha).
  - destruct (isPrivateIp nets a) eqn:Ep; [|done]. pose proof (pins_admitted a Ha Ep) as Hc. cbn.
    destruct capability; [by apply includes_spec|done].
  - by apply includes_spec.
Qed.
End Accepted.

(** C29: What a preflight admits, a probe may use: when the endpoint of an accepted preflight
    has a plain name, the arguments that pin its addresses are one resolve option, and the
    validator takes it, with the capability the preflight issued, and goes on with the rest
    of the line; no second one is taken behind it. *)
Theorem preflight_pins_accepted nets urls resolve_path lookup hosts url issued addresses capability issued' u opts
    (Hissued : issued_by_code nets urls issued)
    (Hrun : assertEndpointResolvesPublic nets urls lookup hosts url issued = (Ok (PreflightOk addresses capability), issued'))
    (Hurl : parse_url urls url = Some u) (Hname : plain_name u) (Hne : addresses ≠ [])
    (Hpins : pinnedAddresses opts = Some addresses) (Hcap : trustedPrivateCapability opts = capability) :
  ∃ value, buildResolvePinArgs urls url (Some addresses) = ["--resolve"; value]
    ∧ ∀ rest,
        check_args nets resolve_path issued' opts u ("--resolve" :: value :: rest) false
          = check_args nets resolve_path issued' opts u rest true
        ∧ check_args nets resolve_path issued' opts u ("--resolve" :: value :: rest) true = Throw SecondResolve.
Proof.
  assert (Hissued' : issued_by_code nets urls issued') by by eapply issued_preflight.
  apply preflight_cases in Hrun as [[_ H]|(a & c & u' & host & trusted & reached & E & Ha)]; [by destruct (H addresses capability)|].
  injection E as <- <-. pose proof (ac_parsed _ _ _ _ _ _ _ _ _ _ _ _ _ Ha) as Hu. rewrite Hurl in Hu. injection Hu as <-.
  edestruct (pins_resolve nets urls issued' opts) as (value & Hargs & Hok); [done..|].
  exists value. split; [done|]. intros rest. split; [|reflexivity]. cbn -[assertResolveMatchesApprovedEndpoint]. by rewrite Hok.
Qed.

(** C7: A probe runs only what the rules allow: an accepted command line is its arguments and
    a URL, http or https without user, password or a query parameter named like a credential.
    Read as curl reads it, an option's value behind an equals sign, right behind a short
    option, or in the next argument, the line is of harmless flags and options, of redirects
    where the caller allows them, of trusted configuration files, of headers that are no file
    and none of the four credential headers, of data that begins with no file and names none
    behind an equals sign, and of one resolve option at most; that maps the host and port of
    the URL to exactly the approved addresses, each private one among those of a capability
    that was issued for the host.  Data may still name a file whose name begins with a dash,
    and a form field [f=@-] may go on with a comma and more files, which curl reads. *)
Theorem curl_line_allowed nets urls search_keys resolve_path issued opts argv args url
    (Hissued : issued_by_code nets urls issued)
    (Hok : validateCurlProbeArgs nets urls search_keys resolve_path issued opts argv = Ok (args, url)) :
  ∃ raw u target uses,
    argv = args ++ [raw] ∧ parse_url urls raw = Some u ∧ is_http u = true ∧ username u = "" ∧ password u = ""
    ∧ Forall param_plain (search_keys u)
    ∧ url = href urls u ∧ parse_url urls url = Some target
    ∧ reads_as args uses ∧ Forall (use_allowed nets resolve_path issued opts target) uses ∧ resolves uses ≤ 1.
Proof.
  unfold validateCurlProbeArgs in Hok. apply result_bind_ok in Hok as (url' & Hurl & Hok).
  apply result_bind_ok in Hok as (target & Htarget%of_option_ok & Hok). apply result_bind_ok in Hok as (tp & _ & Hok).
  apply result_bind_ok in Hok as (saw & Hargs & Hok). apply result_bind_ok in Hok as (_ & _ & [= <- <-]).
  unfold normalizeHttpProbeUrl in Hurl. apply result_bind_ok in Hurl as (raw & Hraw%of_option_ok & Hurl).
  apply result_bind_ok in Hurl as (u & Hu%of_option_ok & Hurl). apply result_bind_ok in Hurl as ([] & Hh%throw_unless_ok & Hurl).
  apply result_bind_ok in Hurl as ([] & Hc%throw_unless_ok%negb_true_iff%orb_false_iff & Hurl).
  destruct (List.find isCredentialShapedName (search_keys u)) eqn:Ef; [done|]. injection Hurl as <-.
  destruct (last argv) as [r|] eqn:El; [|done]. destruct (truthy (js_trim r)); [injection Hraw as ->|done].
  eapply check_args_accepted in Hargs as (uses & Hr & Ha & Hn); [|done..].
  exists raw, u, target, uses. split_and!; try done.
  - apply last_Some in El as [l ->]. by rewrite removelast_last.
  - destruct Hc as [Hc _]. by destruct (username u).
  - destruct Hc as [_ Hc]. by destruct (password u).
  - apply Forall_forall. intros param Hp%list_elem_of_In. apply param_checked. by eapply List.find_none.
  - destruct saw; cbn in Hn; lia.
Qed.

(** ** Witnesses *)

Definition sample_issued : Issued := [mkCapability "models.corp" ["10.1.2.3"; "2001:db9::1"]].
Definition sample_opts : CurlProbeArgOptions :=
  mkCurlOptions ["/tmp/key.cfg"] false (Some ["10.1.2.3"; "2001:db9::1"]) (Some (Reference 0)).
Definition sample_target : URL := plain_url "https:" "models.corp".
Definition sample_line : list string :=
  ["-sS"; "--config"; "/tmp/key.cfg"; "--resolve"; "models.corp:443:10.1.2.3,[2001:db9::1]"; "-H"; "accept: */*"; "https://models.corp/"].

Lemma sample_preflight :
  assertEndpointResolvesPublic shipped plain_parser sample_answers ["Models.Corp."] "https://models.corp/" []
  = (Ok (PreflightOk ["10.1.2.3"; "2001:db9::1"] (Some (Reference 0))), sample_issued).
Proof. vm_compute. reflexivity. Qed.

Lemma sample_name : plain_name sample_target.
Proof. split; [reflexivity|reflexivity|split; reflexivity|reflexivity]. Qed.

Lemma preflight_pins_accepted_witness :
  ∃ value, buildResolvePinArgs plain_parser "https://models.corp/" (Some ["10.1.2.3"; "2001:db9::1"]) = ["--resolve"; value]
    ∧ check_args shipped (λ path, path) sample_issued sample_opts sample_target ["--resolve"; value] false = Ok true.
Proof.
  destruct (preflight_pins_accepted shipped plain_parser (λ path, path) sample_answers ["Models.Corp."] "https://models.corp/" []
    ["10.1.2.3"; "2001:db9::1"] (Some (Reference 0)) sample_issued sample_target sample_opts
    (issued_none _ _) sample_preflight eq_refl sample_name ltac:(discriminate) eq_refl eq_refl) as (value & Hargs & Hrest).
  exists value. split; [exact Hargs|]. rewrite (proj1 (Hrest [])). reflexivity.
Defined.

Lemma curl_line_allowed_witness :
  ∃ uses, reads_as (removelast sample_line) uses
    ∧ Forall (use_allowed shipped (λ path, path) sample_issued sample_opts sample_target) uses ∧ resolves uses ≤ 1.
Proof.
  destruct (curl_line_allowed shipped plain_parser (λ _, []) (λ path, path) sample_issued sample_opts sample_line
    (removelast sample_line) "https://models.corp/") as (raw & u & target & uses & _ & Hu & _ & _ & _ & _ & Hurl & Ht & Hr & Ha & Hn).
  - eapply (issued_preflight _ _ [] sample_answers ["Models.Corp."] "https://models.corp/"); [apply issued_none|apply sample_preflight].
  - vm_compute. reflexivity.
  - exists uses. vm_compute in Ht. injection Ht as <-. split; [exact Hr|]. split; [exact Ha|exact Hn].
Defined.

(** Credentials, files and other destinations are refused. *)
Example refused_lines :
  let run := validateCurlProbeArgs shipped plain_parser (λ _, []) (λ path, path) sample_issued sample_opts in
  run ["-H"; " Authorization: Bearer x"; "https://models.corp/"] = Throw (InlineCredentials "-H")
  ∧ run ["-d@/etc/passwd"; "https://models.corp/"] = Throw (DataFromFile "-d")
  ∧ run ["--config=/etc/curlrc"; "https://models.corp/"] = Throw (ConfigNotTrusted "--config")
  ∧ run ["-L"; "https://models.corp/"] = Throw (RedirectNotAllowed "-L")
  ∧ run ["--resolve"; "models.corp:443:10.1.2.3"; "https://models.corp/"] = Throw ResolveNotPinned
  ∧ run ["-s"; "https://models.corp/"] = Throw CapabilityUnused.
Proof. repeat split; vm_compute; reflexivity. Qed.

(** A form field that goes on behind the standard input is taken. *)
Example form_reads_more :
  validateCurlProbeArgs shipped plain_parser (λ _, []) (λ path, path) [] (mkCurlOptions [] false None None)
    ["-F"; "f=@-,/etc/passwd"; "https://models.corp/"] = Ok (["-F"; "f=@-,/etc/passwd"], "https://models.corp/").
Proof. vm_compute. reflexivity. Qed.
