(* ===== verification/PolicyMerge.v ===== *)
(** * The live policy of a sandbox: reading it, and merging presets into it

    nemoclaw/src/shared/openshell-policy-boundary.cts (what of OpenShell's output counts as
    a policy), the merge and the removal of presets in policy/index.ts,
    policy/gateway-state.ts, the key of a foreign entry in policy/preset-ownership.ts and
    policy/semantic-validation.ts. *)

From S2P Require Import Prelude Json Canonical Regex Policy PrivateNetworks.

(** ** The boundary to OpenShell *)

Inductive policy_error : Type :=
| MissingPolicyDocument | InvalidPolicyYaml | PolicyNotMapping | VersionNotPositive | PoliciesNotMapping
| CurrentPolicyInvalid | PresetEntriesInvalid | NormalizedPolicyInvalid | ReservedByExclusion (key : string).

Section WithYaml.
Context {yaml : Yaml}.

(** [/(?:^|\r?\n)---[ \t]*(?:\r?\n|$)/]. *)
Definition line_break : regex := Seq (maybe (Chr (λ c, (code c =? 13)%N))) (Chr (λ c, (code c =? 10)%N)).
Definition document_separator : regex :=
  seqs [Alt Bol line_break; lit "---"; many (Chr (λ c, (code c =? 32)%N || (code c =? 9)%N)); Alt line_break Eol].

Definition assertValidatedPolicyFields (policy : list (string * json)) : result policy_error unit :=
  throw_unless (match jget policy "version" with
                | JUndef => true
                | JNum (NInt z) => (1 <=? z)%Z
                | _ => false
                end) VersionNotPositive;;
  throw_unless (match jget policy "network_policies" with JUndef | JObj _ => true | _ => false end)
    PoliciesNotMapping.

Definition parseOpenShellPolicy (raw : string) : result policy_error (string * list (string * json)) :=
  let separator := exec_from document_separator [] (chars raw) in
  let yamlBody := js_trim (match separator with
                           | Some (_, m) => of_chars (here m).2
                           | None => raw
                           end) in
  throw_unless (truthy yamlBody) MissingPolicyDocument;;
  parsed ← of_option InvalidPolicyYaml (yaml_parse yamlBody);
  policy ← of_option PolicyNotMapping (isObjectRecord parsed);
  assertValidatedPolicyFields policy;;
  throw_unless (bool_decide (is_Some separator) || hasOwn policy "version" || hasOwn policy "network_policies")
    MissingPolicyDocument;;
  Ok (yamlBody, policy).

Definition provider_composed (name : string) : bool := starts_with "_provider_" name.
Definition withoutProviderComposedPolicies (policies : list (string * json)) : list (string * json) :=
  from_entries (List.filter (λ kv, negb (provider_composed kv.1)) policies).

Definition stripProviderComposedPolicies (policy : string) : result policy_error string :=
  parsed ← of_option InvalidPolicyYaml (yaml_parse policy);
  match isObjectRecord parsed with
  | Some document =>
      match isObjectRecord (jget document "network_policies") with
      | Some policies =>
          let filtered := withoutProviderComposedPolicies policies in
          if (List.length filtered =? List.length policies)%nat then Ok policy
          else Ok (yaml_stringify (JObj (set_prop document "network_policies" (JObj filtered))))
      | None => Ok policy
      end
  | None => Ok policy
  end.

(** ** Presets *)

(** The text after the first line [network_policies:] that ends in a line feed, without
    trailing white space: the capture of the source's multi-line pattern, which runs to the
    end of the text. *)
Fixpoint after_policies_line (at_line_start : bool) (text : list ascii) : option (list ascii) :=
  let header := chars "network_policies:" ++ [ascii_of_N 10] in
  if at_line_start && bool_decide (take (List.length header) text = header)
  then Some (drop (List.length header) text)
  else match text with
       | [] => None
       | c :: text' => after_policies_line ((code c =? 10)%N || (code c =? 13)%N) text'
       end.
Definition extractPresetEntries (presetContent : string) : option string :=
  if truthy presetContent then
    of_chars ∘ drop_while_end is_space <$> after_policies_line true (chars presetContent)
  else None.

Definition parseCurrentPolicyOrEmpty (raw : string) : string :=
  if truthy raw then
    match parseOpenShellPolicy raw with Ok (yamlBody, _) => yamlBody | Throw _ => "" end
  else "".

Definition wrapped_entries (presetEntries : string) : string :=
  "network_policies:" +:+ one_char (ascii_of_N 10) +:+ presetEntries.

(** [parsed.network_policies] of wrapped preset entries: a non-empty map of objects. *)
Definition preset_policies (presetEntries : string) : option (list (string * json)) :=
  parsed ← yaml_parse (wrapped_entries presetEntries);
  document ← isPolicyDocument parsed;
  if isPresetPolicyMap (jget document "network_policies")
  then isPolicyObject (jget document "network_policies") else None.

(** The current policy as the merge and the removal begin: refused when there is text but
    no policy in it, and without the entries composed by providers. *)
Definition normalized_current (currentPolicy : string) : result policy_error string :=
  let parsedCurrentPolicy := parseCurrentPolicyOrEmpty currentPolicy in
  throw_unless (negb (truthy (js_trim currentPolicy) && negb (truthy parsedCurrentPolicy)))
    CurrentPolicyInvalid;;
  stripProviderComposedPolicies parsedCurrentPolicy.
Definition EMPTY_POLICY : string :=
  "version: 1" +:+ of_chars [ascii_of_N 10; ascii_of_N 10] +:+ "network_policies:" +:+ one_char (ascii_of_N 10).

Section Merge.
(** [Number] on what is no number itself. *)
Variable to_number : json → jsnum.

Definition mergePresetIntoPolicy (currentPolicy : string) (presetEntries : option string)
    : result policy_error string :=
  normalizedCurrentPolicy ← normalized_current currentPolicy;
  match presetEntries with
  | None | Some "" => Ok (if truthy normalizedCurrentPolicy then normalizedCurrentPolicy else EMPTY_POLICY)
  | Some entries =>
      presetPolicies ← of_option PresetEntriesInvalid (preset_policies entries);
      let presetPolicies := withoutProviderComposedPolicies presetPolicies in
      if truthy normalizedCurrentPolicy then
        current ← of_option NormalizedPolicyInvalid
                    (parsed ← yaml_parse normalizedCurrentPolicy; isPolicyDocument parsed);
        let mergedNp := match jget current "network_policies" with
                        | JObj existingNp => js_spread existingNp presetPolicies
                        | _ => presetPolicies
                        end in
        let kept := List.filter (λ kv, negb (kv.1 =s "version") && negb (kv.1 =s "network_policies")) current in
        Ok (yaml_stringify (JObj
          (set_prop (js_spread [("version", JNum (version_or_one to_number (jget current "version")))] kept)
             "network_policies" (JObj mergedNp))))
      else Ok (yaml_stringify (JObj [("version", JNum (NInt 1)); ("network_policies", JObj presetPolicies)]))
  end.

Definition removePresetFromPolicy (currentPolicy : string) (presetEntries : option string)
    : result policy_error string :=
  normalizedCurrentPolicy ← normalized_current currentPolicy;
  match presetEntries with
  | None | Some "" => Ok (if truthy normalizedCurrentPolicy then normalizedCurrentPolicy else EMPTY_POLICY)
  | Some entries =>
      presetPolicies ← of_option PresetEntriesInvalid (preset_policies entries);
      if truthy normalizedCurrentPolicy then
        current ← of_option NormalizedPolicyInvalid
                    (parsed ← yaml_parse normalizedCurrentPolicy; isPolicyDocument parsed);
        match jget current "network_policies" with
        | JObj existingNp =>
            Ok (yaml_stringify (JObj (set_prop current "network_policies"
                  (JObj (fold_left remove presetPolicies.*1 existingNp)))))
        | _ => Ok normalizedCurrentPolicy
        end
      else Ok EMPTY_POLICY
  end.
End Merge.

(** ** What a preset's content is in the live policy *)

Inductive PresetPolicyState : Type := PresetAbsent | PresetDrift | PresetMatch.

(** [policies && typeof policies === "object" && !Array.isArray(policies)] on
    [YAML.parse(text)?.network_policies]; the outer [None] when the parser throws. *)
Definition parsed_policies (text : string) : option (option (list (string * json))) :=
  parsed ← yaml_parse text;
  Some (match parsed with JObj document => isObjectRecord (jget document "network_policies") | _ => None end).

Definition entries_equal (current expected : list (string * json)) (key : string) : bool :=
  isDeepStrictEqual (jget current key) (jget expected key).

Definition classifyPresetEntries (currentPolicy presetEntries : string) : PresetPolicyState :=
  match parsed_policies currentPolicy, parsed_policies (wrapped_entries presetEntries) with
  | Some current, Some (Some ((_ :: _) as expected)) =>
      match current with
      | None => PresetAbsent
      | Some current =>
          if negb (existsb (λ kv, hasOwn current kv.1) expected) then PresetAbsent
          else if forallb (λ kv, hasOwn current kv.1 && entries_equal current expected kv.1) expected
          then PresetMatch else PresetDrift
      end
  | _, _ => PresetDrift
  end.

Definition policyDocumentsMatch (left right : string) : bool :=
  match yaml_parse left, yaml_parse right with
  | Some l, Some r => isDeepStrictEqual l r
  | _, _ => false
  end.

(** policy/gateway-state.ts.  [readPolicy] is [None] when it throws. *)
Definition readParsedPolicy (readPolicy : option string) : option (list (string * json)) :=
  rawPolicy ← readPolicy;
  let currentPolicy := parseCurrentPolicyOrEmpty rawPolicy in
  if truthy currentPolicy then parsed ← yaml_parse currentPolicy; isObjectRecord parsed else None.

(** [null] is [None]. *)
Definition inspectPresetContentGatewayState (readPolicy : option string) (presetContent : string)
    (policyKey : option string) : option PresetPolicyState :=
  parsed ← readParsedPolicy readPolicy;
  Some (match extractPresetEntries presetContent with
        | None | Some "" => PresetDrift
        | Some entries =>
            match isObjectRecord (jget parsed "network_policies"), parsed_policies (wrapped_entries entries) with
            | Some currentPolicies, Some (Some expectedPolicies) =>
                let expectedKeys := match policyKey with Some key => [key] | None => expectedPolicies.*1 end in
                match expectedKeys with
                | [] => PresetDrift
                | _ =>
                    if from_option (λ key, negb (hasOwn expectedPolicies key)) false policyKey then PresetDrift
                    else
                      let presentKeys := List.filter (hasOwn currentPolicies) expectedKeys in
                      if (List.length presentKeys =? 0)%nat then PresetAbsent
                      else if negb (List.length presentKeys =? List.length expectedKeys)%nat then PresetDrift
                      else if forallb (entries_equal currentPolicies expectedPolicies) expectedKeys
                      then PresetMatch else PresetDrift
                end
            | _, _ => PresetDrift
            end
        end).

(** policy/preset-ownership.ts: the outer [None] when the parser throws. *)
Definition findUnexpectedExistingPolicyKey (currentPolicy presetEntries : string)
    (expectedPolicyContent : option string) : option (option string) :=
  current ← parsed_policies currentPolicy;
  incoming ← parsed_policies (wrapped_entries presetEntries);
  expected ← match expectedPolicyContent with
             | None => Some []
             | Some content => default [] <$> parsed_policies content
             end;
  let current := default [] current in
  Some (List.find (λ key,
          let currentHasKey := hasOwn current key in
          match expectedPolicyContent with
          | None => currentHasKey
          | Some _ => negb currentHasKey || negb (hasOwn expected key) || negb (entries_equal current expected key)
          end) (default [] incoming).*1).

(** ** Egress that no preset may open *)

(** policy/semantic-validation.ts. *)
Definition DANGEROUS_HOSTS : list string := ["*"; "0.0.0.0"; "0.0.0.0/0"; "::"; "::/0"].

(** A port at the end, dropped. *)
Definition without_port (s : string) : string :=
  let digits := drop_while is_digit (rev (chars s)) in
  match digits with
  | c :: rest => if Ascii.eqb c ":" && negb (List.length digits =? String.length s)%nat then of_chars (rev rest) else s
  | [] => s
  end.
(** The text between square brackets, if that is all; the dot takes no line break. *)
Definition unbracketed (s : string) : string :=
  match chars s with
  | c :: l =>
      match rev l with
      | d :: inner =>
          if Ascii.eqb c "[" && Ascii.eqb d "]"
             && forallb (λ x, negb ((code x =? 10)%N || (code x =? 13)%N)) inner
          then of_chars (rev inner) else s
      | [] => s
      end
  | [] => s
  end.
Definition isDangerousHost (host : json) : bool :=
  match host with
  | JStr host =>
      let trimmed := js_trim host in
      includes DANGEROUS_HOSTS trimmed || includes DANGEROUS_HOSTS (unbracketed (without_port trimmed))
  | _ => false
  end.

(** The findings, as (policy, index of the endpoint, host). *)
Definition dangerous_endpoints (policyName : string) (endpoints : list json) : list (string * nat * string) :=
  omap (λ ie, match ie.2 with
              | JObj endpoint =>
                  match jget endpoint "host" with
                  | JStr host => if isDangerousHost (JStr host) then Some (policyName, ie.1, host) else None
                  | _ => None
                  end
              | _ => None
              end) (imap pair endpoints).
Definition findDangerousHosts (document : json) : list (string * nat * string) :=
  match document with
  | JObj d =>
      match jget d "network_policies" with
      | JObj policies =>
          List.concat (map (λ kv, match kv.2 with
                                  | JObj policy =>
                                      match jget policy "endpoints" with
                                      | JArr endpoints => dangerous_endpoints kv.1 endpoints
                                      | _ => []
                                      end
                                  | _ => []
                                  end) policies)
      | _ => []
      end
  | _ => []
  end.

(** [networkPoliciesHasAllowedIps] (policy/index.ts): an address pin anywhere but on the
    bridge to the host. *)
Definition HOST_GATEWAY_BRIDGE_HOST : string := OPENSHELL_SANDBOX_HOST_BRIDGE.
Definition endpointHostIsGatewayBridge (ep : list (string * json)) : bool :=
  match jget ep "host" with
  | JStr host =>
      js_lower (match rev (chars host) with
                | c :: l => if Ascii.eqb c "." then of_chars (rev l) else host
                | [] => host
                end) =s HOST_GATEWAY_BRIDGE_HOST
  | _ => false
  end.
Definition networkPoliciesHasAllowedIps (np : list (string * json)) : bool :=
  existsb (λ kv, match kv.2 with
                 | JObj policy =>
                     hasOwn policy "allowed_ips"
                     || match jget policy "endpoints" with
                        | JArr endpoints =>
                            existsb (λ ep, match ep with
                                           | JObj ep => hasOwn ep "allowed_ips" && negb (endpointHostIsGatewayBridge ep)
                                           | _ => false
                                           end) endpoints
                        | _ => false
                        end
                 | _ => false
                 end) np.
End WithYaml.

(** ** Lemmas: entries of a merged policy *)

Definition policies_of (document : list (string * json)) : list (string * json) :=
  match jget document "network_policies" with JObj policies => policies | _ => [] end.

Lemma own_perm (o o' : list (string * json)) k : NoDup o.*1 → o ≡ₚ o' → own o k = own o' k.
Proof.
  intros Hn Hp. assert (Hn' : NoDup o'.*1) by by rewrite <- Hp.
  assert (Hin : ∀ (o : list (string * json)) v, NoDup o.*1 → (k, v) ∈ o → own o k = Some v).
  { clear. intros o v. induction o as [|[k' v'] o IH]; intros Hn Hin; [by apply elem_of_nil in Hin|].
    cbn in *. apply NoDup_cons in Hn as [Hk Hn]. apply elem_of_cons in Hin as [[= <- <-]|Hin].
    - by rewrite String.eqb_refl.
    - destruct (String.eqb_spec k' k) as [->|]; [|by apply IH]. destruct Hk. by apply (list_elem_of_fmap_2 fst) in Hin. }
  destruct (own o k) as [v|] eqn:E.
  - apply own_some_in in E. rewrite Hp in E. by rewrite (Hin _ _ Hn' E).
  - destruct (own o' k) as [v|] eqn:E'; [|done]. apply own_some_in in E'. rewrite <- Hp in E'.
    by rewrite (Hin _ _ Hn E') in E.
Qed.

Lemma own_filter (f : string → bool) (o : list (string * json)) k :
  own (List.filter (λ kv, f kv.1) o) k = if f k then own o k else None.
Proof.
  induction o as [|[k' v] o IH]; cbn; [by destruct (f k)|].
  destruct (f k') eqn:E; cbn; rewrite IH; destruct (String.eqb_spec k' k) as [->|]; try done; by rewrite E.
Qed.

Lemma filter_nodup (f : string * json → bool) o : NoDup o.*1 → NoDup (List.filter f o).*1.
Proof.
  intros Hn. eapply sublist_NoDup; [exact Hn|]. clear. induction o as [|kv o IH]; [constructor|].
  cbn. destruct (f kv); cbn; by constructor.
Qed.

Lemma own_without_composed p k : NoDup p.*1 →
  own (withoutProviderComposedPolicies p) k = if provider_composed k then None else own p k.
Proof.
  intros Hn. unfold withoutProviderComposedPolicies.
  assert (Hf := filter_nodup (λ kv, negb (provider_composed kv.1)) p Hn).
  rewrite (own_perm _ (List.filter (λ kv, negb (provider_composed kv.1)) p));
    [|by rewrite from_entries_perm|by apply from_entries_perm].
  rewrite (own_filter (λ k, negb (provider_composed k))). by destruct (provider_composed k).
Qed.

Lemma own_spread o p k : NoDup p.*1 →
  own (js_spread o p) k = match own p k with Some v => Some v | None => own o k end.
Proof.
  unfold js_spread. revert o. induction p as [|[k' v] p IH]; intros o Hn; [done|].
  cbn in Hn. apply NoDup_cons in Hn as [Hk Hn]. cbn [fold_left fst snd own]. rewrite IH by done.
  rewrite own_set_prop. destruct (String.eqb_spec k' k) as [->|Hne].
  - rewrite decide_True by done. destruct (own p k) as [w|] eqn:E; [|done].
    apply own_some_in in E. by apply (list_elem_of_fmap_2 fst) in E.
  - by rewrite decide_False.
Qed.

Lemma plain_spread o p : plain_props o → plain_props p → plain_props (js_spread o p).
Proof.
  intros Ho [_ Hp]. unfold js_spread. revert o Ho. induction Hp as [|[k v] p Hv _ IH]; intros o Ho; [done|].
  cbn [fold_left fst snd]. apply IH. by apply plain_set_prop.
Qed.

Lemma plain_filter f o : plain_props o → plain_props (List.filter f o).
Proof.
  intros [Hn Hall]. split; [by apply filter_nodup|]. rewrite Forall_forall in *. intros kv Hkv.
  apply Hall, list_elem_of_In. apply list_elem_of_In, filter_In in Hkv. apply Hkv.
Qed.

Lemma plain_without_composed p : plain_props p → plain_props (withoutProviderComposedPolicies p).
Proof.
  intros Hp. unfold withoutProviderComposedPolicies.
  assert (H := plain_filter (λ kv, negb (provider_composed kv.1)) p Hp). destruct H as [Hn Hall].
  split; rewrite from_entries_perm; done.
Qed.

Lemma plain_policies document : plain_props document → plain_props (policies_of document).
Proof.
  intros Hd. unfold policies_of. rewrite jget_own. destruct (own document _) as [v|] eqn:E; [|by repeat constructor].
  apply plain_own in E; [|done]. destruct v; cbn; try by repeat constructor. by apply plain_object.
Qed.

Section Merging.
Context {yaml : Yaml} (to_number : json → jsnum).
Notation np := "network_policies".

(** The current policy, without what providers composed. *)
Lemma normalized_exact current body d :
  yaml_law yaml → parseOpenShellPolicy current = Ok (body, d) → plain_props d →
  ∃ text d1, normalized_current current = Ok text ∧ truthy text = true ∧ yaml_parse text = Some (JObj d1)
    ∧ plain_props d1 ∧ (∀ k, k ≠ np → own d1 k = own d k)
    ∧ (∀ k, own (policies_of d1) k = if provider_composed k then None else own (policies_of d) k)
    ∧ ((∃ p, jget d1 np = JObj p) ↔ (∃ p, jget d np = JObj p)).
Proof.
  intros Hlaw Hparse Hd. assert (Hcur : truthy current = true).
  { destruct (truthy current) eqn:E; [done|]. apply negb_false_iff, String.eqb_eq in E. by subst. }
  assert (Hbody : truthy body = true ∧ yaml_parse body = Some (JObj d)).
  { unfold parseOpenShellPolicy in Hparse. unfold throw_unless at 1 in Hparse.
    set (b := js_trim _) in Hparse. destruct (truthy b) eqn:Eb; [|done].
    cbn [mbind result_bind] in Hparse. destruct (yaml_parse b) as [parsed|] eqn:Ep; [|done].
    cbn [of_option mbind result_bind] in Hparse. destruct parsed as [| | | | | |o]; try done.
    cbn [of_option isObjectRecord mbind result_bind] in Hparse.
    destruct (assertValidatedPolicyFields o); [|done]. cbn [mbind result_bind throw_unless] in Hparse.
    unfold throw_unless in Hparse. destruct (_ || _); [|done]. by injection Hparse as <- <-. }
  destruct Hbody as [Hb Hp]. unfold normalized_current, parseCurrentPolicyOrEmpty. rewrite Hcur, Hparse, Hb.
  rewrite andb_false_r. cbn [negb throw_unless mbind result_bind]. unfold stripProviderComposedPolicies.
  rewrite Hp. cbn [of_option mbind result_bind isObjectRecord].
  destruct (isObjectRecord (jget d np)) as [p|] eqn:Ej; cycle 1.
  { exists body, d. split_and!; try done. intros k. unfold policies_of.
    destruct (jget d np); by destruct (provider_composed k). }
  assert (Ej' : jget d np = JObj p) by (destruct (jget d np); by simplify_eq/=).
  assert (Hpol : policies_of d = p) by (unfold policies_of; by rewrite Ej').
  assert (Hpp : plain_props p) by (rewrite <- Hpol; by apply plain_policies).
  destruct (List.length (withoutProviderComposedPolicies p) =? List.length p)%nat eqn:El.
  - exists body, d. split_and!; try done. intros k. rewrite Hpol. apply Nat.eqb_eq in El.
    destruct (provider_composed k) eqn:Ek; [|done]. destruct (own p k) as [v|] eqn:Eo; [|done]. exfalso.
    apply own_some_in in Eo.
    unfold withoutProviderComposedPolicies in El. rewrite from_entries_perm in El
      by (apply (filter_nodup (λ kv, negb (provider_composed kv.1))); apply Hpp).
    clear -El Eo Ek. induction p as [|kv p IH]; [by apply elem_of_nil in Eo|]. cbn in El.
    pose proof (List.filter_length_le (λ kv : string * json, negb (provider_composed kv.1)) p) as Hle.
    destruct (provider_composed kv.1) eqn:E; cbn in El; [lia|].
    apply elem_of_cons in Eo as [Eo|Eo]; [subst kv; cbn [fst] in E; congruence|]. apply IH; [lia|done].
  - eexists _, (set_prop d np (JObj (withoutProviderComposedPolicies p))). split; [done|].
    assert (Hd1 : plain_props (set_prop d np (JObj (withoutProviderComposedPolicies p)))).
    { apply plain_set_prop; [done|]. by apply plain_object, plain_without_composed. }
    split_and!; [apply truthy_true, Hlaw|by apply Hlaw, plain_object|done| | |].
    + intros k Hk. rewrite own_set_prop, decide_False; congruence.
    + intros k. unfold policies_of at 1. rewrite jget_set_prop, decide_True by done.
      rewrite own_without_composed by apply Hpp. by rewrite Hpol.
    + split; intros _; [by exists p|]. eexists. by rewrite jget_set_prop, decide_True.
Qed.

Lemma version_plain body current d :
  parseOpenShellPolicy current = Ok (body, d) →
  plain_document (JNum (version_or_one to_number (jget d "version"))).
Proof.
  intros H. assert (Hv : match jget d "version" with JUndef => True | JNum (NInt z) => (1 <= z)%Z | _ => False end).
  { unfold parseOpenShellPolicy in H. destruct (throw_unless _ _); [|done]. cbn [mbind result_bind] in H.
    destruct (yaml_parse _); [|done]. cbn [of_option mbind result_bind] in H.
    destruct (isObjectRecord _) as [o|]; [|done]. cbn [of_option mbind result_bind] in H.
    destruct (assertValidatedPolicyFields o) eqn:E; [|done]. cbn [mbind result_bind] in H.
    assert (o = d) as -> by (unfold throw_unless in H; destruct (_ || _); [by injection H|done]).
    unfold assertValidatedPolicyFields in E. unfold throw_unless at 1 in E.
    destruct (jget d "version") as [| | |[z| |]| | |]; try done. destruct (1 <=? z)%Z eqn:Ez; [|done]. lia. }
  destruct (jget d "version") as [| | |[z| |]| | |]; try done; [by apply plain_document_b|].
  cbn. destruct z; [lia|by apply plain_document_b|lia].
Qed.

Lemma preset_present entries p : preset_policies entries = Some p → ∃ kv l, p = kv :: l.
Proof.
  unfold preset_policies. destruct (yaml_parse _) as [parsed|]; [|done]. cbn [mbind option_bind].
  destruct (isPolicyDocument parsed) as [o|]; [|done]. cbn [mbind option_bind]. unfold isPresetPolicyMap.
  destruct (isPolicyObject _) as [[|kv l]|] eqn:E; [|intros H|done].
  - rewrite bool_decide_eq_true_2 by done. done.
  - exists kv, l. destruct (_ && _); [|done]. by injection H.
Qed.

Lemma merge_exact current body d entries p :
  yaml_law yaml → entries ≠ "" → preset_policies entries = Some p → plain_props p →
  parseOpenShellPolicy current = Ok (body, d) → plain_props d →
  ∃ merged d', mergePresetIntoPolicy to_number current (Some entries) = Ok merged
    ∧ yaml_parse merged = Some (JObj d')
    ∧ (∀ k, own (policies_of d') k
            = if provider_composed k then None
              else match own p k with Some v => Some v | None => own (policies_of d) k end)
    ∧ ∀ k, k ≠ "version" → k ≠ "network_policies" → own d' k = own d k.
Proof.
  intros Hlaw Hne Hpp Hplain Hparse Hd. destruct (normalized_exact current body d Hlaw Hparse Hd) as
    (text & d1 & Hn & Ht & Hy & Hd1 & Hrest & Hpol & Hiff).
  assert (He : ∀ A (x y : A), match entries with "" => x | _ => y end = y) by (intros; destruct entries; congruence).
  unfold mergePresetIntoPolicy. rewrite Hn. cbn [mbind result_bind]. rewrite !He, Hpp.
  cbn [of_option mbind result_bind]. rewrite Ht, Hy. cbn [mbind option_bind isPolicyDocument isObjectRecord of_option result_bind].
  set (merged := match jget d1 "network_policies" with JObj e => _ | _ => _ end).
  set (kept := List.filter _ d1). set (v := JNum _).
  assert (Hwp : plain_props (withoutProviderComposedPolicies p)) by by apply plain_without_composed.
  assert (Hmerged : plain_props merged ∧ ∀ k, own merged k
      = match own (withoutProviderComposedPolicies p) k with Some v => Some v | None => own (policies_of d1) k end).
  { unfold merged. pose proof (plain_policies d1 Hd1) as Hpd. unfold policies_of in *.
    destruct (jget d1 "network_policies"); try (split; [done|intros k; by destruct (own _ k)]).
    split; [by apply plain_spread|]. intros k. apply own_spread, Hwp. }
  destruct Hmerged as [Hmp Hmo].
  assert (Hout : plain_props (set_prop (js_spread [("version", v)] kept) "network_policies" (JObj merged))).
  { apply plain_set_prop; [|by apply plain_object]. apply plain_spread; [|by apply plain_filter].
    split; [by apply NoDup_singleton|]. constructor; [|constructor]. unfold v. cbn [snd].
    assert (E : jget d1 "version" = jget d "version") by (rewrite !jget_own, Hrest; done).
    rewrite E. by eapply version_plain. }
  eexists _, _. split; [done|]. split; [by apply Hlaw, plain_object|]. split.
  + intros k. unfold policies_of at 1. rewrite jget_set_prop, decide_True by done.
    rewrite Hmo, own_without_composed by apply Hplain. rewrite Hpol.
    destruct (provider_composed k); [done|]. by destruct (own p k).
  + intros k Hk1 Hk2. rewrite own_set_prop, decide_False by congruence.
    rewrite own_spread by (apply filter_nodup, Hd1).
    unfold kept. rewrite (own_filter (λ k, negb (k =s "version") && negb (k =s "network_policies"))).
    rewrite (proj2 (String.eqb_neq k _) Hk1), (proj2 (String.eqb_neq k _) Hk2). cbn [negb andb].
    rewrite Hrest by done. destruct (own d k); [done|]. cbn [own].
    destruct (String.eqb_spec "version" k); congruence.
Qed.

Lemma preset_removed_exact current body d entries p :
  yaml_law yaml → entries ≠ "" → preset_policies entries = Some p → plain_props p →
  parseOpenShellPolicy current = Ok (body, d) → plain_props d →
  ∃ removed d', removePresetFromPolicy current (Some entries) = Ok removed
    ∧ yaml_parse removed = Some (JObj d')
    ∧ (∀ k, own (policies_of d') k
            = if provider_composed k || hasOwn p k then None else own (policies_of d) k)
    ∧ ∀ k, k ≠ "network_policies" → own d' k = own d k.
Proof.
  intros Hlaw Hne Hpp Hplain Hparse Hd. destruct (normalized_exact current body d Hlaw Hparse Hd) as
    (text & d1 & Hn & Ht & Hy & Hd1 & Hrest & Hpol & Hiff).
  assert (He : ∀ A (x y : A), match entries with "" => x | _ => y end = y) by (intros; destruct entries; congruence).
  unfold removePresetFromPolicy. rewrite Hn. cbn [mbind result_bind]. rewrite !He, Hpp.
  cbn [of_option mbind result_bind]. rewrite Ht, Hy. cbn [mbind option_bind isPolicyDocument isObjectRecord of_option result_bind].
  assert (Hw : ∀ k, own (fold_left remove p.*1 (policies_of d1)) k
                = if provider_composed k || hasOwn p k then None else own (policies_of d) k).
  { intros k. change (fold_left remove p.*1 (policies_of d1)) with (without_keys (policies_of d1) p.*1).
    rewrite own_without, Hpol. assert (Hh : bool_decide (k ∈ p.*1) = hasOwn p k).
    { unfold hasOwn. clear. induction p as [|[k' v] p IH]; cbn; [done|]. rewrite <- IH.
      destruct (String.eqb_spec k' k) as [->|Hne]; cbn.
      - apply bool_decide_eq_true_2. by left.
      - apply bool_decide_ext. rewrite elem_of_cons. naive_solver. }
    rewrite Hh. by destruct (provider_composed k), (hasOwn p k). }
  assert (Hrem : plain_props (fold_left remove p.*1 (policies_of d1))).
  { pose proof (plain_policies d1 Hd1) as H. revert H. generalize (policies_of d1) p.*1. clear. intros o l.
    revert o. induction l as [|k l IH]; intros o Ho; [done|]. cbn [fold_left]. apply IH. by apply plain_remove. }
  destruct (preset_present entries p Hpp) as (kv & l & Ep).
  destruct (jget d1 "network_policies") as [| | | | | |existing] eqn:Ej;
    try (exists text, d1; split; [done|]; split; [done|]; split; [|done];
         intros k; rewrite Hpol; assert (Hnone : policies_of d = []) by
           (unfold policies_of; destruct (jget d "network_policies") as [| | | | | |x] eqn:Ex; try done;
            destruct (proj2 Hiff) as [y Hy']; [by exists x|discriminate Hy']);
         rewrite Hnone; by destruct (provider_composed k), (hasOwn p k)).
  assert (Hex : policies_of d1 = existing) by (unfold policies_of; by rewrite Ej). rewrite Hex in *.
  eexists _, _. split; [done|]. split; [apply Hlaw, plain_object, plain_set_prop; [done|by apply plain_object]|].
  split.
  + intros k. unfold policies_of at 1. by rewrite jget_set_prop, decide_True.
  + intros k Hk. rewrite own_set_prop, decide_False by congruence. by apply Hrest.
Qed.
End Merging.

(** ** Properties *)

(** C17: merging a preset into the live policy, and taking it out again.  For any output
    of OpenShell that holds a policy, the merged policy has the preset's entries, the other
    live entries as they were, and none that a provider composed; the policy without the
    preset has exactly the live entries that are neither; every other part of the document
    is untouched.  Output that holds text but no policy is refused, whatever the preset. *)
Theorem preset_merge_exact {yaml : Yaml} to_number current entries p :
  yaml_law yaml → entries ≠ "" → preset_policies entries = Some p → plain_props p →
  match parseOpenShellPolicy current with
  | Throw _ => truthy (js_trim current) = true →
      mergePresetIntoPolicy to_number current (Some entries) = Throw CurrentPolicyInvalid
      ∧ removePresetFromPolicy current (Some entries) = Throw CurrentPolicyInvalid
  | Ok (_, d) => plain_props d →
      (∃ merged d', mergePresetIntoPolicy to_number current (Some entries) = Ok merged
         ∧ yaml_parse merged = Some (JObj d')
         ∧ (∀ k, own (policies_of d') k
                 = if provider_composed k then None
                   else match own p k with Some v => Some v | None => own (policies_of d) k end)
         ∧ ∀ k, k ≠ "version" → k ≠ "network_policies" → own d' k = own d k)
      ∧ ∃ removed d', removePresetFromPolicy current (Some entries) = Ok removed
         ∧ yaml_parse removed = Some (JObj d')
         ∧ (∀ k, own (policies_of d') k
                 = if provider_composed k || hasOwn p k then None else own (policies_of d) k)
         ∧ ∀ k, k ≠ "network_policies" → own d' k = own d k
  end.
Proof.
  intros Hlaw Hne Hpp Hplain. destruct (parseOpenShellPolicy current) as [[body d]|e] eqn:Hparse; cycle 1.
  { intros Ht. assert (Hn : normalized_current current = Throw CurrentPolicyInvalid).
    { unfold normalized_current, parseCurrentPolicyOrEmpty. rewrite Hparse, Ht. by destruct (truthy current). }
    unfold mergePresetIntoPolicy, removePresetFromPolicy. by rewrite Hn. }
  intros Hd. split; [by eapply merge_exact|by eapply preset_removed_exact].
Qed.

(** ** On a concrete policy *)

Definition sample_preset : list (string * json) := [("npm", sample_entry "registry.npmjs.org")].
#[local] Instance preset_yaml : Yaml := {|
  yaml_parse := λ s, if s =s wrapped_entries "  npm:" then Some (JObj [("network_policies", JObj sample_preset)])
                     else read_coded s;
  yaml_stringify := coded_text
|}.
Lemma preset_yaml_law : yaml_law preset_yaml.
Proof.
  split; [|intros j; apply coded_text_nonempty]. intros j [_ Hp]. cbn [yaml_parse yaml_stringify preset_yaml].
  assert (E : (coded_text j =s wrapped_entries "  npm:") = false).
  { unfold coded_text. by destruct (encode (json_tree j)). }
  by rewrite E, read_coded_text.
Qed.

Definition live_document : list (string * json) :=
  [("version", JNum (NInt 1)); ("network_policies", JObj [("pypi", sample_entry "pypi.org");
                                                          ("_provider_x", JObj [])])].

Lemma preset_merge_exact_witness :
  ∃ merged d', mergePresetIntoPolicy (λ _, NNonFinite "NaN") (yaml_stringify (JObj live_document)) (Some "  npm:") = Ok merged
    ∧ yaml_parse merged = Some (JObj d')
    ∧ own (policies_of d') "npm" = Some (sample_entry "registry.npmjs.org")
    ∧ own (policies_of d') "pypi" = Some (sample_entry "pypi.org")
    ∧ own (policies_of d') "_provider_x" = None.
Proof.
  pose proof (preset_merge_exact (λ _, NNonFinite "NaN") (yaml_stringify (JObj live_document)) "  npm:" sample_preset
    preset_yaml_law) as H.
  assert (Hparse : parseOpenShellPolicy (yaml_stringify (JObj live_document))
                   = Ok (yaml_stringify (JObj live_document), live_document)) by (vm_compute; reflexivity).
  rewrite Hparse in H.
  destruct H as [(merged & d' & Hm & Hy & Ho & _) _].
  - discriminate.
  - vm_compute. reflexivity.
  - apply plain_object, plain_document_b. reflexivity.
  - apply plain_object, plain_document_b. reflexivity.
  - exists merged, d'. split; [exact Hm|]. split; [exact Hy|]. split; [exact (Ho "npm")|].
    split; [exact (Ho "pypi")|exact (Ho "_provider_x")].
Defined.
