(* ===== verification/McpPolicy.v ===== *)
(** * Policies across the Shields: managed MCP entries and permissive documents

    shields/mcp-policy-transition.ts and the documents of shields/permissive-runtime.ts
    (the files around them, and the commands of the Shields, are not modelled).  An entry whose key starts with [mcp_bridge_] is
    generated for an MCP bridge; a saved policy is restored with the entries of the bridges
    that exist now, never with those it was saved with. *)

From S2P Require Import Prelude Json Canonical Policy PrivateNetworks PolicyMerge.

(** ** mcp-policy-transition.ts *)

Record ExactManagedMcpPolicy := mkManaged {
  m_key : string;
  m_networkPolicy : json;
  m_policyName : string;
  m_server : string;
}.
Record ManagedMcpPolicyOmission := mkOmission {
  om_key : option string;
  om_policyName : option string;
  om_server : option string;
  om_reason : string;
}.

Inductive mcp_error : Type :=
| DocumentNotYaml | DocumentNotMapping | DocumentPoliciesNotMapping
| OwnershipInvalid | SnapshotLacks (key : string) | UnlistedReserved (key : string)
| AmbiguousKey (key : string) | NoOwnershipManifest
| BaseUnreadable | BaseNotMapping | CannotStage.

Definition MCP_BRIDGE_PREFIX : string := "mcp_bridge_".
Definition RESERVED_MANAGED_MCP_POLICY_KEY_RE (key : string) : bool := starts_with MCP_BRIDGE_PREFIX key.
Definition CANONICAL_MANAGED_MCP_POLICY_KEY_RE (key : string) : bool :=
  RESERVED_MANAGED_MCP_POLICY_KEY_RE key
  && match drop (String.length MCP_BRIDGE_PREFIX) (chars key) with
     | c :: l => is_lower c && forallb (λ c, is_lower c || is_digit c || Ascii.eqb c "_") l
                 && (List.length l <=? 63)%nat
     | [] => false
     end.
Definition isManagedMcpPolicyKey (value : json) : bool :=
  match value with JStr s => RESERVED_MANAGED_MCP_POLICY_KEY_RE s | _ => false end.

Section WithYaml.
Context {yaml : Yaml}.

Definition parsePolicyDocument (source : string) : result mcp_error (list (string * json)) :=
  parsed ← of_option DocumentNotYaml (yaml_parse source);
  of_option DocumentNotMapping (isObjectRecord parsed).

Definition readNetworkPolicies (document : list (string * json)) : result mcp_error (list (string * json)) :=
  match jget document "network_policies" with
  | JUndef | JNull => Ok []
  | JObj policies => Ok policies
  | _ => Throw DocumentPoliciesNotMapping
  end.

(** The loops over the saved keys, from the keys seen and the entries left. *)
Fixpoint strict_removal (snapshotKeys : list string) (targetPolicies : list (string * json)) (keys : list string)
    : result mcp_error (list (string * json)) :=
  match keys with
  | [] => Ok targetPolicies
  | key :: keys' =>
      throw_unless (CANONICAL_MANAGED_MCP_POLICY_KEY_RE key && negb (includes snapshotKeys key)) OwnershipInvalid;;
      throw_unless (hasOwn targetPolicies key) (SnapshotLacks key);;
      strict_removal (key :: snapshotKeys) (remove targetPolicies key) keys'
  end.
Fixpoint deadline_removal (snapshotKeys : list string) (targetPolicies : list (string * json))
    (omissions : list ManagedMcpPolicyOmission) (keys : list string)
    : list (string * json) * list ManagedMcpPolicyOmission :=
  match keys with
  | [] => (targetPolicies, omissions)
  | key :: keys' =>
      if negb (CANONICAL_MANAGED_MCP_POLICY_KEY_RE key) then
        deadline_removal snapshotKeys
          (if RESERVED_MANAGED_MCP_POLICY_KEY_RE key then remove targetPolicies key else targetPolicies)
          (omissions ++ [mkOmission (Some key) None None
             ("Saved Shields MCP policy ownership key '" +:+ key +:+ "' is invalid")]) keys'
      else if includes snapshotKeys key then
        deadline_removal snapshotKeys targetPolicies
          (omissions ++ [mkOmission (Some key) None None
             ("Saved Shields MCP policy '" +:+ key +:+ "' appeared more than once in its ownership manifest")]) keys'
      else
        deadline_removal (key :: snapshotKeys) (remove targetPolicies key)
          (if hasOwn targetPolicies key then omissions
           else omissions ++ [mkOmission None None None
                  ("Saved Shields MCP policy '" +:+ key +:+ "' was already absent from its policy snapshot")]) keys'
  end.
Definition deadline_unlisted (targetPolicies : list (string * json)) (omissions : list ManagedMcpPolicyOmission)
    : list (string * json) * list ManagedMcpPolicyOmission :=
  fold_left (λ '(policies, omissions) key,
      if RESERVED_MANAGED_MCP_POLICY_KEY_RE key then
        (remove policies key,
         omissions ++ [mkOmission (Some key) None None
           ("Reserved MCP policy key '" +:+ key +:+ "' was absent from the saved ownership manifest")])
      else (policies, omissions))
    targetPolicies.*1 (targetPolicies, omissions).

(** The loop that overlays the current entries. *)
Fixpoint overlay_current (currentKeys : list string) (targetPolicies : list (string * json))
    (policies : list ExactManagedMcpPolicy) : result mcp_error (list (string * json)) :=
  match policies with
  | [] => Ok targetPolicies
  | policy :: policies' =>
      throw_unless (CANONICAL_MANAGED_MCP_POLICY_KEY_RE (m_key policy) && negb (includes currentKeys (m_key policy)))
        (AmbiguousKey (m_key policy));;
      overlay_current (m_key policy :: currentKeys)
        (set_prop targetPolicies (m_key policy) (m_networkPolicy policy)) policies'
  end.

Definition composeManagedMcpPolicies (targetPolicyYaml : string) (currentPolicies : list ExactManagedMcpPolicy)
    (snapshotManagedPolicyKeys : list string) : result mcp_error string :=
  target ← parsePolicyDocument targetPolicyYaml;
  targetPolicies ← readNetworkPolicies target;
  targetPolicies ← strict_removal [] targetPolicies snapshotManagedPolicyKeys;
  match List.find RESERVED_MANAGED_MCP_POLICY_KEY_RE targetPolicies.*1 with
  | Some unclassifiedKey => Throw (UnlistedReserved unclassifiedKey)
  | None =>
      targetPolicies ← overlay_current [] targetPolicies currentPolicies;
      Ok (yaml_stringify (JObj (set_prop target "network_policies" (JObj targetPolicies))))
  end.

Definition composeDeadlineManagedMcpPolicies (targetPolicyYaml : string)
    (currentPolicies : list ExactManagedMcpPolicy) (snapshotManagedPolicyKeys : list string)
    : result mcp_error (string * list ManagedMcpPolicyOmission) :=
  target ← parsePolicyDocument targetPolicyYaml;
  targetPolicies ← readNetworkPolicies target;
  let '(targetPolicies, omissions) := deadline_removal [] targetPolicies [] snapshotManagedPolicyKeys in
  let '(targetPolicies, omissions) := deadline_unlisted targetPolicies omissions in
  targetPolicies ← overlay_current [] targetPolicies currentPolicies;
  Ok (yaml_stringify (JObj (set_prop target "network_policies" (JObj targetPolicies))), omissions).

Definition assertLegacyMcpPolicyRestoreSafe (snapshotPolicyYaml : string) (hasCurrentManagedClaims : bool)
    : result mcp_error unit :=
  snapshot ← parsePolicyDocument snapshotPolicyYaml;
  snapshotPolicies ← readNetworkPolicies snapshot;
  throw_unless (negb (hasCurrentManagedClaims || existsb RESERVED_MANAGED_MCP_POLICY_KEY_RE snapshotPolicies.*1))
    NoOwnershipManifest.

(** ** permissive-runtime.ts *)

Definition safeYamlObject (text : string) : option (list (string * json)) :=
  parsed ← yaml_parse text; isObjectRecord parsed.
Definition readStringList (root : option (list (string * json))) (key : string) : list string :=
  match root with
  | Some root =>
      match jget root "filesystem_policy" with
      | JObj fsPolicy => match jget fsPolicy key with JArr value => only_strings value | _ => [] end
      | _ => []
      end
  | None => []
  end.

(** [Set.prototype.add] and [delete] on a set in insertion order. *)
Definition set_add (l : list string) (x : string) : list string := if includes l x then l else l ++ [x].
Definition set_delete (l : list string) (x : string) : list string := List.filter (λ y, negb (y =s x)) l.

(** [baseRw] and [baseRo] after the two loops. *)
Definition union_paths (baseRw baseRo liveRw liveRo : list string) : list string * list string :=
  let '(rw, ro) := fold_left (λ '(rw, ro) p, (set_add rw p, set_delete ro p)) liveRw
                     (distinct baseRw, distinct baseRo) in
  (rw, fold_left (λ ro p, if includes rw p then ro else set_add ro p) liveRo ro).

(** Whether the static policy is kept as it is: nothing of the live one must be carried. *)
Definition keeps_base (live : option (list (string * json))) (managed : list ExactManagedMcpPolicy) : bool :=
  match readStringList live "read_write", readStringList live "read_only", managed with
  | [], [], [] => is_undefined (match live with Some l => jget l "landlock" | None => JUndef end)
  | _, _, _ => false
  end.

(** The base document with its two lists of paths replaced; properties of an array are not
    printed. *)
Definition with_paths (base : list (string * json)) (rw ro : list string) : list (string * json) :=
  match jget base "filesystem_policy" with
  | JArr _ => base
  | fs =>
      let fsPolicy := match fs with JObj o => o | _ => [] end in
      set_prop base "filesystem_policy"
        (JObj (set_prop (set_prop fsPolicy "read_write" (jstrs rw)) "read_only" (jstrs ro)))
  end.

(** The base document with the paths and the landlock stanza of the live one. *)
Definition carried (live : option (list (string * json))) (base : list (string * json)) : list (string * json) :=
  let '(rw, ro) := union_paths (readStringList (Some base) "read_write") (readStringList (Some base) "read_only")
                     (readStringList live "read_write") (readStringList live "read_only") in
  match (match live with Some l => jget l "landlock" | None => JUndef end) with
  | JUndef => with_paths base rw ro
  | landlock => set_prop (with_paths base rw ro) "landlock" landlock
  end.

(** What [buildRuntimePermissivePolicy] stages, from the text of the base policy: [None]
    when it falls back to the base. *)
Definition permissive_document (livePolicyYaml : string) (baseYaml : string)
    (managed : list ExactManagedMcpPolicy) : result mcp_error (option string) :=
  let live := if truthy livePolicyYaml then safeYamlObject livePolicyYaml else None in
  match safeYamlObject baseYaml with
  | None => match managed with [] => Ok None | _ => Throw BaseNotMapping end
  | Some base => Some <$> composeManagedMcpPolicies (yaml_stringify (JObj (carried live base))) managed []
  end.

(** The path that is applied is that of the staged text, or for [None] of the base policy;
    the base may be unreadable, and the text fail to be staged. *)
Definition buildRuntimePermissivePolicy (livePolicyYaml : string) (readBasePolicy : option string)
    (managedMcpPolicies : list ExactManagedMcpPolicy) (can_stage : bool) : result mcp_error (option string) :=
  let live := if truthy livePolicyYaml then safeYamlObject livePolicyYaml else None in
  let fall_back e := match managedMcpPolicies with [] => Ok None | _ => Throw e end in
  if keeps_base live managedMcpPolicies then Ok None
  else match readBasePolicy with
       | None => fall_back BaseUnreadable
       | Some baseYaml =>
           staged ← permissive_document livePolicyYaml baseYaml managedMcpPolicies;
           match staged with
           | None => Ok None
           | Some text => if can_stage then Ok (Some text) else fall_back CannotStage
           end
       end.
End WithYaml.

(** ** Lemmas: the removal of saved entries *)

Section Composition.
Context {yaml : Yaml}.
Implicit Types (p : list (string * json)) (om : list ManagedMcpPolicyOmission) (cur : list ExactManagedMcpPolicy).

Notation reserved := RESERVED_MANAGED_MCP_POLICY_KEY_RE.

Lemma canonical_reserved key : CANONICAL_MANAGED_MCP_POLICY_KEY_RE key = true → reserved key = true.
Proof. unfold CANONICAL_MANAGED_MCP_POLICY_KEY_RE. intros H. by bools. Qed.

(** The tolerant loop does what the strict one does and says so by no omission. *)
Lemma deadline_more seen p om keys : ∃ more, (deadline_removal seen p om keys).2 = om ++ more.
Proof.
  revert seen p om. induction keys as [|key keys IH]; intros seen p om; cbn [deadline_removal]; [by exists []; rewrite app_nil_r|].
  assert (Hx : ∀ seen' p' x, ∃ more, (deadline_removal seen' p' (om ++ [x]) keys).2 = om ++ more).
  { intros seen' p' x. destruct (IH seen' p' (om ++ [x])) as [more ->]. rewrite <- app_assoc. by eexists. }
  destruct (negb _); [apply Hx|]. destruct (includes _ _); [apply Hx|]. by destruct (hasOwn p key).
Qed.

Lemma deadline_adds seen p om x keys : (deadline_removal seen p (om ++ [x]) keys).2 ≠ om.
Proof.
  destruct (deadline_more seen p (om ++ [x]) keys) as [more ->]. rewrite <- app_assoc. intros H.
  apply (f_equal List.length) in H. rewrite length_app in H. cbn in H. lia.
Qed.

Lemma strict_deadline seen p om keys :
  match strict_removal seen p keys with
  | Ok p' => deadline_removal seen p om keys = (p', om)
  | Throw _ => (deadline_removal seen p om keys).2 ≠ om
  end.
Proof.
  revert seen p om. induction keys as [|key keys IH]; intros seen p om; cbn [strict_removal deadline_removal]; [done|].
  unfold throw_unless at 1. destruct (CANONICAL_MANAGED_MCP_POLICY_KEY_RE key) eqn:Ec; cbn [negb andb];
    [|cbn [mbind result_bind]; by apply deadline_adds].
  destruct (includes seen key) eqn:Ei; cbn [negb mbind result_bind]; [by apply deadline_adds|].
  unfold throw_unless at 1. destruct (hasOwn p key) eqn:Eh; cbn [mbind result_bind]; [apply IH|by apply deadline_adds].
Qed.

Lemma deadline_kept seen p om keys k :
  reserved k = false → own (deadline_removal seen p om keys).1 k = own p k.
Proof.
  intros Hk. revert seen p om. induction keys as [|key keys IH]; intros seen p om; cbn [deadline_removal]; [done|].
  assert (Hr : reserved key = true → own (remove p key) k = own p k)
    by (intros Hr; rewrite own_remove, decide_False by congruence; done).
  destruct (negb _) eqn:Ec; [rewrite IH; destruct (reserved key) eqn:Er; [by apply Hr|done]|].
  destruct (includes _ _); [apply IH|]. rewrite IH. bools. by apply Hr, canonical_reserved.
Qed.

Lemma deadline_plain seen p om keys : plain_props p → plain_props (deadline_removal seen p om keys).1.
Proof.
  revert seen p om. induction keys as [|key keys IH]; intros seen p om Hp; cbn [deadline_removal]; [done|].
  destruct (negb _); [apply IH; destruct (reserved key); [by apply plain_remove|done]|].
  destruct (includes _ _); [by apply IH|]. by apply IH, plain_remove.
Qed.

(** Entries in no manifest. *)
Lemma unlisted_exact p om :
  let '(p', om') := deadline_unlisted p om in
  (∀ k, own p' k = if reserved k then None else own p k)
  ∧ (plain_props p → plain_props p')
  ∧ match List.find reserved p.*1 with
    | None => p' = p ∧ om' = om
    | Some _ => (List.length om < List.length om')%nat
    end.
Proof.
  unfold deadline_unlisted.
  set (step := λ '(policies, omissions) key, _).
  assert (H : ∀ l q o, let '(q', o') := fold_left step l (q, o) in
    (∀ k, own q' k = if bool_decide (k ∈ l) && reserved k then None else own q k)
    ∧ (plain_props q → plain_props q')
    ∧ (List.length o <= List.length o')%nat
    ∧ match List.find reserved l with None => q' = q ∧ o' = o | Some _ => (List.length o < List.length o')%nat end).
  { induction l as [|key l IH]; intros q o; cbn [fold_left List.find]; [done|].
    unfold step at 2. destruct (reserved key) eqn:Er.
    - specialize (IH (remove q key) (o ++ [mkOmission (Some key) None None
        ("Reserved MCP policy key '" +:+ key +:+ "' was absent from the saved ownership manifest")])).
      destruct (fold_left step l _) as [q' o']. destruct IH as (Ho & Hpl & Hle & _).
      rewrite length_app in Hle. cbn in Hle. split_and!; [|intros Hq; by apply Hpl, plain_remove|lia|lia].
      intros k. rewrite Ho, own_remove. destruct (decide (key = k)) as [<-|Hne].
      + rewrite (bool_decide_eq_true_2 (key ∈ key :: l)) by by left. rewrite Er. by destruct (bool_decide _).
      + rewrite (bool_decide_ext (k ∈ key :: l) (k ∈ l)) by (rewrite elem_of_cons; naive_solver). done.
    - specialize (IH q o). destruct (fold_left step l _) as [q' o']. destruct IH as (Ho & Hpl & Hle & Hf).
      split_and!; [|done|done|done]. intros k. rewrite Ho. destruct (decide (key = k)) as [<-|Hne]; [by rewrite Er, !andb_false_r|].
      by rewrite (bool_decide_ext (k ∈ key :: l) (k ∈ l)) by (rewrite elem_of_cons; naive_solver). }
  specialize (H p.*1 p om). destruct (fold_left step p.*1 (p, om)) as [p' om']. destruct H as (Ho & Hpl & _ & Hf).
  split_and!; [|done|done]. intros k. rewrite Ho. destruct (reserved k); [|by rewrite andb_false_r].
  rewrite andb_true_r. case_bool_decide as Hk; [done|]. destruct (own p k) as [v|] eqn:E; [|done].
  apply own_some_in in E. by apply (list_elem_of_fmap_2 fst) in E.
Qed.

(** ** Lemmas: the current entries *)

Definition current_entry cur (k : string) : option json := m_networkPolicy <$> List.find (λ m, m_key m =s k) cur.
(** Each entry has a canonical key of its own. *)
Definition unambiguous cur : Prop :=
  NoDup (m_key <$> cur) ∧ Forall (λ m, CANONICAL_MANAGED_MCP_POLICY_KEY_RE (m_key m) = true) cur.

Lemma overlay_exact seen p cur :
  match overlay_current seen p cur with
  | Ok p' => unambiguous cur ∧ (∀ m, m ∈ cur → m_key m ∉ seen)
      ∧ (∀ k, own p' k = match current_entry cur k with Some v => Some v | None => own p k end)
      ∧ (plain_props p → Forall (λ m, plain_document (m_networkPolicy m)) cur → plain_props p')
  | Throw e => (∃ key, e = AmbiguousKey key) ∧ ¬ (unambiguous cur ∧ ∀ m, m ∈ cur → m_key m ∉ seen)
  end.
Proof.
  revert seen p. induction cur as [|m cur IH]; intros seen p; cbn [overlay_current].
  { split_and!; [split; constructor|by intros ? ?%elem_of_nil|done|done]. }
  unfold throw_unless. destruct (CANONICAL_MANAGED_MCP_POLICY_KEY_RE (m_key m)) eqn:Ec; cbn [andb mbind result_bind].
  2: { split; [by eexists|]. intros [[_ Hall] _]. apply Forall_cons in Hall as [H _]. congruence. }
  destruct (includes seen (m_key m)) eqn:Ei; cbn [negb mbind result_bind].
  { split; [by eexists|]. intros [_ Hs]. bools. by apply (Hs m); [left|]. }
  assert (Hni : m_key m ∉ seen) by (intros Hin; by apply includes_spec in Hin; rewrite Hin in Ei).
  specialize (IH (m_key m :: seen) (set_prop p (m_key m) (m_networkPolicy m))).
  destruct (overlay_current _ _ cur) as [p'|e].
  - destruct IH as ([Hn Hall] & Hs & Ho & Hpl). split_and!.
    + split; [|by constructor]. cbn. constructor; [|done]. intros (m' & E & Hm')%list_elem_of_fmap.
      apply (Hs m' Hm'). rewrite <- E. by left.
    + intros m' [->|Hm']%elem_of_cons; [done|]. intros Hin. apply (Hs m' Hm'). by right.
    + intros k. rewrite Ho. unfold current_entry. cbn [List.find]. rewrite own_set_prop.
      destruct (String.eqb_spec (m_key m) k) as [Em|Hne]; [|by rewrite decide_False].
      rewrite decide_True by done. cbn. destruct (List.find _ cur) as [m'|] eqn:Ef; [|done].
      apply find_some in Ef as [Hm' Ek]. bools. apply list_elem_of_In in Hm'.
      destruct (Hs m' Hm'). rewrite Ek, Em. by left.
    + intros Hp Hcur. apply Forall_cons in Hcur as [? ?]. apply Hpl; [by apply plain_set_prop|done].
  - destruct IH as [? Hno]. split; [done|]. intros [[Hn Hall] Hs]. apply Hno. apply Forall_cons in Hall as [_ Hall].
    cbn in Hn. apply NoDup_cons in Hn as [Hk Hn]. split; [by split|].
    intros m' Hm' [E|Hin]%elem_of_cons; [|by apply (Hs m'); [right|]].
    destruct Hk. rewrite <- E. by apply list_elem_of_fmap_2.
Qed.

Lemma overlay_top p cur :
  match overlay_current [] p cur with
  | Ok p' => unambiguous cur
      ∧ (∀ k, own p' k = match current_entry cur k with Some v => Some v | None => own p k end)
      ∧ (plain_props p → Forall (λ m, plain_document (m_networkPolicy m)) cur → plain_props p')
  | Throw e => (∃ key, e = AmbiguousKey key) ∧ ¬ unambiguous cur
  end.
Proof.
  pose proof (overlay_exact [] p cur) as H. destruct (overlay_current [] p cur).
  - by destruct H as (? & _ & ? & ?).
  - destruct H as [? H]. split; [done|]. intros Hu. apply H. split; [done|]. by intros m _ ?%elem_of_nil.
Qed.

(** ** Lemmas: composed documents *)

(** A policy document with its entries replaced by those of another, but for the ones of
    the bridges that exist now. *)
Definition restores (d : list (string * json)) cur (d' : list (string * json)) : Prop :=
  (∀ k, own (policies_of d') k = match current_entry cur k with
                                 | Some v => Some v
                                 | None => if reserved k then None else own (policies_of d) k
                                 end)
  ∧ ∀ k, k ≠ "network_policies" → own d' k = own d k.

Lemma read_policies d p : readNetworkPolicies d = Ok p → p = policies_of d.
Proof. unfold readNetworkPolicies, policies_of. by destruct (jget d _); try intros [= <-]. Qed.

Lemma deadline_policies p cur keys :
  plain_props p → Forall (λ m, plain_document (m_networkPolicy m)) cur →
  let removed := deadline_removal [] p [] keys in
  let unlisted := deadline_unlisted removed.1 removed.2 in
  match overlay_current [] unlisted.1 cur with
  | Ok p' => unambiguous cur ∧ plain_props p'
      ∧ ∀ k, own p' k = match current_entry cur k with
                        | Some v => Some v
                        | None => if reserved k then None else own p k
                        end
  | Throw e => (∃ key, e = AmbiguousKey key) ∧ ¬ unambiguous cur
  end.
Proof.
  intros Hp Hcur removed unlisted. pose proof (unlisted_exact removed.1 removed.2) as Hu.
  fold unlisted in Hu. destruct unlisted as [p1 om1] eqn:E1. destruct Hu as (Ho & Hpl & _). cbn [fst].
  pose proof (overlay_top p1 cur) as Ht. destruct (overlay_current [] p1 cur) as [p'|e]; [|done].
  destruct Ht as (Hun & Hk & Hplain). split_and!; [done|by apply Hplain; [apply Hpl, deadline_plain|]|].
  intros k. rewrite Hk. destruct (current_entry cur k); [done|]. rewrite Ho. destruct (reserved k) eqn:Er; [done|].
  by apply deadline_kept.
Qed.

Lemma composed_restores d p' cur : yaml_law yaml → plain_props d → plain_props p' →
  (∀ k, own p' k = match current_entry cur k with
                   | Some v => Some v
                   | None => if reserved k then None else own (policies_of d) k
                   end) →
  ∃ d', yaml_parse (yaml_stringify (JObj (set_prop d "network_policies" (JObj p')))) = Some (JObj d')
        ∧ plain_props d' ∧ restores d cur d'.
Proof.
  intros Hlaw Hd Hp Ho. set (d' := set_prop d "network_policies" (JObj p')). exists d'.
  assert (Hd' : plain_props d') by (apply plain_set_prop; [done|by apply plain_object]).
  split; [by apply Hlaw, plain_object|]. split; [done|]. split.
  - intros k. unfold policies_of at 1. unfold d'. by rewrite jget_set_prop, decide_True, Ho.
  - intros k Hk. unfold d'. by rewrite own_set_prop, decide_False by congruence.
Qed.

(** The strict composition is the tolerant one without omissions. *)
Lemma strict_is_tolerant text cur keys :
  match composeDeadlineManagedMcpPolicies text cur keys with
  | Ok (out, []) => composeManagedMcpPolicies text cur keys = Ok out
  | _ => ∃ e, composeManagedMcpPolicies text cur keys = Throw e
  end.
Proof.
  unfold composeDeadlineManagedMcpPolicies, composeManagedMcpPolicies.
  destruct (parsePolicyDocument text) as [d|e]; cbn [mbind result_bind]; [|by eexists].
  destruct (readNetworkPolicies d) as [p|e]; cbn [mbind result_bind]; [|by eexists].
  pose proof (strict_deadline [] p [] keys) as Hs. destruct (deadline_removal [] p [] keys) as [p1 om1] eqn:E1.
  pose proof (unlisted_exact p1 om1) as Hu. destruct (deadline_unlisted p1 om1) as [p2 om2].
  destruct Hu as (_ & _ & Hu). destruct (strict_removal [] p keys) as [p1'|e]; cbn [mbind result_bind].
  - injection Hs as <- ->. destruct (List.find reserved p1.*1).
    + destruct om2; [cbn in Hu; lia|]. destruct (overlay_current [] p2 cur); by eexists.
    + destruct Hu as [-> ->]. destruct (overlay_current [] p1 cur); [done|by eexists].
  - cbn [snd] in Hs. assert (om2 ≠ []).
    { destruct (List.find _ _); [destruct om2; [cbn in Hu; lia|done]|]. by destruct Hu as [_ ->]. }
    destruct (overlay_current [] p2 cur); cbn [mbind result_bind]; [destruct om2; [done|]|]; by eexists.
Qed.

Lemma tolerant_restores text d cur keys out om : yaml_law yaml → parsePolicyDocument text = Ok d → plain_props d →
  Forall (λ m, plain_document (m_networkPolicy m)) cur → composeDeadlineManagedMcpPolicies text cur keys = Ok (out, om) →
  unambiguous cur ∧ ∃ d', yaml_parse out = Some (JObj d') ∧ plain_props d' ∧ restores d cur d'.
Proof.
  intros Hlaw Ht Hd Hcur. unfold composeDeadlineManagedMcpPolicies. rewrite Ht. cbn [mbind result_bind].
  destruct (readNetworkPolicies d) as [p|e] eqn:Ep; cbn [mbind result_bind]; [|done]. apply read_policies in Ep as ->.
  pose proof (deadline_policies (policies_of d) cur keys (plain_policies d Hd) Hcur) as H.
  destruct (deadline_removal [] (policies_of d) [] keys) as [p1 om1]. cbn [fst snd] in H.
  destruct (deadline_unlisted p1 om1) as [p2 om2]. cbn [fst] in H.
  destruct (overlay_current [] p2 cur) as [p'|e]; cbn [mbind result_bind]; [|done].
  destruct H as (Hun & Hp' & Ho). intros [= <- _]. split; [done|]. by apply composed_restores.
Qed.

Lemma strict_restores text d cur keys out : yaml_law yaml → parsePolicyDocument text = Ok d → plain_props d →
  Forall (λ m, plain_document (m_networkPolicy m)) cur → composeManagedMcpPolicies text cur keys = Ok out →
  unambiguous cur ∧ ∃ d', yaml_parse out = Some (JObj d') ∧ plain_props d' ∧ restores d cur d'.
Proof.
  intros Hlaw Ht Hd Hcur Hs. pose proof (strict_is_tolerant text cur keys) as H.
  destruct (composeDeadlineManagedMcpPolicies text cur keys) as [[out' [|x om]]|e] eqn:E.
  - rewrite Hs in H. injection H as <-. by eapply tolerant_restores.
  - destruct H as [e H]. by rewrite Hs in H.
  - destruct H as [e' H]. by rewrite Hs in H.
Qed.

(** Nothing but ambiguous current entries keeps a readable snapshot from being restored at
    the deadline. *)
Lemma deadline_total text d cur keys : parsePolicyDocument text = Ok d → plain_props d →
  Forall (λ m, plain_document (m_networkPolicy m)) cur →
  match composeDeadlineManagedMcpPolicies text cur keys with
  | Ok _ => True
  | Throw e => e = DocumentPoliciesNotMapping ∨ ((∃ key, e = AmbiguousKey key) ∧ ¬ unambiguous cur)
  end.
Proof.
  intros Ht Hd Hcur. unfold composeDeadlineManagedMcpPolicies. rewrite Ht. cbn [mbind result_bind].
  destruct (readNetworkPolicies d) as [p|e] eqn:Ep; cbn [mbind result_bind].
  2: { left. unfold readNetworkPolicies in Ep. by destruct (jget d _); try injection Ep. }
  apply read_policies in Ep as ->.
  pose proof (deadline_policies (policies_of d) cur keys (plain_policies d Hd) Hcur) as H.
  destruct (deadline_removal [] (policies_of d) [] keys) as [p1 om1]. cbn [fst snd] in H.
  destruct (deadline_unlisted p1 om1) as [p2 om2]. cbn [fst] in H.
  destruct (overlay_current [] p2 cur) as [p'|e]; cbn [mbind result_bind]; [done|]. by right.
Qed.
End Composition.

(** ** Lemmas: paths *)

Lemma elem_set_add l x y : y ∈ set_add l x ↔ y ∈ l ∨ y = x.
Proof.
  unfold set_add. destruct (includes l x) eqn:E.
  - bools. split; [by left|]. intros [?| ->]; done.
  - rewrite elem_of_app, list_elem_of_singleton. done.
Qed.
Lemma elem_set_delete l x y : y ∈ set_delete l x ↔ y ∈ l ∧ y ≠ x.
Proof.
  unfold set_delete. rewrite list_elem_of_In, filter_In, <- list_elem_of_In, negb_true_iff, String.eqb_neq. done.
Qed.

Lemma union_paths_exact baseRw baseRo liveRw liveRo :
  let '(rw, ro) := union_paths baseRw baseRo liveRw liveRo in
  (∀ p, p ∈ rw ↔ p ∈ baseRw ∨ p ∈ liveRw)
  ∧ ∀ p, p ∈ ro ↔ (p ∈ baseRo ∧ p ∉ liveRw) ∨ (p ∈ liveRo ∧ p ∉ rw).
Proof.
  unfold union_paths. set (step := λ '(rw, ro) p, (set_add rw p, set_delete ro p)).
  assert (H1 : ∀ l rw ro, (∀ p, p ∈ (fold_left step l (rw, ro)).1 ↔ p ∈ rw ∨ p ∈ l)
                          ∧ ∀ p, p ∈ (fold_left step l (rw, ro)).2 ↔ p ∈ ro ∧ p ∉ l).
  { induction l as [|x l IH]; intros rw ro; cbn [fold_left].
    - split; intros p; cbn; rewrite ?elem_of_nil; naive_solver.
    - change (step (rw, ro) x) with (set_add rw x, set_delete ro x).
      destruct (IH (set_add rw x) (set_delete ro x)) as [Ha Hb]. split; intros p.
      + rewrite Ha, elem_set_add, elem_of_cons. naive_solver.
      + rewrite Hb, elem_set_delete, elem_of_cons. naive_solver. }
  destruct (H1 liveRw (distinct baseRw) (distinct baseRo)) as [Ha Hb].
  destruct (fold_left step liveRw _) as [rw ro]. cbn [fst snd] in *.
  assert (H2 : ∀ l ro, ∀ p, p ∈ fold_left (λ ro p, if includes rw p then ro else set_add ro p) l ro
                            ↔ p ∈ ro ∨ (p ∈ l ∧ p ∉ rw)).
  { induction l as [|x l IH]; intros ro' p; cbn [fold_left]; [rewrite elem_of_nil; naive_solver|].
    rewrite IH, elem_of_cons. destruct (includes rw x) eqn:E.
    - bools. naive_solver.
    - assert (x ∉ rw) by (intros Hin; by apply includes_spec in Hin; rewrite Hin in E).
      rewrite elem_set_add. naive_solver. }
  split; intros p; [rewrite Ha, elem_of_distinct; done|]. rewrite H2, Hb, elem_of_distinct. done.
Qed.

Lemma plain_jstrs l : plain_document (jstrs l).
Proof.
  split; unfold jstrs; cbn [plain_json].
  - apply wk_arr. apply Forall_forall. intros x (y & -> & _)%list_elem_of_fmap. by apply wk_leaf.
  - by induction l.
Qed.

(** ** Lemmas: the permissive document *)

Definition landlock_of (root : option (list (string * json))) : json :=
  match root with Some o => jget o "landlock" | None => JUndef end.

Lemma carried_exact live b : plain_props b → (∀ l, live = Some l → plain_props l) →
  (∀ a, jget b "filesystem_policy" ≠ JArr a) →
  plain_props (carried live b)
  ∧ (∀ k, k ≠ "filesystem_policy" → k ≠ "landlock" → own (carried live b) k = own b k)
  ∧ jget (carried live b) "landlock" = (if is_undefined (landlock_of live) then jget b "landlock" else landlock_of live)
  ∧ let '(rw, ro) := union_paths (readStringList (Some b) "read_write") (readStringList (Some b) "read_only")
                       (readStringList live "read_write") (readStringList live "read_only") in
    readStringList (Some (carried live b)) "read_write" = rw ∧ readStringList (Some (carried live b)) "read_only" = ro.
Proof.
  intros Hb Hl Harr. unfold carried. destruct (union_paths _ _ _ _) as [rw ro].
  set (fs := match jget b "filesystem_policy" with JObj o => o | _ => [] end).
  set (fs' := set_prop (set_prop fs "read_write" (jstrs rw)) "read_only" (jstrs ro)).
  assert (E : with_paths b rw ro = set_prop b "filesystem_policy" (JObj fs')).
  { unfold with_paths, fs', fs. destruct (jget b "filesystem_policy"); [done..|by destruct (Harr l)|done]. }
  rewrite E. clear E. fold (landlock_of live).
  assert (Hfs : plain_props fs).
  { unfold fs. rewrite jget_own. destruct (own b "filesystem_policy") as [v|] eqn:Ev; [|by repeat constructor].
    apply plain_own in Ev; [|done]. destruct v; cbn; try by repeat constructor. by apply plain_object. }
  assert (Hp : plain_props (set_prop b "filesystem_policy" (JObj fs'))).
  { apply plain_set_prop; [done|]. apply plain_object. repeat apply plain_set_prop; try apply plain_jstrs. done. }
  assert (Hr : ∀ c, jget c "filesystem_policy" = JObj fs' →
    readStringList (Some c) "read_write" = rw ∧ readStringList (Some c) "read_only" = ro).
  { intros c Hc. unfold readStringList. rewrite Hc. unfold fs'.
    rewrite !jget_set_prop, decide_False, !decide_True by done. unfold jstrs. by rewrite !only_strings_jstrs. }
  assert (Hland : landlock_of live ≠ JUndef → plain_document (landlock_of live)).
  { unfold landlock_of. destruct live as [l|]; [|done]. rewrite jget_own. destruct (own l "landlock") as [v|] eqn:Ev; [|done].
    intros _. by eapply plain_own; [apply Hl|]. }
  destruct (landlock_of live) as [| | | | | |]; cbn [is_undefined];
    (split; [first [done|by apply plain_set_prop; [|by apply Hland]]|]; split;
     [intros k H1 H2; rewrite ?own_set_prop, ?decide_False by congruence; done|]; split;
     [rewrite ?jget_set_prop, ?decide_True, ?decide_False by done; done|apply Hr;
      rewrite ?jget_set_prop, ?(decide_False (P := "landlock" = "filesystem_policy")), ?decide_True by done; done]).
Qed.

(** The static policy is applied as it is only when no entry of a bridge would be lost. *)
Lemma permissive_fallback {yaml : Yaml} liveText base managed can_stage :
  buildRuntimePermissivePolicy liveText base managed can_stage = Ok None → managed = [].
Proof.
  unfold buildRuntimePermissivePolicy, keeps_base, permissive_document.
  destruct managed as [|m managed]; [done|]. set (live := if truthy liveText then _ else _).
  replace (match readStringList live "read_write" with [] => _ | _ => _ end) with false
    by (by destruct (readStringList live "read_write"), (readStringList live "read_only")).
  destruct base as [text|]; [|done]. destruct (safeYamlObject text); [|done].
  destruct (composeManagedMcpPolicies _ _ _); [|done]. by destruct can_stage.
Qed.

(** ** Properties *)

(** C39: restoring a saved policy keeps the bridges of now, not those of then.  However
    its manifest of generated keys is broken, a readable snapshot is restored at the
    deadline unless the current entries are ambiguous themselves: the result has exactly
    the current entries, none of the reserved entries that were saved, and everything else
    as it was saved.  A manual restore gives that same result when nothing had to be left
    out, and is refused otherwise. *)
Theorem managed_restore_exact {yaml : Yaml} text d cur keys :
  yaml_law yaml → parsePolicyDocument text = Ok d → plain_props d →
  Forall (λ m, plain_document (m_networkPolicy m)) cur →
  match composeDeadlineManagedMcpPolicies text cur keys with
  | Ok (out, omissions) =>
      unambiguous cur
      ∧ (∃ d', yaml_parse out = Some (JObj d') ∧ restores d cur d')
      ∧ match omissions with
        | [] => composeManagedMcpPolicies text cur keys = Ok out
        | _ => ∃ e, composeManagedMcpPolicies text cur keys = Throw e
        end
  | Throw e =>
      (e = DocumentPoliciesNotMapping ∨ ((∃ key, e = AmbiguousKey key) ∧ ¬ unambiguous cur))
      ∧ ∃ e', composeManagedMcpPolicies text cur keys = Throw e'
  end.
Proof.
  intros Hlaw Ht Hd Hcur. pose proof (strict_is_tolerant text cur keys) as Hs.
  pose proof (deadline_total text d cur keys Ht Hd Hcur) as Htotal.
  destruct (composeDeadlineManagedMcpPolicies text cur keys) as [[out om]|e] eqn:E; [|done].
  destruct (tolerant_restores text d cur keys out om Hlaw Ht Hd Hcur E) as (Hun & d' & Hp & _ & Hr).
  split; [done|]. split; [by exists d'|]. by destruct om.
Qed.

(** a permissive policy never takes a path from a running sandbox.  The document that
    is staged grants writing exactly where the base or the live policy grants it, reading
    to every other path of either, carries the live landlock stanza, has the base's entries
    with exactly the current managed ones, and keeps every other part of the base. *)
Theorem permissive_keeps_paths {yaml : Yaml} liveText l baseText b managed out :
  yaml_law yaml → liveText ≠ "" → yaml_parse liveText = Some (JObj l) → plain_props l →
  yaml_parse baseText = Some (JObj b) → plain_props b → (∀ a, jget b "filesystem_policy" ≠ JArr a) →
  Forall (λ m, plain_document (m_networkPolicy m)) managed →
  permissive_document liveText baseText managed = Ok out →
  ∃ text d', out = Some text ∧ yaml_parse text = Some (JObj d')
    ∧ (∀ p, p ∈ readStringList (Some d') "read_write"
            ↔ p ∈ readStringList (Some b) "read_write" ∨ p ∈ readStringList (Some l) "read_write")
    ∧ (∀ p, p ∈ readStringList (Some d') "read_only"
            ↔ (p ∈ readStringList (Some b) "read_only" ∧ p ∉ readStringList (Some l) "read_write")
              ∨ (p ∈ readStringList (Some l) "read_only" ∧ p ∉ readStringList (Some d') "read_write"))
    ∧ jget d' "landlock" = (if is_undefined (jget l "landlock") then jget b "landlock" else jget l "landlock")
    ∧ (∀ k, own (policies_of d') k
            = match current_entry managed k with
              | Some v => Some v
              | None => if RESERVED_MANAGED_MCP_POLICY_KEY_RE k then None else own (policies_of b) k
              end)
    ∧ ∀ k, k ≠ "filesystem_policy" → k ≠ "landlock" → k ≠ "network_policies" → own d' k = own b k.
Proof.
  intros Hlaw Hne Hl Hlp Hb Hbp Harr Hm. unfold permissive_document, safeYamlObject.
  rewrite (proj2 (truthy_true liveText) Hne), Hl, Hb. cbn [mbind option_bind isObjectRecord].
  destruct (carried_exact (Some l) b Hbp) as (Hc & Hown & Hland & Hpaths); [by intros ? [= <-]|done|].
  destruct (composeManagedMcpPolicies _ managed []) as [text|] eqn:E; [|done]. intros [= <-].
  destruct (strict_restores (yaml_stringify (JObj (carried (Some l) b))) (carried (Some l) b) managed [] text)
    as (_ & d' & Hp & _ & Hpol & Hrest); [done| |done..|].
  { unfold parsePolicyDocument. rewrite (yaml_round_trip _ Hlaw) by by apply plain_object. done. }
  exists text, d'. split; [done|]. split; [done|].
  assert (Hj : ∀ k, k ≠ "network_policies" → jget d' k = jget (carried (Some l) b) k)
    by (intros k Hk; by rewrite !jget_own, Hrest).
  assert (Hread : ∀ key, readStringList (Some d') key = readStringList (Some (carried (Some l) b)) key)
    by (intros key; unfold readStringList; by rewrite Hj).
  pose proof (union_paths_exact (readStringList (Some b) "read_write") (readStringList (Some b) "read_only")
    (readStringList (Some l) "read_write") (readStringList (Some l) "read_only")) as Hu.
  destruct (union_paths _ _ _ _) as [rw ro]. destruct Hpaths as [Hrw Hro], Hu as [Hurw Huro].
  rewrite !Hread, Hrw, Hro. split_and!; [done|done| | |].
  - by rewrite Hj, Hland.
  - intros k. rewrite Hpol. unfold policies_of. by rewrite !jget_own, Hown.
  - intros k H1 H2 H3. by rewrite Hrest, Hown.
Qed.

(** ** On a concrete snapshot *)

#[local] Existing Instance coded_yaml.

Definition sample_bridge (key server : string) : ExactManagedMcpPolicy :=
  mkManaged key (sample_entry (server +:+ ".example.com")) key server.
Definition saved_document : list (string * json) :=
  [("version", JNum (NInt 1));
   ("network_policies", JObj [("pypi", sample_entry "pypi.org"); ("mcp_bridge_gone", sample_entry "gone.example.com")])].
Definition saved_text : string := yaml_stringify (JObj saved_document).

Lemma saved_plain : plain_props saved_document.
Proof. by apply plain_object, plain_document_b. Qed.
Lemma saved_parses : parsePolicyDocument saved_text = Ok saved_document.
Proof. unfold parsePolicyDocument, saved_text. by rewrite (yaml_round_trip _ coded_yaml_law) by apply plain_object, saved_plain. Qed.
Lemma sample_bridge_plain key server : Forall (λ m, plain_document (m_networkPolicy m)) [sample_bridge key server].
Proof. constructor; [|constructor]. by apply plain_document_b. Qed.

(** With the manifest the removed bridge goes and the new one comes; without it the manual
    restore is refused. *)
Lemma managed_restore_exact_witness :
  match composeDeadlineManagedMcpPolicies saved_text [sample_bridge "mcp_bridge_new" "new"] ["mcp_bridge_gone"] with
  | Ok (out, []) => ∃ d', yaml_parse out = Some (JObj d') ∧ own (policies_of d') "mcp_bridge_gone" = None
      ∧ own (policies_of d') "mcp_bridge_new" = Some (sample_entry "new.example.com")
  | _ => False
  end
  ∧ ∃ e, composeManagedMcpPolicies saved_text [sample_bridge "mcp_bridge_new" "new"] [] = Throw e.
Proof.
  pose proof (managed_restore_exact saved_text saved_document [sample_bridge "mcp_bridge_new" "new"] ["mcp_bridge_gone"]
    coded_yaml_law saved_parses saved_plain (sample_bridge_plain _ _)) as H.
  pose proof (managed_restore_exact saved_text saved_document [sample_bridge "mcp_bridge_new" "new"] []
    coded_yaml_law saved_parses saved_plain (sample_bridge_plain _ _)) as H'.
  split.
  - destruct (composeDeadlineManagedMcpPolicies _ _ ["mcp_bridge_gone"]) as [[out [|x om]]|e] eqn:E.
    + destruct H as (_ & (d' & Hp & Hr & _) & _). exists d'. split; [exact Hp|].
      rewrite !Hr. split; reflexivity.
    + vm_compute in E. discriminate E.
    + vm_compute in E. discriminate E.
  - destruct (composeDeadlineManagedMcpPolicies _ _ []) as [[out [|x om]]|e] eqn:E.
    + vm_compute in E. discriminate E.
    + destruct H' as (_ & _ & Hs). exact Hs.
    + destruct H' as (_ & Hs). exact Hs.
Defined.

Definition sealed_document : list (string * json) :=
  [("version", JNum (NInt 1)); ("landlock", JObj [("compatibility", JStr "strict")]);
   ("filesystem_policy", JObj [("read_only", jstrs ["/proc"; "/usr"]); ("read_write", jstrs ["/sandbox"; "/tmp"])])].
Definition permissive_base : list (string * json) :=
  [("version", JNum (NInt 1)); ("landlock", JObj [("compatibility", JStr "best_effort")]);
   ("filesystem_policy", JObj [("read_only", jstrs ["/usr"; "/tmp"]); ("read_write", jstrs ["/sandbox"])]);
   ("network_policies", JObj [("open", sample_entry "example.com")])].

Lemma permissive_keeps_paths_witness :
  match permissive_document (yaml_stringify (JObj sealed_document)) (yaml_stringify (JObj permissive_base)) [] with
  | Ok (Some text) => ∃ d', yaml_parse text = Some (JObj d')
      ∧ "/tmp" ∈ readStringList (Some d') "read_write" ∧ "/proc" ∈ readStringList (Some d') "read_only"
      ∧ jget d' "landlock" = JObj [("compatibility", JStr "strict")]
  | _ => False
  end.
Proof.
  pose proof (permissive_keeps_paths (yaml_stringify (JObj sealed_document)) sealed_document
    (yaml_stringify (JObj permissive_base)) permissive_base [] ) as H.
  destruct (permissive_document _ _ _) as [out|e] eqn:E; [|vm_compute in E; discriminate E].
  destruct (H out) as (text & d' & -> & Hp & Hrw & Hro & Hland & _).
  - exact coded_yaml_law.
  - apply coded_text_nonempty.
  - apply coded_yaml_law, plain_document_b. reflexivity.
  - apply plain_object, plain_document_b. reflexivity.
  - apply coded_yaml_law, plain_document_b. reflexivity.
  - apply plain_object, plain_document_b. reflexivity.
  - discriminate.
  - constructor.
  - reflexivity.
  - exists d'. split; [exact Hp|]. split; [apply Hrw; right; right; by left|].
    split; [|exact Hland]. apply Hro. right. split; [by left|]. rewrite Hrw.
    intros [Hin|Hin]; apply includes_spec in Hin; vm_compute in Hin; discriminate Hin.
Defined.
