(* ===== verification/SessionData.v ===== *)
(** * The onboarding session: its data

    The interfaces of src/lib/state/onboard-session.ts, their JSON form, and the
    collaborators the session code calls but this development does not model:
    the clock and the id generator, SHA-256, the secret redactor
    (src/lib/security/redact.ts), the messaging plan validator and compactor
    (src/lib/messaging/) and the platform's URL parser.  They are the operations
    of the class [Host]; every definition and theorem is parametric in them. *)

From S2P Require Import Prelude Json Machine Choices Station Checkpoint.

Class Host := {
  (** [new Date().toISOString()] at the n-th reading of the clock. *)
  now : nat → string;
  (** [`${Date.now()}-${randomUUID()}`] at the n-th reading. *)
  fresh_id : nat → string;
  (** [createHash("sha256").update(s).digest("hex")]. *)
  sha256_hex : string → string;
  redactUrl : json → option string;
  redactSensitiveText : json → option string;
  (** [parseSandboxMessagingPlan(value, { sandboxName })]; a valid plan stays JSON. *)
  parseSandboxMessagingPlan : option string → json → option json;
  compactSandboxMessagingPlanForPersistence : json → json;
  parseURL : string → option URL;
}.

Inductive StepStatus : Type := SPending | SInProgress | SComplete | SFailed | SSkipped.
#[export] Instance StepStatus_eq_dec : EqDecision StepStatus.
Proof. solve_decision. Defined.
Definition step_status_id (s : StepStatus) : string :=
  match s with
  | SPending => "pending" | SInProgress => "in_progress" | SComplete => "complete"
  | SFailed => "failed" | SSkipped => "skipped"
  end.
Definition STEP_STATES : list StepStatus := [SPending; SInProgress; SComplete; SFailed; SSkipped].

Record StepState := mkStep {
  st_status : StepStatus;
  st_startedAt : option string;
  st_completedAt : option string;
  st_error : option string;
}.
#[export] Instance eta_StepState : Eta StepState := λ s,
  mkStep (st_status s) (st_startedAt s) (st_completedAt s) (st_error s).

Record SessionFailure := mkFailure {
  f_step : option string;
  f_message : option string;
  f_recordedAt : string;
  f_interrupted : bool;
}.

Record SessionMetadata := mkMeta { gatewayName : string; fromDockerfile : option string }.

Inductive SessionRecoveryReceiptReason : Type := FailedTerminalSnapshot | ReopenedCompleteSnapshot.
#[export] Instance RecoveryReason_eq_dec : EqDecision SessionRecoveryReceiptReason.
Proof. solve_decision. Defined.
Definition reason_id (r : SessionRecoveryReceiptReason) : string :=
  match r with FailedTerminalSnapshot => "failed_terminal_snapshot"
             | ReopenedCompleteSnapshot => "reopened_complete_snapshot" end.

Record SessionRecoveryReceipt := mkReceipt {
  rr_id : string;
  rr_reason : SessionRecoveryReceiptReason;
  rr_entry : OnboardMachineState;
  rr_appliedAt : string;
  rr_revision : Z;
}.

Record OnboardMachineSnapshot := mkMachine {
  m_state : OnboardMachineState;
  m_stateEnteredAt : option string;
  m_revision : Z;
  m_recoveryReceipt : option SessionRecoveryReceipt;
}.
#[export] Instance eta_machine : Eta OnboardMachineSnapshot := λ m,
  mkMachine (m_state m) (m_stateEnteredAt m) (m_revision m) (m_recoveryReceipt m).

Record SandboxPromptProgress := mkProgressFlags {
  pp_sandboxName : bool; pp_webSearch : bool; pp_messaging : bool; pp_resourceProfile : bool;
}.
#[export] Instance eta_prompt : Eta SandboxPromptProgress := λ p,
  mkProgressFlags (pp_sandboxName p) (pp_webSearch p) (pp_messaging p) (pp_resourceProfile p).

Inductive HermesAuthMethod : Type := OAuth | ApiKey.
#[export] Instance HermesAuthMethod_eq_dec : EqDecision HermesAuthMethod.
Proof. solve_decision. Defined.
Definition hermes_id (h : HermesAuthMethod) : string :=
  match h with OAuth => "oauth" | ApiKey => "api_key" end.

(** [accountId], [baseUrl], [userId]; each present only when nonempty. *)
Record WechatConfig := mkWechat {
  wc_accountId : option string; wc_baseUrl : option string; wc_userId : option string;
}.

Record Session := mkSession {
  sessionId : string;
  resumable : bool;
  status : string;
  mode : string;
  startedAt : string;
  updatedAt : string;
  lastStepStarted : option string;
  lastCompletedStep : option string;
  failure : option SessionFailure;
  agent : option string;
  sandboxName : option string;
  provider : option string;
  model : option string;
  servingProfileProvenance : option json;
  stationExpressIntent : option StationExpressResumeIntent;
  stationExpressReceiptRetirement : option string;
  endpointUrl : option string;
  credentialEnv : option string;
  hermesAuthMethod : option HermesAuthMethod;
  preferredInferenceApi : option string;
  compatibleEndpointReasoning : option string;
  compatibleEndpointReasoningEffort : option ReasoningEffort;
  nimContainer : option string;
  routerPid : option Z;
  routerCredentialHash : option string;
  webSearchConfig : option WebSearchConfig;
  sandboxPromptProgress : SandboxPromptProgress;
  resourceProfile : option CheckpointResourceProfile;
  toolDisclosure : ToolDisclosure;
  observabilityEnabled : bool;
  observabilityRequestedExplicitly : bool;
  hermesToolGateways : option (list string);
  policyPresets : option (list string);
  messagingPlan : option json;
  stagedCredentialProviders : list string;
  migratedLegacyValueHashes : option (gmap string string);
  gpuPassthrough : bool;
  telegramConfig : option bool;
  wechatConfig : option WechatConfig;
  metadata : SessionMetadata;
  machine : OnboardMachineSnapshot;
  checkpoint : option OnboardCheckpoint;
  steps : gmap string StepState;
  (** Membership of the object in [INVALID_TOOL_DISCLOSURE_SESSIONS]
      (src/lib/state/onboard-session-tool-disclosure.ts): kept with the object,
      never written. *)
  invalidDisclosure : bool;
}.
#[export] Instance eta_Session : Eta Session := λ s,
  mkSession (sessionId s) (resumable s) (status s) (mode s) (startedAt s) (updatedAt s)
    (lastStepStarted s) (lastCompletedStep s) (failure s) (agent s) (sandboxName s) (provider s)
    (model s) (servingProfileProvenance s) (stationExpressIntent s)
    (stationExpressReceiptRetirement s) (endpointUrl s) (credentialEnv s) (hermesAuthMethod s)
    (preferredInferenceApi s) (compatibleEndpointReasoning s)
    (compatibleEndpointReasoningEffort s) (nimContainer s) (routerPid s) (routerCredentialHash s)
    (webSearchConfig s) (sandboxPromptProgress s) (resourceProfile s) (toolDisclosure s)
    (observabilityEnabled s) (observabilityRequestedExplicitly s) (hermesToolGateways s)
    (policyPresets s) (messagingPlan s) (stagedCredentialProviders s)
    (migratedLegacyValueHashes s) (gpuPassthrough s) (telegramConfig s) (wechatConfig s)
    (metadata s) (machine s) (checkpoint s) (steps s) (invalidDisclosure s).

Definition SESSION_VERSION : Z := 1.
Definition MACHINE_SNAPSHOT_VERSION : Z := 1.

(** ** The JSON form, property by property *)

Definition step_json (s : StepState) : json :=
  JObj [("status", JStr (step_status_id (st_status s))); ("startedAt", jopt (st_startedAt s));
        ("completedAt", jopt (st_completedAt s)); ("error", jopt (st_error s))].
Definition steps_json (m : gmap string StepState) : json :=
  JObj (map (λ kv, (kv.1, step_json kv.2)) (map_to_list m)).
Definition failure_json (f : SessionFailure) : json :=
  JObj [("step", jopt (f_step f)); ("message", jopt (f_message f));
        ("recordedAt", JStr (f_recordedAt f)); ("interrupted", JBool (f_interrupted f))].
Definition metadata_json (m : SessionMetadata) : json :=
  JObj [("gatewayName", JStr (gatewayName m)); ("fromDockerfile", jopt (fromDockerfile m))].
Definition receipt_json (r : SessionRecoveryReceipt) : json :=
  JObj [("id", JStr (rr_id r)); ("reason", JStr (reason_id (rr_reason r)));
        ("entry", JStr (state_id (rr_entry r))); ("appliedAt", JStr (rr_appliedAt r));
        ("revision", JNum (NInt (rr_revision r)))].
Definition machine_json (m : OnboardMachineSnapshot) : json :=
  JObj ([("version", JNum (NInt MACHINE_SNAPSHOT_VERSION)); ("state", JStr (state_id (m_state m)));
         ("stateEnteredAt", jopt (m_stateEnteredAt m)); ("revision", JNum (NInt (m_revision m)))]
        ++ match m_recoveryReceipt m with
           | Some r => [("recoveryReceipt", receipt_json r)] | None => [] end).
Definition prompt_json (p : SandboxPromptProgress) : json :=
  JObj [("sandboxName", JBool (pp_sandboxName p)); ("webSearch", JBool (pp_webSearch p));
        ("messaging", JBool (pp_messaging p)); ("resourceProfile", JBool (pp_resourceProfile p))].
Definition telegram_json (requireMention : bool) : json :=
  JObj [("requireMention", JBool requireMention)].
Definition wechat_json (w : WechatConfig) : json :=
  JObj (opt_prop "accountId" (wc_accountId w) ++ opt_prop "baseUrl" (wc_baseUrl w)
        ++ opt_prop "userId" (wc_userId w)).
Definition hashes_json (m : gmap string string) : json :=
  JObj (map (λ kv, (kv.1, JStr kv.2)) (map_to_list m)).

(** [v === null ? null : f(v)]. *)
Definition jnull {A} (f : A → json) (v : option A) : json := from_option f JNull v.

(** The object in memory, with the given plan and checkpoint: what
    [normalizeSession] reads when it is handed a session, and what
    [JSON.stringify] writes. *)
Definition session_obj (plan cp : json) (s : Session) : list (string * json) := [
  ("version", JNum (NInt SESSION_VERSION));
  ("sessionId", JStr (sessionId s)); ("resumable", JBool (resumable s));
  ("status", JStr (status s)); ("mode", JStr (mode s)); ("startedAt", JStr (startedAt s));
  ("updatedAt", JStr (updatedAt s)); ("lastStepStarted", jopt (lastStepStarted s));
  ("lastCompletedStep", jopt (lastCompletedStep s)); ("failure", jnull failure_json (failure s));
  ("agent", jopt (agent s)); ("sandboxName", jopt (sandboxName s));
  ("provider", jopt (provider s)); ("model", jopt (model s));
  ("servingProfileProvenance", jnull id (servingProfileProvenance s));
  ("stationExpressIntent", jnull intent_json (stationExpressIntent s));
  ("stationExpressReceiptRetirement", jopt (stationExpressReceiptRetirement s));
  ("endpointUrl", jopt (endpointUrl s)); ("credentialEnv", jopt (credentialEnv s));
  ("hermesAuthMethod", jnull (λ h, JStr (hermes_id h)) (hermesAuthMethod s));
  ("preferredInferenceApi", jopt (preferredInferenceApi s));
  ("compatibleEndpointReasoning", jopt (compatibleEndpointReasoning s));
  ("compatibleEndpointReasoningEffort",
     jnull (λ e, JStr (effort_id e)) (compatibleEndpointReasoningEffort s));
  ("nimContainer", jopt (nimContainer s)); ("routerPid", jnull (λ z, JNum (NInt z)) (routerPid s));
  ("routerCredentialHash", jopt (routerCredentialHash s));
  ("webSearchConfig", jnull webSearchConfig_json (webSearchConfig s));
  ("sandboxPromptProgress", prompt_json (sandboxPromptProgress s));
  ("resourceProfile", jnull profile_json (resourceProfile s));
  ("toolDisclosure", JStr (disclosure_id (toolDisclosure s)));
  ("observabilityEnabled", JBool (observabilityEnabled s));
  ("observabilityRequestedExplicitly", JBool (observabilityRequestedExplicitly s));
  ("hermesToolGateways", jnull jstrs (hermesToolGateways s));
  ("policyPresets", jnull jstrs (policyPresets s)); ("messagingPlan", plan);
  ("stagedCredentialProviders", jstrs (stagedCredentialProviders s));
  ("migratedLegacyValueHashes", jnull hashes_json (migratedLegacyValueHashes s));
  ("gpuPassthrough", JBool (gpuPassthrough s));
  ("telegramConfig", jnull telegram_json (telegramConfig s));
  ("wechatConfig", jnull wechat_json (wechatConfig s)); ("metadata", metadata_json (metadata s));
  ("machine", machine_json (machine s)); ("checkpoint", cp); ("steps", steps_json (steps s)) ].

Definition session_json (s : Session) : json :=
  JObj (session_obj (jnull id (messagingPlan s)) (jnull serializeCheckpoint (checkpoint s)) s).

(** [serializeSessionForDisk]. *)
Definition serializeSessionForDisk {host : Host} (s : Session) : json :=
  JObj (session_obj (jnull compactSandboxMessagingPlanForPersistence (messagingPlan s))
          (jnull serializeCheckpoint (checkpoint s)) s).
