(* ===== verification/SessionParse.v ===== *)
(** * The onboarding session: creation and normalisation

    [createSession] and [normalizeSession] of src/lib/state/onboard-session.ts with
    their parsers.  [normalizeSession] is the boundary every session crosses,
    both when it is loaded and before it is saved. *)

From S2P Require Import Prelude Json Names Machine Choices Time Station Checkpoint SessionData.

Section WithHost.
Context {host : Host}.

Definition defaultSteps : gmap string StepState :=
  let pending := mkStep SPending None None None in
  list_to_map (map (λ n, (n, pending))
    ["preflight"; "gateway"; "sandbox"; "provider_selection"; "inference"; "openclaw";
     "agent_setup"; "policies"]).

(** ** Readers *)

Definition readHermesAuthMethod (value : json) : option HermesAuthMethod :=
  if is_str "oauth" value then Some OAuth else if is_str "api_key" value then Some ApiKey else None.

Definition readStepStatus (value : json) : option StepStatus :=
  read_enum step_status_id STEP_STATES value.

Definition parseWebSearchConfig (value : json) : option WebSearchConfig :=
  match value with
  | JObj o => if is_true_json (jget o "fetchEnabled") then normalizeWebSearchConfig value else None
  | _ => None
  end.

Definition isValidCheckpointedSandboxName (value : json) : bool := validSandboxName value.

Definition isValidNullableWebSearchChoice (value : json) : bool :=
  is_null value || bool_decide (is_Some (parseWebSearchConfig value)).

Definition isValidNullableMessagingChoice (value sandboxName : json) : bool :=
  is_null value
  || match sandboxName with
     | JStr n => bool_decide (is_Some (parseSandboxMessagingPlan (Some n) value))
     | _ => false
     end.

Definition parseSessionResourceProfile (value : json) : option CheckpointResourceProfile :=
  parseResourceProfileValue value.

Definition isValidNullableResourceChoice (value : json) : bool :=
  is_null value || bool_decide (is_Some (parseSessionResourceProfile value)).

(** A flag only survives next to a choice it can vouch for. *)
Definition parseSandboxPromptProgress (value : json) (choices : list (string * json))
    : SandboxPromptProgress :=
  let progress := match value with JObj o => o | _ => [] end in
  mkProgressFlags
    (is_true_json (jget progress "sandboxName") && hasOwn choices "sandboxName"
     && isValidCheckpointedSandboxName (jget choices "sandboxName"))
    (is_true_json (jget progress "webSearch") && hasOwn choices "webSearchConfig"
     && isValidNullableWebSearchChoice (jget choices "webSearchConfig"))
    (is_true_json (jget progress "messaging") && hasOwn choices "messagingPlan"
     && isValidNullableMessagingChoice (jget choices "messagingPlan") (jget choices "sandboxName"))
    (is_true_json (jget progress "resourceProfile") && hasOwn choices "resourceProfile"
     && isValidNullableResourceChoice (jget choices "resourceProfile")).

Definition parseTelegramConfig (value : json) : option bool :=
  match value with
  | JObj o => match jget o "requireMention" with JBool b => Some b | _ => None end
  | _ => None
  end.

Definition parseWechatConfig (value : json) : option WechatConfig :=
  match value with
  | JObj o =>
      let w := mkWechat (readNonEmpty (jget o "accountId")) (readNonEmpty (jget o "baseUrl"))
                 (readNonEmpty (jget o "userId")) in
      match w with mkWechat None None None => None | _ => Some w end
  | _ => None
  end.

Definition parseSessionMetadata (value : json) : option SessionMetadata :=
  match value with
  | JObj o => Some (mkMeta (default "nemoclaw" (readString (jget o "gatewayName")))
                      (readString (jget o "fromDockerfile")))
  | _ => None
  end.

Definition parseStepState (value : json) : option StepState :=
  match value with
  | JObj o =>
      status ← readStepStatus (jget o "status");
      Some (mkStep status (readString (jget o "startedAt")) (readString (jget o "completedAt"))
              (redactSensitiveText (jget o "error")))
  | _ => None
  end.

(** ** The machine snapshot *)

(** The decimal text is exact below 10^21. *)
Definition createSessionRecoveryReceiptId (sessionId : string) (revision : Z)
    (reason : SessionRecoveryReceiptReason) (entry : OnboardMachineState) : string :=
  sha256_hex ("[" ++ json_quote sessionId ++ "," ++ num_to_string revision ++ ","
              ++ json_quote (reason_id reason) ++ "," ++ json_quote (state_id entry) ++ "]")%string.

Definition readReason : json → option SessionRecoveryReceiptReason :=
  read_enum reason_id [FailedTerminalSnapshot; ReopenedCompleteSnapshot].

Definition parseSessionRecoveryReceipt (value : json) (snapshotState : OnboardMachineState)
    (snapshotStateEnteredAt : option string) (snapshotRevision : Z) (sessionId : string)
    : option SessionRecoveryReceipt :=
  match value with
  | JObj o =>
      id ← readNonEmpty (jget o "id");
      if negb (is_hex_digest 64 id) then None
      else
        reason ← readReason (jget o "reason");
        entry ← readMachineState (jget o "entry");
        if isTerminalOnboardMachineState entry then None
        else
          appliedAt ← readCanonicalIsoTimestamp (jget o "appliedAt");
          revision ← readNonNegativeInteger (jget o "revision");
          if bool_decide (entry = snapshotState)
             && bool_decide (snapshotStateEnteredAt = Some appliedAt)
             && (revision =? snapshotRevision)%Z
             && (id =s createSessionRecoveryReceiptId sessionId revision reason entry)
          then Some (mkReceipt id reason entry appliedAt revision) else None
  | _ => None
  end.

Definition parseMachineSnapshot (value : json) (sessionId : string)
    : option OnboardMachineSnapshot :=
  match value with
  | JObj o =>
      if negb (is_int MACHINE_SNAPSHOT_VERSION (jget o "version")) then None
      else
        state ← readMachineState (jget o "state");
        let stateEnteredAt := readString (jget o "stateEnteredAt") in
        let revision := default 0%Z (readNonNegativeInteger (jget o "revision")) in
        Some (mkMachine state stateEnteredAt revision
                (parseSessionRecoveryReceipt (jget o "recoveryReceipt") state stateEnteredAt
                   revision sessionId))
  | _ => None
  end.

Definition parseStoredCheckpoint (value : json) : option OnboardCheckpoint :=
  match inspectCheckpoint parseURL value with Loaded c => Some c | _ => None end.

(** [t] indexes the clock reading taken when [recordedAt] is missing. *)
Definition sanitizeFailure (t : nat) (input : json) : option SessionFailure :=
  match input with
  | JObj o =>
      let step := readString (jget o "step") in
      let message := redactSensitiveText (jget o "message") in
      let recordedAt := default (now t) (readString (jget o "recordedAt")) in
      let interrupted := is_true_json (jget o "interrupted") in
      if truthy_opt step || truthy_opt message
      then Some (mkFailure step message recordedAt interrupted) else None
  | _ => None
  end.

Definition createMachineSnapshot (state : OnboardMachineState) (stateEnteredAt : option string)
    (revision : Z) : OnboardMachineSnapshot :=
  mkMachine state stateEnteredAt (Z.max 0 revision) None.

(** [name ? steps[name] : null]. *)
Definition step_of (steps : gmap string StepState) (name : option string) : option StepState :=
  match name with Some n => if truthy n then steps !! n else None | None => None end.

Definition step_has (st : option StepState) (status : StepStatus) : bool :=
  match st with Some s => bool_decide (st_status s = status) | None => false end.

Definition inferMachineState (s : Session) : OnboardMachineState :=
  if status s =s "complete" then StComplete
  else if status s =s "failed" then StFailed
  else
    match machineStateFromOnboardSessionStep (lastStepStarted s) with
    | Some started =>
        if step_has (step_of (steps s) (lastStepStarted s)) SInProgress then started
        else default StInit (nextMachineStateAfterCompletedStep (lastCompletedStep s) (agent s))
    | None => default StInit (nextMachineStateAfterCompletedStep (lastCompletedStep s) (agent s))
    end.

Definition inferMachineStateEnteredAt (s : Session) (state : OnboardMachineState)
    : option string :=
  if bool_decide (state = StFailed) then Some (default (updatedAt s) (f_recordedAt <$> failure s))
  else if bool_decide (state = StComplete) then Some (updatedAt s)
  else
    let startedStep := step_of (steps s) (lastStepStarted s) in
    if bool_decide (machineStateFromOnboardSessionStep (lastStepStarted s) = Some state)
       && step_has startedStep SInProgress
    then Some (default (updatedAt s) (startedStep ≫= st_startedAt))
    else if bool_decide (nextMachineStateAfterCompletedStep (lastCompletedStep s) (agent s)
                         = Some state)
    then Some (default (updatedAt s) (step_of (steps s) (lastCompletedStep s) ≫= st_completedAt))
    else Some (startedAt s).

Definition inferMachineSnapshot (s : Session) : OnboardMachineSnapshot :=
  let state := inferMachineState s in
  createMachineSnapshot state (inferMachineStateEnteredAt s state) 0.

(** [session.machine] is never null in a typed session. *)
Definition transitionMachineSnapshot (s : Session) (state : OnboardMachineState) (at_ : string)
    : Session :=
  let current := machine s in
  if bool_decide (m_state current = state)
  then s <| machine := current <| m_stateEnteredAt := or_else (m_stateEnteredAt current) (Some at_) |> |>
  else s <| machine := createMachineSnapshot state (Some at_) (js_succ (m_revision current)) |>.

(** ** createSession *)

(** [Partial<Session>].  Where the code only writes [x ?? null], [None] stands
    for both; the four choices the prompt progress refers to keep absent
    ([None]) apart from [null] ([Some None]). *)
Record SessionOverrides := mkOverrides {
  o_sessionId : option string;
  o_mode : option string;
  o_startedAt : option string;
  o_updatedAt : option string;
  o_lastStepStarted : option string;
  o_lastCompletedStep : option string;
  o_failure : option SessionFailure;
  o_agent : option string;
  o_sandboxName : option (option string);
  o_provider : option string;
  o_model : option string;
  o_servingProfileProvenance : option json;
  o_stationExpressIntent : option StationExpressResumeIntent;
  o_stationExpressReceiptRetirement : option string;
  o_endpointUrl : option string;
  o_credentialEnv : option string;
  o_hermesAuthMethod : option HermesAuthMethod;
  o_preferredInferenceApi : option string;
  o_compatibleEndpointReasoning : option string;
  o_compatibleEndpointReasoningEffort : option ReasoningEffort;
  o_nimContainer : option string;
  o_routerPid : option Z;
  o_routerCredentialHash : option string;
  o_webSearchConfig : option (option WebSearchConfig);
  o_sandboxPromptProgress : option SandboxPromptProgress;
  o_resourceProfile : option (option CheckpointResourceProfile);
  o_toolDisclosure : option ToolDisclosure;
  o_observabilityEnabled : bool;
  o_observabilityRequestedExplicitly : bool;
  o_hermesToolGateways : option (list string);
  o_policyPresets : option (list string);
  o_messagingPlan : option (option json);
  o_stagedCredentialProviders : option (list string);
  o_migratedLegacyValueHashes : option (gmap string string);
  o_gpuPassthrough : bool;
  o_telegramConfig : option bool;
  o_wechatConfig : option WechatConfig;
  o_metadata : option SessionMetadata;
  o_machine : json;
  o_checkpoint : json;
  o_steps : gmap string StepState;
}.
#[export] Instance eta_overrides : Eta SessionOverrides := λ o,
  mkOverrides (o_sessionId o) (o_mode o) (o_startedAt o) (o_updatedAt o) (o_lastStepStarted o)
    (o_lastCompletedStep o) (o_failure o) (o_agent o) (o_sandboxName o) (o_provider o)
    (o_model o) (o_servingProfileProvenance o) (o_stationExpressIntent o)
    (o_stationExpressReceiptRetirement o) (o_endpointUrl o) (o_credentialEnv o)
    (o_hermesAuthMethod o) (o_preferredInferenceApi o) (o_compatibleEndpointReasoning o)
    (o_compatibleEndpointReasoningEffort o) (o_nimContainer o) (o_routerPid o)
    (o_routerCredentialHash o) (o_webSearchConfig o) (o_sandboxPromptProgress o)
    (o_resourceProfile o) (o_toolDisclosure o) (o_observabilityEnabled o)
    (o_observabilityRequestedExplicitly o) (o_hermesToolGateways o) (o_policyPresets o)
    (o_messagingPlan o) (o_stagedCredentialProviders o) (o_migratedLegacyValueHashes o)
    (o_gpuPassthrough o) (o_telegramConfig o) (o_wechatConfig o) (o_metadata o) (o_machine o)
    (o_checkpoint o) (o_steps o).

(** [{}]. *)
Definition no_overrides : SessionOverrides :=
  mkOverrides None None None None None None None None None None None None None None None None
    None None None None None None None None None None None false false None None None None None
    false None None None JUndef JUndef ∅.

Definition opt_choice {A} (key : string) (f : A → json) (v : option (option A))
    : list (string * json) :=
  match v with Some x => [(key, jnull f x)] | None => [] end.

(** The overrides as the [choices] argument of [parseSandboxPromptProgress]. *)
Definition override_choices (o : SessionOverrides) : list (string * json) :=
  opt_choice "sandboxName" JStr (o_sandboxName o)
  ++ opt_choice "webSearchConfig" webSearchConfig_json (o_webSearchConfig o)
  ++ opt_choice "messagingPlan" id (o_messagingPlan o)
  ++ opt_choice "resourceProfile" profile_json (o_resourceProfile o).

(** [overrides.x] as a JSON value, undefined when absent. *)
Definition jmaybe {A} (f : A → json) (v : option A) : json := from_option f JUndef v.

Definition createSession (t : nat) (o : SessionOverrides) : Session :=
  let startedAt := default (now t) (o_startedAt o) in
  let sessionId := default (fresh_id t) (o_sessionId o) in
  {| sessionId := sessionId;
     resumable := true;
     status := "in_progress";
     mode := default "interactive" (o_mode o);
     startedAt := startedAt;
     updatedAt := default (now t) (o_updatedAt o);
     lastStepStarted := o_lastStepStarted o;
     lastCompletedStep := o_lastCompletedStep o;
     failure := o_failure o;
     agent := o_agent o;
     sandboxName := default None (o_sandboxName o);
     provider := o_provider o;
     model := o_model o;
     servingProfileProvenance :=
       parseServingProfileProvenance (jmaybe id (o_servingProfileProvenance o));
     stationExpressIntent :=
       parseStationExpressResumeIntent (jmaybe intent_json (o_stationExpressIntent o));
     stationExpressReceiptRetirement :=
       if isValidStationExpressReceiptGeneration (jmaybe JStr (o_stationExpressReceiptRetirement o))
       then o_stationExpressReceiptRetirement o else None;
     endpointUrl := o_endpointUrl o;
     credentialEnv := o_credentialEnv o;
     hermesAuthMethod := o_hermesAuthMethod o;
     preferredInferenceApi := o_preferredInferenceApi o;
     compatibleEndpointReasoning := o_compatibleEndpointReasoning o;
     compatibleEndpointReasoningEffort :=
       normalizeReasoningEffort
         (jmaybe (λ e, JStr (effort_id e)) (o_compatibleEndpointReasoningEffort o));
     nimContainer := o_nimContainer o;
     routerPid := readPositiveInteger (jmaybe (λ z, JNum (NInt z)) (o_routerPid o));
     routerCredentialHash := o_routerCredentialHash o;
     webSearchConfig :=
       normalizeWebSearchConfig (jmaybe (jnull webSearchConfig_json) (o_webSearchConfig o));
     sandboxPromptProgress :=
       parseSandboxPromptProgress (jmaybe prompt_json (o_sandboxPromptProgress o))
         (override_choices o);
     resourceProfile :=
       parseSessionResourceProfile (jmaybe (jnull profile_json) (o_resourceProfile o));
     toolDisclosure :=
       toolDisclosureOrDefault (jmaybe (λ d, JStr (disclosure_id d)) (o_toolDisclosure o));
     observabilityEnabled := o_observabilityEnabled o;
     observabilityRequestedExplicitly := o_observabilityRequestedExplicitly o;
     hermesToolGateways := readStringArray (jmaybe jstrs (o_hermesToolGateways o));
     policyPresets := readStringArray (jmaybe jstrs (o_policyPresets o));
     messagingPlan := parseSandboxMessagingPlan None (jmaybe (jnull id) (o_messagingPlan o));
     stagedCredentialProviders :=
       default [] (readStringArray (jmaybe jstrs (o_stagedCredentialProviders o)));
     migratedLegacyValueHashes := o_migratedLegacyValueHashes o;
     gpuPassthrough := o_gpuPassthrough o;
     telegramConfig := parseTelegramConfig (jmaybe telegram_json (o_telegramConfig o));
     wechatConfig := parseWechatConfig (jmaybe wechat_json (o_wechatConfig o));
     metadata := default (mkMeta "nemoclaw" None) (o_metadata o);
     machine := default (createMachineSnapshot StInit (Some startedAt) 0)
                  (parseMachineSnapshot (o_machine o) sessionId);
     checkpoint := parseStoredCheckpoint (o_checkpoint o);
     steps := o_steps o ∪ defaultSteps;
     invalidDisclosure := false |}.

(** ** normalizeSession *)

(** [hasOwn(data, k) && data[k] !== null && !parsed]. *)
Definition present_but_refused {A} (o : list (string * json)) (key : string) (parsed : option A)
    : bool :=
  hasOwn o key && negb (is_null (jget o key)) && negb (bool_decide (is_Some parsed)).

(** The parsed entries of [data.steps] replace the default steps of the same name. *)
Fixpoint merge_steps (entries : list (string * json)) (steps : gmap string StepState)
    : gmap string StepState :=
  match entries with
  | [] => steps
  | (name, step) :: rest =>
      let steps' :=
        match parseStepState step, steps !! name with
        | Some parsed, Some _ => <[name := parsed]> steps
        | _, _ => steps
        end in
      merge_steps rest steps'
  end.

(** A recorded express intent is only resumable from a resumable,
    non-interactive, unfinished session. *)
Definition intent_gate (data_resumable data_status : json) (s : Session) : bool :=
  match stationExpressIntent s with
  | Some _ => is_true_json data_resumable && (mode s =s "non-interactive")
              && (is_str "in_progress" data_status || is_str "failed" data_status)
  | None => true
  end.

(** A receipt awaiting retirement belongs to a completed session. *)
Definition retirement_gate (s : Session) : bool :=
  match stationExpressReceiptRetirement s with
  | Some g => negb (truthy g)
              || ((status s =s "complete") && negb (resumable s)
                  && bool_decide (stationExpressIntent s = None))
  | None => true
  end.

Definition step_complete (steps : gmap string StepState) (name : string) : bool :=
  step_has (steps !! name) SComplete.

(** The recorded provider selection agrees with the express intent. *)
Definition selection_gate (s : Session) : bool :=
  match stationExpressIntent s with
  | None => true
  | Some i =>
      let providerComplete := step_complete (steps s) "provider_selection" in
      let providerBound := match intent_bound i with
                           | Some (sv, ck) => truthy sv && truthy ck | None => false end in
      Bool.eqb providerComplete providerBound
      && (negb providerComplete
          || (negb (is_spark i) && bool_decide (provider s = Some "vllm-local")
              && match intent_bound i with
                 | Some (sv, _) => bool_decide (model s = Some sv)
                 | None => false
                 end))
      && (providerComplete
          || (bool_decide (provider s = None) && bool_decide (model s = None)))
  end.

(** The overrides [normalizeSession] builds from the validated parts. *)
Definition normalized_overrides (t : nat) (o : list (string * json)) (provenance : option json)
    (effort : option ReasoningEffort) (intent : option StationExpressResumeIntent)
    (retirement : option string) : SessionOverrides := {|
  o_sessionId := readString (jget o "sessionId");
  o_mode := readString (jget o "mode");
  o_startedAt := readString (jget o "startedAt");
  o_updatedAt := readString (jget o "updatedAt");
  o_lastStepStarted := readString (jget o "lastStepStarted");
  o_lastCompletedStep := readString (jget o "lastCompletedStep");
  o_failure := sanitizeFailure t (jget o "failure");
  o_agent := readString (jget o "agent");
  o_sandboxName := Some (readString (jget o "sandboxName"));
  o_provider := readString (jget o "provider");
  o_model := readString (jget o "model");
  o_servingProfileProvenance := provenance;
  o_stationExpressIntent := intent;
  o_stationExpressReceiptRetirement := retirement;
  o_endpointUrl := match jget o "endpointUrl" with JStr u => redactUrl (JStr u) | _ => None end;
  o_credentialEnv := readString (jget o "credentialEnv");
  o_hermesAuthMethod := readHermesAuthMethod (jget o "hermesAuthMethod");
  o_preferredInferenceApi := readString (jget o "preferredInferenceApi");
  o_compatibleEndpointReasoning := readString (jget o "compatibleEndpointReasoning");
  o_compatibleEndpointReasoningEffort := effort;
  o_nimContainer := readString (jget o "nimContainer");
  o_routerPid := readPositiveInteger (jget o "routerPid");
  o_routerCredentialHash := readString (jget o "routerCredentialHash");
  o_webSearchConfig := Some (parseWebSearchConfig (jget o "webSearchConfig"));
  o_sandboxPromptProgress := Some (parseSandboxPromptProgress (jget o "sandboxPromptProgress") o);
  o_resourceProfile := Some (parseSessionResourceProfile (jget o "resourceProfile"));
  o_toolDisclosure := Some (toolDisclosureOrDefault (jget o "toolDisclosure"));
  o_observabilityEnabled := is_true_json (jget o "observabilityEnabled");
  o_observabilityRequestedExplicitly := is_true_json (jget o "observabilityRequestedExplicitly");
  o_hermesToolGateways := readStringArray (jget o "hermesToolGateways");
  o_policyPresets := readStringArray (jget o "policyPresets");
  o_messagingPlan := Some (parseSandboxMessagingPlan None (jget o "messagingPlan"));
  o_stagedCredentialProviders :=
    Some (default [] (readStringArray (jget o "stagedCredentialProviders")));
  o_migratedLegacyValueHashes :=
    list_to_map <$> readStringRecord (jget o "migratedLegacyValueHashes");
  o_gpuPassthrough := is_true_json (jget o "gpuPassthrough");
  o_telegramConfig := parseTelegramConfig (jget o "telegramConfig");
  o_wechatConfig := parseWechatConfig (jget o "wechatConfig");
  o_metadata := parseSessionMetadata (jget o "metadata");
  o_machine := JUndef;
  o_checkpoint := jget o "checkpoint";
  o_steps := ∅;
|}.

Definition read_retirement (o : list (string * json)) : option string :=
  let value := jget o "stationExpressReceiptRetirement" in
  if isValidStationExpressReceiptGeneration value then readString value else None.

(** The early returns: a field that is present, not null, and unreadable. *)
Definition refused (o : list (string * json)) : bool :=
  present_but_refused o "servingProfileProvenance"
    (parseServingProfileProvenance (jget o "servingProfileProvenance"))
  || present_but_refused o "compatibleEndpointReasoningEffort"
       (normalizeReasoningEffort (jget o "compatibleEndpointReasoningEffort"))
  || present_but_refused o "stationExpressIntent"
       (parseStationExpressResumeIntent (jget o "stationExpressIntent"))
  || present_but_refused o "stationExpressReceiptRetirement" (read_retirement o).

Definition normalized_base (t : nat) (o : list (string * json)) : Session :=
  let created := createSession (S t)
    (normalized_overrides t o
       (parseServingProfileProvenance (jget o "servingProfileProvenance"))
       (normalizeReasoningEffort (jget o "compatibleEndpointReasoningEffort"))
       (parseStationExpressResumeIntent (jget o "stationExpressIntent"))
       (read_retirement o)) in
  created <| resumable := negb (is_false_json (jget o "resumable")) |>
          <| status := default (status created) (readString (jget o "status")) |>.

Definition with_recorded_steps (o : list (string * json)) (s : Session) : Session :=
  match jget o "steps" with
  | JObj entries => s <| steps := merge_steps entries (steps s) |>
  | _ => s
  end.

Definition with_recorded_machine (o : list (string * json)) (s : Session) : Session :=
  s <| machine := default (inferMachineSnapshot s)
                    (parseMachineSnapshot (jget o "machine") (sessionId s)) |>.

(** [flagged]: [hasInvalidSessionToolDisclosure(data)]. *)
Definition normalizeSession (t : nat) (flagged : bool) (data : json) : option Session :=
  match data with
  | JObj o =>
      if negb (is_int SESSION_VERSION (jget o "version")) || refused o then None
      else
        let s := normalized_base t o in
        if negb (intent_gate (jget o "resumable") (jget o "status") s)
           || negb (retirement_gate s) then None
        else
          let s := with_recorded_steps o s in
          if negb (selection_gate s) then None
          else
            let s := with_recorded_machine o s in
            Some (s <| invalidDisclosure :=
                         flagged || invalidRecordedToolDisclosure (jget o "toolDisclosure") |>)
  | _ => None
  end.

(** ** Lemmas: the parts *)

Lemma wechat_rt v w : parseWechatConfig v = Some w → parseWechatConfig (wechat_json w) = Some w.
Proof.
  destruct v as [| | | | | |o]; try done. unfold parseWechatConfig.
  destruct (readNonEmpty (jget o "accountId")) as [a|] eqn:Ea,
    (readNonEmpty (jget o "baseUrl")) as [b|] eqn:Eb,
    (readNonEmpty (jget o "userId")) as [u|] eqn:Eu; try done; intros [= <-];
    unfold wechat_json; cbn [wc_accountId wc_baseUrl wc_userId opt_prop]; jget_simpl;
    rewrite ?(readNonEmpty_rt _ _ Ea), ?(readNonEmpty_rt _ _ Eb), ?(readNonEmpty_rt _ _ Eu); done.
Qed.

Lemma hashes_rt (m : gmap string string) :
  list_to_map <$> readStringRecord (hashes_json m) = Some m.
Proof.
  unfold readStringRecord, hashes_json. cbn [fmap option_fmap option_map]. f_equal.
  rewrite <- (list_to_map_to_list m) at 2. f_equal.
  induction (map_to_list m) as [|[k v] l IH]; [done|]. cbn. by rewrite IH.
Qed.

Lemma step_status_rt st : readStepStatus (JStr (step_status_id st)) = Some st.
Proof. by destruct st. Qed.

Lemma readString_jopt s : readString (jopt s) = s.
Proof. by destruct s. Qed.

Lemma step_rt st :
  redactSensitiveText (jopt (st_error st)) = st_error st → parseStepState (step_json st) = Some st.
Proof.
  intros Hr. unfold parseStepState, step_json. jget_simpl. rewrite step_status_rt.
  cbn [mbind option_bind]. rewrite !readString_jopt, Hr. by destruct st.
Qed.

Lemma receipt_rt v st at_ rev sid r :
  parseSessionRecoveryReceipt v st at_ rev sid = Some r →
  parseSessionRecoveryReceipt (receipt_json r) st at_ rev sid = Some r.
Proof.
  destruct v as [| | | | | |o]; try done. unfold parseSessionRecoveryReceipt.
  intros E. opt_inv E. unfold receipt_json. cbn [rr_id rr_reason rr_entry rr_appliedAt rr_revision].
  jget_simpl. rewrite (readNonEmpty_rt _ _ E0). cbn [mbind option_bind]. rewrite E1.
  assert (Hr : readReason (JStr (reason_id s0)) = Some s0) by by destruct s0.
  assert (He : readMachineState (JStr (state_id o0)) = Some o0) by apply parse_state_id.
  rewrite Hr. cbn [mbind option_bind]. rewrite He. cbn [mbind option_bind]. rewrite E4.
  rewrite (readIso_inv _ _ E5). cbn [mbind option_bind].
  assert (Hn : readNonNegativeInteger (JNum (NInt z)) = Some z).
  { destruct (jget o "revision") as [| | |[z'| |]| | |]; try done.
    unfold readNonNegativeInteger in *. destruct (0 <=? z')%Z eqn:Ez; [|done].
    injection E6 as <-. by rewrite Ez. }
  rewrite Hn. cbn [mbind option_bind]. by rewrite E7.
Qed.

Lemma machine_rt v sid m :
  parseMachineSnapshot v sid = Some m → parseMachineSnapshot (machine_json m) sid = Some m.
Proof.
  destruct v as [| | | | | |o]; try done. unfold parseMachineSnapshot. intros E. opt_inv E.
  set (rev := default 0%Z _). assert (Hrev : (0 ≤ rev)%Z).
  { unfold rev. destruct (jget o "revision") as [| | |[z| |]| | |]; try done.
    unfold readNonNegativeInteger. by destruct (0 <=? z)%Z eqn:Ez; bools. }
  unfold machine_json. cbn [m_state m_stateEnteredAt m_revision m_recoveryReceipt].
  assert (Hs : readMachineState (JStr (state_id o0)) = Some o0) by apply parse_state_id.
  assert (Hn : default 0%Z (readNonNegativeInteger (JNum (NInt rev))) = rev).
  { unfold readNonNegativeInteger. by apply Z.leb_le in Hrev as ->. }
  destruct (parseSessionRecoveryReceipt _ _ _ _ _) as [r|] eqn:Er; jget_simpl;
    change (1 =? MACHINE_SNAPSHOT_VERSION)%Z with true; cbn [negb]; rewrite Hs;
    cbn [mbind option_bind]; rewrite readString_jopt, Hn.
  - by rewrite (receipt_rt _ _ _ _ _ _ Er).
  - done.
Qed.

Lemma machine_fresh_rt st at_ sid :
  parseMachineSnapshot (machine_json (createMachineSnapshot st at_ 0)) sid
  = Some (createMachineSnapshot st at_ 0).
Proof.
  unfold parseMachineSnapshot, machine_json, createMachineSnapshot.
  cbn [m_state m_stateEnteredAt m_revision m_recoveryReceipt]. jget_simpl.
  change (1 =? MACHINE_SNAPSHOT_VERSION)%Z with true. cbn [negb].
  assert (Hs : readMachineState (JStr (state_id st)) = Some st) by apply parse_state_id.
  rewrite Hs. cbn [mbind option_bind]. by rewrite readString_jopt.
Qed.

Lemma merge_steps_lookup l base k :
  NoDup (map fst l) →
  merge_steps l base !! k =
  match base !! k with
  | None => None
  | Some b => Some (default b ((list_to_map l : gmap string json) !! k ≫= parseStepState))
  end.
Proof.
  revert base. induction l as [|[n v] l IH]; intros base Hnd; cbn [merge_steps map fst] in *.
  { cbn [list_to_map foldr map]. rewrite lookup_empty. by destruct (base !! k). }
  apply NoDup_cons in Hnd as [Hn Hnd]. rewrite IH by done. cbn [list_to_map foldr fst snd uncurry].
  change (foldr (λ p, <[p.1:=p.2]>) ∅ l) with (list_to_map l : gmap string json).
  assert (Hl : (list_to_map l : gmap string json) !! n = None) by by apply not_elem_of_list_to_map_1.
  destruct (decide (k = n)) as [->|Hne].
  - rewrite lookup_insert_eq, Hl. cbn [mbind option_bind].
    destruct (parseStepState v) as [p|], (base !! n) as [b|] eqn:Eb;
      rewrite ?lookup_insert_eq, ?Eb; done.
  - rewrite lookup_insert_ne by done.
    destruct (parseStepState v) as [p|], (base !! n) as [b|]; rewrite ?lookup_insert_ne by done; done.
Qed.

Lemma merge_steps_dom l base : dom (merge_steps l base) = dom base.
Proof.
  revert base. induction l as [|[n v] l IH]; intros base; [done|]. cbn [merge_steps].
  rewrite IH. destruct (parseStepState v), (base !! n) eqn:E; try done.
  rewrite dom_insert_L. apply subseteq_union_1_L, singleton_subseteq_l, elem_of_dom. eauto.
Qed.

Lemma steps_rt (m base : gmap string StepState) entries :
  dom base = dom m → steps_json m = JObj entries →
  map_Forall (λ _ st, redactSensitiveText (jopt (st_error st)) = st_error st) m →
  merge_steps entries base = m.
Proof.
  intros Hdom [= <-] Hst. apply map_eq. intros k.
  rewrite merge_steps_lookup.
  2:{ rewrite map_map. apply NoDup_fst_map_to_list. }
  assert (Hl : (list_to_map (map (λ kv, (kv.1, step_json kv.2)) (map_to_list m)) : gmap string json)
               = step_json <$> m).
  { rewrite <- (list_to_map_to_list m) at 2. rewrite <- list_to_map_fmap. by f_equal. }
  rewrite Hl, lookup_fmap.
  destruct (m !! k) as [st|] eqn:Ek.
  - assert (Hb : k ∈ dom base) by (rewrite Hdom; apply elem_of_dom; eauto).
    apply elem_of_dom in Hb as [b ->].
    cbn [fmap option_fmap option_map mbind option_bind]. by rewrite (step_rt _ (Hst _ _ Ek)).
  - assert (Hb : k ∉ dom base) by (rewrite Hdom; by apply not_elem_of_dom).
    by apply not_elem_of_dom in Hb as ->.
Qed.

(** ** Normalised sessions *)

Definition wechat_ok (w : option WechatConfig) : Prop :=
  match w with Some w => parseWechatConfig (wechat_json w) = Some w | None => True end.

(** What [normalizeSession] guarantees of its result. *)
Record session_ok (s : Session) : Prop := {
  ok_failure : from_option (λ f, truthy_opt (f_step f) || truthy_opt (f_message f)) true (failure s)
               = true;
  ok_provenance : from_option (λ v, parseServingProfileProvenance v = Some v) True
                    (servingProfileProvenance s);
  ok_intent : from_option intent_ok true (stationExpressIntent s) = true;
  ok_retirement : from_option is_receipt_generation true (stationExpressReceiptRetirement s) = true;
  ok_pid : from_option (λ z, (0 <? z)%Z) true (routerPid s) = true;
  ok_wechat : wechat_ok (wechatConfig s);
  ok_machine : parseMachineSnapshot (machine_json (machine s)) (sessionId s) = Some (machine s);
  ok_checkpoint : from_option (λ c, ∃ o a t, parseSchema parseURL o a t = Some c) True (checkpoint s);
  ok_steps : dom (steps s) = dom defaultSteps;
  ok_name_flag : pp_sandboxName (sandboxPromptProgress s) = true →
                 validSandboxName (jopt (sandboxName s)) = true;
  ok_intent_gate : intent_gate (JBool (resumable s)) (JStr (status s)) s = true;
  ok_retirement_gate : retirement_gate s = true;
  ok_selection_gate : selection_gate s = true;
}.

(** The session's own texts are fixed points of the redactor, and [pj] is a
    form of its plan that reads back as the plan. *)
Record stable_as (pj : json) (s : Session) : Prop := {
  ps_message : from_option (λ f, redactSensitiveText (jopt (f_message f)) = f_message f) True
                 (failure s);
  ps_steps : map_Forall (λ _ st, redactSensitiveText (jopt (st_error st)) = st_error st) (steps s);
  ps_endpoint : from_option (λ u, redactUrl (JStr u) = Some u) True (endpointUrl s);
  ps_plan : let plan := parseSandboxMessagingPlan None pj in
            parseSandboxMessagingPlan None (jnull id plan) = messagingPlan s
            ∧ (pp_messaging (sandboxPromptProgress s) = true →
               isValidNullableMessagingChoice pj (jopt (sandboxName s)) = true
               ∧ isValidNullableMessagingChoice (jnull id plan) (jopt (sandboxName s)) = true);
}.

(** Stable as handed to [saveSession], and in the form written to disk, whose
    opaque payloads are plain JSON. *)
Definition mem_stable (s : Session) : Prop := stable_as (jnull id (messagingPlan s)) s.
Definition persist_stable (s : Session) : Prop :=
  stable_as (jnull compactSandboxMessagingPlanForPersistence (messagingPlan s)) s
  ∧ json_clean (jnull id (servingProfileProvenance s)) = true
  ∧ json_clean (jnull compactSandboxMessagingPlanForPersistence (messagingPlan s)) = true.

(** The machine recorded by a normalised session reads back. *)
Lemma recorded_machine_rt o s :
  parseMachineSnapshot (machine_json (machine (with_recorded_machine o s)))
    (sessionId (with_recorded_machine o s))
  = Some (machine (with_recorded_machine o s)).
Proof.
  unfold with_recorded_machine. cbn [upd machine sessionId].
  destruct (parseMachineSnapshot (jget o "machine") _) as [m|] eqn:Em.
  - by eapply machine_rt.
  - apply machine_fresh_rt.
Qed.

Lemma base_ok t o :
  let s := normalized_base t o in
  from_option (λ f, truthy_opt (f_step f) || truthy_opt (f_message f)) true (failure s) = true
  ∧ from_option (λ v, parseServingProfileProvenance v = Some v) True (servingProfileProvenance s)
  ∧ from_option intent_ok true (stationExpressIntent s) = true
  ∧ from_option is_receipt_generation true (stationExpressReceiptRetirement s) = true
  ∧ from_option (λ z, (0 <? z)%Z) true (routerPid s) = true
  ∧ wechat_ok (wechatConfig s)
  ∧ from_option (λ c, ∃ o a t, parseSchema parseURL o a t = Some c) True (checkpoint s)
  ∧ steps s = defaultSteps
  ∧ (pp_sandboxName (sandboxPromptProgress s) = true → validSandboxName (jopt (sandboxName s)) = true).
Proof.
  cbn zeta. split_and!.
  - change (failure _) with (sanitizeFailure t (jget o "failure")). unfold sanitizeFailure.
    destruct (jget o "failure"); try done. by destruct (_ || _) eqn:E.
  - change (servingProfileProvenance _) with (parseServingProfileProvenance
      (jmaybe id (parseServingProfileProvenance (jget o "servingProfileProvenance")))).
    destruct (parseServingProfileProvenance (jmaybe _ _)) as [v|] eqn:E; [|done].
    cbn [from_option]. pose proof (parseServingProfileProvenance_id _ _ E) as ->. done.
  - change (stationExpressIntent _) with (parseStationExpressResumeIntent
      (jmaybe intent_json (parseStationExpressResumeIntent (jget o "stationExpressIntent")))).
    destruct (parseStationExpressResumeIntent (jmaybe _ _)) as [i|] eqn:E; [|done].
    by eapply parse_intent_ok.
  - change (stationExpressReceiptRetirement _) with
      (if isValidStationExpressReceiptGeneration (jmaybe JStr (read_retirement o))
       then read_retirement o else None).
    destruct (isValidStationExpressReceiptGeneration _) eqn:E; [|done].
    by destruct (read_retirement o).
  - change (routerPid _) with (readPositiveInteger
      (jmaybe (λ z, JNum (NInt z)) (readPositiveInteger (jget o "routerPid")))).
    unfold readPositiveInteger at 1. destruct (jmaybe _ _) as [| | |[z| |]| | |]; try done.
    by destruct (0 <? z)%Z eqn:E.
  - change (wechatConfig _) with (parseWechatConfig
      (jmaybe wechat_json (parseWechatConfig (jget o "wechatConfig")))).
    destruct (parseWechatConfig (jmaybe _ _)) as [w|] eqn:E; [|done]. by eapply wechat_rt.
  - change (checkpoint _) with (parseStoredCheckpoint (jget o "checkpoint")).
    unfold parseStoredCheckpoint. destruct (inspectCheckpoint _ _) as [|c| | |] eqn:E; try done.
    apply inspect_loaded in E as (o' & _ & _ & E). cbn [from_option]. eauto.
  - change (steps _) with (∅ ∪ defaultSteps). by rewrite (left_id_L ∅ (∪)).
  - change (pp_sandboxName _) with
      (is_true_json (JBool (pp_sandboxName
         (parseSandboxPromptProgress (jget o "sandboxPromptProgress") o)))
       && true && validSandboxName (jopt (readString (jget o "sandboxName")))).
    change (sandboxName _) with (readString (jget o "sandboxName")).
    intros Hp. apply andb_true_iff in Hp as [_ Hp]. exact Hp.
Qed.

Lemma steps_eta s : s <| steps := steps s |> = s.
Proof. by destruct s. Qed.

Lemma normalizeSession_ok t flagged data s :
  normalizeSession t flagged data = Some s → session_ok s.
Proof.
  unfold normalizeSession. destruct data as [| | | | | |o]; try done.
  destruct (negb _ || refused o); [done|].
  pose proof (base_ok t o) as Hb. set (b := normalized_base t o) in *. cbn zeta in Hb.
  destruct (negb (intent_gate _ _ b) || _) eqn:Hg; [done|].
  destruct (negb (selection_gate (with_recorded_steps o b))) eqn:Hsel; [done|]. intros [= <-].
  set (b2 := with_recorded_steps o b) in *.
  assert (E : ∃ st, b2 = b <| steps := st |> ∧ dom st = dom defaultSteps).
  { unfold b2, with_recorded_steps. destruct Hb as (_ & _ & _ & _ & _ & _ & _ & Hst & _).
    destruct (jget o "steps") as [| | | | | |es];
      [exists (steps b); rewrite steps_eta; by rewrite Hst..|].
    exists (merge_steps es (steps b)). by rewrite merge_steps_dom, Hst. }
  destruct E as (st & E & Hdom). rewrite E in Hsel |- *. clear E. clearbody b2. clear b2.
  pose proof (recorded_machine_rt o (b <| steps := st |>)) as Hm.
  destruct Hb as (K1 & K2 & K3 & K4 & K5 & K6 & K7 & _ & K9).
  unfold with_recorded_machine in *. bools.
  assert (Hr : resumable b = negb (is_false_json (jget o "resumable"))) by done.
  assert (Hs : ∀ x, jget o "status" = JStr x → status b = x).
  { intros x Hx. unfold b, normalized_base. cbn [upd status]. by rewrite Hx. }
  clearbody b. split; try done.
  unfold intent_gate in *. cbn [upd stationExpressIntent resumable status mode].
  destruct (stationExpressIntent b); [|done]. bools.
  destruct (jget o "resumable") as [| |[]| | | |]; try done. rewrite Hr. cbn [is_false_json negb is_true_json].
  destruct (jget o "status") as [| | | |x| |] eqn:Hx; try done.
  rewrite (Hs _ eq_refl).
  match goal with Hm : mode b = _ |- _ => rewrite Hm end. done.
Qed.

Lemma failure_rt t f :
  from_option (λ f, truthy_opt (f_step f) || truthy_opt (f_message f)) true f = true →
  from_option (λ f, redactSensitiveText (jopt (f_message f)) = f_message f) True f →
  sanitizeFailure t (jnull failure_json f) = f.
Proof.
  destruct f as [[st msg at_ int]|]; [|done]. cbn [from_option f_step f_message]. intros H1 H2.
  unfold sanitizeFailure, jnull, failure_json.
  cbn [from_option f_step f_message f_recordedAt f_interrupted]. jget_simpl.
  rewrite readString_jopt, H2. cbn [from_option]. change (readString (JStr at_)) with (Some at_).
  cbn [from_option is_true_json]. by rewrite H1.
Qed.

Lemma provenance_rt v :
  from_option (λ v, parseServingProfileProvenance v = Some v) True v →
  parseServingProfileProvenance (jmaybe id (parseServingProfileProvenance (jnull id v))) = v.
Proof. destruct v as [v|]; [|done]. cbn. intros E. by rewrite E. Qed.

Lemma intent_rt i :
  from_option intent_ok true i = true →
  parseStationExpressResumeIntent (jnull intent_json i) = i.
Proof. destruct i; [|done]. apply parse_intent_roundtrip. Qed.

Lemma intent_rt2 i :
  from_option intent_ok true i = true → parseStationExpressResumeIntent (jmaybe intent_json i) = i.
Proof. destruct i; [|done]. apply parse_intent_roundtrip. Qed.

Lemma pid_rt z :
  from_option (λ z, (0 <? z)%Z) true z = true →
  readPositiveInteger (jmaybe (λ z, JNum (NInt z))
    (readPositiveInteger (jnull (λ z, JNum (NInt z)) z))) = z.
Proof. destruct z; [|done]. cbn. intros E. rewrite E. cbn. by rewrite E. Qed.

Lemma strings_rt l :
  readStringArray (jmaybe jstrs (readStringArray (jnull jstrs l))) = l.
Proof.
  destruct l as [l|]; [|done]. cbn -[only_strings]. rewrite only_strings_jstrs. cbn -[only_strings].
  by rewrite only_strings_jstrs.
Qed.

Lemma wechat_rt2 w :
  wechat_ok w → parseWechatConfig (jmaybe wechat_json (parseWechatConfig (jnull wechat_json w))) = w.
Proof.
  destruct w as [w|]; [|done]. cbn [wechat_ok jnull from_option]. intros E. rewrite E.
  cbn [jmaybe from_option]. exact E.
Qed.

Lemma retirement_rt g :
  from_option is_receipt_generation true g = true →
  (if isValidStationExpressReceiptGeneration (jopt g) then readString (jopt g) else None) = g
  ∧ (if isValidStationExpressReceiptGeneration (jmaybe JStr g) then g else None) = g.
Proof. destruct g; [|done]. cbn. intros E. by rewrite E. Qed.

Lemma checkpoint_rt c :
  url_origin_law parseURL →
  from_option (λ c, ∃ o a t, parseSchema parseURL o a t = Some c) True c →
  parseStoredCheckpoint (jnull serializeCheckpoint c) = c.
Proof.
  intros Hurl. destruct c as [c|]; [|done]. intros (o & a & t & E).
  unfold parseStoredCheckpoint. cbn [jnull from_option]. by rewrite (schema_rt _ Hurl _ _ _ _ E).
Qed.

Lemma webSearch_choice_ok c :
  isValidNullableWebSearchChoice (jnull webSearchConfig_json c) = true.
Proof. by destruct c as [[[]]|]. Qed.

Lemma resource_choice_ok p : isValidNullableResourceChoice (jnull profile_json p) = true.
Proof. by destruct p as [[]|]. Qed.

Lemma webSearch_rt2 c :
  normalizeWebSearchConfig (jmaybe (jnull webSearchConfig_json)
    (Some (parseWebSearchConfig (jnull webSearchConfig_json c)))) = c.
Proof. by destruct c as [[[]]|]. Qed.

Lemma flag_rt (b v : bool) : (b = true → v = true) → b && true && v = b.
Proof. destruct b; [|done]. intros H1. by rewrite (H1 eq_refl). Qed.

Lemma prompt_rt p o1 o2 (n : option string) w pl1 pl2 r :
  jget o1 "sandboxName" = jopt n → jget o1 "webSearchConfig" = jnull webSearchConfig_json w →
  jget o1 "messagingPlan" = pl1 → jget o1 "resourceProfile" = jnull profile_json r →
  hasOwn o1 "sandboxName" = true → hasOwn o1 "webSearchConfig" = true →
  hasOwn o1 "messagingPlan" = true → hasOwn o1 "resourceProfile" = true →
  o2 = [("sandboxName", jopt n); ("webSearchConfig", jnull webSearchConfig_json w);
        ("messagingPlan", pl2); ("resourceProfile", jnull profile_json r)] →
  (pp_sandboxName p = true → validSandboxName (jopt n) = true) →
  (pp_messaging p = true → isValidNullableMessagingChoice pl1 (jopt n) = true
                           ∧ isValidNullableMessagingChoice pl2 (jopt n) = true) →
  parseSandboxPromptProgress (prompt_json (parseSandboxPromptProgress (prompt_json p) o1)) o2 = p.
Proof.
  intros E1 E2 E3 E4 E5 E6 E7 E8 -> Hn Hm.
  assert (K : parseSandboxPromptProgress (prompt_json p) o1 = p).
  { unfold parseSandboxPromptProgress, prompt_json. jget_simpl. cbn [is_true_json].
    rewrite E1, E2, E3, E4, E5, E6, E7, E8. unfold isValidCheckpointedSandboxName.
    rewrite !flag_rt; [by destruct p|..]; intros Hp.
    - apply resource_choice_ok.
    - by apply Hm.
    - apply webSearch_choice_ok.
    - by apply Hn. }
  rewrite K. unfold parseSandboxPromptProgress, prompt_json. jget_simpl. cbn [is_true_json].
  cbn [hasOwn existsb fst String.eqb Ascii.eqb Bool.eqb orb]. unfold isValidCheckpointedSandboxName.
  rewrite !flag_rt; [by destruct p|..]; intros Hp.
  - apply resource_choice_ok.
  - by apply Hm.
  - apply webSearch_choice_ok.
  - by apply Hn.
Qed.

(** Sessions that agree on everything but steps, machine and the disclosure mark. *)
Lemma session_ext s s' :
  sessionId s = sessionId s'
  → resumable s = resumable s'
  → status s = status s'
  → mode s = mode s'
  → startedAt s = startedAt s'
  → updatedAt s = updatedAt s'
  → lastStepStarted s = lastStepStarted s'
  → lastCompletedStep s = lastCompletedStep s'
  → failure s = failure s'
  → agent s = agent s'
  → sandboxName s = sandboxName s'
  → provider s = provider s'
  → model s = model s'
  → servingProfileProvenance s = servingProfileProvenance s'
  → stationExpressIntent s = stationExpressIntent s'
  → stationExpressReceiptRetirement s = stationExpressReceiptRetirement s'
  → endpointUrl s = endpointUrl s'
  → credentialEnv s = credentialEnv s'
  → hermesAuthMethod s = hermesAuthMethod s'
  → preferredInferenceApi s = preferredInferenceApi s'
  → compatibleEndpointReasoning s = compatibleEndpointReasoning s'
  → compatibleEndpointReasoningEffort s = compatibleEndpointReasoningEffort s'
  → nimContainer s = nimContainer s'
  → routerPid s = routerPid s'
  → routerCredentialHash s = routerCredentialHash s'
  → webSearchConfig s = webSearchConfig s'
  → sandboxPromptProgress s = sandboxPromptProgress s'
  → resourceProfile s = resourceProfile s'
  → toolDisclosure s = toolDisclosure s'
  → observabilityEnabled s = observabilityEnabled s'
  → observabilityRequestedExplicitly s = observabilityRequestedExplicitly s'
  → hermesToolGateways s = hermesToolGateways s'
  → policyPresets s = policyPresets s'
  → messagingPlan s = messagingPlan s'
  → stagedCredentialProviders s = stagedCredentialProviders s'
  → migratedLegacyValueHashes s = migratedLegacyValueHashes s'
  → gpuPassthrough s = gpuPassthrough s'
  → telegramConfig s = telegramConfig s'
  → wechatConfig s = wechatConfig s'
  → metadata s = metadata s'
  → checkpoint s = checkpoint s'
  → s = s' <| steps := steps s |> <| machine := machine s |>
           <| invalidDisclosure := invalidDisclosure s |>.
Proof. destruct s, s'. cbn. intros. by subst. Qed.

Lemma base_rt t pj s :
  url_origin_law parseURL → session_ok s → stable_as pj s →
  ∃ m, normalized_base t (session_obj pj (jnull serializeCheckpoint (checkpoint s)) s)
  = s <| steps := defaultSteps |> <| machine := m |> <| invalidDisclosure := false |>.
Proof.
  intros Hurl Hok Hst. set (o := session_obj _ _ s).
  set (B := normalized_base t o). exists (machine B).
  transitivity (s <| steps := steps B |> <| machine := machine B |>
                  <| invalidDisclosure := invalidDisclosure B |>).
  2:{ change (steps B) with (∅ ∪ defaultSteps). by rewrite (left_id_L ∅ (∪)). }
  destruct Hok, Hst.
  apply session_ext; first [reflexivity | exact (readString_jopt _) | idtac].
  - change (resumable B) with (negb (negb (resumable s))). apply negb_involutive.
  - change (failure B) with (sanitizeFailure t (jnull failure_json (failure s))).
    by apply failure_rt.
  - by apply provenance_rt.
  - change (stationExpressIntent B) with (parseStationExpressResumeIntent (jmaybe intent_json
      (parseStationExpressResumeIntent (jnull intent_json (stationExpressIntent s))))).
    rewrite intent_rt by done. by apply intent_rt2.
  - destruct (retirement_rt _ ok_retirement0) as [E1 E2].
    change (stationExpressReceiptRetirement B) with
      (if isValidStationExpressReceiptGeneration (jmaybe JStr (read_retirement o))
       then read_retirement o else None).
    assert (E : read_retirement o = stationExpressReceiptRetirement s) by exact E1.
    rewrite E. exact E2.
  - change (endpointUrl B) with (match jopt (endpointUrl s) with JStr u => redactUrl (JStr u)
                                 | _ => None end).
    by destruct (endpointUrl s).
  - change (hermesAuthMethod B) with
      (readHermesAuthMethod (jnull (λ h, JStr (hermes_id h)) (hermesAuthMethod s))).
    by destruct (hermesAuthMethod s) as [[]|].
  - change (compatibleEndpointReasoningEffort B) with (normalizeReasoningEffort
      (jmaybe (λ e, JStr (effort_id e)) (normalizeReasoningEffort
        (jnull (λ e, JStr (effort_id e)) (compatibleEndpointReasoningEffort s))))).
    by destruct (compatibleEndpointReasoningEffort s) as [[]|].
  - by apply pid_rt.
  - apply webSearch_rt2.
  - apply (prompt_rt (sandboxPromptProgress s) o _ (sandboxName s) (webSearchConfig s) pj
      (jnull id (parseSandboxMessagingPlan None pj)) (resourceProfile s)); try reflexivity.
    + change (override_choices _) with
        [("sandboxName", jopt (readString (jopt (sandboxName s))));
         ("webSearchConfig", jnull webSearchConfig_json
            (parseWebSearchConfig (jnull webSearchConfig_json (webSearchConfig s))));
         ("messagingPlan", jnull id (parseSandboxMessagingPlan None pj));
         ("resourceProfile", jnull profile_json
            (parseSessionResourceProfile (jnull profile_json (resourceProfile s))))].
      rewrite readString_jopt. repeat f_equal.
      * by destruct (webSearchConfig s) as [[[]]|].
      * by destruct (resourceProfile s) as [[]|].
    + done.
    + apply ps_plan0.
  - change (resourceProfile B) with (parseSessionResourceProfile
      (jnull profile_json (parseSessionResourceProfile
         (jnull profile_json (resourceProfile s))))).
    by destruct (resourceProfile s) as [[]|].
  - change (toolDisclosure B) with (toolDisclosureOrDefault (JStr (disclosure_id
      (toolDisclosureOrDefault (JStr (disclosure_id (toolDisclosure s))))))).
    by destruct (toolDisclosure s).
  - apply strings_rt.
  - apply strings_rt.
  - apply ps_plan0.
  - change (stagedCredentialProviders B) with (default [] (readStringArray (jmaybe jstrs
      (Some (default [] (readStringArray (jstrs (stagedCredentialProviders s)))))))).
    cbn -[only_strings]. by rewrite !only_strings_jstrs.
  - change (migratedLegacyValueHashes B) with ((list_to_map : _ → gmap string string) <$>
      readStringRecord (jnull hashes_json (migratedLegacyValueHashes s))).
    destruct (migratedLegacyValueHashes s); [apply hashes_rt|done].
  - change (telegramConfig B) with (parseTelegramConfig (jmaybe telegram_json
      (parseTelegramConfig (jnull telegram_json (telegramConfig s))))).
    by destruct (telegramConfig s) as [[]|].
  - by apply wechat_rt2.
  - change (metadata B) with (default (mkMeta "nemoclaw" None)
      (parseSessionMetadata (metadata_json (metadata s)))).
    by destruct (metadata s) as [? []].
  - by apply checkpoint_rt.
Qed.

Lemma present_rt {A} o key (v : json) (parsed : option A) :
  jget o key = v → (v = JNull ∨ is_Some parsed) → present_but_refused o key parsed = false.
Proof.
  intros <- Hv. unfold present_but_refused. destruct Hv as [-> | Hv].
  - by rewrite andb_false_r.
  - rewrite bool_decide_eq_true_2 by done. by rewrite !andb_false_r.
Qed.

Lemma refused_rt disk cp s : session_ok s → refused (session_obj disk cp s) = false.
Proof.
  intros Hok. destruct Hok. unfold refused. rewrite !orb_false_iff. split_and!.
  - eapply present_rt; [reflexivity|].
    change (jget _ _) with (jnull id (servingProfileProvenance s)).
    destruct (servingProfileProvenance s) as [v|]; [right|by left].
    cbn [jnull from_option id] in *. rewrite ok_provenance0. eauto.
  - eapply present_rt; [reflexivity|].
    change (jget _ _) with
      (jnull (λ e, JStr (effort_id e)) (compatibleEndpointReasoningEffort s)).
    destruct (compatibleEndpointReasoningEffort s) as [e|]; [right|by left].
    cbn [jnull from_option]. rewrite normalizeReasoningEffort_id. eauto.
  - eapply present_rt; [reflexivity|].
    change (jget _ _) with (jnull intent_json (stationExpressIntent s)).
    rewrite (intent_rt _ ok_intent0). destruct (stationExpressIntent s); [right; eauto|by left].
  - eapply present_rt; [reflexivity|].
    destruct (retirement_rt _ ok_retirement0) as [E _].
    change (read_retirement _) with
      (if isValidStationExpressReceiptGeneration (jopt (stationExpressReceiptRetirement s))
       then readString (jopt (stationExpressReceiptRetirement s)) else None).
    rewrite E. change (jget _ _) with (jopt (stationExpressReceiptRetirement s)).
    destruct (stationExpressReceiptRetirement s); [right; eauto|by left].
Qed.

Lemma normalize_rt t flagged pj s :
  url_origin_law parseURL → session_ok s → stable_as pj s →
  normalizeSession t flagged (JObj (session_obj pj (jnull serializeCheckpoint (checkpoint s)) s))
  = Some (s <| invalidDisclosure := flagged |>).
Proof.
  intros Hurl Hok Hst. unfold normalizeSession.
  destruct (base_rt t pj s Hurl Hok Hst) as [m Hb].
  rewrite refused_rt, Hb by done.
  set (b := s <| steps := defaultSteps |> <| machine := m |> <| invalidDisclosure := false |>).
  match goal with |- context [jget ?x "version"] => set (o := x) end. destruct Hok, Hst.
  change (is_int SESSION_VERSION (jget o "version")) with true. cbn [negb orb].
  change (intent_gate (jget o "resumable") (jget o "status") b) with
    (intent_gate (JBool (resumable s)) (JStr (status s)) s).
  change (retirement_gate b) with (retirement_gate s). rewrite ok_intent_gate0, ok_retirement_gate0.
  cbn [negb orb].
  assert (E : with_recorded_steps o b = s <| machine := m |> <| invalidDisclosure := false |>).
  { unfold with_recorded_steps. change (jget o "steps") with (steps_json (steps s)).
    destruct (steps_json (steps s)) as [| | | | | |es] eqn:Es; try done.
    change (steps b) with defaultSteps. rewrite (steps_rt _ _ _ (eq_sym ok_steps0) Es ps_steps0).
    by destruct s. }
  rewrite E.
  change (selection_gate (s <| machine := m |> <| invalidDisclosure := false |>))
    with (selection_gate s). rewrite ok_selection_gate0. cbn [negb].
  change (invalidRecordedToolDisclosure (jget o "toolDisclosure")) with
    (invalidRecordedToolDisclosure (JStr (disclosure_id (toolDisclosure s)))).
  assert (Hd : invalidRecordedToolDisclosure (JStr (disclosure_id (toolDisclosure s))) = false)
    by by destruct (toolDisclosure s).
  rewrite Hd, orb_false_r. unfold with_recorded_machine.
  change (jget o "machine") with (machine_json (machine s)).
  change (sessionId (s <| machine := m |> <| invalidDisclosure := false |>)) with (sessionId s).
  rewrite ok_machine0. cbn [default from_option id]. by destruct s.
Qed.

(** A recorded selection that contradicts the express intent is refused. *)
Lemma normalize_selection_refused t flagged pj s st :
  url_origin_law parseURL → session_ok s → stable_as pj s →
  dom st = dom defaultSteps →
  map_Forall (λ _ x, redactSensitiveText (jopt (st_error x)) = st_error x) st →
  selection_gate (s <| steps := st |>) = false →
  normalizeSession t flagged
    (JObj (session_obj pj (jnull serializeCheckpoint (checkpoint s)) (s <| steps := st |>))) = None.
Proof.
  intros Hurl Hok Hst Hdom Hred Hsel. unfold normalizeSession.
  destruct (base_rt t pj s Hurl Hok Hst) as [m Hb].
  match goal with |- context [normalized_base t ?x] => set (o := x) end.
  change (refused o) with (refused (session_obj pj (jnull serializeCheckpoint (checkpoint s)) s)).
  change (normalized_base t o) with
    (normalized_base t (session_obj pj (jnull serializeCheckpoint (checkpoint s)) s)).
  rewrite refused_rt, Hb by done.
  set (b := s <| steps := defaultSteps |> <| machine := m |> <| invalidDisclosure := false |>).
  change (is_int SESSION_VERSION (jget o "version")) with true. cbn [negb orb].
  change (intent_gate (jget o "resumable") (jget o "status") b) with
    (intent_gate (JBool (resumable s)) (JStr (status s)) s).
  change (retirement_gate b) with (retirement_gate s).
  rewrite (ok_intent_gate s Hok), (ok_retirement_gate s Hok). cbn [negb orb].
  unfold with_recorded_steps. change (jget o "steps") with (steps_json st).
  destruct (steps_json st) as [| | | | | |es] eqn:Es; try done.
  change (steps b) with defaultSteps. rewrite (steps_rt _ _ _ (eq_sym Hdom) Es Hred).
  change (selection_gate (b <| steps := st |>)) with (selection_gate (s <| steps := st |>)).
  by rewrite Hsel.
Qed.

Lemma clean_props {A} (f : A → json) (l : list (string * A)) :
  (∀ x, json_clean (f x) = true) → json_clean (JObj (map (λ kv, (kv.1, f kv.2)) l)) = true.
Proof. intros Hf. cbn. induction l as [|[k x] l IH]; [done|]. cbn. by rewrite Hf, IH. Qed.

Lemma clean_step st : json_clean (step_json st) = true.
Proof. by destruct st as [? [] [] []]. Qed.

Lemma clean_machine m : json_clean (machine_json m) = true.
Proof. by destruct m as [? [] ? []]. Qed.

Lemma clean_intent i : json_clean (intent_json i) = true.
Proof. by destruct i as [? ? [] [[]|]|[] ?]. Qed.

Lemma clean_failure f : json_clean (failure_json f) = true.
Proof. by destruct f as [[] [] ? ?]. Qed.

Lemma clean_wechat w : json_clean (wechat_json w) = true.
Proof. by destruct w as [[] [] []]. Qed.

Lemma clean_session s :
  json_clean (jnull id (servingProfileProvenance s)) = true
  ∧ json_clean (jnull compactSandboxMessagingPlanForPersistence (messagingPlan s)) = true →
  json_clean (serializeSessionForDisk s) = true.
Proof.
  intros [H1 H2]. unfold serializeSessionForDisk. cbn [json_clean]. apply forallb_forall.
  intros kv Hin. unfold session_obj in Hin. cbn [In] in Hin.
  repeat (destruct Hin as [<-|Hin]; [cbn [snd];
    first [reflexivity | exact H1 | exact H2 | apply json_clean_jopt | apply json_clean_jstrs
          | apply clean_machine | idtac]|]); [..|done]; unfold jnull;
    first [ apply clean_option; intros x;
            first [reflexivity | apply json_clean_jstrs | apply clean_intent
                  | apply clean_checkpoint | apply clean_failure | apply clean_wechat
                  | by apply clean_props ]
          | by destruct (metadata s) as [? []]
          | by apply clean_props, clean_step ].
Qed.

End WithHost.

#[global] Arguments normalizeSession : simpl never.
#[global] Arguments createSession : simpl never.
#[global] Arguments serializeSessionForDisk : simpl never.

(** ** Properties *)

(** C11: everything a load returns is a well-formed session: its express intent,
    receipt and provider selection are mutually consistent, its prompt flags
    are vouched for, its steps are exactly the known ones and its machine
    snapshot and checkpoint are themselves readable. *)
Theorem normalizeSession_establishes_invariant {host : Host} t flagged data :
  match normalizeSession t flagged data with
  | Some s => session_ok s
  | None => True
  end.
Proof. destruct (normalizeSession t flagged data) eqn:E; [by eapply normalizeSession_ok|done]. Qed.

(** C12: a session that was loaded is written to disk in a form that loads back as
    the same session, provided its redacted texts and its plan are already in
    stored form: no field is lost, invented or reinterpreted by a save. *)
Theorem session_survives_save {host : Host} t flagged data s t' :
  url_origin_law parseURL →
  normalizeSession t flagged data = Some s → persist_stable s →
  normalizeSession t' false (json_disk (serializeSessionForDisk s))
  = Some (s <| invalidDisclosure := false |>).
Proof.
  intros Hurl Hn [Hst Hc]. rewrite json_disk_clean by by apply clean_session.
  apply normalize_rt; [done| |done]. by eapply normalizeSession_ok.
Qed.

(** A host whose redactor and plan validator are the identity on strings and
    objects, for evaluating the definitions on concrete inputs. *)
Definition sample_host : Host := {|
  now := λ _, "2026-01-01T00:00:00.000Z";
  fresh_id := λ n, ("session-" ++ pretty n)%string;
  sha256_hex := λ _, of_chars (repeat "a"%char 64);
  redactUrl := readString;
  redactSensitiveText := readString;
  parseSandboxMessagingPlan := λ _ v, match v with JObj _ => Some v | _ => None end;
  compactSandboxMessagingPlanForPersistence := id;
  parseURL := one_url;
|}.

Definition sample_session_json : json := JObj [
  ("version", JNum (NInt 1)); ("sessionId", JStr "s1"); ("resumable", JBool true);
  ("status", JStr "failed"); ("mode", JStr "non-interactive");
  ("startedAt", JStr "2026-01-01T00:00:00.000Z"); ("updatedAt", JStr "2026-01-01T00:01:00.000Z");
  ("failure", JObj [("step", JStr "sandbox"); ("message", JStr "image pull failed");
                    ("interrupted", JBool true)]);
  ("sandboxName", JStr "my-box"); ("endpointUrl", JStr "https://example.test/v1");
  ("sandboxPromptProgress", JObj [("sandboxName", JBool true); ("webSearch", JBool true)]);
  ("stationExpressIntent",
     intent_json (StationIntent "deepseek-v4-flash" "my-box" None
                    (Some ("served", "deepseek-ai/DeepSeek-V4-Flash"))));
  ("provider", JStr "vllm-local"); ("model", JStr "served");
  ("toolDisclosure", JStr "DIRECT"); ("webSearchConfig", JNull);
  ("checkpoint", sample_checkpoint_json 3);
  ("steps", JObj [("provider_selection", JObj [("status", JStr "complete")]);
                  ("sandbox", JObj [("status", JStr "failed"); ("error", JStr "image pull failed")]);
                  ("unknown", JObj [("status", JStr "complete")])]);
  ("machine", JObj [("version", JNum (NInt 1)); ("state", JStr "failed");
                    ("revision", JNum (NInt 7))]) ].

Lemma session_survives_save_witness :
  match normalizeSession (host := sample_host) 0 false sample_session_json with
  | Some s => normalizeSession (host := sample_host) 1 false
                (json_disk (serializeSessionForDisk (host := sample_host) s))
              = Some (s <| invalidDisclosure := false |>)
  | None => False
  end.
Proof.
  destruct (normalizeSession (host := sample_host) 0 false sample_session_json) as [s|] eqn:E;
    [|vm_compute in E; discriminate E].
  apply (session_survives_save (host := sample_host) 0 false sample_session_json s 1);
    [exact one_url_law|exact E|].
  vm_compute in E. injection E as <-. split; [|split; reflexivity]. split; try reflexivity.
  - apply map_Forall_to_list. vm_compute. repeat constructor.
  - vm_compute. split; [reflexivity|discriminate].
Defined.
