(* ===== verification/Events.v ===== *)
(** * Machine events (src/lib/onboard/machine/events.ts)

    The redacted context and the event the session and the runtime emit, with
    the effective reasoning effort of src/lib/inference/selection.ts and the
    active channels of a messaging plan (src/lib/messaging/plan-validation.ts). *)

From S2P Require Import Prelude Json Machine Choices Station Checkpoint SessionData.

(** types.ts *)
Inductive OnboardMachineEventType : Type :=
| EvStarted | EvResumed | EvCompleted | EvFailed
| EvEntered | EvExited | EvSkipped | EvStateCompleted | EvStateFailed
| EvRepairStarted | EvRepairCompleted | EvRepairFailed
| EvResultInvalidated | EvResultSkipped | EvContextUpdated | EvResumeConflict
| EvHookStarted | EvHookCompleted | EvHookFailed.
#[export] Instance event_type_eq_dec : EqDecision OnboardMachineEventType.
Proof. solve_decision. Defined.

(** ** Effective reasoning effort (selection.ts) *)

(** [ReasoningEffort | "endpoint-default"]: [None] is the endpoint default. *)
Definition EffectiveReasoningEffort : Type := option ReasoningEffort.

Definition nullableTrimmed (value : option string) : option string :=
  match value with
  | Some s => let t := js_trim s in if truthy t then Some t else None
  | None => None
  end.

Definition SUPPORTED_INFERENCE_APIS : list string :=
  ["openai-completions"; "anthropic-messages"; "openai-responses"].

Definition nullableInferenceApi (value : option string) : option string :=
  match nullableTrimmed value with
  | Some n => if includes SUPPORTED_INFERENCE_APIS n then Some n else None
  | None => None
  end.

Record InferenceSelection := mkSelection {
  sel_provider : option string;
  sel_model : option string;
  sel_endpointUrl : option string;
  sel_credentialEnv : option string;
  sel_preferredInferenceApi : option string;
  sel_reasoning : option bool;
  sel_effort : option ReasoningEffort;
  sel_nimContainer : option string;
}.

Definition nullableCompatibleEndpointReasoning (provider value : option string) : option bool :=
  if negb (bool_decide (provider = Some "compatible-endpoint")) then None
  else match js_lower <$> nullableTrimmed value with
       | Some n => if n =s "true" then Some true else if n =s "false" then Some false else None
       | None => None
       end.

Definition nullableCompatibleEndpointReasoningEffort (provider : option string)
    (value : option ReasoningEffort) : option ReasoningEffort :=
  if negb (bool_decide (provider = Some "compatible-endpoint")) then None else value.

(** On the fields of a session, which carries no endpoint source. *)
Definition normalizeInferenceSelection (s : Session) : InferenceSelection :=
  let provider := nullableTrimmed (provider s) in
  mkSelection provider (nullableTrimmed (model s)) (nullableTrimmed (endpointUrl s))
    (nullableTrimmed (credentialEnv s)) (nullableInferenceApi (preferredInferenceApi s))
    (nullableCompatibleEndpointReasoning provider (compatibleEndpointReasoning s))
    (nullableCompatibleEndpointReasoningEffort provider (compatibleEndpointReasoningEffort s))
    (nullableTrimmed (nimContainer s)).

Definition getEffectiveReasoningEffort (s : Session) : option EffectiveReasoningEffort :=
  let sel := normalizeInferenceSelection s in
  if bool_decide (sel_provider sel = Some "compatible-endpoint")
     && bool_decide (sel_preferredInferenceApi sel = Some "openai-completions")
  then Some (sel_effort sel) else None.

(** ** Channels of a plan (plan-validation.ts) *)

(** A validated plan's [disabledChannels] and [channels]. *)
Definition plan_disabled (plan : json) : list string :=
  default [] (readStringArray (opt_get plan "disabledChannels")).

Fixpoint active_channels (disabled : list string) (channels : list json) : list string :=
  match channels with
  | [] => []
  | JObj c :: rest =>
      match jget c "channelId" with
      | JStr id =>
          if is_true_json (jget c "active") && negb (is_true_json (jget c "disabled"))
             && negb (includes disabled id)
          then id :: active_channels disabled rest else active_channels disabled rest
      | _ => active_channels disabled rest
      end
  | _ :: rest => active_channels disabled rest
  end.

Definition getActiveChannelIdsFromPlan (plan : option json) : list string :=
  match plan with
  | None => []
  | Some p => match opt_get p "channels" with
              | JArr channels => active_channels (plan_disabled p) channels
              | _ => []
              end
  end.
Definition getDisabledChannelIdsFromPlan (plan : option json) : list string :=
  match plan with Some p => plan_disabled p | None => [] end.

(** ** Events *)

Record OnboardMachineContext := mkContext {
  ctx_agent : option string;
  ctx_sandboxName : option string;
  ctx_provider : option string;
  ctx_model : option string;
  ctx_endpointOrigin : option string;
  ctx_credentialEnv : option string;
  ctx_preferredInferenceApi : option string;
  ctx_reasoningEffort : option EffectiveReasoningEffort;
  ctx_hermesAuthMethod : option HermesAuthMethod;
  ctx_hermesToolGateways : option (list string);
  ctx_policyPresets : option (list string);
  ctx_messagingChannels : list string;
  ctx_gpuPassthrough : bool;
}.

Record OnboardMachineEvent := mkEvent {
  ev_type : OnboardMachineEventType;
  ev_occurredAt : string;
  ev_sessionId : string;
  ev_state : option OnboardMachineState;
  ev_step : option string;
  ev_context : OnboardMachineContext;
  ev_error : option string;
  ev_metadata : list (string * json);
}.

Section WithHost.
Context {host : Host}.

Fixpoint sanitizeJsonValue (value : json) : json :=
  match value with
  | JStr s => JStr (default "" (or_else (redactUrl value) (redactSensitiveText value)))
  | JNum (NNonFinite literal) => JStr literal
  | JNum _ | JBool _ | JNull => value
  | JArr l => JArr (map sanitizeJsonValue l)
  | JUndef => JStr "undefined"
  | JObj o => JObj (map (λ kv, match kv with (k, v) => (k, sanitizeJsonValue v) end) o)
  end.

Definition endpointOrigin (value : option string) : option string :=
  match value with
  | Some v => if negb (truthy (js_trim v)) then None else origin <$> parseURL v
  | None => None
  end.

(** [metadata] is null, absent or an object. *)
Definition sanitizeOnboardMachineEventMetadata (metadata : option (list (string * json)))
    : list (string * json) :=
  match metadata with
  | None => []
  | Some o => map (λ kv, (kv.1, sanitizeJsonValue kv.2)) o
  end.

Definition buildOnboardMachineContext (s : Session) : OnboardMachineContext := {|
  ctx_agent := agent s;
  ctx_sandboxName := sandboxName s;
  ctx_provider := provider s;
  ctx_model := model s;
  ctx_endpointOrigin := endpointOrigin (endpointUrl s);
  ctx_credentialEnv := credentialEnv s;
  ctx_preferredInferenceApi := preferredInferenceApi s;
  ctx_reasoningEffort := getEffectiveReasoningEffort s;
  ctx_hermesAuthMethod := hermesAuthMethod s;
  ctx_hermesToolGateways := hermesToolGateways s;
  ctx_policyPresets := policyPresets s;
  ctx_messagingChannels := getActiveChannelIdsFromPlan (messagingPlan s);
  ctx_gpuPassthrough := gpuPassthrough s;
|}.

(** [t] indexes the clock reading of [occurredAt]. *)
Definition createOnboardMachineEvent (t : nat) (type : OnboardMachineEventType) (s : Session)
    (step : option string) (state : option OnboardMachineState) (error : option string)
    (metadata : option (list (string * json))) : OnboardMachineEvent :=
  let normalizedStep := match step with
                        | Some n => if truthy n && isOnboardSessionStepName n then Some n else None
                        | None => None
                        end in
  {| ev_type := type;
     ev_occurredAt := now t;
     ev_sessionId := sessionId s;
     ev_state := or_else state (machineStateFromOnboardSessionStep normalizedStep);
     ev_step := normalizedStep;
     ev_context := buildOnboardMachineContext s;
     ev_error := redactSensitiveText (jopt error);
     ev_metadata := sanitizeOnboardMachineEventMetadata metadata |}.
End WithHost.
