(* ===== verification/SessionStore.v ===== *)
(** * The onboarding session store

    Loading, saving and updating the session file, the filter every caller's
    updates pass through, and the step and terminal operations of
    src/lib/state/onboard-session.ts.  An operation runs against a [World]: the
    session file, the readings of the clock so far, the events emitted, and
    the installer receipts of src/lib/onboard/station-express-resume.ts. *)

From S2P Require Import Prelude Json Machine Choices Station Checkpoint SessionData SessionParse.
From S2P Require Import Events.

(** The session file: absent, not JSON, or a JSON document. *)
Inductive Disk : Type := NoFile | Unparsable | Stored (contents : json).

(** The installer receipt store and the onboard lock around it. *)
Class ReceiptStore := {
  Receipts : Type;
  (** [assertStationExpressInstallerResumeMatches] returns. *)
  receipt_matches : string → Receipts → bool;
  (** [claimAndRetireStationExpressInstallerResume]: returns, and the new store. *)
  claim_receipt : string → Receipts → bool * Receipts;
  (** [removeRetirementClaimProof] of every claim. *)
  finish_claims : Receipts → bool * Receipts;
  (** [heldLockFd !== null], [acquireOnboardLock(...).acquired], [releaseOnboardLock]. *)
  lock_held : Receipts → bool;
  acquire_lock : Receipts → bool * Receipts;
  release_lock : Receipts → Receipts;
}.

(** The refusals of [OnboardRuntime] (machine/runtime.ts) beside the table's. *)
Inductive result_error : Type :=
| SourceMismatch (source : string) (state : OnboardMachineState)
| AlreadyAtTarget (state : OnboardMachineState)
| KindMismatch (expected got : OnboardMachineTransitionKind)
| PauseTerminal (state : OnboardMachineState)
| SkipTerminal (state : OnboardMachineState)
| InvalidatesUpdates
| InvalidatesNonTransition.

(** The refusals of the recreate journal (sandbox-recreate-transaction.ts) and of
    the checkpoint recorders (checkpoint-record.ts). *)
Inductive checkpoint_error : Type :=
| OwnershipChanged
| BackwardPhase (from to : CheckpointSandboxRecreatePhase)
| DifferentTransaction (sandboxName : string)
| NoStableId (sandboxName : string)
| NoSourceRow (sandboxName : string)
| ReplacementNotReady
| DifferentReplacement
| WrongPhase (phase : CheckpointSandboxRecreatePhase)
| EffectRecorded (sandboxName : string)
| NotCompleted
| InvalidBindings
| InvalidReceipt
| ConflictingOwnership
| ReceiptWithoutBindings
| OwnedByOtherGroup.

(** The refusals of a session recovery (session-recovery.ts). *)
Inductive recovery_error : Type :=
| UnrecoverableSession (derivedEntry : OnboardMachineState)
| BadTimestamp.

Inductive session_error : Type :=
| RecoveryRefused (e : recovery_error)
| ResultRefused (e : result_error)
| CheckpointRefused (e : checkpoint_error)
| MachineError (e : machine_error)
| BindRefused
| ReceiptMismatch
| InvalidReceiptGeneration
| LockBusy
| RetirementStateMismatch
| ReceiptStoreFailed.

Record World `{receipts : ReceiptStore} := mkWorld {
  w_disk : Disk;
  w_tick : nat;
  w_events : list OnboardMachineEvent;
  w_receipts : Receipts;
}.
#[export] Instance eta_World `{receipts : ReceiptStore} : Eta World := λ w,
  mkWorld _ (w_disk w) (w_tick w) (w_events w) (w_receipts w).

(** ** Update intents *)

Inductive NullableSessionUpdateIntent (T : Type) : Type :=
| Unchanged
| Clear
| SetTo (value : T).
Arguments Unchanged {T}.
Arguments Clear {T}.
Arguments SetTo {T} value.

Definition getNullableStringUpdateIntent (value : json) (normalize : option (string → option string))
    : NullableSessionUpdateIntent string :=
  match value with
  | JNull => Clear
  | JStr v =>
      let normalized := match normalize with Some f => f v | None => Some v end in
      match normalized with None => Clear | Some n => SetTo n end
  | _ => Unchanged
  end.

Definition hasSessionUpdateValue {T} (i : NullableSessionUpdateIntent T) : bool :=
  match i with Unchanged => false | _ => true end.
Definition isSessionUpdateClear {T} (i : NullableSessionUpdateIntent T) : bool :=
  match i with Clear => true | _ => false end.

(** [applyNullableSessionUpdate] on one key of a partial session: absent,
    [null], or a value. *)
Definition applyNullableSessionUpdate {T} (safe : option (option T))
    (i : NullableSessionUpdateIntent T) : option (option T) :=
  match i with Unchanged => safe | Clear => Some None | SetTo v => Some (Some v) end.

(** ** Safe updates

    [Partial<Session>] as [filterSafeUpdates] builds it: [None] is an absent key. *)
Record SafeUpdates := mkSafe {
  u_sandboxName : option (option string);
  u_provider : option (option string);
  u_model : option (option string);
  u_servingProfileProvenance : option (option json);
  u_endpointUrl : option (option string);
  u_credentialEnv : option (option string);
  u_hermesAuthMethod : option (option HermesAuthMethod);
  u_preferredInferenceApi : option (option string);
  u_compatibleEndpointReasoning : option (option string);
  u_compatibleEndpointReasoningEffort : option (option ReasoningEffort);
  u_nimContainer : option (option string);
  u_routerPid : option (option Z);
  u_routerCredentialHash : option (option string);
  u_webSearchConfig : option (option WebSearchConfig);
  u_toolDisclosure : option ToolDisclosure;
  u_observabilityEnabled : option bool;
  u_hermesToolGateways : option (option (list string));
  u_policyPresets : option (option (list string));
  u_messagingPlan : option (option json);
  u_migratedLegacyValueHashes : option (option (gmap string string));
  u_gpuPassthrough : option bool;
  u_telegramConfig : option (option bool);
  u_wechatConfig : option (option WechatConfig);
  u_metadata : option SessionMetadata;
}.

Definition no_updates : SafeUpdates :=
  mkSafe None None None None None None None None None None None None None None None None None
    None None None None None None None.

(** The keys present, in the order the filter assigns them: [Object.keys(safe)]. *)
Definition updates_keys (u : SafeUpdates) : list string :=
  let key {A} (name : string) (v : option A) := match v with Some _ => [name] | None => [] end in
  key "sandboxName" (u_sandboxName u) ++ key "provider" (u_provider u) ++ key "model" (u_model u)
  ++ key "servingProfileProvenance" (u_servingProfileProvenance u)
  ++ key "endpointUrl" (u_endpointUrl u) ++ key "credentialEnv" (u_credentialEnv u)
  ++ key "hermesAuthMethod" (u_hermesAuthMethod u)
  ++ key "preferredInferenceApi" (u_preferredInferenceApi u)
  ++ key "compatibleEndpointReasoning" (u_compatibleEndpointReasoning u)
  ++ key "compatibleEndpointReasoningEffort" (u_compatibleEndpointReasoningEffort u)
  ++ key "nimContainer" (u_nimContainer u) ++ key "routerPid" (u_routerPid u)
  ++ key "routerCredentialHash" (u_routerCredentialHash u)
  ++ key "webSearchConfig" (u_webSearchConfig u) ++ key "toolDisclosure" (u_toolDisclosure u)
  ++ key "observabilityEnabled" (u_observabilityEnabled u)
  ++ key "hermesToolGateways" (u_hermesToolGateways u) ++ key "policyPresets" (u_policyPresets u)
  ++ key "messagingPlan" (u_messagingPlan u)
  ++ key "migratedLegacyValueHashes" (u_migratedLegacyValueHashes u)
  ++ key "gpuPassthrough" (u_gpuPassthrough u) ++ key "telegramConfig" (u_telegramConfig u)
  ++ key "wechatConfig" (u_wechatConfig u) ++ key "metadata" (u_metadata u).

(** [Object.assign(session, safe)]. *)
Definition assign_updates (u : SafeUpdates) (s : Session) : Session :=
  s <| sandboxName := default (sandboxName s) (u_sandboxName u) |>
    <| provider := default (provider s) (u_provider u) |>
    <| model := default (model s) (u_model u) |>
    <| servingProfileProvenance :=
         default (servingProfileProvenance s) (u_servingProfileProvenance u) |>
    <| endpointUrl := default (endpointUrl s) (u_endpointUrl u) |>
    <| credentialEnv := default (credentialEnv s) (u_credentialEnv u) |>
    <| hermesAuthMethod := default (hermesAuthMethod s) (u_hermesAuthMethod u) |>
    <| preferredInferenceApi := default (preferredInferenceApi s) (u_preferredInferenceApi u) |>
    <| compatibleEndpointReasoning :=
         default (compatibleEndpointReasoning s) (u_compatibleEndpointReasoning u) |>
    <| compatibleEndpointReasoningEffort :=
         default (compatibleEndpointReasoningEffort s) (u_compatibleEndpointReasoningEffort u) |>
    <| nimContainer := default (nimContainer s) (u_nimContainer u) |>
    <| routerPid := default (routerPid s) (u_routerPid u) |>
    <| routerCredentialHash := default (routerCredentialHash s) (u_routerCredentialHash u) |>
    <| webSearchConfig := default (webSearchConfig s) (u_webSearchConfig u) |>
    <| toolDisclosure := default (toolDisclosure s) (u_toolDisclosure u) |>
    <| observabilityEnabled := default (observabilityEnabled s) (u_observabilityEnabled u) |>
    <| hermesToolGateways := default (hermesToolGateways s) (u_hermesToolGateways u) |>
    <| policyPresets := default (policyPresets s) (u_policyPresets u) |>
    <| messagingPlan := default (messagingPlan s) (u_messagingPlan u) |>
    <| migratedLegacyValueHashes :=
         default (migratedLegacyValueHashes s) (u_migratedLegacyValueHashes u) |>
    <| gpuPassthrough := default (gpuPassthrough s) (u_gpuPassthrough u) |>
    <| telegramConfig := default (telegramConfig s) (u_telegramConfig u) |>
    <| wechatConfig := default (wechatConfig s) (u_wechatConfig u) |>
    <| metadata := default (metadata s) (u_metadata u) |>.

Section WithHost.
Context {host : Host} {receipts : ReceiptStore}.

Definition assignNullableString (value : json) (normalize : option (string → option string))
    : option (option string) :=
  applyNullableSessionUpdate None (getNullableStringUpdateIntent value normalize).

(** [null] clears, a parsed value sets, anything else is dropped. *)
Definition assignParsed {A} (value : json) (parse : json → option A) : option (option A) :=
  match value with
  | JNull => Some None
  | v => match parse v with Some x => Some (Some x) | None => None end
  end.

Definition filterSafeUpdates (updates : json) : SafeUpdates :=
  match updates with
  | JObj u => {|
      u_sandboxName := assignNullableString (jget u "sandboxName") None;
      u_provider := assignNullableString (jget u "provider") None;
      u_model := assignNullableString (jget u "model") None;
      u_servingProfileProvenance :=
        assignParsed (jget u "servingProfileProvenance") parseServingProfileProvenance;
      u_endpointUrl :=
        assignNullableString (jget u "endpointUrl") (Some (λ v, redactUrl (JStr v)));
      u_credentialEnv := assignNullableString (jget u "credentialEnv") None;
      u_hermesAuthMethod := assignParsed (jget u "hermesAuthMethod") readHermesAuthMethod;
      u_preferredInferenceApi := assignNullableString (jget u "preferredInferenceApi") None;
      u_compatibleEndpointReasoning :=
        assignNullableString (jget u "compatibleEndpointReasoning") None;
      u_compatibleEndpointReasoningEffort :=
        assignParsed (jget u "compatibleEndpointReasoningEffort") normalizeReasoningEffort;
      u_nimContainer := assignNullableString (jget u "nimContainer") None;
      u_routerPid := Some <$> readPositiveInteger (jget u "routerPid");
      u_routerCredentialHash := Some <$> readString (jget u "routerCredentialHash");
      u_webSearchConfig :=
        match jget u "webSearchConfig" with
        | JNull => Some None
        | JObj c => if is_true_json (jget c "fetchEnabled")
                    then Some (normalizeWebSearchConfig (JObj c)) else None
        | _ => None
        end;
      u_toolDisclosure := normalizeToolDisclosure (jget u "toolDisclosure");
      u_observabilityEnabled :=
        match jget u "observabilityEnabled" with JBool b => Some b | _ => None end;
      u_hermesToolGateways := assignParsed (jget u "hermesToolGateways") readStringArray;
      u_policyPresets := assignParsed (jget u "policyPresets") readStringArray;
      u_messagingPlan := assignParsed (jget u "messagingPlan") (parseSandboxMessagingPlan None);
      u_migratedLegacyValueHashes :=
        (λ l, Some (list_to_map l)) <$> readStringRecord (jget u "migratedLegacyValueHashes");
      u_gpuPassthrough := match jget u "gpuPassthrough" with JBool b => Some b | _ => None end;
      u_telegramConfig := assignParsed (jget u "telegramConfig") parseTelegramConfig;
      u_wechatConfig := assignParsed (jget u "wechatConfig") parseWechatConfig;
      u_metadata :=
        match jget u "metadata" with
        | JObj m => match jget m "gatewayName" with
                    | JStr g => Some (mkMeta g (readString (jget m "fromDockerfile")))
                    | _ => None
                    end
        | _ => None
        end |}
  | _ => no_updates
  end.

(** ** The file *)

Definition M (A : Type) : Type := ST World session_error A.

(** [new Date().toISOString()]. *)
Definition read_clock : M string := λ w, (Ok (now (w_tick w)), w <| w_tick := S (w_tick w) |>).
(** Two readings are reserved for a normalisation or a creation. *)
Definition take_ticks : M nat := λ w, (Ok (w_tick w), w <| w_tick := S (S (w_tick w)) |>).

Definition loadSession : M (option Session) :=
  w ← st_get;
  match w_disk w with
  | Stored contents => t ← take_ticks; mret (normalizeSession t false contents)
  | NoFile | Unparsable => mret None
  end.

Definition create_session : M Session := t ← take_ticks; mret (createSession t no_overrides).

(** [loadSession() || createSession()]. *)
Definition load_or_create : M Session :=
  loaded ← loadSession;
  match loaded with Some s => mret s | None => create_session end.

Definition saveSession (s : Session) : M Session :=
  t ← take_ticks;
  normalized ← match normalizeSession t (invalidDisclosure s) (session_json s) with
               | Some n => mret n
               | None => create_session
               end;
  at_ ← read_clock;
  let saved := normalized <| updatedAt := at_ |> in
  st_modify (λ w, w <| w_disk := Stored (json_disk (serializeSessionForDisk saved)) |>);;
  mret saved.

Definition clearSession : M unit := st_modify (λ w, w <| w_disk := NoFile |>).

(** The mutator changes the loaded object in place; a throw discards it.  [X] is
    what the mutator leaves in the variables of its caller. *)
Definition updateSessionWith {X} (mutator : Session → M (Session * X)) : M (Session * X) :=
  current ← load_or_create;
  next ← mutator current;
  saved ← saveSession next.1;
  mret (saved, next.2).

Definition updateSession (mutator : Session → M Session) : M Session :=
  updated ← updateSessionWith (λ s, next ← mutator s; mret (next, tt));
  mret updated.1.

Definition emit (event : OnboardMachineEvent) : M unit :=
  st_modify (λ w, w <| w_events := w_events w ++ [event] |>).

(** [emitOnboardMachineEvent(createOnboardMachineEvent({...}))]. *)
Definition emit_event (type : OnboardMachineEventType) (s : Session) (step : option string)
    (state : option OnboardMachineState) (error : option string)
    (metadata : option (list (string * json))) : M unit :=
  w ← st_get;
  read_clock;;
  emit (createOnboardMachineEvent (w_tick w) type s step state error metadata).

(** ** Steps *)

(** [session.steps[stepName] = step]. *)
Definition set_step (name : string) (step : StepState) (s : Session) : Session :=
  s <| steps := <[name := step]> (steps s) |>.

(** The mutators return the session unchanged when the step is unknown. *)
Definition step_started (stepName : string) (s : Session) : M Session :=
  match steps s !! stepName with
  | None => mret s
  | Some step =>
      at_ ← read_clock;
      mret (set_step stepName (mkStep SInProgress (Some at_) None None) s
              <| lastStepStarted := Some stepName |> <| failure := None |>
              <| status := "in_progress" |>)
  end.
Definition markStepStarted (stepName : string) : M Session := updateSession (step_started stepName).

(** [undefined], [null] or a string. *)
Definition safe_json (v : option (option string)) : json := from_option jopt JUndef v.

Definition is_spark_intent (s : Session) : bool :=
  from_option is_spark false (stationExpressIntent s).

(** The intent [markStepComplete] leaves on the session, or [BindRefused]. *)
Definition intent_after_step (stepName : string) (safe : SafeUpdates) (identity : json)
    (s : Session) : result session_error (option StationExpressResumeIntent) :=
  match stationExpressIntent s with
  | Some i =>
      if negb (stepName =s "provider_selection") then Ok (Some i)
      else if is_spark i then Ok None
      else match bindStationExpressProviderSelection (intent_json i) (safe_json (u_provider safe))
                   (safe_json (u_model safe)) identity with
           | Ok bound => Ok (Some bound)
           | Throw _ => Throw BindRefused
           end
  | None => Ok None
  end.

Definition step_completed (stepName : string) (safe : SafeUpdates) (identity : json) (s : Session)
    : M Session :=
  match steps s !! stepName with
  | None => mret s
  | Some step =>
      intent ← st_lift (intent_after_step stepName safe identity s);
      at_ ← read_clock;
      let s := set_step stepName (mkStep SComplete (st_startedAt step) (Some at_) None) s
                 <| lastCompletedStep := Some stepName |> <| failure := None |> in
      mret ((assign_updates safe s) <| stationExpressIntent := intent |>)
  end.
Definition markStepComplete (stepName : string) (updates : json) : M Session :=
  let safe := filterSafeUpdates updates in
  updateSession (step_completed stepName safe (opt_get updates "stationExpressModelIdentity")).

Definition step_skipped (stepName : string) (s : Session) : M Session :=
  mret match steps s !! stepName with
       | None => s
       | Some step =>
           match st_status step with
           | SComplete | SFailed | SSkipped => s
           | _ => set_step stepName (mkStep SSkipped None None None) s
           end
       end.
Definition markStepSkipped (stepName : string) : M Session := updateSession (step_skipped stepName).

Definition step_failed (stepName : string) (message : option string) (s : Session) : M Session :=
  mret match steps s !! stepName with
       | None => s
       | Some step =>
           set_step stepName
             (mkStep SFailed (st_startedAt step) None (redactSensitiveText (jopt message))) s
       end.
Definition markStepFailed (stepName : string) (message : option string) : M Session :=
  updateSession (step_failed stepName message).

(** ** The terminal failure of an interrupted step *)

(** The session and whether the failure was recorded. *)
Definition step_finalized (stepName : string) (message : option string) (interrupted : bool)
    (s : Session) : M (Session * bool) :=
  match steps s !! stepName with
  | None => mret (s, false)
  | Some step =>
      if isTerminalOnboardMachineState (m_state (machine s)) then mret (s, false)
      else
        w ← st_get;
        at_ ← read_clock;
        st_lift (match assertValidOnboardMachineTransition (m_state (machine s)) StFailed with
                 | Ok _ => Ok tt | Throw e => Throw (MachineError e) end);;
        let s := set_step stepName
                   (mkStep SFailed (st_startedAt step) None (redactSensitiveText (jopt message))) s in
        let s := s <| failure := sanitizeFailure (w_tick w)
                        (JObj [("step", JStr stepName); ("message", jopt message);
                               ("recordedAt", JStr at_); ("interrupted", JBool interrupted)]) |>
                   <| status := "failed" |> in
        mret (transitionMachineSnapshot s StFailed at_, true)
  end.

Definition finalizeIncompleteOnboardStep (stepName : string) (message : option string)
    (interrupted : bool) : M (option Session) :=
  loaded ← loadSession;
  match loaded with
  | None => mret None
  | Some existing =>
      if isTerminalOnboardMachineState (m_state (machine existing)) then mret (Some existing)
      else
        updated ← updateSessionWith (step_finalized stepName message interrupted);
        (if updated.2 : bool then
           emit_event EvStateFailed updated.1 (Some stepName) None message None;;
           emit_event EvFailed updated.1 (Some stepName) (Some StFailed) message None
         else mret tt);;
        mret (Some updated.1)
  end.

(** ** Receipt retirement *)

Definition assertStationExpressReceiptRetirementSession (session : option Session)
    (expectedGeneration : string) : result session_error Session :=
  match session with
  | Some s =>
      if bool_decide (stationExpressReceiptRetirement s = Some expectedGeneration)
         && (status s =s "complete") && negb (resumable s)
         && bool_decide (stationExpressIntent s = None)
      then Ok s else Throw RetirementStateMismatch
  | None => Throw RetirementStateMismatch
  end.

(** [f] against the receipt store; [false] is a throw. *)
Definition on_receipts (f : Receipts → bool * Receipts) (e : session_error) : M unit :=
  w ← st_get;
  let r := f (w_receipts w) in
  st_modify (λ w, w <| w_receipts := r.2 |>);;
  if r.1 : bool then mret tt else st_throw e.

(** [try { body } finally { cleanup }]. *)
Definition st_finally {A} (body : M A) (cleanup : World → World) : M A :=
  λ w, let r := body w in (r.1, cleanup r.2).

Definition retirement_cleared (expectedGeneration : string) (s : Session) : M Session :=
  s ← st_lift (assertStationExpressReceiptRetirementSession (Some s) expectedGeneration);
  mret (s <| stationExpressReceiptRetirement := None |>).

(** [reconcileStationExpressInstallerResumeRetirement]. *)
Definition reconcileInstallerResumeRetirement (expectedGeneration : string) (commit : M Session)
    : M Session :=
  on_receipts (claim_receipt expectedGeneration) ReceiptStoreFailed;;
  committed ← commit;
  on_receipts finish_claims ReceiptStoreFailed;;
  mret committed.

Definition reconcileStationExpressReceiptRetirement (expectedGeneration : string) : M Session :=
  if negb (is_receipt_generation expectedGeneration) then st_throw InvalidReceiptGeneration
  else
    w ← st_get;
    let ownsOnboardLock := negb (lock_held (w_receipts w)) in
    (if ownsOnboardLock then on_receipts acquire_lock LockBusy else mret tt);;
    st_finally
      (loaded ← loadSession;
       st_lift (assertStationExpressReceiptRetirementSession loaded expectedGeneration);;
       reconcileInstallerResumeRetirement expectedGeneration
         (updateSession (retirement_cleared expectedGeneration)))
      (λ w, if ownsOnboardLock then w <| w_receipts := release_lock (w_receipts w) |> else w).

(** ** Completion *)

(** What the mutator of [completeSession] leaves in its caller's variables. *)
Record Completion := mkCompletion { c_wasComplete : bool; c_generation : option string }.

Definition intent_generation (s : Session) : option string := stationExpressIntent s ≫= intent_receipt.

Definition session_completed (safe : SafeUpdates) (s : Session) : M (Session * Completion) :=
  let intentReceiptGeneration := intent_generation s in
  let receiptGeneration :=
    or_else (stationExpressReceiptRetirement s) intentReceiptGeneration in
  w ← st_get;
  st_lift (match intentReceiptGeneration with
           | Some g => if negb (truthy g) || receipt_matches g (w_receipts w)
                       then Ok tt else Throw ReceiptMismatch
           | None => Ok tt
           end);;
  at_ ← read_clock;
  let wasComplete := status s =s "complete" in
  let s := (assign_updates safe s) <| status := "complete" |> <| resumable := false |>
             <| stationExpressIntent := None |>
             <| stationExpressReceiptRetirement := receiptGeneration |> <| failure := None |> in
  mret (transitionMachineSnapshot s StComplete at_, mkCompletion wasComplete receiptGeneration).

Definition fields_metadata (keys : list string) : list (string * json) := [("fields", jstrs keys)].

Definition completeSession (updates : json) (emitEvents : bool) : M Session :=
  let safe := filterSafeUpdates updates in
  updated ← updateSessionWith (session_completed safe);
  session ← match c_generation updated.2 with
            | Some g => if truthy g then reconcileStationExpressReceiptRetirement g
                        else mret updated.1
            | None => mret updated.1
            end;
  (if emitEvents && negb (bool_decide (updates_keys safe = []))
   then emit_event EvContextUpdated session None (Some StComplete) None
          (Some (fields_metadata (updates_keys safe)))
   else mret tt);;
  (if emitEvents && negb (c_wasComplete updated.2)
   then emit_event EvCompleted session None (Some StComplete) None None else mret tt);;
  mret session.

(** ** Lemmas *)

(** The result of running [m] in [w], as a relation. *)
Definition runs {A} (m : M A) (w : World) (r : result session_error A) (w' : World) : Prop :=
  m w = (r, w').

Lemma runs_bind {A B} (m : M A) (f : A → M B) w r w' :
  runs (m ≫= f) w r w' →
  (∃ a w1, runs m w (Ok a) w1 ∧ runs (f a) w1 r w') ∨ (∃ e, runs m w (Throw e) w' ∧ r = Throw e).
Proof.
  unfold runs, mbind, ST_bind. destruct (m w) as [[a|e] w1]; [eauto|].
  intros [= <- <-]. eauto.
Qed.

(** Everything but the clock and the file is untouched. *)
Definition same_but_disk (w w' : World) : Prop :=
  w_events w' = w_events w ∧ w_receipts w' = w_receipts w.
(** ... and the file too. *)
Definition same_but_clock (w w' : World) : Prop := w_disk w' = w_disk w ∧ same_but_disk w w'.
Definition quiet {A} (m : M A) : Prop := ∀ w, same_but_clock w (m w).2.

Lemma same_but_clock_refl w : same_but_clock w w.
Proof. done. Qed.
Lemma same_but_clock_trans w1 w2 w3 :
  same_but_clock w1 w2 → same_but_clock w2 w3 → same_but_clock w1 w3.
Proof. intros (?&?&?) (?&?&?). repeat split; congruence. Qed.

Lemma quiet_ret {A} (a : A) : quiet (mret a).
Proof. by intros w. Qed.
Lemma quiet_lift {A} (r : result session_error A) : quiet (st_lift r).
Proof. by intros w. Qed.
Lemma quiet_get : quiet st_get.
Proof. by intros w. Qed.
Lemma quiet_clock : quiet read_clock.
Proof. by intros []. Qed.
Lemma quiet_ticks : quiet take_ticks.
Proof. by intros []. Qed.
Lemma quiet_bind {A B} (m : M A) (f : A → M B) : quiet m → (∀ a, quiet (f a)) → quiet (m ≫= f).
Proof.
  intros Hm Hf w. unfold mbind, ST_bind. pose proof (Hm w) as H.
  destruct (m w) as [[a|e] w1]; [|done]. eapply same_but_clock_trans; [exact H|apply Hf].
Qed.

End WithHost.

#[export] Hint Resolve same_but_clock_refl quiet_ret quiet_lift quiet_get quiet_clock quiet_ticks
  quiet_bind : nemo.

(** Proves that code only reads the clock. *)
Ltac quiet :=
  repeat first [apply quiet_bind; [|intros ?] | apply quiet_ret | apply quiet_lift
               | apply quiet_get | apply quiet_clock | apply quiet_ticks
               | progress cbn zeta | case_match].

Section WithHost.
Context {host : Host} {receipts : ReceiptStore}.

Lemma loadSession_quiet : quiet loadSession.
Proof. unfold loadSession. quiet. Qed.
Lemma load_or_create_quiet : quiet load_or_create.
Proof. unfold load_or_create, create_session. apply quiet_bind; [apply loadSession_quiet|]. intros; quiet. Qed.

Lemma step_started_quiet n s : quiet (step_started n s).
Proof. unfold step_started. quiet. Qed.
Lemma step_completed_quiet n safe i s : quiet (step_completed n safe i s).
Proof. unfold step_completed. quiet. Qed.
Lemma step_skipped_quiet n s : quiet (step_skipped n s).
Proof. unfold step_skipped. quiet. Qed.
Lemma step_failed_quiet n m s : quiet (step_failed n m s).
Proof. unfold step_failed. quiet. Qed.
Lemma step_finalized_quiet n m i s : quiet (step_finalized n m i s).
Proof. unfold step_finalized. quiet. Qed.
Lemma session_completed_quiet u s : quiet (session_completed u s).
Proof. unfold session_completed. quiet. Qed.
Lemma retirement_cleared_quiet g s : quiet (retirement_cleared g s).
Proof. unfold retirement_cleared. quiet. Qed.

(** A save always succeeds, and the file then holds exactly what it returns. *)
Lemma saveSession_commits s w :
  ∃ saved w', runs (saveSession s) w (Ok saved) w'
  ∧ w_disk w' = Stored (json_disk (serializeSessionForDisk saved)) ∧ same_but_disk w w'.
Proof.
  unfold runs, saveSession, create_session. destruct w as [d t ev rc].
  unfold mbind, ST_bind, take_ticks, read_clock, st_modify, mret, ST_ret. cbn [w_tick upd w_disk w_events w_receipts].
  destruct (normalizeSession t _ (session_json s)) as [n|]; cbn -[serializeSessionForDisk json_disk createSession];
    do 2 eexists; (split; [reflexivity|]); by repeat split.
Qed.

(** The outcome of an operation on the file: a commit of what it returns, or
    nothing. *)
Definition commits_or_nothing (out : result session_error Session * World) (w : World) : Prop :=
  same_but_disk w out.2
  ∧ match out.1 with
    | Ok saved => w_disk out.2 = Stored (json_disk (serializeSessionForDisk saved))
    | Throw _ => w_disk out.2 = w_disk w
    end.

Lemma updateSessionWith_inv {X} (mutator : Session → M (Session * X)) w r w' :
  (∀ s, quiet (mutator s)) → runs (updateSessionWith mutator) w r w' →
  same_but_disk w w'
  ∧ match r with
    | Ok (saved, x) =>
        w_disk w' = Stored (json_disk (serializeSessionForDisk saved))
        ∧ ∃ s w1 s' w2, runs load_or_create w (Ok s) w1 ∧ runs (mutator s) w1 (Ok (s', x)) w2
                        ∧ runs (saveSession s') w2 (Ok saved) w'
    | Throw e =>
        w_disk w' = w_disk w
        ∧ ∃ s w1, runs load_or_create w (Ok s) w1 ∧ runs (mutator s) w1 (Throw e) w'
    end.
Proof.
  intros Hq H. apply runs_bind in H as [(s & w1 & H1 & H)|(e & H1 & ->)].
  2:{ exfalso. revert H1. unfold runs, load_or_create, loadSession, create_session, mbind, ST_bind,
        st_get, take_ticks, mret, ST_ret. cbn. destruct (w_disk w); cbn; try done.
      by destruct (normalizeSession _ _ _). }
  pose proof (load_or_create_quiet w) as Q1. rewrite H1 in Q1. cbn [snd] in Q1.
  apply runs_bind in H as [([s' x] & w2 & H2 & H)|(e & H2 & ->)].
  2:{ pose proof (Hq s w1) as Q2. rewrite H2 in Q2. cbn [snd] in Q2.
      pose proof (same_but_clock_trans _ _ _ Q1 Q2) as (Hd & Hs).
      split; [done|]. split; [done|]. eauto. }
  pose proof (Hq s w1) as Q2. rewrite H2 in Q2. cbn [snd] in Q2.
  pose proof (same_but_clock_trans _ _ _ Q1 Q2) as (Hd & He & Hr). cbn [fst snd] in H.
  destruct (saveSession_commits s' w2) as (saved & w3 & H3 & Hd3 & He3 & Hr3).
  unfold runs in H. unfold mbind, ST_bind in H. rewrite H3 in H. injection H as <- <-.
  split; [split; congruence|]. split; [done|]. do 4 eexists. split_and!; [exact H1|exact H2|exact H3].
Qed.

Lemma updateSession_commits mutator w :
  (∀ s, quiet (mutator s)) → commits_or_nothing (updateSession mutator w) w.
Proof.
  intros Hq. destruct (updateSession mutator w) as [r w'] eqn:E.
  apply runs_bind in E as [([saved []] & w1 & H & E)|(e & H & ->)];
    apply updateSessionWith_inv in H as [Hs H]; try (intros s0; apply quiet_bind; [apply Hq|intros; quiet]).
  - injection E as <- <-. destruct H as [Hd _]. by split.
  - destruct H as [Hd _]. by split.
Qed.

(** ** What a save keeps *)

Lemma session_ok_updatedAt s at_ : session_ok s → session_ok (s <| updatedAt := at_ |>).
Proof. intros []. by split. Qed.
Lemma session_ok_flag s b : session_ok s → session_ok (s <| invalidDisclosure := b |>).
Proof. intros []. by split. Qed.
Lemma mem_stable_updatedAt s at_ : mem_stable s → mem_stable (s <| updatedAt := at_ |>).
Proof. intros []. by split. Qed.
Lemma persist_stable_updatedAt s at_ : persist_stable s → persist_stable (s <| updatedAt := at_ |>).
Proof. intros [[] []]. split; [by split|by split]. Qed.

Lemma flag_eta s : s <| invalidDisclosure := invalidDisclosure s |> = s.
Proof. by destruct s. Qed.

(** A well-formed session is saved as it is, with the time of the save. *)
Lemma saveSession_exact s w :
  url_origin_law parseURL → session_ok s → mem_stable s →
  let saved := s <| updatedAt := now (S (S (w_tick w))) |> in
  runs (saveSession s) w (Ok saved)
    (mkWorld _ (Stored (json_disk (serializeSessionForDisk saved))) (S (S (S (w_tick w))))
       (w_events w) (w_receipts w)).
Proof.
  intros Hurl Hok Hst. unfold runs, saveSession, mbind, ST_bind, take_ticks, session_json.
  rewrite (normalize_rt (w_tick w) (invalidDisclosure s) _ s Hurl Hok Hst).
  rewrite flag_eta. by destruct w.
Qed.

(** The file holds the well-formed session [s], whose texts are already redacted. *)
Record holds (w : World) (s : Session) : Prop := {
  h_disk : w_disk w = Stored (json_disk (serializeSessionForDisk s));
  h_ok : session_ok s;
  h_mem : mem_stable s;
  h_persist : persist_stable s;
  h_flag : invalidDisclosure s = false;
}.

Lemma holds_loads w s :
  url_origin_law parseURL → holds w s →
  runs loadSession w (Ok (Some s)) (w <| w_tick := S (S (w_tick w)) |>).
Proof.
  intros Hurl [Hd Hok _ [Hst Hc] Hf]. unfold runs, loadSession, mbind, ST_bind, st_get, take_ticks, mret, ST_ret.
  rewrite Hd, json_disk_clean by by apply clean_session.
  unfold serializeSessionForDisk. rewrite (normalize_rt _ false _ s) by done.
  rewrite <- Hf, flag_eta. done.
Qed.

Lemma load_or_create_loaded w s w1 :
  runs loadSession w (Ok (Some s)) w1 → runs load_or_create w (Ok s) w1.
Proof. unfold runs, load_or_create, mbind, ST_bind. by intros ->. Qed.

Lemma loaded_ok w s w1 : runs loadSession w (Ok (Some s)) w1 → session_ok s.
Proof.
  unfold runs, loadSession, mbind, ST_bind, st_get, take_ticks, mret, ST_ret.
  destruct (w_disk w); try done. intros [= E _]. by eapply normalizeSession_ok.
Qed.

Lemma loaded_tick w s w1 :
  runs loadSession w (Ok (Some s)) w1 → w1 = w <| w_tick := S (S (w_tick w)) |>.
Proof.
  unfold runs, loadSession, mbind, ST_bind, st_get, take_ticks, mret, ST_ret.
  destruct (w_disk w); try done. by intros [= _ <-].
Qed.


(** ** Well-formedness across the step operations *)

(** What a recorded machine reads back as. *)
Lemma machine_read m sid :
  parseMachineSnapshot (machine_json m) sid
  = Some (mkMachine (m_state m) (m_stateEnteredAt m)
            (default 0%Z (readNonNegativeInteger (JNum (NInt (m_revision m)))))
            (parseSessionRecoveryReceipt (from_option receipt_json JUndef (m_recoveryReceipt m))
               (m_state m) (m_stateEnteredAt m)
               (default 0%Z (readNonNegativeInteger (JNum (NInt (m_revision m))))) sid)).
Proof.
  unfold parseMachineSnapshot, machine_json.
  assert (Hs : readMachineState (JStr (state_id (m_state m))) = Some (m_state m))
    by apply parse_state_id.
  destruct (m_recoveryReceipt m); jget_simpl; change (1 =? MACHINE_SNAPSHOT_VERSION)%Z with true;
    cbn [negb from_option]; rewrite Hs; cbn [mbind option_bind]; by rewrite readString_jopt.
Qed.

Lemma nonneg_read z : (0 ≤ z)%Z → readNonNegativeInteger (JNum (NInt z)) = Some z.
Proof. intros H. unfold readNonNegativeInteger. by apply Z.leb_le in H as ->. Qed.

Lemma machine_created_rt st at_ rev sid :
  parseMachineSnapshot (machine_json (createMachineSnapshot st at_ rev)) sid
  = Some (createMachineSnapshot st at_ rev).
Proof.
  rewrite machine_read. unfold createMachineSnapshot. cbn [m_state m_stateEnteredAt m_revision m_recoveryReceipt from_option].
  by rewrite nonneg_read by lia.
Qed.

Lemma machine_revision_ok s : session_ok s → (0 ≤ m_revision (machine s))%Z.
Proof.
  intros Hok. pose proof (ok_machine s Hok) as Hm. rewrite machine_read in Hm.
  injection Hm as Hm. apply (f_equal m_revision) in Hm. cbn [m_revision] in Hm.
  unfold readNonNegativeInteger in Hm. destruct (0 <=? m_revision (machine s))%Z eqn:E; bools; [done|].
  cbn [default from_option] in Hm. lia.
Qed.

(** A recovery receipt needs an entry time. *)
Lemma receipt_needs_time v st rev sid : parseSessionRecoveryReceipt v st None rev sid = None.
Proof.
  destruct (parseSessionRecoveryReceipt v st None rev sid) eqn:E; [|done].
  unfold parseSessionRecoveryReceipt in E. destruct v; try done. opt_inv E. by bools.
Qed.

Lemma with_machine_ok s m :
  session_ok s → parseMachineSnapshot (machine_json m) (sessionId s) = Some m →
  session_ok (s <| machine := m |>).
Proof. intros [] Hm. by split. Qed.

(** A running or failed status suits every session with nothing to retire. *)
Lemma with_status_ok s st :
  session_ok s → stationExpressReceiptRetirement s = None → st = "in_progress" ∨ st = "failed" →
  session_ok (s <| status := st |>).
Proof.
  intros Hok Hr Hst. pose proof (ok_intent_gate s Hok) as Hg. destruct Hok. split; try done.
  - change (match stationExpressIntent s with
            | Some _ => resumable s && (mode s =s "non-interactive")
                        && (is_str "in_progress" (JStr st) || is_str "failed" (JStr st))
            | None => true end = true).
    unfold intent_gate in Hg. destruct (stationExpressIntent s); [|done].
    apply andb_true_iff in Hg as [Hg _]. cbn [is_true_json] in Hg. rewrite Hg.
    by destruct Hst as [-> | ->].
  - unfold retirement_gate. change (stationExpressReceiptRetirement (s <| status := st |>)) with
      (stationExpressReceiptRetirement s). by rewrite Hr.
Qed.

Lemma with_failure_ok s f :
  session_ok s → from_option (λ f, truthy_opt (f_step f) || truthy_opt (f_message f)) true f = true →
  session_ok (s <| failure := f |>).
Proof. intros [] Hf. by split. Qed.

Lemma sanitizeFailure_ok t v :
  from_option (λ f, truthy_opt (f_step f) || truthy_opt (f_message f)) true (sanitizeFailure t v)
  = true.
Proof. unfold sanitizeFailure. destruct v; try done. by destruct (_ || _) eqn:E. Qed.

(** The machine, the status and the resumable flag play no part in stability. *)
Lemma with_machine_stable s m :
  (mem_stable s → mem_stable (s <| machine := m |>))
  ∧ (persist_stable s → persist_stable (s <| machine := m |>)).
Proof. split; [intros []; by split|intros [[] ?]; split; [by split|done]]. Qed.
Lemma with_status_stable s st :
  (mem_stable s → mem_stable (s <| status := st |>))
  ∧ (persist_stable s → persist_stable (s <| status := st |>)).
Proof. split; [intros []; by split|intros [[] ?]; split; [by split|done]]. Qed.
Lemma with_failure_stable s f :
  from_option (λ f, redactSensitiveText (jopt (f_message f)) = f_message f) True f →
  (mem_stable s → mem_stable (s <| failure := f |>))
  ∧ (persist_stable s → persist_stable (s <| failure := f |>)).
Proof. intros Hf. split; [intros []; by split|intros [[] ?]; split; [by split|done]]. Qed.

(** A step that is not the completed provider selection may be replaced by
    another unfinished or failed one. *)
Lemma set_step_ok n old new s :
  session_ok s → steps s !! n = Some old →
  (n = "provider_selection" → st_status old ≠ SComplete ∧ st_status new ≠ SComplete) →
  session_ok (set_step n new s).
Proof.
  intros Hok Hn Hc. pose proof (ok_steps s Hok) as Hd. pose proof (ok_selection_gate s Hok) as Hg.
  destruct Hok. unfold set_step. split; try done.
  - cbn [upd steps]. rewrite dom_insert_lookup_L; [done|eauto].
  - unfold selection_gate, step_complete in *. cbn [upd steps stationExpressIntent provider model].
    destruct (decide (n = "provider_selection")) as [->|Hne].
    + rewrite lookup_insert_eq. rewrite Hn in Hg.
      destruct (Hc eq_refl) as [H1 H2]. cbn [step_has] in *.
      by rewrite !bool_decide_eq_false_2 in * by done.
    + by rewrite lookup_insert_ne by done.
Qed.

Lemma set_step_stable n new s :
  mem_stable s → redactSensitiveText (jopt (st_error new)) = st_error new →
  mem_stable (set_step n new s).
Proof. intros [] Hn. split; try done. by apply map_Forall_insert_2. Qed.

Lemma set_step_persist n new s :
  persist_stable s → redactSensitiveText (jopt (st_error new)) = st_error new →
  persist_stable (set_step n new s).
Proof. intros [[] Hc] Hn. split; [|done]. split; try done. by apply map_Forall_insert_2. Qed.

(** Steps a session knows have nonempty names. *)
Lemma known_step_truthy s n step :
  session_ok s → steps s !! n = Some step → truthy n = true.
Proof.
  intros Hok Hn. apply elem_of_dom_2 in Hn. rewrite (ok_steps s Hok) in Hn.
  apply truthy_true. intros ->. revert Hn. apply not_elem_of_dom. vm_compute. done.
Qed.

(** The session [finalizeIncompleteOnboardStep] records, given the clock. *)
Definition failed_session (n : string) (step : StepState) (message : option string)
    (interrupted : bool) (at_ : string) (s : Session) : Session :=
  let error := redactSensitiveText (jopt message) in
  set_step n (mkStep SFailed (st_startedAt step) None error) s
    <| failure := Some (mkFailure (Some n) error at_ interrupted) |> <| status := "failed" |>
    <| machine := createMachineSnapshot StFailed (Some at_) (js_succ (m_revision (machine s))) |>.

(** A session the backstop can record on: its step is unfinished, nothing is
    awaiting retirement, and its machine has not ended. *)
Record interruptible (n : string) (step : StepState) (s : Session) : Prop := {
  in_step : steps s !! n = Some step;
  in_unfinished : st_status step ≠ SComplete;
  in_retirement : stationExpressReceiptRetirement s = None;
  in_running : isTerminalOnboardMachineState (m_state (machine s)) = false;
}.

Lemma failed_session_ok n step message interrupted at_ s :
  session_ok s → interruptible n step s →
  session_ok (failed_session n step message interrupted at_ s).
Proof.
  intros Hok []. pose proof (known_step_truthy _ _ _ Hok in_step0) as Ht.
  pose proof (set_step_ok n step (mkStep SFailed (st_startedAt step) None
    (redactSensitiveText (jopt message))) s Hok in_step0) as Hs.
  destruct Hs as [K1 K2 K3 K4 K5 K6 K7 K8 K9 K10 K11 K12 K13]; [by split|].
  split; try done.
  - change (truthy n || truthy_opt (redactSensitiveText (jopt message)) = true). by rewrite Ht.
  - exact (machine_created_rt StFailed (Some at_) (js_succ (m_revision (machine s))) (sessionId s)).
  - pose proof (ok_intent_gate s Hok) as Hg.
    change (match stationExpressIntent s with
            | Some _ => resumable s && (mode s =s "non-interactive") && true | None => true end = true).
    unfold intent_gate in Hg. destruct (stationExpressIntent s); [|done]. bools.
    destruct (resumable s); [|done]. rewrite andb_true_r. by apply String.eqb_eq.
  - unfold retirement_gate. change (stationExpressReceiptRetirement _) with
      (stationExpressReceiptRetirement s). by rewrite in_retirement0.
Qed.

Definition redacted (message : option string) : Prop :=
  let r := redactSensitiveText (jopt message) in redactSensitiveText (jopt r) = r.

Lemma failed_session_stable n step message interrupted at_ s :
  redacted message →
  (mem_stable s → mem_stable (failed_session n step message interrupted at_ s))
  ∧ (persist_stable s → persist_stable (failed_session n step message interrupted at_ s)).
Proof.
  intros Hr. split.
  - intros H. pose proof (set_step_stable n (mkStep SFailed (st_startedAt step) None
      (redactSensitiveText (jopt message))) s H Hr) as []. by split.
  - intros H. pose proof (set_step_persist n (mkStep SFailed (st_startedAt step) None
      (redactSensitiveText (jopt message))) s H Hr) as [[] ?]. split; [|done]. by split.
Qed.

Lemma fail_allowed s :
  isTerminalOnboardMachineState s = false → ∃ e, assertValidOnboardMachineTransition s StFailed = Ok e.
Proof. destruct s; vm_compute; eauto; done. Qed.

Lemma sanitizeFailure_step t n message at_ interrupted :
  truthy n = true →
  sanitizeFailure t (JObj [("step", JStr n); ("message", jopt message); ("recordedAt", JStr at_);
                           ("interrupted", JBool interrupted)])
  = Some (mkFailure (Some n) (redactSensitiveText (jopt message)) at_ interrupted).
Proof.
  intros Ht. unfold sanitizeFailure. jget_simpl.
  cbn [readString truthy_opt from_option default]. rewrite Ht. by destruct interrupted.
Qed.

Lemma step_finalized_runs n step message interrupted s w :
  session_ok s → interruptible n step s →
  runs (step_finalized n message interrupted s) w
    (Ok (failed_session n step message interrupted (now (w_tick w)) s, true))
    (w <| w_tick := S (w_tick w) |>).
Proof.
  intros Hok Hi. destruct Hi. unfold runs, step_finalized. rewrite in_step0, in_running0.
  unfold mbind, ST_bind, st_get, read_clock, st_lift.
  destruct (fail_allowed _ in_running0) as [e ->]. unfold mret, ST_ret.
  change (w_tick (w <| w_tick := _ |>)) with (S (w_tick w)).
  rewrite (sanitizeFailure_step _ _ _ _ _ (known_step_truthy _ _ _ Hok in_step0)).
  unfold transitionMachineSnapshot, failed_session.
  change (machine (_ <| status := _ |>)) with (machine s).
  rewrite bool_decide_eq_false_2; [reflexivity|]. intros E. by rewrite E in in_running0.
Qed.

(** The world after a save at [w]. *)
Definition after_save (w : World) (saved : Session) : World :=
  mkWorld _ (Stored (json_disk (serializeSessionForDisk saved))) (S (S (S (w_tick w))))
    (w_events w) (w_receipts w).
Definition saved_at (w : World) (s : Session) : Session :=
  s <| updatedAt := now (S (S (w_tick w))) |>.

Lemma after_save_holds w s :
  session_ok s → mem_stable s → persist_stable s → invalidDisclosure s = false →
  holds (after_save w (saved_at w s)) (saved_at w s).
Proof.
  intros. split; [done|by apply session_ok_updatedAt|by apply mem_stable_updatedAt
    |by apply persist_stable_updatedAt|done].
Qed.

Lemma updateSessionWith_exact {X} (mutator : Session → M (Session * X)) w w2 s s' x :
  url_origin_law parseURL → holds w s →
  runs (mutator s) (w <| w_tick := S (S (w_tick w)) |>) (Ok (s', x)) w2 →
  session_ok s' → mem_stable s' →
  runs (updateSessionWith mutator) w (Ok (saved_at w2 s', x)) (after_save w2 (saved_at w2 s')).
Proof.
  intros Hurl Hh H2 Hok Hst. pose proof (load_or_create_loaded _ _ _ (holds_loads _ _ Hurl Hh)) as H1.
  unfold runs in *. unfold updateSessionWith, mbind, ST_bind. rewrite H1, H2. cbn [fst snd].
  by rewrite (saveSession_exact s' w2 Hurl Hok Hst).
Qed.

Lemma updateSession_exact (mutator : Session → M Session) w w2 s s' :
  url_origin_law parseURL → holds w s →
  runs (mutator s) (w <| w_tick := S (S (w_tick w)) |>) (Ok s') w2 →
  session_ok s' → mem_stable s' →
  runs (updateSession mutator) w (Ok (saved_at w2 s')) (after_save w2 (saved_at w2 s')).
Proof.
  intros Hurl Hh H2 Hok Hst. unfold updateSession, runs. unfold mbind at 1, ST_bind at 1.
  rewrite (updateSessionWith_exact _ w w2 s s' tt Hurl Hh); try done.
  unfold runs, mbind, ST_bind. by rewrite H2.
Qed.

(** Once the machine has ended, the backstop reads and returns. *)
Lemma finalize_ended n message interrupted w s w1 :
  runs loadSession w (Ok (Some s)) w1 →
  isTerminalOnboardMachineState (m_state (machine s)) = true →
  runs (finalizeIncompleteOnboardStep n message interrupted) w (Ok (Some s)) w1.
Proof.
  intros H Ht. unfold runs, finalizeIncompleteOnboardStep, mbind, ST_bind. by rewrite H, Ht.
Qed.

(** The events the backstop emits for a recorded failure. *)
Definition failure_events (t : nat) (n : string) (message : option string) (s : Session)
    : list OnboardMachineEvent := [
  createOnboardMachineEvent t EvStateFailed s (Some n) None message None;
  createOnboardMachineEvent (S t) EvFailed s (Some n) (Some StFailed) message None ].

Lemma emit_event_runs type s step state error metadata w :
  runs (emit_event type s step state error metadata) w (Ok tt)
    (w <| w_tick := S (w_tick w) |>
       <| w_events := w_events w
            ++ [createOnboardMachineEvent (w_tick w) type s step state error metadata] |>).
Proof. done. Qed.

Lemma finalize_running n message interrupted w s step :
  url_origin_law parseURL → holds w s → interruptible n step s → redacted message →
  let t := w_tick w in
  let saved := failed_session n step message interrupted (now (4 + t)) s
                 <| updatedAt := now (7 + t) |> in
  let w1 := mkWorld _ (Stored (json_disk (serializeSessionForDisk saved))) (10 + t)
              (w_events w ++ failure_events (8 + t) n message saved) (w_receipts w) in
  runs (finalizeIncompleteOnboardStep n message interrupted) w (Ok (Some saved)) w1
  ∧ holds w1 saved.
Proof.
  intros Hurl Hh Hi Hr t saved w1. pose proof Hh as [_ Hok Hm Hp Hf].
  set (w0 := w <| w_tick := S (S t) |>).
  assert (Hh0 : holds w0 s) by by destruct Hh.
  pose proof (failed_session_ok n step message interrupted (now (4 + t)) s Hok Hi) as Hok'.
  destruct (failed_session_stable n step message interrupted (now (4 + t)) s Hr) as [Hm' Hp'].
  pose proof (updateSessionWith_exact (step_finalized n message interrupted) w0 _ s _ true Hurl Hh0
    (step_finalized_runs n step message interrupted s _ Hok Hi) Hok' (Hm' Hm)) as Hu.
  split.
  - unfold runs, finalizeIncompleteOnboardStep. unfold mbind, ST_bind.
    rewrite (holds_loads _ _ Hurl Hh). destruct Hi. rewrite in_running0.
    unfold runs in Hu. match goal with |- context [updateSessionWith _ ?x] => change x with w0 end.
    rewrite Hu.
    cbn [fst snd]. unfold emit_event, mbind, ST_bind, st_get, read_clock, emit, st_modify, mret, ST_ret.
    unfold w1, failure_events. cbn [w_events w_tick after_save upd].
    change (w_events w ++ [?a; ?b]) with (w_events w ++ ([a] ++ [b])). by rewrite app_assoc.
  - split; [done|by apply session_ok_updatedAt|by apply mem_stable_updatedAt, Hm'
      |by apply persist_stable_updatedAt, Hp'|done].
Qed.

(** ** Restarting a bound provider selection *)

Lemma provider_step_known s : session_ok s → ∃ step, steps s !! "provider_selection" = Some step.
Proof.
  intros Hok. assert (H : "provider_selection" ∈ dom (steps s)).
  { rewrite (ok_steps s Hok). apply elem_of_dom. vm_compute. by eexists. }
  by apply elem_of_dom in H as [? ?]; eauto.
Qed.

Lemma restarted_ok s i n :
  session_ok s → stationExpressIntent s = Some i →
  session_ok (s <| lastStepStarted := n |> <| failure := None |> <| status := "in_progress" |>).
Proof.
  intros Hok Hi. pose proof (ok_intent_gate s Hok) as Hg. pose proof (ok_retirement_gate s Hok) as Hr.
  destruct Hok. split; try done.
  - unfold intent_gate in *. change (stationExpressIntent (_ <| status := _ |>)) with
      (stationExpressIntent s). rewrite Hi in *.
    change (is_true_json (JBool (resumable s)) && (mode s =s "non-interactive") && true = true).
    apply andb_true_iff in Hg as [Hg _]. by rewrite Hg.
  - unfold retirement_gate in *. change (stationExpressReceiptRetirement (_ <| status := _ |>)) with
      (stationExpressReceiptRetirement s).
    destruct (stationExpressReceiptRetirement s); [|done]. rewrite Hi in Hr.
    rewrite (bool_decide_eq_false_2 (Some i = None)), andb_false_r, orb_false_r in Hr by done.
    by rewrite Hr.
Qed.

Lemma restarted_refused t flagged s i n at_ :
  url_origin_law parseURL → session_ok s → mem_stable s → redactSensitiveText JNull = None →
  stationExpressIntent s = Some i → step_complete (steps s) "provider_selection" = true →
  normalizeSession t flagged
    (session_json (set_step "provider_selection" (mkStep SInProgress at_ None None) s
       <| lastStepStarted := n |> <| failure := None |> <| status := "in_progress" |>)) = None.
Proof.
  intros Hurl Hok Hm Hnull Hi Hc.
  set (s0 := s <| lastStepStarted := n |> <| failure := None |> <| status := "in_progress" |>).
  set (st := <["provider_selection" := mkStep SInProgress at_ None None]> (steps s)).
  change (session_json _) with (JObj (session_obj (jnull id (messagingPlan s0))
    (jnull serializeCheckpoint (checkpoint s0)) (s0 <| steps := st |>))).
  destruct (provider_step_known s Hok) as [step Hs].
  apply normalize_selection_refused; [done| | | | |].
  - by eapply restarted_ok.
  - destruct Hm. by split.
  - unfold st. rewrite dom_insert_lookup_L; [by apply ok_steps|eauto].
  - apply map_Forall_insert_2; [done|]. by destruct Hm.
  - unfold selection_gate. change (stationExpressIntent (s0 <| steps := st |>)) with (stationExpressIntent s).
    pose proof (ok_selection_gate s Hok) as Hg. unfold selection_gate in Hg. rewrite Hi in *.
    assert (Hn : step_complete (steps (s0 <| steps := st |>)) "provider_selection" = false).
    { change (steps (s0 <| steps := st |>)) with st. unfold step_complete, st.
      by rewrite lookup_insert_eq. }
    rewrite Hc in Hg. rewrite Hn. cbn [Bool.eqb negb andb orb] in Hg |- *.
    apply andb_true_iff in Hg as [[Hg _]%andb_true_iff _].
    destruct (intent_bound i) as [[sv ck]|]; [|done]. by destruct (truthy sv && truthy ck).
Qed.

(** A step whose outcome is recorded. *)
Definition finished (st : StepState) : bool :=
  match st_status st with SComplete | SFailed | SSkipped => true | _ => false end.
Definition skip_step (n k : string) (st : StepState) : StepState :=
  if (k =s n) && negb (finished st) then mkStep SSkipped None None None else st.

Lemma step_skipped_runs n s w :
  session_ok s → mem_stable s → redactSensitiveText JNull = None →
  ∃ s', runs (step_skipped n s) w (Ok s') w ∧ session_ok s' ∧ mem_stable s'
  ∧ s' = s <| steps := steps s' |> ∧ ∀ k, steps s' !! k = skip_step n k <$> (steps s !! k).
Proof.
  intros Hok Hm Hnull. unfold runs, step_skipped.
  assert (Hsame : (∀ st, steps s !! n = Some st → finished st = true) →
            ∀ k, steps s !! k = skip_step n k <$> (steps s !! k)).
  { intros H k. destruct (steps s !! k) as [st|] eqn:E; [|done]. unfold skip_step. cbn.
    destruct (k =s n) eqn:Ek; [|done]. apply String.eqb_eq in Ek as ->. by rewrite (H _ E). }
  destruct (steps s !! n) as [step|] eqn:En.
  2:{ exists s. split_and!; [done..|by destruct s|by apply Hsame]. }
  destruct (finished step) eqn:Ef.
  { exists s. split_and!; [unfold finished in Ef; by destruct (st_status step)|done..|by destruct s|].
    apply Hsame. by intros ? [= <-]. }
  exists (set_step n (mkStep SSkipped None None None) s). split_and!.
  - unfold finished in Ef. by destruct (st_status step).
  - eapply set_step_ok; [done|exact En|]. intros _. unfold finished in Ef.
    split; [|done]. by destruct (st_status step).
  - by apply set_step_stable.
  - done.
  - intros k. unfold set_step, skip_step. cbn [upd steps]. destruct (k =s n) eqn:Ek.
    + apply String.eqb_eq in Ek as ->. by rewrite lookup_insert_eq, En; cbn; rewrite Ef.
    + apply String.eqb_neq in Ek. rewrite lookup_insert_ne by done. cbn [andb]. by destruct (steps s !! k).
Qed.

(** ** Completion *)

Lemma holds_disk w w' s : holds w s → w_disk w' = w_disk w → holds w' s.
Proof. intros [] E. split; try done. by rewrite E. Qed.

Record completed (s : Session) : Prop := {
  co_status : status s = "complete";
  co_resumable : resumable s = false;
  co_intent : stationExpressIntent s = None;
  co_machine : m_state (machine s) = StComplete;
}.

(** The receipt generation a completion has to retire. *)
Definition pending_generation (s : Session) : option string :=
  or_else (stationExpressReceiptRetirement s) (intent_generation s).

Definition completed_session (u : SafeUpdates) (at_ : string) (s : Session) : Session :=
  transitionMachineSnapshot
    ((assign_updates u s) <| status := "complete" |> <| resumable := false |>
       <| stationExpressIntent := None |>
       <| stationExpressReceiptRetirement := pending_generation s |> <| failure := None |>)
    StComplete at_.

(** The updates keep the session's texts redacted and its confirmed name valid. *)
Record updates_fit (u : SafeUpdates) (s : Session) : Prop := {
  fit_mem : mem_stable (assign_updates u s);
  fit_persist : persist_stable (assign_updates u s);
  fit_name : pp_sandboxName (sandboxPromptProgress s) = true →
             validSandboxName (jopt (default (sandboxName s) (u_sandboxName u))) = true;
}.

Lemma pending_generation_ok s g :
  session_ok s → pending_generation s = Some g → is_receipt_generation g = true.
Proof.
  intros [] Hg. unfold pending_generation, intent_generation in Hg.
  destruct (stationExpressReceiptRetirement s) as [g'|]; [by injection Hg as <-|]. cbn [or_else] in Hg.
  destruct (stationExpressIntent s) as [i|]; [|done]. cbn [mbind option_bind] in Hg.
  destruct i as [m n r b|]; [|done]. cbn [intent_receipt] in Hg. subst r.
  cbn [from_option intent_ok] in *. destruct (stationModel (JStr m)); [|done].
  by match goal with H : _ && _ && _ && _ = true |- _ => apply andb_true_iff in H as [[_ H]%andb_true_iff _] end.
Qed.

Lemma generation_truthy g : is_receipt_generation g = true → truthy g = true.
Proof. destruct g; [|done]. vm_compute. done. Qed.

(** What the filter guarantees of the values it lets through. *)
Record safe_ok (u : SafeUpdates) : Prop := {
  so_provenance : ∀ v, u_servingProfileProvenance u = Some (Some v) →
                  parseServingProfileProvenance v = Some v;
  so_pid : ∀ z, u_routerPid u = Some (Some z) → (0 <? z)%Z = true;
  so_wechat : ∀ c, u_wechatConfig u = Some (Some c) → wechat_ok (Some c);
}.

Lemma assignParsed_inv {A} v (parse : json → option A) x :
  assignParsed v parse = Some (Some x) → parse v = Some x.
Proof. destruct v; cbn [assignParsed]; [destruct (parse JUndef) eqn:E|..]; intros; simplify_eq; try done; by case_match; simplify_eq. Qed.

Lemma filterSafeUpdates_safe updates : safe_ok (filterSafeUpdates updates).
Proof.
  destruct updates as [| | | | | |o]; try (by split).
  split; unfold filterSafeUpdates; cbn [u_servingProfileProvenance u_routerPid u_wechatConfig].
  - intros v H. apply assignParsed_inv in H. pose proof (parseServingProfileProvenance_id _ _ H) as ->. exact H.
  - intros z. unfold readPositiveInteger. destruct (jget o "routerPid") as [| | |[z'| |]| | |]; try done.
    destruct (0 <? z')%Z eqn:E; [|done]. by intros [= <-].
  - intros c H. apply assignParsed_inv in H. by apply wechat_rt in H.
Qed.

Lemma default_ok {A} (P : option A → Prop) (old : option A) (new : option (option A)) :
  P old → P None → (∀ x, new = Some (Some x) → P (Some x)) → P (default old new).
Proof. destruct new as [[x|]|]; cbn; eauto. Qed.

Lemma transition_state s st at_ :
  m_state (machine (transitionMachineSnapshot s st at_)) = st.
Proof.
  unfold transitionMachineSnapshot. destruct (bool_decide _) eqn:E; [|done].
  by apply bool_decide_eq_true in E.
Qed.

(** A transition changes the machine only. *)
Lemma transition_eta s st at_ :
  transitionMachineSnapshot s st at_ = s <| machine := machine (transitionMachineSnapshot s st at_) |>.
Proof. unfold transitionMachineSnapshot. destruct (bool_decide _); reflexivity. Qed.

Lemma transition_completed s at_ :
  status s = "complete" → resumable s = false → stationExpressIntent s = None →
  completed (transitionMachineSnapshot s StComplete at_).
Proof. intros. split; [rewrite transition_eta..|apply transition_state]; done. Qed.

Lemma completed_session_completed u at_ s : completed (completed_session u at_ s).
Proof. apply transition_completed; reflexivity. Qed.

(** Entering the state it is in keeps a machine readable. *)
Lemma machine_time_rt m at_ sid :
  parseMachineSnapshot (machine_json m) sid = Some m →
  parseMachineSnapshot
    (machine_json (m <| m_stateEnteredAt := or_else (m_stateEnteredAt m) (Some at_) |>)) sid
  = Some (m <| m_stateEnteredAt := or_else (m_stateEnteredAt m) (Some at_) |>).
Proof.
  destruct m as [st [e|] rev rc]; [done|]. rewrite !machine_read, receipt_needs_time.
  cbn [upd m_state m_stateEnteredAt m_revision m_recoveryReceipt or_else].
  intros [= Hrev <-]. unfold readNonNegativeInteger. by rewrite Hrev.
Qed.

Lemma transition_machine_ok s st at_ sid :
  parseMachineSnapshot (machine_json (machine s)) sid = Some (machine s) →
  parseMachineSnapshot (machine_json (machine (transitionMachineSnapshot s st at_))) sid
  = Some (machine (transitionMachineSnapshot s st at_)).
Proof.
  intros H. unfold transitionMachineSnapshot.
  destruct (bool_decide _); [by apply machine_time_rt|apply machine_created_rt].
Qed.

Lemma transition_ok s st at_ : session_ok s → session_ok (transitionMachineSnapshot s st at_).
Proof.
  intros Hok. pose proof (transition_machine_ok s st at_ (sessionId s) (ok_machine s Hok)) as Hm.
  rewrite transition_eta. revert Hm. generalize (machine (transitionMachineSnapshot s st at_)).
  intros m Hm. destruct Hok. by split.
Qed.

Lemma completed_session_ok u at_ s :
  session_ok s → safe_ok u → updates_fit u s → session_ok (completed_session u at_ s).
Proof.
  intros Hok [Hp Hz Hw] [_ _ Hn]. pose proof (pending_generation_ok s) as Hg.
  pose proof (ok_provenance s Hok) as Kp. pose proof (ok_pid s Hok) as Kz.
  pose proof (ok_wechat s Hok) as Kw. specialize (λ g, Hg g Hok). destruct Hok.
  unfold completed_session. apply transition_ok. split; try done.
  - exact (default_ok (from_option (λ v, parseServingProfileProvenance v = Some v) True) _ _
      Kp I Hp).
  - change (from_option is_receipt_generation true (pending_generation s) = true).
    destruct (pending_generation s); [|done]. by apply Hg.
  - exact (default_ok (λ p, from_option (λ z, (0 <? z)%Z) true p = true) _ _ Kz eq_refl Hz).
  - exact (default_ok wechat_ok _ _ Kw I Hw).
  - unfold retirement_gate. change (match pending_generation s with
      Some g => negb (truthy g) || true | None => true end = true).
    destruct (pending_generation s); [|done]. by rewrite orb_true_r.
Qed.

Lemma transition_stable s st at_ :
  (mem_stable s → mem_stable (transitionMachineSnapshot s st at_))
  ∧ (persist_stable s → persist_stable (transitionMachineSnapshot s st at_)).
Proof.
  rewrite transition_eta. generalize (machine (transitionMachineSnapshot s st at_)). intros m.
  split; [intros []; by split|intros [[] ?]; split; [by split|done]].
Qed.

Lemma completed_session_stable u at_ s :
  updates_fit u s → mem_stable (completed_session u at_ s) ∧ persist_stable (completed_session u at_ s).
Proof.
  intros [Hm Hp _]. unfold completed_session. revert Hm Hp. generalize (assign_updates u s). intros s1 Hm Hp.
  split; apply transition_stable; [destruct Hm; by split|].
  destruct Hp as [[] ?]. split; [by split|done].
Qed.

(** [assertStationExpressInstallerResumeMatches] on the intent's generation. *)
Definition receipt_accepted (s : Session) (w : World) : bool :=
  match intent_generation s with
  | Some g => negb (truthy g) || receipt_matches g (w_receipts w)
  | None => true
  end.

Lemma session_completed_runs u s w :
  receipt_accepted s w = true →
  runs (session_completed u s) w
    (Ok (completed_session u (now (w_tick w)) s,
         mkCompletion (status s =s "complete") (pending_generation s)))
    (w <| w_tick := S (w_tick w) |>).
Proof.
  unfold receipt_accepted, runs, session_completed, completed_session, pending_generation,
    mbind, ST_bind, st_get, st_lift, read_clock, mret, ST_ret.
  destruct (intent_generation s) as [g|]; [|done]. by intros ->.
Qed.

Lemma session_completed_refused u s w :
  receipt_accepted s w = false → runs (session_completed u s) w (Throw ReceiptMismatch) w.
Proof.
  unfold receipt_accepted, runs, session_completed, mbind, ST_bind, st_get, st_lift.
  destruct (intent_generation s) as [g|]; [|done]. by intros ->.
Qed.

Lemma retirement_cleared_runs g s w :
  completed s → stationExpressReceiptRetirement s = Some g →
  runs (retirement_cleared g s) w (Ok (s <| stationExpressReceiptRetirement := None |>)) w.
Proof.
  intros [] Hg. unfold runs, retirement_cleared, assertStationExpressReceiptRetirementSession, mbind,
    ST_bind, st_lift, mret, ST_ret.
  rewrite Hg, co_status0, co_resumable0, co_intent0. cbn [negb].
  by rewrite !bool_decide_eq_true_2.
Qed.

(** Clearing the retirement of a completed session keeps everything else. *)
Lemma cleared_ok s :
  session_ok s → completed s →
  session_ok (s <| stationExpressReceiptRetirement := None |>).
Proof. intros [] []. by split. Qed.

Lemma cleared_stable s :
  (mem_stable s → mem_stable (s <| stationExpressReceiptRetirement := None |>))
  ∧ (persist_stable s → persist_stable (s <| stationExpressReceiptRetirement := None |>)).
Proof. split; [intros []; by split|intros [[] ?]; split; [by split|done]]. Qed.

(** Whatever happens, the file still holds the completed session, pending or
    retired; only a full reconciliation returns. *)
Definition retirement_outcome (s : Session) (ev : list OnboardMachineEvent)
    (out : result session_error Session * World) : Prop :=
  ∃ s2, holds out.2 s2 ∧ completed s2 ∧ w_events out.2 = ev
  ∧ (stationExpressReceiptRetirement s2 = None
     ∨ stationExpressReceiptRetirement s2 = stationExpressReceiptRetirement s)
  ∧ match out.1 with
    | Ok r => r = s2 ∧ stationExpressReceiptRetirement s2 = None
    | Throw e => e ≠ ReceiptMismatch
    end.

Lemma retirement_outcome_keep w w' s e :
  holds w s → completed s → w_disk w' = w_disk w → w_events w' = w_events w → e ≠ ReceiptMismatch →
  retirement_outcome s (w_events w) (Throw e, w').
Proof. intros Hh Hc Hd He Hn. exists s. split_and!; eauto using holds_disk. Qed.

Lemma commit_runs g s w :
  url_origin_law parseURL → holds w s → completed s → stationExpressReceiptRetirement s = Some g →
  let w1 := w <| w_tick := S (S (w_tick w)) |> in
  let saved := saved_at w1 (s <| stationExpressReceiptRetirement := None |>) in
  runs (updateSession (retirement_cleared g)) w (Ok saved) (after_save w1 saved)
  ∧ holds (after_save w1 saved) saved ∧ completed saved.
Proof.
  intros Hurl Hh Hc Hg w1 saved. pose proof Hh as [_ Hok Hm Hp Hf].
  split_and!.
  - apply (updateSession_exact _ w w1 s); try done.
    + by apply retirement_cleared_runs.
    + by apply cleared_ok.
    + by apply cleared_stable.
  - apply after_save_holds; [by apply cleared_ok|by apply cleared_stable..|done].
  - destruct Hc. by split.
Qed.

Lemma reconcile_installer_outcome g s w :
  url_origin_law parseURL → holds w s → completed s → stationExpressReceiptRetirement s = Some g →
  retirement_outcome s (w_events w)
    (reconcileInstallerResumeRetirement g (updateSession (retirement_cleared g)) w).
Proof.
  intros Hurl Hh Hc Hg. unfold reconcileInstallerResumeRetirement, on_receipts.
  unfold mbind, ST_bind, st_get, st_modify, mret, ST_ret, st_throw.
  destruct (claim_receipt g (w_receipts w)) as [[|] rc] eqn:E; cbn [fst snd].
  2:{ by apply retirement_outcome_keep. }
  set (wc := w <| w_receipts := rc |>).
  assert (Hhc : holds wc s) by by eapply holds_disk.
  destruct (commit_runs g s wc Hurl Hhc Hc Hg) as (Hr & Hh2 & Hc2).
  unfold runs in Hr. rewrite Hr.
  set (saved := saved_at _ _) in *. set (w2 := after_save _ saved) in *.
  destruct (finish_claims (w_receipts w2)) as [[|] rf] eqn:Ef; cbn [fst snd];
    exists saved; cbn [fst snd]; split_and!; try done; try (by eapply holds_disk); by left.
Qed.

Lemma reconcile_body g s w :
  url_origin_law parseURL → holds w s → completed s → stationExpressReceiptRetirement s = Some g →
  (loaded ← loadSession;
   st_lift (assertStationExpressReceiptRetirementSession loaded g);;
   reconcileInstallerResumeRetirement g (updateSession (retirement_cleared g))) w
  = reconcileInstallerResumeRetirement g (updateSession (retirement_cleared g))
      (w <| w_tick := S (S (w_tick w)) |>).
Proof.
  intros Hurl Hl [C1 C2 C3 C4] Hg. unfold mbind, ST_bind, st_lift.
  rewrite (holds_loads _ _ Hurl Hl). unfold assertStationExpressReceiptRetirementSession.
  rewrite Hg, C1, C2, C3. cbn [negb]. by rewrite !bool_decide_eq_true_2 by done.
Qed.

Lemma reconcile_outcome g s w :
  url_origin_law parseURL → holds w s → completed s → stationExpressReceiptRetirement s = Some g →
  retirement_outcome s (w_events w) (reconcileStationExpressReceiptRetirement g w).
Proof.
  intros Hurl Hh Hc Hg. unfold reconcileStationExpressReceiptRetirement.
  destruct (is_receipt_generation g) eqn:Eg; cbn [negb]; [|by apply retirement_outcome_keep].
  unfold mbind at 1, ST_bind at 1, st_get. cbn zeta.
  assert (Hbody : ∀ (owns : bool) wl, holds wl s → w_events wl = w_events w →
    retirement_outcome s (w_events w)
      (st_finally
         (loaded ← loadSession;
          st_lift (assertStationExpressReceiptRetirementSession loaded g);;
          reconcileInstallerResumeRetirement g (updateSession (retirement_cleared g)))
         (λ w, if owns then w <| w_receipts := release_lock (w_receipts w) |> else w) wl)).
  { intros owns wl Hl He. unfold st_finally. rewrite (reconcile_body g s wl) by done.
    destruct (reconcile_installer_outcome g s (wl <| w_tick := S (S (w_tick wl)) |>) Hurl)
      as (s2 & H1 & H2 & H3 & H4 & H5); [by eapply holds_disk|done|done|].
    exists s2. cbn [fst snd]. rewrite <- He.
    destruct owns; split_and!; try done; by eapply holds_disk. }
  destruct (lock_held (w_receipts w)); cbn [negb].
  - unfold mbind at 1, ST_bind at 1, mret at 1, ST_ret at 1. by apply (Hbody false).
  - unfold mbind at 1, ST_bind at 1. unfold on_receipts at 1.
    unfold mbind at 1, ST_bind at 1, st_get at 1, st_modify at 1. unfold mbind at 1, ST_bind at 1.
    destruct (acquire_lock (w_receipts w)) as [[|] rl] eqn:El; cbn [fst snd].
    + unfold mret at 1, ST_ret at 1. apply (Hbody true); [by eapply holds_disk|done].
    + by apply retirement_outcome_keep.
Qed.

Lemma transition_flag s st at_ :
  invalidDisclosure (transitionMachineSnapshot s st at_) = invalidDisclosure s.
Proof. by rewrite transition_eta. Qed.
Lemma transition_retirement s st at_ :
  stationExpressReceiptRetirement (transitionMachineSnapshot s st at_)
  = stationExpressReceiptRetirement s.
Proof. by rewrite transition_eta. Qed.
Lemma assignNullableString_plain v (old : option string) :
  default old (assignNullableString v None)
  = match v with JStr x => Some x | JNull => None | _ => old end.
Proof. by destruct v. Qed.

Lemma completed_session_retirement u at_ s :
  stationExpressReceiptRetirement (completed_session u at_ s) = pending_generation s.
Proof. unfold completed_session. by rewrite transition_retirement. Qed.

(** The update of [completeSession] when the receipt matches, or its refusal. *)
Lemma completion_update_runs u s w :
  url_origin_law parseURL → holds w s → safe_ok u → updates_fit u s →
  (runs (updateSessionWith (session_completed u)) w (Throw ReceiptMismatch)
     (w <| w_tick := S (S (w_tick w)) |>))
  ∨ ∃ w1, let saved := saved_at w1 (completed_session u (now (S (S (w_tick w)))) s) in
     runs (updateSessionWith (session_completed u)) w
       (Ok (saved, mkCompletion (status s =s "complete") (pending_generation s)))
       (after_save w1 saved)
     ∧ holds (after_save w1 saved) saved ∧ completed saved
     ∧ stationExpressReceiptRetirement saved = pending_generation s
     ∧ w_events w1 = w_events w.
Proof.
  intros Hurl Hh Hu Hfit. pose proof Hh as [_ Hok Hm Hp Hf].
  set (w0 := w <| w_tick := S (S (w_tick w)) |>). destruct (receipt_accepted s w0) eqn:Ha.
  - right. exists (w0 <| w_tick := S (w_tick w0) |>).
    pose proof (session_completed_runs u s w0 Ha) as Hr. revert Hr.
    change (w_tick w0) with (S (S (w_tick w))).
    pose proof (completed_session_ok u (now (S (S (w_tick w)))) s Hok Hu Hfit) as Hok'.
    destruct (completed_session_stable u (now (S (S (w_tick w)))) s Hfit) as [Hm' Hp'].
    pose proof (completed_session_completed u (now (S (S (w_tick w)))) s) as Hc.
    assert (Hf' : invalidDisclosure (completed_session u (now (S (S (w_tick w)))) s) = false)
      by (unfold completed_session; rewrite transition_flag; exact Hf).
    pose proof (completed_session_retirement u (now (S (S (w_tick w)))) s) as Hg.
    revert Hok' Hm' Hp' Hc Hf' Hg. generalize (completed_session u (now (S (S (w_tick w)))) s).
    intros s' Hok' Hm' Hp' [C1 C2 C3 C4] Hf' Hg Hr. cbn zeta.
    split; [by apply (updateSessionWith_exact (session_completed u) w _ s)|].
    split; [by apply after_save_holds|]. split; [by split|]. by split.
  - left. pose proof (load_or_create_loaded _ _ _ (holds_loads _ _ Hurl Hh)) as H1.
    pose proof (session_completed_refused u s w0 Ha) as Hr.
    unfold runs in *. unfold updateSessionWith, mbind, ST_bind. rewrite H1. fold w0. by rewrite Hr.
Qed.

(** The events of a completion. *)
Definition completion_event_types (updates : json) (emitEvents : bool) (s : Session)
    : list OnboardMachineEventType :=
  (if emitEvents && negb (bool_decide (updates_keys (filterSafeUpdates updates) = []))
   then [EvContextUpdated] else [])
  ++ (if emitEvents && negb (status s =s "complete") then [EvCompleted] else []).

Lemma completion_events_run updates emitEvents s0 session w :
  ∃ w1,
    ((if emitEvents && negb (bool_decide (updates_keys (filterSafeUpdates updates) = []))
      then emit_event EvContextUpdated session None (Some StComplete) None
             (Some (fields_metadata (updates_keys (filterSafeUpdates updates))))
      else mret tt);;
     (if emitEvents && negb (status s0 =s "complete")
      then emit_event EvCompleted session None (Some StComplete) None None else mret tt);;
     mret session) w = (Ok session, w1)
    ∧ w_disk w1 = w_disk w
    ∧ map ev_type (w_events w1)
      = map ev_type (w_events w) ++ completion_event_types updates emitEvents s0.
Proof.
  unfold completion_event_types. unfold mbind, ST_bind.
  destruct (emitEvents && _), (emitEvents && _); eexists; cbn [mret ST_ret];
    rewrite ?emit_event_runs; (split; [reflexivity|]); (split; [reflexivity|]);
    cbn [upd w_events]; rewrite ?map_app, ?app_nil_r, <- ?app_assoc; reflexivity.
Qed.

Lemma completeSession_outcome updates emitEvents w s :
  url_origin_law parseURL → holds w s → updates_fit (filterSafeUpdates updates) s →
  let out := completeSession updates emitEvents w in
  match out.1 with
  | Throw ReceiptMismatch => w_disk out.2 = w_disk w ∧ w_events out.2 = w_events w
  | Throw _ => ∃ s2, holds out.2 s2 ∧ completed s2 ∧ w_events out.2 = w_events w
      ∧ (stationExpressReceiptRetirement s2 = None
         ∨ stationExpressReceiptRetirement s2 = pending_generation s)
  | Ok r => holds out.2 r ∧ completed r ∧ stationExpressReceiptRetirement r = None
      ∧ map ev_type (w_events out.2)
        = map ev_type (w_events w) ++ completion_event_types updates emitEvents s
  end.
Proof.
  intros Hurl Hh Hfit out. destruct out as [r w'] eqn:E. subst out. revert E.
  unfold completeSession. cbn zeta. unfold mbind at 1, ST_bind at 1.
  destruct (completion_update_runs _ s w Hurl Hh (filterSafeUpdates_safe updates) Hfit)
    as [Hr|(w1 & Hr & Hh1 & Hc & Hg & He)]; rewrite Hr; cbn [fst snd]; [by intros [= <- <-]|].
  set (saved := saved_at w1 _) in *. cbn [c_generation c_wasComplete].
  unfold mbind at 1, ST_bind at 1. rewrite <- Hg.
  assert (Hev : w_events (after_save w1 saved) = w_events w) by exact He.
  destruct (stationExpressReceiptRetirement saved) as [g|] eqn:Eg.
  - pose proof (pending_generation_ok s g (h_ok _ _ Hh) (eq_sym Hg)) as Hgen.
    rewrite (generation_truthy _ Hgen).
    destruct (reconcile_outcome g saved _ Hurl Hh1 Hc Eg) as (s2 & K1 & K2 & K3 & K4 & K5).
    destruct (reconcileStationExpressReceiptRetirement g _) as [[r2|e] w2]; cbn [fst snd] in *.
    + destruct K5 as [-> K5].
      destruct (completion_events_run updates emitEvents s s2 w2) as (w3 & -> & Hd & Hm).
      intros [= <- <-]. split; [by eapply holds_disk|]. split; [done|]. split; [done|].
      by rewrite Hm, K3, Hev.
    + intros [= <- <-]. rewrite Hev in K3. rewrite Eg in K4. destruct e; try done; by exists s2.
  - destruct (completion_events_run updates emitEvents s saved (after_save w1 saved))
      as (w3 & H & Hd & Hm).
    unfold mret at 1, ST_ret at 1. rewrite H. intros [= <- <-].
    split; [by eapply holds_disk|]. split; [done|]. split; [done|]. by rewrite Hm, Hev.
Qed.
End WithHost.

(** ** Properties *)

(** The step operations of the store. *)
Inductive StepOperation : Type :=
| Started (stepName : string)
| Completed (stepName : string) (updates : json)
| Skipped (stepName : string)
| Failed (stepName : string) (message : option string).

Definition run_step {host : Host} {receipts : ReceiptStore} (op : StepOperation) : M Session :=
  match op with
  | Started n => markStepStarted n
  | Completed n u => markStepComplete n u
  | Skipped n => markStepSkipped n
  | Failed n m => markStepFailed n m
  end.

(** Every step operation is atomic on the session file: if it returns, the
    file holds exactly the session it returns; if it throws, the file is as it
    was; and neither way does it emit an event or touch a receipt. *)
Theorem step_operations_atomic {host : Host} {receipts : ReceiptStore} op w :
  commits_or_nothing (run_step op w) w.
Proof.
  destruct op; apply updateSession_commits; intros s.
  - apply step_started_quiet.
  - apply step_completed_quiet.
  - apply step_skipped_quiet.
  - apply step_failed_quiet.
Qed.

(** C23: the session file is a register: updating the session it holds, by code that
    yields a well-formed session, returns that session stamped with the time,
    and the file holds it, so that every later load reads it back. *)
Theorem updateSession_is_a_register {host : Host} {receipts : ReceiptStore} mutator w w2 s s' :
  url_origin_law parseURL → holds w s →
  runs (mutator s) (w <| w_tick := S (S (w_tick w)) |>) (Ok s') w2 →
  session_ok s' → mem_stable s' → persist_stable s' → invalidDisclosure s' = false →
  let saved := s' <| updatedAt := now (S (S (w_tick w2))) |> in
  (updateSession mutator w).1 = Ok saved
  ∧ (loadSession (updateSession mutator w).2).1 = Ok (Some saved).
Proof.
  intros Hurl Hh Hr Hok Hm Hp Hf saved.
  rewrite (updateSession_exact mutator w w2 s s') by done. split; [done|]. cbn [snd].
  rewrite (holds_loads _ (saved_at w2 s')); [done|done|by apply after_save_holds].
Qed.

(** C31: the process-exit backstop records one failure: on a session whose step is
    unfinished it leaves a failed machine, one revision later, with the redacted
    error on the step and the failure record, emits exactly one state.failed and
    one onboard.failed event, and a second call, whatever its arguments, changes
    neither the file nor the events. *)
Theorem finalize_records_one_failure {host : Host} {receipts : ReceiptStore}
    n message interrupted w s step :
  url_origin_law parseURL → holds w s → interruptible n step s → redacted message →
  ∃ saved w1,
    runs (finalizeIncompleteOnboardStep n message interrupted) w (Ok (Some saved)) w1
    ∧ holds w1 saved
    ∧ m_state (machine saved) = StFailed
    ∧ m_revision (machine saved) = js_succ (m_revision (machine s))
    ∧ status saved = "failed"
    ∧ st_status <$> (steps saved !! n) = Some SFailed
    ∧ (f_message <$> failure saved) = Some (redactSensitiveText (jopt message))
    ∧ map ev_type (w_events w1) = map ev_type (w_events w) ++ [EvStateFailed; EvFailed]
    ∧ ∀ n' message' interrupted',
        (finalizeIncompleteOnboardStep n' message' interrupted' w1).1 = Ok (Some saved)
        ∧ w_disk (finalizeIncompleteOnboardStep n' message' interrupted' w1).2 = w_disk w1
        ∧ w_events (finalizeIncompleteOnboardStep n' message' interrupted' w1).2 = w_events w1.
Proof.
  intros Hurl Hh Hi Hr. pose proof (machine_revision_ok s (h_ok _ _ Hh)) as Hrev.
  destruct (finalize_running n message interrupted w s step Hurl Hh Hi Hr) as [H1 H2].
  do 2 eexists. split; [exact H1|]. split; [exact H2|]. split; [done|].
  split; [apply Z.max_r; by apply js_succ_nonneg|]. split; [done|].
  split; [cbn; by rewrite lookup_insert_eq|]. split; [done|].
  split; [cbn [w_events]; by rewrite map_app|].
  intros n' message' interrupted'.
  rewrite (finalize_ended n' message' interrupted' _ _ _ (holds_loads _ _ Hurl H2)); done.
Qed.

(** C22: completion is durable and resumable.  A refused receipt changes nothing.
    Otherwise the file holds a completed, no longer resumable session, and: if
    the call returns, that is the session returned, nothing is left to retire
    and the right events were emitted; if it throws, the retirement it still
    owes is the one recorded, so a later reconciliation can finish it. *)
Theorem completeSession_durable {host : Host} {receipts : ReceiptStore} updates emitEvents w s :
  url_origin_law parseURL → holds w s → updates_fit (filterSafeUpdates updates) s →
  let out := completeSession updates emitEvents w in
  match out.1 with
  | Throw ReceiptMismatch => w_disk out.2 = w_disk w ∧ w_events out.2 = w_events w
  | Throw _ => ∃ s2, holds out.2 s2 ∧ completed s2 ∧ w_events out.2 = w_events w
      ∧ (stationExpressReceiptRetirement s2 = None
         ∨ stationExpressReceiptRetirement s2 = pending_generation s)
  | Ok r => holds out.2 r ∧ completed r ∧ stationExpressReceiptRetirement r = None
      ∧ map ev_type (w_events out.2)
        = map ev_type (w_events w) ++ completion_event_types updates emitEvents s
  end.
Proof. apply completeSession_outcome. Qed.

(** skipping never erases an outcome: a step that completed, failed or was
    already skipped keeps its record, a pending or running one becomes skipped,
    and nothing else of the session changes but its time of update. *)
Theorem markStepSkipped_keeps_outcomes {host : Host} {receipts : ReceiptStore} n w s :
  url_origin_law parseURL → holds w s → redactSensitiveText JNull = None →
  ∃ saved, (markStepSkipped n w).1 = Ok saved
  ∧ saved = s <| steps := steps saved |> <| updatedAt := updatedAt saved |>
  ∧ ∀ k, steps saved !! k = skip_step n k <$> (steps s !! k).
Proof.
  intros Hurl Hh Hnull. pose proof Hh as [_ Hok Hm _ _].
  destruct (step_skipped_runs n s (w <| w_tick := S (S (w_tick w)) |>) Hok Hm Hnull)
    as (s' & Hr & Hok' & Hm' & He & Hk).
  unfold markStepSkipped. rewrite (updateSession_exact _ w _ s s' Hurl Hh Hr Hok' Hm').
  eexists. split; [done|]. split; [|done]. revert He. generalize (steps s'). intros st ->. done.
Qed.

(** The nullable fields of an update are three-valued: a string sets the
    field, null clears it, and anything else, absence included, leaves it; the
    endpoint is redacted on the way.  No update reaches the session's identity,
    its machine, its steps, its checkpoint, its status or its express intent. *)
Theorem safe_updates_three_valued {host : Host} u s :
  let s' := assign_updates (filterSafeUpdates (JObj u)) s in
  let field key (old : option string) :=
    match jget u key with JStr v => Some v | JNull => None | _ => old end in
  sandboxName s' = field "sandboxName" (sandboxName s)
  ∧ provider s' = field "provider" (provider s)
  ∧ model s' = field "model" (model s)
  ∧ credentialEnv s' = field "credentialEnv" (credentialEnv s)
  ∧ preferredInferenceApi s' = field "preferredInferenceApi" (preferredInferenceApi s)
  ∧ compatibleEndpointReasoning s'
    = field "compatibleEndpointReasoning" (compatibleEndpointReasoning s)
  ∧ nimContainer s' = field "nimContainer" (nimContainer s)
  ∧ endpointUrl s' = match jget u "endpointUrl" with
                     | JStr v => redactUrl (JStr v) | JNull => None | _ => endpointUrl s end
  ∧ sessionId s' = sessionId s ∧ status s' = status s ∧ resumable s' = resumable s
  ∧ machine s' = machine s ∧ steps s' = steps s ∧ checkpoint s' = checkpoint s
  ∧ stationExpressIntent s' = stationExpressIntent s
  ∧ stationExpressReceiptRetirement s' = stationExpressReceiptRetirement s.
Proof.
  intros s' field. split_and!; try reflexivity.
  - change (default (sandboxName s) (assignNullableString (jget u "sandboxName") None)
            = field "sandboxName" (sandboxName s)). apply assignNullableString_plain.
  - change (default (provider s) (assignNullableString (jget u "provider") None)
            = field "provider" (provider s)). apply assignNullableString_plain.
  - change (default (model s) (assignNullableString (jget u "model") None)
            = field "model" (model s)). apply assignNullableString_plain.
  - change (default (credentialEnv s) (assignNullableString (jget u "credentialEnv") None)
            = field "credentialEnv" (credentialEnv s)). apply assignNullableString_plain.
  - change (default (preferredInferenceApi s)
              (assignNullableString (jget u "preferredInferenceApi") None)
            = field "preferredInferenceApi" (preferredInferenceApi s)).
    apply assignNullableString_plain.
  - change (default (compatibleEndpointReasoning s)
              (assignNullableString (jget u "compatibleEndpointReasoning") None)
            = field "compatibleEndpointReasoning" (compatibleEndpointReasoning s)).
    apply assignNullableString_plain.
  - change (default (nimContainer s) (assignNullableString (jget u "nimContainer") None)
            = field "nimContainer" (nimContainer s)). apply assignNullableString_plain.
  - change (default (endpointUrl s) (assignNullableString (jget u "endpointUrl")
              (Some (λ v, redactUrl (JStr v)))) = match jget u "endpointUrl" with
                     | JStr v => redactUrl (JStr v) | JNull => None | _ => endpointUrl s end).
    destruct (jget u "endpointUrl") as [| | | |v| |]; try reflexivity.
    cbn [assignNullableString getNullableStringUpdateIntent].
    unfold assignNullableString, getNullableStringUpdateIntent. by destruct (redactUrl (JStr v)).
Qed.

(** A session that completed provider selection and still carries its Station
    express intent cannot start that step again: marking it started contradicts
    the session's own invariant, and the save replaces the whole session by a
    fresh one: a new id, no intent, no checkpoint, every step pending. *)
Theorem bound_selection_restart_resets {host : Host} {receipts : ReceiptStore} w s i :
  url_origin_law parseURL → holds w s → redactSensitiveText JNull = None →
  stationExpressIntent s = Some i → step_complete (steps s) "provider_selection" = true →
  ∃ saved t, (markStepStarted "provider_selection" w).1 = Ok saved
  ∧ saved = createSession t no_overrides <| updatedAt := updatedAt saved |>
  ∧ stationExpressIntent saved = None ∧ steps saved = defaultSteps ∧ checkpoint saved = None.
Proof.
  intros Hurl Hh Hnull Hi Hc. pose proof Hh as [_ Hok Hm _ _].
  destruct (provider_step_known s Hok) as [step Hs].
  unfold markStepStarted, updateSession, updateSessionWith. unfold mbind, ST_bind.
  rewrite (load_or_create_loaded _ _ _ (holds_loads _ _ Hurl Hh)).
  unfold step_started. rewrite Hs. unfold mbind, ST_bind, read_clock, mret, ST_ret. cbn [fst snd].
  unfold saveSession. unfold mbind, ST_bind, take_ticks.
  rewrite (restarted_refused _ _ _ _ _ _ Hurl Hok Hm Hnull Hi Hc).
  eexists _, _. split; [reflexivity|]. split_and!; reflexivity.
Qed.

(** ** A concrete store *)

(** One receipt, on disk or not, and the lock. *)
#[export] Instance one_receipt : ReceiptStore := {|
  Receipts := option string * bool;
  receipt_matches := λ g r, bool_decide (r.1 = Some g);
  claim_receipt := λ g r, (true, (if bool_decide (r.1 = Some g) then None else r.1, r.2));
  finish_claims := λ r, (true, r);
  lock_held := snd;
  acquire_lock := λ r, (negb r.2, (r.1, true));
  release_lock := λ r, (r.1, false);
|}.

(** A run interrupted in its sandbox step. *)
Definition sample_running_json : json := JObj [
  ("version", JNum (NInt 1)); ("sessionId", JStr "s1"); ("resumable", JBool true);
  ("status", JStr "in_progress"); ("mode", JStr "non-interactive");
  ("lastStepStarted", JStr "sandbox"); ("sandboxName", JStr "my-box"); ("endpointUrl", JStr "https://example.test/v1");
  ("sandboxPromptProgress", JObj [("sandboxName", JBool true); ("webSearch", JBool true)]);
  ("stationExpressIntent",
     intent_json (StationIntent "deepseek-v4-flash" "my-box" None
                    (Some ("served", "deepseek-ai/DeepSeek-V4-Flash"))));
  ("provider", JStr "vllm-local"); ("model", JStr "served"); ("webSearchConfig", JNull);
  ("checkpoint", sample_checkpoint_json 3);
  ("steps", JObj [("provider_selection", JObj [("status", JStr "complete")]);
                  ("sandbox", JObj [("status", JStr "in_progress")])]);
  ("machine", JObj [("version", JNum (NInt 1)); ("state", JStr "sandbox");
                    ("revision", JNum (NInt 7))]) ].

Definition sample_session : Session := Eval vm_compute in
  default (createSession (host := sample_host) 0 no_overrides)
    (normalizeSession (host := sample_host) 0 false sample_running_json).
Definition sample_world : World (receipts := one_receipt) :=
  mkWorld _ (Stored (json_disk (serializeSessionForDisk (host := sample_host) sample_session))) 0 []
    (None, true).

Lemma sample_normalized :
  normalizeSession (host := sample_host) 0 false sample_running_json = Some sample_session.
Proof. vm_compute. reflexivity. Qed.

Lemma sample_holds : holds (host := sample_host) sample_world sample_session.
Proof.
  assert (Hm : mem_stable (host := sample_host) sample_session).
  { split; try reflexivity.
    - apply map_Forall_to_list. vm_compute. repeat constructor.
    - vm_compute. split; [reflexivity|discriminate]. }
  split; [reflexivity|exact (normalizeSession_ok (host := sample_host) _ _ _ _ sample_normalized)
         |exact Hm| |reflexivity].
  split; [|split; reflexivity]. split; try reflexivity.
  - apply map_Forall_to_list. vm_compute. repeat constructor.
  - vm_compute. split; [reflexivity|discriminate].
Qed.

Lemma bound_selection_restart_resets_witness :
  ∃ saved t, (markStepStarted (host := sample_host) "provider_selection" sample_world).1 = Ok saved
  ∧ saved = createSession (host := sample_host) t no_overrides <| updatedAt := updatedAt saved |>
  ∧ stationExpressIntent saved = None ∧ steps saved = defaultSteps ∧ checkpoint saved = None.
Proof.
  apply (bound_selection_restart_resets (host := sample_host) sample_world sample_session
    (StationIntent "deepseek-v4-flash" "my-box" None (Some ("served", "deepseek-ai/DeepSeek-V4-Flash"))));
    [exact one_url_law|exact sample_holds|reflexivity|vm_compute; reflexivity..].
Defined.

Lemma markStepSkipped_keeps_outcomes_witness :
  ∃ saved, (markStepSkipped (host := sample_host) "gateway" sample_world).1 = Ok saved
  ∧ saved = sample_session <| steps := steps saved |> <| updatedAt := updatedAt saved |>
  ∧ ∀ k, steps saved !! k = skip_step "gateway" k <$> (steps sample_session !! k).
Proof.
  apply (markStepSkipped_keeps_outcomes (host := sample_host) "gateway");
    [exact one_url_law|exact sample_holds|reflexivity].
Defined.

Lemma completeSession_durable_witness :
  let out := completeSession (host := sample_host) (JObj [("policyPresets", JNull)]) true sample_world in
  match out.1 with
  | Throw ReceiptMismatch => w_disk out.2 = w_disk sample_world ∧ w_events out.2 = w_events sample_world
  | Throw _ => ∃ s2, holds (host := sample_host) out.2 s2 ∧ completed s2
      ∧ w_events out.2 = w_events sample_world
      ∧ (stationExpressReceiptRetirement s2 = None
         ∨ stationExpressReceiptRetirement s2 = pending_generation sample_session)
  | Ok r => holds (host := sample_host) out.2 r ∧ completed r
      ∧ stationExpressReceiptRetirement r = None
      ∧ map ev_type (w_events out.2) = map ev_type (w_events sample_world)
          ++ completion_event_types (host := sample_host) (JObj [("policyPresets", JNull)]) true
               sample_session
  end.
Proof.
  apply (completeSession_durable (host := sample_host));
    [exact one_url_law|exact sample_holds|].
  destruct (h_mem _ _ sample_holds), (h_persist _ _ sample_holds) as [[] ?].
  split; [by split|split; [by split|done]|done].
Defined.

Lemma updateSession_is_a_register_witness :
  let w2 := sample_world <| w_tick := 2 |> in
  let saved := set_step "gateway" (mkStep SFailed None None (Some "no route")) sample_session
                 <| updatedAt := "2026-01-01T00:00:00.000Z" |> in
  (updateSession (host := sample_host) (step_failed (host := sample_host) "gateway" (Some "no route"))
     sample_world).1 = Ok saved
  ∧ (loadSession (host := sample_host)
       (updateSession (host := sample_host)
          (step_failed (host := sample_host) "gateway" (Some "no route")) sample_world).2).1
    = Ok (Some saved).
Proof.
  pose proof sample_holds as [_ Hok Hm Hp _].
  apply (updateSession_is_a_register (host := sample_host) _ sample_world (sample_world <| w_tick := 2 |>)
    sample_session (set_step "gateway" (mkStep SFailed None None (Some "no route")) sample_session));
    [exact one_url_law|exact sample_holds|vm_compute; reflexivity| | | |reflexivity].
  - apply (set_step_ok (host := sample_host) "gateway" (mkStep SPending None None None));
      [exact Hok|vm_compute; reflexivity|discriminate].
  - apply (set_step_stable (host := sample_host)); [exact Hm|reflexivity].
  - apply (set_step_persist (host := sample_host)); [exact Hp|reflexivity].
Defined.

Lemma finalize_records_one_failure_witness :
  ∃ saved w1,
    runs (finalizeIncompleteOnboardStep (host := sample_host) "sandbox" (Some "killed") true)
      sample_world (Ok (Some saved)) w1
    ∧ holds (host := sample_host) w1 saved
    ∧ m_state (machine saved) = StFailed
    ∧ m_revision (machine saved) = js_succ (m_revision (machine sample_session))
    ∧ status saved = "failed"
    ∧ st_status <$> (steps saved !! "sandbox") = Some SFailed
    ∧ (f_message <$> failure saved) = Some (Some "killed")
    ∧ map ev_type (w_events w1) = map ev_type (w_events sample_world) ++ [EvStateFailed; EvFailed]
    ∧ ∀ n' message' interrupted',
        (finalizeIncompleteOnboardStep (host := sample_host) n' message' interrupted' w1).1
        = Ok (Some saved)
        ∧ w_disk (finalizeIncompleteOnboardStep (host := sample_host) n' message' interrupted' w1).2
          = w_disk w1
        ∧ w_events (finalizeIncompleteOnboardStep (host := sample_host) n' message' interrupted' w1).2
          = w_events w1.
Proof.
  apply (finalize_records_one_failure (host := sample_host) "sandbox" (Some "killed") true sample_world
    sample_session (mkStep SInProgress None None None));
    [exact one_url_law|exact sample_holds| |reflexivity].
  split; [vm_compute; reflexivity|discriminate|reflexivity|reflexivity].
Defined.
