(* ===== verification/Recovery.v ===== *)
(** * Resuming a session: checkpoint migration and machine recovery

    src/lib/state/onboard-checkpoint-migrate.ts (the checkpoint a resume works
    from), src/lib/onboard/resume-repair-policy.ts, resume-machine-repair.ts and
    session-recovery.ts (re-seating an ended machine at a state it can advance
    from). *)

From S2P Require Import Prelude Json Names Machine Choices Time Station Checkpoint SessionData.
From S2P Require Import SessionParse Events SessionStore.

Section WithHost.
Context {host : Host}.

(** ** onboard-checkpoint-migrate.ts *)

Definition identityDecision (s : Session) : CheckpointDecision CheckpointSandboxIdentity :=
  match sandboxName s, agent s with
  | Some n, Some a =>
      if pp_sandboxName (sandboxPromptProgress s) && truthy n && truthy a
      then Selected (mkIdentity n a) else Unset
  | _, _ => Unset
  end.

Definition webSearchDecision (s : Session) : CheckpointDecision WebSearchConfig :=
  decisionFromLegacyNullable (pp_webSearch (sandboxPromptProgress s)) (webSearchConfig s) Some.

Definition messagingDecision (s : Session) : CheckpointDecision CheckpointMessagingSelection :=
  decisionFromLegacyNullable (pp_messaging (sandboxPromptProgress s)) (messagingPlan s)
    (λ plan, Some (mkMessaging (getActiveChannelIdsFromPlan (Some plan))
                     (getDisabledChannelIdsFromPlan (Some plan)))).

Definition resourceDecision (s : Session) : CheckpointDecision CheckpointResourceProfile :=
  decisionFromLegacyNullable (pp_resourceProfile (sandboxPromptProgress s)) (resourceProfile s) Some.

Definition deriveCheckpointFromSession (s : Session) : OnboardCheckpoint := {|
  cp_sessionId := sessionId s;
  cp_machineState := m_state (machine s);
  cp_updatedAt := updatedAt s;
  cp_sandboxIdentity := identityDecision s;
  cp_webSearch := webSearchDecision s;
  cp_messaging := messagingDecision s;
  cp_resourceProfile := resourceDecision s;
  cp_gatewayAuthority := Unset;
  cp_effectGroups := no_groups;
  cp_bindings := mkBindings [] [];
  cp_sandboxRecreate := None;
|}.

(** [t] indexes the clock readings of [normalizeSession]. *)
Definition resolveCheckpointForResume (t : nat) (rawSession : json) : CheckpointLoadResult :=
  match rawSession with
  | JObj o =>
      match inspectCheckpoint parseURL (jget o "checkpoint") with
      | UnsupportedFuture v => UnsupportedFuture v
      | Corrupt => Corrupt
      | inspected =>
          match normalizeSession t false rawSession with
          | None => LoadNone
          | Some session =>
              match inspected with
              | Loaded c =>
                  if negb (cp_sessionId c =s sessionId session) then Corrupt else inspected
              | Migrated c _ =>
                  if negb (cp_sessionId c =s sessionId session) then Corrupt else inspected
              | _ => Migrated (deriveCheckpointFromSession session) 0
              end
          end
      end
  | _ => LoadNone
  end.

(** [JSON.parse] throwing is [Unparsable]. *)
Definition loadResumeCheckpoint (t : nat) (disk : Disk) : CheckpointLoadResult :=
  match disk with
  | NoFile => LoadNone
  | Unparsable => Corrupt
  | Stored raw => resolveCheckpointForResume t raw
  end.

(** ** resume-repair-policy.ts *)

Inductive KeepReason : Type := NonterminalSnapshot | CompletedNonresumableSnapshot.

Inductive ResumeRepairPolicyDecision : Type :=
| Repair (reason : SessionRecoveryReceiptReason)
| KeepSnapshot (reason : KeepReason).

Definition classifyResumeMachineRepair (s : Session) : ResumeRepairPolicyDecision :=
  if bool_decide (m_state (machine s) = StFailed) then Repair FailedTerminalSnapshot
  else if negb (bool_decide (m_state (machine s) = StComplete)) then KeepSnapshot NonterminalSnapshot
  else if negb (status s =s "complete") || resumable s then Repair ReopenedCompleteSnapshot
  else KeepSnapshot CompletedNonresumableSnapshot.

(** ** resume-machine-repair.ts *)

(** [state && (step?.status === "failed" || step?.status === "in_progress")]. *)
Definition unfinished_step_state (s : Session) (name : option string) : option OnboardMachineState :=
  match machineStateFromOnboardSessionStep name with
  | Some st =>
      let step := step_of (steps s) name in
      if step_has step SFailed || step_has step SInProgress then Some st else None
  | None => None
  end.

Definition activeStepMachineState (s : Session) : option OnboardMachineState :=
  match unfinished_step_state s (failure s ≫= f_step) with
  | Some st => Some st
  | None => unfinished_step_state s (lastStepStarted s)
  end.

Definition resumeMachineState (s : Session) : OnboardMachineState :=
  default StInit
    (or_else (activeStepMachineState s)
       (nextMachineStateAfterCompletedStep (lastCompletedStep s) (agent s))).

(** ** session-recovery.ts *)

Inductive SessionRecoveryPlan : Type :=
| Recover (reason : SessionRecoveryReceiptReason) (entry : OnboardMachineState)
| Keep (reason : KeepReason).

Definition assertRecoverableEntry (entry : OnboardMachineState)
    : result recovery_error OnboardMachineState :=
  if isTerminalOnboardMachineState entry then Throw (UnrecoverableSession entry) else Ok entry.

Definition assertCanonicalRecoveryTimestamp (value : string) : result recovery_error string :=
  if isCanonicalIso value then Ok value else Throw BadTimestamp.

Definition planSessionRecovery (s : Session) : result recovery_error SessionRecoveryPlan :=
  match classifyResumeMachineRepair s with
  | KeepSnapshot reason => Ok (Keep reason)
  | Repair reason => entry ← assertRecoverableEntry (resumeMachineState s); Ok (Recover reason entry)
  end.

(** The session is changed in place: the plan and the session it leaves. *)
Definition applySessionRecovery (s : Session) (stateEnteredAt : string)
    : result recovery_error (SessionRecoveryPlan * Session) :=
  plan ← planSessionRecovery s;
  match plan with
  | Keep _ => Ok (plan, s)
  | Recover reason entry =>
      appliedAt ← assertCanonicalRecoveryTimestamp stateEnteredAt;
      let revision := js_succ (m_revision (machine s)) in
      let id := createSessionRecoveryReceiptId (sessionId s) revision reason entry in
      Ok (plan, s <| machine := mkMachine entry (Some appliedAt) revision
                                  (Some (mkReceipt id reason entry appliedAt revision)) |>)
  end.

(** ** Lemmas *)

#[local] Opaque NAME_VALID_PATTERN NAME_MAX_LENGTH.

Lemma decision_legacy_rt {Raw V} (flag : bool) (raw : option Raw) (f : Raw → option V) value_json
    (parseValue : json → option V) :
  (∀ r v, flag = true → raw = Some r → f r = Some v → parseValue (value_json v) = Some v) →
  parseCheckpointDecision (decision_json value_json (decisionFromLegacyNullable flag raw f)) parseValue
  = Some (decisionFromLegacyNullable flag raw f).
Proof.
  intros H. unfold decisionFromLegacyNullable. destruct flag; [|done]. cbn [negb].
  destruct raw as [r|]; [|done]. destruct (f r) as [v|] eqn:E; [|done].
  unfold decision_json, parseCheckpointDecision. jget_simpl. by rewrite (H r v).
Qed.

Lemma derived_identity_rt s :
  session_ok s →
  parseCheckpointDecision (decision_json identity_json (identityDecision s)) parseSandboxIdentityValue
  = Some (identityDecision s).
Proof.
  intros Hok. unfold identityDecision. destruct (sandboxName s) as [n|] eqn:En; [|done].
  destruct (agent s) as [a|]; [|done].
  destruct (pp_sandboxName _ && truthy n && truthy a) eqn:E; [|done].
  apply andb_true_iff in E as [[Hf Hn]%andb_true_iff Ha].
  pose proof (ok_name_flag s Hok Hf) as Hv. rewrite En in Hv. unfold validSandboxName in Hv.
  cbn [jopt from_option] in Hv.
  unfold decision_json, parseCheckpointDecision, identity_json, parseSandboxIdentityValue. jget_simpl.
  cbn [id_name id_agent]. apply andb_true_iff in Hv as [Hv1 Hv2]. by rewrite Ha, Hv1, Hv2.
Qed.

Lemma channels_rt a d :
  parseMessagingValue (messaging_json (mkMessaging a d)) = Some (mkMessaging a d).
Proof.
  unfold messaging_json, parseMessagingValue. cbn [selectedChannels disabledChannels]. jget_simpl.
  by rewrite !readStrictStringArray_jstrs.
Qed.

Lemma derived_parts s :
  session_ok s → isCanonicalIso (updatedAt s) = true →
  checkpoint_parts parseURL (deriveCheckpointFromSession s).
Proof.
  intros Hok Hu. split; try done.
  - by apply derived_identity_rt.
  - apply decision_legacy_rt. intros r v _ _ [= <-]. by destruct r as [[]].
  - apply decision_legacy_rt. intros r v _ _ [= <-]. apply channels_rt.
  - apply decision_legacy_rt. intros r v _ _ [= <-]. by destruct r.
Qed.

Lemma derived_loads s :
  session_ok s → isCanonicalIso (updatedAt s) = true →
  inspectCheckpoint parseURL (serializeCheckpoint (deriveCheckpointFromSession s))
  = Loaded (deriveCheckpointFromSession s).
Proof. intros Hok Hu. by apply serialized_loads, derived_parts. Qed.

(** The states a session step stands for can all be resumed from. *)
Lemma step_state_resumable n st :
  machineStateFromOnboardSessionStep n = Some st → isTerminalOnboardMachineState st = false.
Proof.
  unfold machineStateFromOnboardSessionStep. destruct n as [n|]; [|done].
  destruct (truthy n && _); [|done]. destruct (List.find _ _) as [[k st']|] eqn:E; [|done].
  intros [= <-]. apply List.find_some in E as [Hin _].
  assert (H : forallb (λ kv, negb (isTerminalOnboardMachineState kv.2))
                ONBOARD_SESSION_STEP_TO_MACHINE_STATE = true) by (vm_compute; reflexivity).
  rewrite forallb_forall in H. specialize (H _ Hin). by apply negb_true_iff in H.
Qed.

Lemma unfinished_resumable s n st :
  unfinished_step_state s n = Some st → isTerminalOnboardMachineState st = false.
Proof.
  unfold unfinished_step_state. destruct (machineStateFromOnboardSessionStep n) eqn:E; [|done].
  destruct (_ || _); [|done]. intros [= <-]. by eapply step_state_resumable.
Qed.

Lemma resumeMachineState_nonterminal s : isTerminalOnboardMachineState (resumeMachineState s) = false.
Proof.
  unfold resumeMachineState, activeStepMachineState.
  destruct (unfinished_step_state s (failure s ≫= f_step)) eqn:E1; [by eapply unfinished_resumable|].
  destruct (unfinished_step_state s (lastStepStarted s)) eqn:E2; [by eapply unfinished_resumable|].
  cbn [or_else]. unfold nextMachineStateAfterCompletedStep.
  destruct (lastCompletedStep s) as [n|]; [|done].
  repeat (case_match; [reflexivity || (destruct (truthy_opt (agent s)); reflexivity)|]). done.
Qed.

Lemma plan_recovers s :
  planSessionRecovery s
  = match classifyResumeMachineRepair s with
    | KeepSnapshot reason => Ok (Keep reason)
    | Repair reason => Ok (Recover reason (resumeMachineState s))
    end.
Proof.
  unfold planSessionRecovery. destruct (classifyResumeMachineRepair s); [|done].
  unfold assertRecoverableEntry. by rewrite resumeMachineState_nonterminal.
Qed.

(** A machine seated in a running state is kept. *)
Lemma running_kept s :
  isTerminalOnboardMachineState (m_state (machine s)) = false →
  classifyResumeMachineRepair s = KeepSnapshot NonterminalSnapshot.
Proof. unfold classifyResumeMachineRepair. by destruct (m_state (machine s)). Qed.

Lemma recovered_machine_reads sid rev reason entry at_ :
  (∀ x, is_hex_digest 64 (sha256_hex x) = true) → (0 ≤ rev)%Z → isCanonicalIso at_ = true →
  isTerminalOnboardMachineState entry = false →
  let m := mkMachine entry (Some at_) rev
    (Some (mkReceipt (createSessionRecoveryReceiptId sid rev reason entry) reason entry at_ rev)) in
  parseMachineSnapshot (machine_json m) sid = Some m.
Proof.
  intros Hsha Hrev Hat Hentry m. rewrite machine_read. unfold m.
  cbn [m_state m_stateEnteredAt m_revision m_recoveryReceipt from_option].
  rewrite nonneg_read by done. cbn [default from_option id]. repeat f_equal.
  set (rid := createSessionRecoveryReceiptId sid rev reason entry).
  assert (Hid : is_hex_digest 64 rid = true) by apply Hsha.
  assert (Hne : readNonEmpty (JStr rid) = Some rid).
  { apply readNonEmpty_str. by destruct rid. }
  unfold parseSessionRecoveryReceipt, receipt_json.
  cbn [rr_id rr_reason rr_entry rr_appliedAt rr_revision]. jget_simpl.
  assert (Hr : readReason (JStr (reason_id reason)) = Some reason) by by destruct reason.
  assert (He : readMachineState (JStr (state_id entry)) = Some entry) by apply parse_state_id.
  rewrite Hne. cbn [mbind option_bind]. rewrite Hid. cbn [negb].
  rewrite Hr. cbn [mbind option_bind]. rewrite He. cbn [mbind option_bind]. rewrite Hentry.
  rewrite (readCanonicalIsoTimestamp_str _ Hat). cbn [mbind option_bind].
  rewrite nonneg_read by done. cbn [mbind option_bind].
  rewrite !bool_decide_eq_true_2, Z.eqb_refl by done. unfold rid. by rewrite String.eqb_refl.
Qed.

Lemma recovery_spec s at_ :
  (∀ x, is_hex_digest 64 (sha256_hex x) = true) → isCanonicalIso at_ = true → session_ok s →
  ∃ plan s',
    applySessionRecovery s at_ = Ok (plan, s') ∧ session_ok s'
    ∧ s' = s <| machine := machine s' |>
    ∧ match plan with
      | Keep NonterminalSnapshot =>
          s' = s ∧ isTerminalOnboardMachineState (m_state (machine s)) = false
      | Keep CompletedNonresumableSnapshot =>
          s' = s ∧ m_state (machine s) = StComplete ∧ status s = "complete" ∧ resumable s = false
      | Recover _ entry =>
          isTerminalOnboardMachineState (m_state (machine s)) = true
          ∧ isTerminalOnboardMachineState entry = false
          ∧ m_state (machine s') = entry
          ∧ m_revision (machine s') = js_succ (m_revision (machine s))
          ∧ is_Some (m_recoveryReceipt (machine s'))
      end
    ∧ ∀ at', ∃ reason, applySessionRecovery s' at' = Ok (Keep reason, s').
Proof.
  intros Hsha Hat Hok. unfold applySessionRecovery at 1. rewrite plan_recovers.
  destruct (classifyResumeMachineRepair s) as [reason|reason] eqn:Ec.
  - cbn [mbind result_bind]. unfold assertCanonicalRecoveryTimestamp. rewrite Hat.
    cbn [mbind result_bind]. set (entry := resumeMachineState s).
    assert (Hentry : isTerminalOnboardMachineState entry = false)
      by apply resumeMachineState_nonterminal.
    set (m := mkMachine _ _ _ _).
    exists (Recover reason entry), (s <| machine := m |>). split; [done|].
    pose proof (machine_revision_ok s Hok) as Hrev.
    split; [apply with_machine_ok; [done|]; by apply recovered_machine_reads; [..|apply js_succ_nonneg| |]|].
    split; [done|]. split.
    + split_and!; try done. unfold classifyResumeMachineRepair in Ec.
      by destruct (m_state (machine s)).
    + intros at'. exists NonterminalSnapshot. unfold applySessionRecovery.
      rewrite plan_recovers, running_kept by done. done.
  - exists (Keep reason), s. cbn [mbind result_bind]. split; [done|]. split; [done|].
    split; [by destruct s|]. split.
    + unfold classifyResumeMachineRepair in Ec.
      destruct (bool_decide (m_state (machine s) = StFailed)) eqn:E1; [done|].
      destruct (bool_decide (m_state (machine s) = StComplete)) eqn:E2; cbn [negb] in Ec.
      * destruct (negb (status s =s "complete") || resumable s) eqn:E3; [done|].
        injection Ec as <-. by bools.
      * injection Ec as <-. split; [done|]. bools. by destruct (m_state (machine s)).
    + intros at'. exists reason. unfold applySessionRecovery. by rewrite plan_recovers, Ec.
Qed.
End WithHost.

(** ** Properties *)

(** recovery is total, touches the machine only and is applied once: on a
    well-formed session it never refuses, it leaves a session that is still
    well-formed (so its receipt survives being written and read back), whose
    machine can advance unless the run was finished for good, and applying it a
    second time changes nothing. *)
Theorem recovery_reseats_once {host : Host} s at_ :
  (∀ x, is_hex_digest 64 (sha256_hex x) = true) → isCanonicalIso at_ = true → session_ok s →
  ∃ plan s',
    applySessionRecovery s at_ = Ok (plan, s') ∧ session_ok s'
    ∧ s' = s <| machine := machine s' |>
    ∧ match plan with
      | Keep NonterminalSnapshot =>
          s' = s ∧ isTerminalOnboardMachineState (m_state (machine s)) = false
      | Keep CompletedNonresumableSnapshot =>
          s' = s ∧ m_state (machine s) = StComplete ∧ status s = "complete" ∧ resumable s = false
      | Recover _ entry =>
          isTerminalOnboardMachineState (m_state (machine s)) = true
          ∧ isTerminalOnboardMachineState entry = false
          ∧ m_state (machine s') = entry
          ∧ m_revision (machine s') = js_succ (m_revision (machine s))
          ∧ is_Some (m_recoveryReceipt (machine s'))
      end
    ∧ ∀ at', ∃ reason, applySessionRecovery s' at' = Ok (Keep reason, s').
Proof. apply recovery_spec. Qed.

(** A resume never works from another run's checkpoint, nor does it invent one over a
    checkpoint it cannot read: what it returns is the stored checkpoint of the session of the
    same file, or derived from that session only when the file has none; an unreadable one
    and one of another session are corrupt, and a newer one is refused. *)
Theorem resume_checkpoint_belongs {host : Host} t o s :
  normalizeSession t false (JObj o) = Some s →
  let stored := inspectCheckpoint parseURL (jget o "checkpoint") in
  let used := resolveCheckpointForResume t (JObj o) in
  match stored with
  | UnsupportedFuture v => used = UnsupportedFuture v
  | Corrupt => used = Corrupt
  | Loaded c | Migrated c _ => used = if decide (cp_sessionId c = sessionId s) then stored else Corrupt
  | LoadNone => used = Migrated (deriveCheckpointFromSession s) 0
  end.
Proof.
  intros En. cbv zeta. unfold resolveCheckpointForResume. rewrite En.
  destruct (inspectCheckpoint parseURL (jget o "checkpoint")) as [|c|c v| |]; try done;
    destruct (cp_sessionId c =s sessionId s) eqn:E; bools; by case_decide.
Qed.

(** The checkpoint derived for a session that predates checkpoints is itself
    valid: written to disk it loads back as the same checkpoint. *)
Theorem derived_checkpoint_loads {host : Host} s :
  session_ok s → isCanonicalIso (updatedAt s) = true →
  inspectCheckpoint parseURL (json_disk (serializeCheckpoint (deriveCheckpointFromSession s)))
  = Loaded (deriveCheckpointFromSession s).
Proof. intros Hok Hu. rewrite json_disk_clean by apply clean_checkpoint. by apply derived_loads. Qed.

Lemma recovery_reseats_once_witness :
  ∃ s', applySessionRecovery (host := sample_host)
          (sample_session <| machine := createMachineSnapshot StFailed None 7 |>)
          "2026-01-02T00:00:00.000Z" = Ok (Recover FailedTerminalSnapshot StSandbox, s')
        ∧ session_ok (host := sample_host) s'.
Proof.
  destruct (recovery_reseats_once (host := sample_host)
    (sample_session <| machine := createMachineSnapshot StFailed None 7 |>)
    "2026-01-02T00:00:00.000Z") as (plan & s' & H & Hok & _).
  - intros x. vm_compute. reflexivity.
  - vm_compute. reflexivity.
  - apply (with_machine_ok (host := sample_host)); [exact (h_ok _ _ sample_holds)|].
    apply (machine_created_rt (host := sample_host)).
  - exists s'. split; [|exact Hok]. rewrite H. vm_compute in H. injection H as <- _. reflexivity.
Defined.

Lemma derived_checkpoint_loads_witness :
  inspectCheckpoint (parseURL (Host := sample_host))
    (json_disk (serializeCheckpoint (deriveCheckpointFromSession
       (sample_session <| updatedAt := "2026-01-02T00:00:00.000Z" |>))))
  = Loaded (deriveCheckpointFromSession
       (sample_session <| updatedAt := "2026-01-02T00:00:00.000Z" |>)).
Proof.
  apply (derived_checkpoint_loads (host := sample_host)).
  - apply (session_ok_updatedAt (host := sample_host)). exact (h_ok _ _ sample_holds).
  - vm_compute. reflexivity.
Defined.
