(* ===== verification/Runtime.v ===== *)
(** * The machine runtime

    [OnboardRuntime] (src/lib/onboard/machine/runtime.ts) over the session store:
    the results a phase returns (machine/result.ts), their validation and
    application, the lifecycle events (machine/result-events.ts), and the
    recorders of src/lib/onboard/runtime-boundary.ts built on them. *)

From S2P Require Import Prelude Json Machine Choices Station Checkpoint SessionData SessionParse.
From S2P Require Import Events SessionStore.

(** ** result.ts *)

Definition Metadata : Type := option (list (string * json)).

(** [updates] is the JSON value of the [SessionUpdates], [JUndef] when absent. *)
Inductive OnboardStateResult : Type :=
| RTransition (next : OnboardMachineState) (transitionKind : option OnboardMachineTransitionKind)
    (updates : json) (metadata : Metadata)
| RComplete (updates : json) (metadata : Metadata)
| RPause (updates : json) (metadata : Metadata)
| RFailed (error step : option string) (metadata : Metadata).

Definition transitionTo (next : OnboardMachineState) (kind : option OnboardMachineTransitionKind)
    (updates : json) (metadata : Metadata) : OnboardStateResult :=
  RTransition next kind updates metadata.
Definition advanceTo (next : OnboardMachineState) := transitionTo next (Some Advance).
Definition retryTo (next : OnboardMachineState) := transitionTo next (Some Retry).
Definition branchTo (next : OnboardMachineState) := transitionTo next (Some Branch).
Definition completeOnboardMachine (updates : json) (metadata : Metadata) := RComplete updates metadata.
Definition pauseOnboardMachine (updates : json) (metadata : Metadata) := RPause updates metadata.
Definition failOnboardMachine (error step : option string) (metadata : Metadata) :=
  RFailed error step metadata.

Definition result_metadata (r : OnboardStateResult) : Metadata :=
  match r with
  | RTransition _ _ _ m | RComplete _ m | RPause _ m | RFailed _ _ m => m
  end.

(** [result.metadata && typeof result.metadata.state === "string" ? ... : null]. *)
Definition source_state (m : Metadata) : option string :=
  match m with Some o => readString (jget o "state") | None => None end.

(** [{ ...o, k: v }]. *)
Fixpoint jset (o : list (string * json)) (k : string) (v : json) : list (string * json) :=
  match o with
  | [] => [(k, v)]
  | (k', v') :: rest => if k' =s k then (k, v) :: rest else (k', v') :: jset rest k v
  end.
Definition eventMetadata (m : Metadata) : list (string * json) := default [] m.

(** [{ ...safeUpdates, stationExpressModelIdentity }]: the filtered updates, as JSON. *)
Definition safe_updates_json (u : SafeUpdates) : list (string * json) :=
  opt_choice "sandboxName" JStr (u_sandboxName u) ++ opt_choice "provider" JStr (u_provider u)
  ++ opt_choice "model" JStr (u_model u)
  ++ opt_choice "servingProfileProvenance" id (u_servingProfileProvenance u)
  ++ opt_choice "endpointUrl" JStr (u_endpointUrl u)
  ++ opt_choice "credentialEnv" JStr (u_credentialEnv u)
  ++ opt_choice "hermesAuthMethod" (λ h, JStr (hermes_id h)) (u_hermesAuthMethod u)
  ++ opt_choice "preferredInferenceApi" JStr (u_preferredInferenceApi u)
  ++ opt_choice "compatibleEndpointReasoning" JStr (u_compatibleEndpointReasoning u)
  ++ opt_choice "compatibleEndpointReasoningEffort" (λ e, JStr (effort_id e))
       (u_compatibleEndpointReasoningEffort u)
  ++ opt_choice "nimContainer" JStr (u_nimContainer u)
  ++ opt_choice "routerPid" (λ z, JNum (NInt z)) (u_routerPid u)
  ++ opt_choice "routerCredentialHash" JStr (u_routerCredentialHash u)
  ++ opt_choice "webSearchConfig" webSearchConfig_json (u_webSearchConfig u)
  ++ opt_choice "toolDisclosure" (λ d, JStr (disclosure_id d)) (Some <$> u_toolDisclosure u)
  ++ opt_choice "observabilityEnabled" JBool (Some <$> u_observabilityEnabled u)
  ++ opt_choice "hermesToolGateways" jstrs (u_hermesToolGateways u)
  ++ opt_choice "policyPresets" jstrs (u_policyPresets u)
  ++ opt_choice "messagingPlan" id (u_messagingPlan u)
  ++ opt_choice "migratedLegacyValueHashes" hashes_json (u_migratedLegacyValueHashes u)
  ++ opt_choice "gpuPassthrough" JBool (Some <$> u_gpuPassthrough u)
  ++ opt_choice "telegramConfig" telegram_json (u_telegramConfig u)
  ++ opt_choice "wechatConfig" wechat_json (u_wechatConfig u)
  ++ opt_choice "metadata" metadata_json (Some <$> u_metadata u).

Record ResumeConfigConflict := mkConflict {
  conflict_field : string;
  conflict_recorded : option string;
  conflict_requested : option string;
}.

Definition safeResumeConflictValue (c : ResumeConfigConflict) (value : option string)
    : option string :=
  match value with
  | Some v => if (conflict_field c =s "fromDockerfile") && truthy v then Some "<path>" else value
  | None => None
  end.

(** [snapshotFor(state, at, session.machine.revision + 1)]. *)
Definition snapshotFor (state : OnboardMachineState) (at_ : string) (s : Session)
    : OnboardMachineSnapshot :=
  createMachineSnapshot state (Some at_) (js_succ (m_revision (machine s))).

Inductive ResultInvalidationReason : Type := ReachedTarget | SourceStateMismatch.
Definition invalidation_id (r : ResultInvalidationReason) : string :=
  match r with ReachedTarget => "already_at_target" | SourceStateMismatch => "source_state_mismatch" end.

Section WithHost.
Context {host : Host} {receipts : ReceiptStore}.

Definition machine_result {A} (r : result machine_error A) : M A :=
  st_lift (match r with Ok a => Ok a | Throw e => Throw (MachineError e) end).
Definition refuse {A} (e : result_error) : M A := st_throw (ResultRefused e).

Definition failure_marker (s : Session) : option OnboardInterruptionMarker :=
  (λ f, {| marker_step := f_step f; marker_interrupted := f_interrupted f |}) <$> failure s.

Definition ensureSession : M Session :=
  loaded ← loadSession;
  match loaded with Some s => mret s | None => created ← create_session; saveSession created end.

(** [this.emit(type, session, options)]. *)
Definition emit_for (type : OnboardMachineEventType) (s : Session)
    (state : option OnboardMachineState) (step error : option string) (metadata : Metadata) : M unit :=
  emit_event type s step (Some (default (m_state (machine s)) state)) error metadata.

Definition start (resumed : bool) (metadata : Metadata) : M Session :=
  s ← ensureSession;
  emit_for (if resumed then EvResumed else EvStarted) s (Some (m_state (machine s))) None None metadata;;
  mret s.

Definition emitPendingSessionRecovery : M Session :=
  s ← ensureSession;
  match m_recoveryReceipt (machine s) with
  | None => mret s
  | Some r =>
      emit_for EvRepairCompleted s (Some (rr_entry r)) None None
        (Some [("reason", JStr (reason_id (rr_reason r))); ("entry", JStr (state_id (rr_entry r)));
               ("receiptId", JStr (rr_id r)); ("appliedAt", JStr (rr_appliedAt r));
               ("revision", JNum (NInt (rr_revision r)))]);;
      mret s
  end.

Definition runtime_markStepComplete (stepName : string) (updates : json) : M Session :=
  let safe := filterSafeUpdates updates in
  updated ← markStepComplete stepName
              (JObj (safe_updates_json safe
                     ++ [("stationExpressModelIdentity", opt_get updates "stationExpressModelIdentity")]));
  (if negb (bool_decide (updates_keys safe = []))
   then emit_for EvContextUpdated updated None (Some stepName) None
          (Some (fields_metadata (updates_keys safe)))
   else mret tt);;
  mret updated.

Definition runtime_markStepSkipped (stepName : string) : M Session :=
  current ← ensureSession;
  let state := machineStateFromOnboardSessionStep (Some stepName) in
  let previous := match state with Some _ => steps current !! stepName | None => None end in
  updated ← markStepSkipped stepName;
  (if bool_decide (is_Some state) && (step_has previous SPending || step_has previous SInProgress)
      && step_has (steps updated !! stepName) SSkipped
   then emit_for EvSkipped updated state (Some stepName) None None else mret tt);;
  mret updated.

(** The mutator of [transition]. *)
Definition transitioned (to : OnboardMachineState) (enteredAt : string) (s : Session) : Session :=
  let s := s <| machine := snapshotFor to enteredAt s |> in
  if bool_decide (to = StFailed) then s <| status := "failed" |>
  else if bool_decide (to = StComplete)
  then s <| status := "complete" |> <| resumable := false |> <| failure := None |>
  else if negb (status s =s "failed") then s <| status := "in_progress" |> else s.

Definition transition (to : OnboardMachineState) (metadata : Metadata) : M Session :=
  current ← ensureSession;
  let from := m_state (machine current) in
  machine_result (assertValidOnboardMachineTransition from to);;
  enteredAt ← read_clock;
  updated ← updateSession (λ s, mret (transitioned to enteredAt s));
  emit_for EvExited updated (Some from) None None metadata;;
  emit_for EvEntered updated (Some to) None None metadata;;
  mret updated.

Definition updateContext (updates : json) (state : option OnboardMachineState) (metadata : Metadata)
    : M Session :=
  let safe := filterSafeUpdates updates in
  updated ← updateSession (λ s, mret (assign_updates safe s));
  (if negb (bool_decide (updates_keys safe = []))
   then emit_for EvContextUpdated updated (Some (default (m_state (machine updated)) state)) None None
          (Some (jset (eventMetadata metadata) "fields" (jstrs (updates_keys safe))))
   else mret tt);;
  mret updated.

(** The fallback mutator of [complete]. *)
Definition force_completed (safe : SafeUpdates) (enteredAt : string) (s : Session) : Session :=
  let s := (assign_updates safe s) <| status := "complete" |> <| resumable := false |>
             <| failure := None |> in
  s <| machine := snapshotFor StComplete enteredAt s |>.

Definition complete (updates : json) (metadata : Metadata) : M Session :=
  current ← ensureSession;
  let from := m_state (machine current) in
  machine_result (assertOnboardNotInterrupted from StComplete (failure_marker current));;
  machine_result (assertValidOnboardMachineTransition from StComplete);;
  let safe := filterSafeUpdates updates in
  updated ← completeSession updates false;
  updated ← (if bool_decide (m_state (machine updated) = StComplete) then mret updated
             else enteredAt ← read_clock;
                  updateSession (λ s, mret (force_completed safe enteredAt s)));
  (if negb (bool_decide (updates_keys safe = []))
   then emit_for EvContextUpdated updated (Some StComplete) None None
          (Some (jset (eventMetadata metadata) "fields" (jstrs (updates_keys safe))))
   else mret tt);;
  emit_for EvStateCompleted updated (Some from) None None metadata;;
  emit_for EvEntered updated (Some StComplete) None None metadata;;
  emit_for EvCompleted updated (Some StComplete) None None metadata;;
  mret updated.

(** The mutator of [fail]; [t] is the clock reading [sanitizeFailure] would take. *)
Definition failed_by (message step : option string) (recordedAt : string) (t : nat) (s : Session)
    : Session :=
  s <| status := "failed" |>
    <| failure := sanitizeFailure t (JObj [("step", jopt step); ("message", jopt message);
                                           ("recordedAt", JStr recordedAt)]) |>
    <| machine := snapshotFor StFailed recordedAt s |>.

Definition fail (message step : option string) (metadata : Metadata) : M Session :=
  current ← ensureSession;
  let from := m_state (machine current) in
  (if canTransitionOnboardMachineState from StFailed then mret tt
   else machine_result (assertValidOnboardMachineTransition from StFailed);; mret tt);;
  recordedAt ← read_clock;
  updated ← updateSession (λ s, w ← st_get; mret (failed_by message step recordedAt (w_tick w) s));
  emit_for EvStateFailed updated (Some from) step message metadata;;
  emit_for EvFailed updated (Some StFailed) step message metadata;;
  mret updated.

(** [sourceState && current.machine.state !== sourceState]: a thrown mismatch. *)
Definition assert_source (m : Metadata) (state : OnboardMachineState) : M unit :=
  match source_state m with
  | Some src => if truthy src && negb (state_id state =s src)
                then refuse (SourceMismatch src state) else mret tt
  | None => mret tt
  end.

(** [result.transitionKind && transition.kind !== result.transitionKind]. *)
Definition assert_kind (expected : option OnboardMachineTransitionKind) (t : OnboardMachineTransition)
    : M unit :=
  match expected with
  | Some k => if bool_decide (kind t = k) then mret tt else refuse (KindMismatch k (kind t))
  | None => mret tt
  end.

Definition assertResultWillApply (r : OnboardStateResult) : M unit :=
  current ← ensureSession;
  let state := m_state (machine current) in
  match r with
  | RFailed _ _ _ => machine_result (assertValidOnboardMachineTransition state StFailed);; mret tt
  | RComplete _ _ =>
      machine_result (assertOnboardNotInterrupted state StComplete (failure_marker current));;
      machine_result (assertValidOnboardMachineTransition state StComplete);; mret tt
  | RPause _ m => assert_source m state
  | RTransition next expected _ m =>
      machine_result (assertOnboardNotInterrupted state next (failure_marker current));;
      (if isTerminalOnboardMachineState state
       then machine_result (assertValidOnboardMachineTransition state next);; mret tt else mret tt);;
      (if bool_decide (state = next) then refuse (AlreadyAtTarget next) else mret tt);;
      assert_source m state;;
      t ← machine_result (assertValidOnboardMachineTransition state next);
      assert_kind expected t
  end.

(** [result.updates && Object.keys(filterSafeUpdates(result.updates)).length > 0]. *)
Definition has_updates (updates : json) : bool :=
  negb (is_undefined updates || is_null updates)
  && negb (bool_decide (updates_keys (filterSafeUpdates updates) = [])).

Definition applyResult (r : OnboardStateResult) : M Session :=
  assertResultWillApply r;;
  match r with
  | RPause updates m =>
      current ← ensureSession;
      if isTerminalOnboardMachineState (m_state (machine current))
      then refuse (PauseTerminal (m_state (machine current)))
      else if has_updates updates then updateContext updates (Some (m_state (machine current))) m
      else mret current
  | RComplete updates m => complete (if is_undefined updates || is_null updates then JObj [] else updates) m
  | RFailed error step m => fail error step m
  | RTransition next expected updates m =>
      current ← ensureSession;
      let state := m_state (machine current) in
      machine_result (assertOnboardNotInterrupted state next (failure_marker current));;
      t ← machine_result (assertValidOnboardMachineTransition state next);
      assert_kind expected t;;
      (if has_updates updates then updateContext updates (Some state) m;; mret tt else mret tt);;
      transition next m
  end.

Definition markSkipped (state : OnboardMachineState) (metadata : Metadata) : M Session :=
  s ← ensureSession;
  if isTerminalOnboardMachineState state then refuse (SkipTerminal state)
  else emit_for EvSkipped s (Some state) None None metadata;; mret s.

(** [emitResultSkipped] and [emitResultInvalidated], with the builders of result-events.ts. *)
Definition result_event_metadata (reason : ResultInvalidationReason)
    (currentState targetState : OnboardMachineState) (metadata : Metadata) : list (string * json) :=
  jset (jset (jset (eventMetadata metadata) "reason" (JStr (invalidation_id reason)))
          "currentState" (JStr (state_id currentState))) "targetState" (JStr (state_id targetState)).

Definition emitResultSkipped (reason : ResultInvalidationReason)
    (currentState targetState : OnboardMachineState) (metadata : Metadata) : M Session :=
  s ← ensureSession;
  emit_event EvResultSkipped s None (Some (m_state (machine s))) None
    (Some (result_event_metadata reason currentState targetState metadata));;
  mret s.

Definition emitResultInvalidated (reason : ResultInvalidationReason)
    (currentState targetState : OnboardMachineState) (sourceState : option string)
    (metadata : Metadata) : M Session :=
  s ← ensureSession;
  emit_event EvResultInvalidated s None (Some (m_state (machine s))) None
    (Some (jset (result_event_metadata reason currentState targetState metadata) "sourceState"
             (from_option JStr JUndef sourceState)));;
  mret s.

Definition emitResumeConflict (c : ResumeConfigConflict) : M Session :=
  s ← ensureSession;
  emit_for EvResumeConflict s (Some (m_state (machine s))) None None
    (Some [("field", JStr (conflict_field c));
           ("recorded", jopt (safeResumeConflictValue c (conflict_recorded c)));
           ("requested", jopt (safeResumeConflictValue c (conflict_requested c)))]);;
  mret s.

Definition emitRepairEvent (type : OnboardMachineEventType) (state : option OnboardMachineState)
    (error : option string) (metadata : Metadata) : M Session :=
  s ← ensureSession;
  emit_for type s (Some (default (m_state (machine s)) state)) None error metadata;;
  mret s.

(** ** runtime-boundary.ts *)

Definition recordOnboardStarted (resumed : bool) : M Session :=
  s ← start resumed None;
  emitPendingSessionRecovery;;
  mret s.

(** The failure injected by tests is not modelled. *)
Definition startRecordedStep (toSessionUpdates : list (string * json) → json) (stepName : string)
    (updates : list (string * json)) : M unit :=
  markStepStarted stepName;;
  (if bool_decide (updates = []) then mret tt
   else updateContext (toSessionUpdates updates) None None;; mret tt).

Definition recordStepCompleteWithStateResult (stepName : string) (updates : json)
    (r : OnboardStateResult) : M Session :=
  assertResultWillApply r;;
  runtime_markStepComplete stepName updates;;
  applyResult r.

Definition recordStepFailedWithStateResult (stepName : string) (message : option string)
    (error step : option string) (m : Metadata) : M Session :=
  assertResultWillApply (RFailed error step m);;
  markStepFailed stepName message;;
  applyResult (RFailed error step m).

(** [Object.values(result.updates).some((value) => value !== undefined)]. *)
Definition has_context_updates (r : OnboardStateResult) : bool :=
  match r with
  | RTransition _ _ (JObj u) _ => existsb (λ kv, negb (is_undefined kv.2)) u
  | _ => false
  end.

Definition recordInvalidatedStateResult (r : OnboardStateResult) (reason : ResultInvalidationReason)
    (currentState : OnboardMachineState) (sourceState : option string) : M Session :=
  match r with
  | RTransition next _ _ m =>
      if has_context_updates r then refuse InvalidatesUpdates
      else emitResultInvalidated reason currentState next sourceState m
  | _ => refuse InvalidatesNonTransition
  end.

Definition recordSessionComplete (updates : json) : M Session :=
  current ← ensureSession;
  if bool_decide (m_state (machine current) = StFinalizing)
  then transition StPostVerify None;; complete updates None
  else complete updates None.

(** ** Lemmas *)

Lemma ensure_holds w s :
  url_origin_law parseURL → holds w s →
  runs ensureSession w (Ok s) (w <| w_tick := S (S (w_tick w)) |>).
Proof.
  intros Hurl Hh. unfold runs, ensureSession, mbind, ST_bind. by rewrite (holds_loads _ _ Hurl Hh).
Qed.

(** Whether [assertResultWillApply] lets a result through, as a predicate. *)
Definition interrupted (s : Session) : bool :=
  bool_decide (m_state (machine s) = StFailed)
  && match failure s with Some f => f_interrupted f | None => false end.
Definition source_agrees (m : Metadata) (state : OnboardMachineState) : bool :=
  match source_state m with
  | Some src => negb (truthy src && negb (state_id state =s src)) | None => true end.
Definition kind_agrees (expected : option OnboardMachineTransitionKind)
    (t : OnboardMachineTransition) : bool :=
  match expected with Some k => bool_decide (kind t = k) | None => true end.
Definition edge (s t : OnboardMachineState) : bool :=
  bool_decide (is_Some (getOnboardMachineTransition s t)).

Definition result_accepted (s : Session) (r : OnboardStateResult) : bool :=
  let state := m_state (machine s) in
  match r with
  | RFailed _ _ _ => edge state StFailed
  | RComplete _ _ => negb (interrupted s) && edge state StComplete
  | RPause _ m => source_agrees m state
  | RTransition next expected _ m =>
      negb (interrupted s) && negb (bool_decide (state = next)) && source_agrees m state
      && match getOnboardMachineTransition state next with
         | Some t => kind_agrees expected t | None => false end
  end.

(** The outcome of a check: passes, or throws; only the clock moves. *)
Definition checks {A} (m : M A) (w : World) (accepted : bool) : Prop :=
  same_but_clock w (m w).2 ∧ is_ok (m w).1 = accepted.

Lemma checks_bind {A B} (m : M A) (f : A → M B) w b b' :
  checks m w b → (∀ a w', m w = (Ok a, w') → checks (f a) w' b') → checks (m ≫= f) w (b && b').
Proof.
  intros [Q1 H1] H2. unfold checks, mbind, ST_bind in *. destruct (m w) as [[a|e] w'] eqn:E; cbn in *.
  - destruct (H2 a w' eq_refl) as [Q2 H3]. subst b. split; [by eapply same_but_clock_trans|done].
  - by subst b.
Qed.

Lemma checks_ret {A} (a : A) w : checks (mret a) w true.
Proof. done. Qed.

Lemma checks_seq {A B} (m : M A) (n : M B) w b b' :
  checks m w b → (∀ w', same_but_clock w w' → checks n w' b') → checks (m;; n) w (b && b').
Proof.
  intros H1 H2. apply checks_bind; [done|]. intros a w' E. apply H2.
  destruct H1 as [Q _]. by rewrite E in Q.
Qed.

Lemma checks_interrupted s next w :
  checks (machine_result (assertOnboardNotInterrupted (m_state (machine s)) next (failure_marker s))) w
    (negb (interrupted s)).
Proof.
  unfold checks, machine_result, st_lift, assertOnboardNotInterrupted, failure_marker, interrupted.
  destruct (bool_decide (m_state (machine s) = StFailed)); cbn; [|done].
  destruct (failure s) as [f|]; cbn; [|done]. by destruct (f_interrupted f).
Qed.

Lemma checks_edge s t w :
  checks (machine_result (assertValidOnboardMachineTransition s t)) w (edge s t).
Proof.
  unfold checks, machine_result, st_lift, assertValidOnboardMachineTransition, edge.
  by destruct (getOnboardMachineTransition s t).
Qed.

Lemma checks_source m s w : checks (assert_source m s) w (source_agrees m s).
Proof.
  unfold checks, assert_source, source_agrees, refuse, st_throw.
  destruct (source_state m) as [src|]; [|done]. by destruct (truthy src && _).
Qed.

Lemma checks_kind k t w : checks (assert_kind k t) w (kind_agrees k t).
Proof.
  unfold checks, assert_kind, kind_agrees, refuse, st_throw. destruct k; [|done].
  by destruct (bool_decide _).
Qed.

Lemma assert_exact r w s :
  url_origin_law parseURL → holds w s → checks (assertResultWillApply r) w (result_accepted s r).
Proof.
  intros Hurl Hh. unfold assertResultWillApply.
  apply (checks_bind _ _ w true (result_accepted s r)).
  { unfold checks. by rewrite (ensure_holds _ _ Hurl Hh). }
  intros a w' E. rewrite (ensure_holds _ _ Hurl Hh) in E. injection E as <- <-. cbn zeta.
  set (w1 := w <| w_tick := S (S (w_tick w)) |>).
  destruct r as [next expected u m|u m|u m|e st m]; cbn [result_accepted].
  - rewrite <- !andb_assoc. apply checks_seq; [apply checks_interrupted|]. intros w2 _.
    assert (H : checks (if isTerminalOnboardMachineState (m_state (machine s))
      then machine_result (assertValidOnboardMachineTransition (m_state (machine s)) next);; mret tt
      else mret tt) w2
      (negb (isTerminalOnboardMachineState (m_state (machine s))) || edge (m_state (machine s)) next)).
    { destruct (isTerminalOnboardMachineState _); [|done]. cbn [negb orb].
      rewrite <- (andb_true_r (edge _ _)). apply checks_seq; [apply checks_edge|done]. }
    destruct (isTerminalOnboardMachineState (m_state (machine s))) eqn:Et.
    + (* a terminal state has no edges *)
      assert (Hg : getOnboardMachineTransition (m_state (machine s)) next = None)
        by (destruct (m_state (machine s)), next; done).
      unfold edge in H. rewrite Hg in H |- *. cbn [negb orb bool_decide] in H.
      rewrite !andb_false_r. apply (checks_bind _ _ w2 false false H). intros [] w3 E.
      destruct H as [_ H]. by rewrite E in H.
    + apply (checks_bind _ _ w2 true _ H). intros [] w3 _.
      apply checks_seq; [by destruct (bool_decide (m_state (machine s) = next))|]. intros w4 _.
      apply checks_seq; [apply checks_source|]. intros w5 _.
      destruct (getOnboardMachineTransition (m_state (machine s)) next) as [t|] eqn:Eg.
      * apply (checks_bind _ _ w5 true (kind_agrees expected t)).
        { pose proof (checks_edge (m_state (machine s)) next w5) as Hc. unfold edge in Hc. by rewrite Eg in Hc. }
        intros t' w6. unfold machine_result, st_lift, assertValidOnboardMachineTransition.
        rewrite Eg. intros [= <- _]. apply checks_kind.
      * apply (checks_bind _ _ w5 false false).
        { pose proof (checks_edge (m_state (machine s)) next w5) as Hc. unfold edge in Hc. by rewrite Eg in Hc. }
        intros t' w6. unfold machine_result, st_lift, assertValidOnboardMachineTransition. by rewrite Eg.
  - apply checks_seq; [apply checks_interrupted|]. intros w2 _.
    rewrite <- (andb_true_r (edge _ _)). apply checks_seq; [apply checks_edge|done].
  - apply checks_source.
  - rewrite <- (andb_true_r (edge _ _)). apply checks_seq; [apply checks_edge|done].
Qed.

(** ** Accepted results *)

Lemma transitioned_ok to_ at_ s :
  session_ok s → stationExpressReceiptRetirement s = None →
  isTerminalOnboardMachineState to_ = false → session_ok (transitioned to_ at_ s).
Proof.
  intros Hok Hr Ht. pose proof (ok_intent_gate s Hok) as Hg.
  assert (Hm : session_ok (s <| machine := snapshotFor to_ at_ s |>)).
  { apply with_machine_ok; [done|]. apply machine_created_rt. }
  unfold transitioned. rewrite !bool_decide_eq_false_2 by (by intros ->).
  destruct (negb _); [|done]. apply with_status_ok; [done|done|by left].
Qed.

Lemma transitioned_stable to_ at_ s :
  isTerminalOnboardMachineState to_ = false →
  (mem_stable s → mem_stable (transitioned to_ at_ s))
  ∧ (persist_stable s → persist_stable (transitioned to_ at_ s)).
Proof.
  intros Ht. unfold transitioned. rewrite !bool_decide_eq_false_2 by (by intros ->).
  destruct (negb _); split; intros H;
    repeat first [apply with_status_stable | apply with_machine_stable]; done.
Qed.

Lemma transitioned_fields to_ at_ s :
  isTerminalOnboardMachineState to_ = false →
  machine (transitioned to_ at_ s) = snapshotFor to_ at_ s
  ∧ transitioned to_ at_ s
    = s <| machine := snapshotFor to_ at_ s |> <| status := status (transitioned to_ at_ s) |>.
Proof.
  intros Ht. unfold transitioned. rewrite !bool_decide_eq_false_2 by (by intros ->).
  destruct (negb _); split; reflexivity.
Qed.

Lemma emit_for_runs type s state step error metadata w :
  ∃ e, ev_type e = type
  ∧ runs (emit_for type s state step error metadata) w (Ok tt)
      (w <| w_tick := S (w_tick w) |> <| w_events := w_events w ++ [e] |>).
Proof. eexists. split; [|apply emit_event_runs]. done. Qed.

(** What [transition] leaves, on a session that is not finished for good. *)
Lemma transition_runs next md w s :
  url_origin_law parseURL → holds w s → stationExpressReceiptRetirement s = None →
  isTerminalOnboardMachineState next = false →
  edge (m_state (machine s)) next = true →
  ∃ saved w', runs (transition next md) w (Ok saved) w' ∧ holds w' saved
  ∧ (∃ at_, machine saved = snapshotFor next at_ s)
  ∧ saved = s <| machine := machine saved |> <| status := status saved |>
              <| updatedAt := updatedAt saved |>
  ∧ map ev_type (w_events w') = map ev_type (w_events w) ++ [EvExited; EvEntered]
  ∧ w_receipts w' = w_receipts w.
Proof.
  intros Hurl Hh Hr Ht He. pose proof Hh as [_ Hok Hm Hp Hf].
  set (w1 := w <| w_tick := S (S (w_tick w)) |>). set (w2 := w1 <| w_tick := S (w_tick w1) |>).
  set (at_ := now (w_tick w1)). set (w3 := w2 <| w_tick := S (S (w_tick w2)) |>).
  assert (Hh2 : holds w2 s) by by eapply holds_disk.
  pose proof (transitioned_ok next at_ s Hok Hr Ht) as Hok'.
  destruct (transitioned_stable next at_ s Ht) as [Hm' Hp'].
  destruct (transitioned_fields next at_ s Ht) as [Hmach Heq].
  pose proof (updateSession_exact (λ s, mret (transitioned next at_ s)) w2 w3 s _ Hurl Hh2
    eq_refl Hok' (Hm' Hm)) as Hu.
  set (saved := saved_at w3 (transitioned next at_ s)) in *.
  destruct (emit_for_runs EvExited saved (Some (m_state (machine s))) None None md (after_save w3 saved))
    as (e1 & T1 & R1).
  match type of R1 with runs _ _ _ ?x => set (w4 := x) in * end.
  destruct (emit_for_runs EvEntered saved (Some next) None None md w4) as (e2 & T2 & R2).
  match type of R2 with runs _ _ _ ?x => set (w5 := x) in * end.
  exists saved, w5. split.
  { unfold runs, transition, mbind, ST_bind. rewrite (ensure_holds _ _ Hurl Hh).
    unfold machine_result, st_lift, assertValidOnboardMachineTransition.
    unfold edge in He. apply bool_decide_eq_true in He as [e ->]. cbn [of_option].
    unfold read_clock. fold w1. fold at_. fold w2.
    unfold runs in Hu, R1, R2. rewrite Hu. rewrite R1. rewrite R2. done. }
  split. { eapply holds_disk; [apply (after_save_holds w3 (transitioned next at_ s)); auto|done].
           rewrite Heq. exact Hf. }
  split; [exists at_; exact Hmach|].
  split. { assert (Hs : machine saved = snapshotFor next at_ s) by exact Hmach. rewrite Hs.
           unfold saved, saved_at. rewrite Heq at 1. reflexivity. }
  split; [|done]. unfold w5, w4. cbn [w_events upd]. rewrite !map_app. cbn [map].
  rewrite T1, T2, <- app_assoc. done.
Qed.

(** The result of applying a transition that carries no updates. *)
Lemma applyResult_accepted next expected md w s :
  url_origin_law parseURL → holds w s → stationExpressReceiptRetirement s = None →
  isTerminalOnboardMachineState next = false →
  result_accepted s (RTransition next expected JUndef md) = true →
  ∃ w0, w_events w0 = w_events w ∧ w_receipts w0 = w_receipts w ∧ holds w0 s
  ∧ applyResult (RTransition next expected JUndef md) w = transition next md w0
  ∧ edge (m_state (machine s)) next = true.
Proof.
  intros Hurl Hh Hr Ht Ha. pose proof (assert_exact (RTransition next expected JUndef md) w s Hurl Hh)
    as [Q H]. unfold applyResult. unfold mbind at 1, ST_bind at 1.
  destruct (assertResultWillApply _ w) as [[[]|e] w1] eqn:E; cbn [is_ok fst snd] in *; [|congruence].
  assert (Hh1 : holds w1 s) by (eapply holds_disk; [exact Hh|apply Q]).
  unfold mbind at 1, ST_bind at 1. rewrite (ensure_holds _ _ Hurl Hh1).
  cbn [result_accepted] in Ha. apply andb_true_iff in Ha as [[[Hi Hne]%andb_true_iff Hsrc]%andb_true_iff Hk].
  destruct (getOnboardMachineTransition (m_state (machine s)) next) as [t|] eqn:Eg; [|done].
  set (w2 := w1 <| w_tick := S (S (w_tick w1)) |>).
  exists w2. destruct Q as (Qd & Qe & Qr). split; [done|]. split; [done|].
  split; [by eapply holds_disk|].
  assert (He : edge (m_state (machine s)) next = true) by (unfold edge; rewrite Eg; by apply bool_decide_eq_true).
  split; [|done].
  pose proof (checks_interrupted s next w2) as [_ Hc]. rewrite Hi in Hc.
  unfold mbind at 1, ST_bind at 1.
  unfold machine_result in Hc |- *. unfold st_lift in Hc |- *. cbn [fst is_ok] in Hc.
  destruct (assertOnboardNotInterrupted _ _ _) as [[]|]; [|done].
  unfold mbind at 1, ST_bind at 1. unfold assertValidOnboardMachineTransition. rewrite Eg. cbn [of_option].
  unfold mbind at 1, ST_bind at 1. unfold assert_kind, kind_agrees in *.
  destruct expected as [k|]; [rewrite Hk|]; cbn [mret ST_ret]; done.
Qed.

Lemma failed_by_ok message step at_ t s :
  session_ok s → stationExpressReceiptRetirement s = None →
  session_ok (failed_by message step at_ t s).
Proof.
  intros Hok Hr. unfold failed_by. apply with_machine_ok.
  - apply with_failure_ok; [|apply sanitizeFailure_ok]. by apply with_status_ok; [..|right].
  - apply machine_created_rt.
Qed.

Lemma failed_by_stable message step at_ t s :
  redacted message →
  (mem_stable s → mem_stable (failed_by message step at_ t s))
  ∧ (persist_stable s → persist_stable (failed_by message step at_ t s)).
Proof.
  intros Hr.
  assert (Hf : from_option (λ f, redactSensitiveText (jopt (f_message f)) = f_message f) True
    (sanitizeFailure t (JObj [("step", jopt step); ("message", jopt message);
                              ("recordedAt", JStr at_)]))).
  { unfold sanitizeFailure. jget_simpl. by destruct (_ || _). }
  unfold failed_by. split; intros H;
    apply with_machine_stable, with_failure_stable, with_status_stable; done.
Qed.

Lemma fail_runs message step md w s :
  url_origin_law parseURL → holds w s → stationExpressReceiptRetirement s = None →
  isTerminalOnboardMachineState (m_state (machine s)) = false → redacted message →
  ∃ saved w', runs (fail message step md) w (Ok saved) w' ∧ holds w' saved
  ∧ (∃ at_, machine saved = snapshotFor StFailed at_ s) ∧ status saved = "failed"
  ∧ map ev_type (w_events w') = map ev_type (w_events w) ++ [EvStateFailed; EvFailed]
  ∧ stationExpressReceiptRetirement saved = None.
Proof.
  intros Hurl Hh Hr Ht Hred. pose proof Hh as [_ Hok Hm Hp Hf].
  set (w1 := w <| w_tick := S (S (w_tick w)) |>). set (w2 := w1 <| w_tick := S (w_tick w1) |>).
  set (at_ := now (w_tick w1)). set (w3 := w2 <| w_tick := S (S (w_tick w2)) |>).
  assert (Hh2 : holds w2 s) by by eapply holds_disk.
  pose proof (failed_by_ok message step at_ (w_tick w3) s Hok Hr) as Hok'.
  destruct (failed_by_stable message step at_ (w_tick w3) s Hred) as [Hm' Hp'].
  pose proof (updateSession_exact
    (λ s, w ← st_get; mret (failed_by message step at_ (w_tick w) s)) w2 w3 s
    (failed_by message step at_ (w_tick w3) s) Hurl Hh2 eq_refl Hok' (Hm' Hm)) as Hu.
  set (saved := saved_at w3 (failed_by message step at_ (w_tick w3) s)) in *.
  destruct (emit_for_runs EvStateFailed saved (Some (m_state (machine s))) step message md
    (after_save w3 saved)) as (e1 & T1 & R1).
  match type of R1 with runs _ _ _ ?x => set (w4 := x) in * end.
  destruct (emit_for_runs EvFailed saved (Some StFailed) step message md w4) as (e2 & T2 & R2).
  match type of R2 with runs _ _ _ ?x => set (w5 := x) in * end.
  assert (Hcan : canTransitionOnboardMachineState (m_state (machine s)) StFailed = true)
    by (destruct (m_state (machine s)); done).
  exists saved, w5. split.
  { unfold runs, fail, mbind, ST_bind. rewrite (ensure_holds _ _ Hurl Hh), Hcan.
    unfold mret at 1, ST_ret at 1. unfold read_clock. fold w1. fold at_. fold w2.
    unfold runs, mbind, ST_bind in Hu. unfold runs in R1, R2. rewrite Hu, R1, R2. done. }
  split. { apply (holds_disk (after_save w3 saved)); [|done].
           apply (after_save_holds w3 (failed_by message step at_ (w_tick w3) s)); auto. }
  split; [by exists at_|]. split; [done|].
  split; [|exact Hr]. unfold w5, w4. cbn [w_events upd]. rewrite !map_app. cbn [map].
  by rewrite T1, T2, <- app_assoc.
Qed.

(** The end of the run: [complete] on a session that owes no receipt. *)
Lemma complete_refused updates md w s :
  url_origin_law parseURL → holds w s →
  negb (interrupted s) && edge (m_state (machine s)) StComplete = false →
  is_ok (complete updates md w).1 = false ∧ same_but_clock w (complete updates md w).2.
Proof.
  intros Hurl Hh Ha. destruct (complete updates md w) as [r w'] eqn:E. revert E. unfold complete.
  set (w1 := w <| w_tick := S (S (w_tick w)) |>).
  unfold mbind at 1, ST_bind at 1. rewrite (ensure_holds _ _ Hurl Hh). fold w1. cbn zeta.
  pose proof (checks_interrupted s StComplete w1) as [Q1 H1].
  unfold mbind at 1, ST_bind at 1.
  destruct (machine_result _ w1) as [[[]|e] w2]; cbn [fst snd is_ok] in *.
  2:{ intros [= <- <-]. split; [done|].
      exact (same_but_clock_trans w w1 w2 (same_but_clock_refl w) Q1). }
  rewrite <- H1 in Ha. cbn [andb] in Ha.
  pose proof (checks_edge (m_state (machine s)) StComplete w2) as [Q2 H2].
  unfold mbind at 1, ST_bind at 1. rewrite Ha in H2.
  destruct (machine_result _ w2) as [[t|e] w3]; cbn [fst snd is_ok] in *; [done|].
  intros [= <- <-]. split; [done|]. exact (same_but_clock_trans w w1 w3 (same_but_clock_refl w)
    (same_but_clock_trans w1 w2 w3 Q1 Q2)).
Qed.

(** The events after a successful [completeSession]. *)
Definition complete_event_types (updates : json) : list OnboardMachineEventType :=
  (if negb (bool_decide (updates_keys (filterSafeUpdates updates) = [])) then [EvContextUpdated] else [])
  ++ [EvStateCompleted; EvEntered; EvCompleted].

Lemma complete_events_run updates from_ md r w :
  ∃ w1,
    ((if negb (bool_decide (updates_keys (filterSafeUpdates updates) = []))
      then emit_for EvContextUpdated r (Some StComplete) None None
             (Some (jset (eventMetadata md) "fields" (jstrs (updates_keys (filterSafeUpdates updates)))))
      else mret tt);;
     emit_for EvStateCompleted r (Some from_) None None md;;
     emit_for EvEntered r (Some StComplete) None None md;;
     emit_for EvCompleted r (Some StComplete) None None md;;
     mret r) w = (Ok r, w1)
    ∧ w_disk w1 = w_disk w
    ∧ map ev_type (w_events w1) = map ev_type (w_events w) ++ complete_event_types updates.
Proof.
  unfold complete_event_types, emit_for. unfold mbind, ST_bind.
  destruct (negb _); eexists; cbn [mret ST_ret]; rewrite ?emit_event_runs;
    (split; [reflexivity|]); (split; [reflexivity|]); cbn [upd w_events];
    rewrite ?map_app, <- ?app_assoc; reflexivity.
Qed.

(** The checks of [complete] passed: what remains is [completeSession]. *)
Lemma complete_accepted updates md w s :
  url_origin_law parseURL → holds w s →
  negb (interrupted s) && edge (m_state (machine s)) StComplete = true →
  ∃ w3, same_but_clock w w3 ∧
  complete updates md w =
  (let safe := filterSafeUpdates updates in
   updated ← completeSession updates false;
   updated ← (if bool_decide (m_state (machine updated) = StComplete) then mret updated
              else enteredAt ← read_clock;
                   updateSession (λ s, mret (force_completed safe enteredAt s)));
   (if negb (bool_decide (updates_keys safe = []))
    then emit_for EvContextUpdated updated (Some StComplete) None None
           (Some (jset (eventMetadata md) "fields" (jstrs (updates_keys safe))))
    else mret tt);;
   emit_for EvStateCompleted updated (Some (m_state (machine s))) None None md;;
   emit_for EvEntered updated (Some StComplete) None None md;;
   emit_for EvCompleted updated (Some StComplete) None None md;;
   mret updated) w3.
Proof.
  intros Hurl Hh Ha. unfold complete.
  set (w1 := w <| w_tick := S (S (w_tick w)) |>).
  unfold mbind at 1, ST_bind at 1. rewrite (ensure_holds _ _ Hurl Hh). fold w1. cbn zeta.
  apply andb_true_iff in Ha as [Hi He].
  pose proof (checks_interrupted s StComplete w1) as [Q1 H1]. rewrite Hi in H1.
  unfold mbind at 1, ST_bind at 1.
  destruct (machine_result _ w1) as [[[]|e] w2]; cbn [fst snd is_ok] in *; [|done].
  pose proof (checks_edge (m_state (machine s)) StComplete w2) as [Q2 H2]. rewrite He in H2.
  unfold mbind at 1, ST_bind at 1.
  destruct (machine_result _ w2) as [[t|e] w3]; cbn [fst snd is_ok] in *; [|done].
  exists w3. split; [|done]. exact (same_but_clock_trans w w1 w3 (same_but_clock_refl w)
    (same_but_clock_trans w1 w2 w3 Q1 Q2)).
Qed.
Lemma complete_outcome updates md w s :
  url_origin_law parseURL → holds w s → updates_fit (filterSafeUpdates updates) s →
  let out := complete updates md w in
  match out.1 with
  | Ok r =>
      edge (m_state (machine s)) StComplete = true
      ∧ holds out.2 r ∧ completed r ∧ stationExpressReceiptRetirement r = None
      ∧ map ev_type (w_events out.2) = map ev_type (w_events w) ++ complete_event_types updates
  | Throw _ =>
      w_events out.2 = w_events w
      ∧ (w_disk out.2 = w_disk w ∨ ∃ s2, holds out.2 s2 ∧ completed s2)
  end.
Proof.
  intros Hurl Hh Hfit out. subst out.
  destruct (negb (interrupted s) && edge (m_state (machine s)) StComplete) eqn:Ha.
  2:{ destruct (complete_refused updates md w s Hurl Hh Ha) as [H1 (Hd & He & _)].
      destruct (complete updates md w) as [[r|e] w']; [done|]. cbn [fst snd] in *. auto. }
  destruct (complete_accepted updates md w s Hurl Hh Ha) as (w3 & (Hd & He & _) & ->).
  assert (Hh3 : holds w3 s) by by eapply holds_disk.
  pose proof (completeSession_outcome updates false w3 s Hurl Hh3 Hfit) as Ho. cbn zeta in Ho.
  apply andb_true_iff in Ha as [_ Hedge]. cbn zeta.
  match goal with |- match (?m w3).1 with _ => _ end => destruct (m w3) as [r w'] eqn:E end.
  revert E. unfold mbind at 1, ST_bind at 1.
  destruct (completeSession updates false w3) as [[c|e] w4]; cbn [fst snd] in *.
  - destruct Ho as (K1 & K2 & K3 & K4). unfold mbind at 1, ST_bind at 1.
    rewrite (co_machine c K2). unfold mret at 1, ST_ret at 1. cbn [bool_decide].
    rewrite bool_decide_eq_true_2 by done.
    destruct (complete_events_run updates (m_state (machine s)) md c w4) as (w5 & H & Hd5 & Hm5).
    rewrite H. intros [= <- <-]. split; [done|]. split; [by eapply holds_disk|].
    split; [done|]. split; [done|]. rewrite Hm5, K4, He. unfold completion_event_types.
    cbn [andb app]. by rewrite app_nil_r.
  - intros [= <- <-]. destruct e;
      first [ destruct Ho as (x & K1 & K2 & K3 & _); split; [congruence|right; by exists x]
            | destruct Ho as [K1 K2]; split; [congruence|left; congruence] ].
Qed.

(** An absent plan is no plan: [parseSandboxMessagingPlan] of a value that is not
    an object returns null. *)
Lemma empty_updates_fit s :
  parseSandboxMessagingPlan None JUndef = None → session_ok s → mem_stable s → persist_stable s →
  updates_fit (filterSafeUpdates (JObj [])) s.
Proof.
  intros Hplan Hok Hm Hp.
  assert (Hs : assign_updates (filterSafeUpdates (JObj [])) s = s).
  { unfold filterSafeUpdates, assignParsed. change (jget [] "messagingPlan") with JUndef. rewrite Hplan. by destruct s. }
  assert (Hn : u_sandboxName (filterSafeUpdates (JObj [])) = None) by done.
  split; rewrite ?Hs, ?Hn; [exact Hm|exact Hp|]. exact (ok_name_flag s Hok).
Qed.
End WithHost.

(** ** Properties *)

(** C21: the state machine the session file goes through is exactly the transition
    table's.  A transition result is applied if and only if its source, its
    kind and its edge agree with the recorded state and no interruption is
    pending: then the file holds the session at the target, one revision on,
    with its steps and checkpoint untouched and one exit and one entry emitted;
    otherwise the call throws and the file and the events are as they were. *)
Theorem applyResult_follows_table {host : Host} {receipts : ReceiptStore} next expected md w s :
  url_origin_law parseURL → holds w s → stationExpressReceiptRetirement s = None →
  isTerminalOnboardMachineState next = false →
  let r := RTransition next expected JUndef md in
  let out := applyResult r w in
  if result_accepted s r
  then ∃ saved, out.1 = Ok saved ∧ holds out.2 saved
       ∧ m_state (machine saved) = next
       ∧ m_revision (machine saved) = js_succ (m_revision (machine s))
       ∧ m_recoveryReceipt (machine saved) = None
       ∧ steps saved = steps s ∧ checkpoint saved = checkpoint s
       ∧ map ev_type (w_events out.2) = map ev_type (w_events w) ++ [EvExited; EvEntered]
  else is_ok out.1 = false ∧ same_but_clock w out.2.
Proof.
  intros Hurl Hh Hr Ht r out. destruct (result_accepted s r) eqn:Ha.
  - destruct (applyResult_accepted next expected md w s Hurl Hh Hr Ht Ha)
      as (w0 & He0 & Hr0 & Hh0 & Eq & Hedge).
    destruct (transition_runs next md w0 s Hurl Hh0 Hr Ht Hedge)
      as (saved & w' & H1 & H2 & [at_ H3] & H4 & H5 & _).
    exists saved. unfold out, r. rewrite Eq, H1. cbn [fst snd]. rewrite H3, <- He0.
    split; [done|]. split; [done|]. split; [done|].
    split; [apply Z.max_r, js_succ_nonneg; by apply machine_revision_ok, Hh|].
    split; [done|]. split; [by rewrite H4|]. split; [by rewrite H4|done].
  - pose proof (assert_exact r w s Hurl Hh) as [Q H]. rewrite Ha in H.
    unfold out, applyResult, mbind, ST_bind.
    destruct (assertResultWillApply r w) as [[[]|e] w1]; [done|]. by split.
Qed.

(** the check a recorder makes before it touches a step is exact for every
    kind of result: it only reads the clock, and it passes precisely when the
    result is acceptable for the recorded session; so when it fails, neither
    recorder of a step with its result has marked the step. *)
Theorem preflight_exact {host : Host} {receipts : ReceiptStore} r w s :
  url_origin_law parseURL → holds w s →
  is_ok (assertResultWillApply r w).1 = result_accepted s r
  ∧ same_but_clock w (assertResultWillApply r w).2
  ∧ (result_accepted s r = false → ∀ stepName updates,
       is_ok (recordStepCompleteWithStateResult stepName updates r w).1 = false
       ∧ same_but_clock w (recordStepCompleteWithStateResult stepName updates r w).2)
  ∧ ∀ stepName message error step md, r = RFailed error step md → result_accepted s r = false →
       is_ok (recordStepFailedWithStateResult stepName message error step md w).1 = false
       ∧ same_but_clock w (recordStepFailedWithStateResult stepName message error step md w).2.
Proof.
  intros Hurl Hh. pose proof (assert_exact r w s Hurl Hh) as [Q H].
  split; [done|]. split; [done|]. split.
  - intros Ha stepName updates. unfold recordStepCompleteWithStateResult, mbind, ST_bind.
    rewrite Ha in H. destruct (assertResultWillApply r w) as [[[]|e] w1]; [done|]. by split.
  - intros stepName message error step md -> Ha.
    unfold recordStepFailedWithStateResult, mbind, ST_bind. rewrite Ha in H.
    destruct (assertResultWillApply _ w) as [[[]|e] w1]; [done|]. by split.
Qed.

(** A run fails once.  From any state that has not ended, the in-band failure
    leaves a failed session and one failure event pair; after it, neither a
    second in-band failure nor the process-exit backstop, for any step and
    message, changes the file or emits another event. *)
Theorem failure_recorded_once {host : Host} {receipts : ReceiptStore} message step md w s :
  url_origin_law parseURL → holds w s → stationExpressReceiptRetirement s = None →
  isTerminalOnboardMachineState (m_state (machine s)) = false → redacted message →
  ∃ saved w1, runs (fail message step md) w (Ok saved) w1 ∧ holds w1 saved
  ∧ m_state (machine saved) = StFailed ∧ status saved = "failed"
  ∧ map ev_type (w_events w1) = map ev_type (w_events w) ++ [EvStateFailed; EvFailed]
  ∧ ∀ n message' flag,
      (is_ok (fail message' n md w1).1 = false ∧ same_but_clock w1 (fail message' n md w1).2)
      ∧ same_but_clock w1 (finalizeIncompleteOnboardStep (default "" n) message' flag w1).2.
Proof.
  intros Hurl Hh Hr Ht Hred.
  destruct (fail_runs message step md w s Hurl Hh Hr Ht Hred) 
    as (saved & w1 & H1 & H2 & [at_ H3] & H4 & H5 & _).
  exists saved, w1. split; [done|]. split; [done|]. split; [by rewrite H3|]. split; [done|].
  split; [done|]. intros n message' flag.
  assert (Hst : m_state (machine saved) = StFailed) by by rewrite H3.
  split.
  - unfold fail, mbind, ST_bind. rewrite (ensure_holds _ _ Hurl H2), Hst. done.
  - rewrite (finalize_ended _ message' flag _ _ _ (holds_loads _ _ Hurl H2)); [done|]. by rewrite Hst.
Qed.

(** A run completes only from the state the table allows, and durably.  If
    [complete] returns, the recorded state had the edge to completion, the file
    holds the completed session it returns with no receipt left to retire, and
    the completion events were emitted once; if it throws, no event was emitted
    and the file holds either the session it held or a completed one. *)
Theorem complete_only_from_the_end {host : Host} {receipts : ReceiptStore} updates md w s :
  url_origin_law parseURL → holds w s → updates_fit (filterSafeUpdates updates) s →
  let out := complete updates md w in
  match out.1 with
  | Ok r =>
      edge (m_state (machine s)) StComplete = true
      ∧ holds out.2 r ∧ completed r ∧ stationExpressReceiptRetirement r = None
      ∧ map ev_type (w_events out.2) = map ev_type (w_events w) ++ complete_event_types updates
  | Throw _ =>
      w_events out.2 = w_events w
      ∧ (w_disk out.2 = w_disk w ∨ ∃ s2, holds out.2 s2 ∧ completed s2)
  end.
Proof. apply complete_outcome. Qed.

(** ** On concrete sessions *)

Lemma applyResult_follows_table_witness :
  ∃ saved, (applyResult (host := sample_host)
              (RTransition StOpenclaw (Some Branch) JUndef None) sample_world).1 = Ok saved
           ∧ m_state (machine saved) = StOpenclaw ∧ steps saved = steps sample_session.
Proof.
  pose proof (applyResult_follows_table (host := sample_host) StOpenclaw (Some Branch) None
    sample_world sample_session one_url_law sample_holds eq_refl eq_refl) as H.
  change (result_accepted sample_session (RTransition StOpenclaw (Some Branch) JUndef None))
    with true in H.
  destruct H as (saved & H1 & _ & H2 & _ & _ & H3 & _).
  exists saved. split; [exact H1|split; [exact H2|exact H3]].
Defined.

Lemma preflight_exact_witness :
  is_ok (recordStepCompleteWithStateResult (host := sample_host) "sandbox" (JObj [])
           (RTransition StPolicies None JUndef None) sample_world).1 = false
  ∧ same_but_clock sample_world
      (recordStepCompleteWithStateResult (host := sample_host) "sandbox" (JObj [])
         (RTransition StPolicies None JUndef None) sample_world).2.
Proof.
  pose proof (preflight_exact (host := sample_host) (RTransition StPolicies None JUndef None)
    sample_world sample_session one_url_law sample_holds) as (_ & _ & H & _).
  exact (H eq_refl "sandbox" (JObj [])).
Defined.

Lemma failure_recorded_once_witness :
  ∃ saved w1, runs (fail (host := sample_host) (Some "image pull failed") (Some "sandbox") None)
                sample_world (Ok saved) w1
              ∧ m_state (machine saved) = StFailed.
Proof.
  destruct (failure_recorded_once (host := sample_host) (Some "image pull failed") (Some "sandbox")
    None sample_world sample_session one_url_law sample_holds eq_refl eq_refl eq_refl)
    as (saved & w1 & H1 & _ & H2 & _). exists saved, w1. split; [exact H1|exact H2].
Defined.

(** The run at its last state. *)
Definition last_session : Session := Eval vm_compute in
  sample_session <| machine := createMachineSnapshot StPostVerify None 9 |>.
Definition last_world : World (receipts := one_receipt) :=
  mkWorld _ (Stored (json_disk (serializeSessionForDisk (host := sample_host) last_session))) 0 []
    (None, true).

Lemma last_holds : holds (host := sample_host) last_world last_session.
Proof.
  pose proof sample_holds as [_ Hok Hm Hp _]. split; [reflexivity| | | |reflexivity].
  - exact (with_machine_ok (host := sample_host) sample_session
      (createMachineSnapshot StPostVerify None 9) Hok
      (machine_created_rt (host := sample_host) StPostVerify None 9 (sessionId sample_session))).
  - exact (proj1 (with_machine_stable (host := sample_host) sample_session _) Hm).
  - exact (proj2 (with_machine_stable (host := sample_host) sample_session _) Hp).
Qed.

Lemma complete_only_from_the_end_witness :
  match (complete (host := sample_host) (JObj [("policyPresets", JNull)]) None last_world).1 with
  | Ok r => completed r ∧ stationExpressReceiptRetirement r = None
  | Throw _ => False
  end.
Proof.
  assert (Hfit : updates_fit (host := sample_host)
    (filterSafeUpdates (host := sample_host) (JObj [("policyPresets", JNull)])) last_session).
  { destruct (h_mem _ _ last_holds), (h_persist _ _ last_holds) as [[] ?].
    split; [by split|split; [by split|done]|done]. }
  pose proof (complete_only_from_the_end (host := sample_host) (JObj [("policyPresets", JNull)]) None
    last_world last_session one_url_law last_holds Hfit) as H. cbn zeta in H.
  assert (Hr : is_ok (complete (host := sample_host) (JObj [("policyPresets", JNull)]) None
                        last_world).1 = true) by (vm_compute; reflexivity).
  destruct (complete (host := sample_host) (JObj [("policyPresets", JNull)]) None last_world).1;
    [|discriminate Hr].
  destruct H as (_ & _ & H1 & H2 & _). split; [exact H1|exact H2].
Defined.
