(* ===== verification/Runner.v ===== *)
(** * The machine runner

    [runOnboardMachine] (src/lib/onboard/machine/runner.ts) against an abstract
    runtime, the sequence adapter of sequence-runner.ts and the prerequisite
    repair of prerequisite-repair.ts.  Handlers, phases and the runtime are
    arbitrary effectful code over a world [W]; an [await] is a sequential step,
    since one run holds the onboarding lock. *)

From S2P Require Import Prelude Json Machine Choices Station Checkpoint SessionData SessionParse.
From S2P Require Import Events SessionStore Runtime.

(** [OnboardMachineRunnerRuntime]: the interface between the runner and the
    runtime.  [S] is the session, of which the runner reads the state. *)
Class RunnerRuntime (W E S : Type) := {
  rt_state : S → OnboardMachineState;
  rt_session : ST W E S;
  rt_applyResult : OnboardStateResult → ST W E S;
}.

Inductive run_error (E : Type) : Type :=
| Inner (e : E)
| MissingHandler (state : OnboardMachineState)
| TransitionLimit (maxTransitions : nat)
| EmptyHandlerResult (state : OnboardMachineState)
| SequenceSource (state : OnboardMachineState) (index : nat) (source : option string)
| SequenceOwnership (source handler : OnboardMachineState) (index : nat)
| OutOfFuel.
Arguments Inner {E} e.
Arguments MissingHandler {E} state.
Arguments TransitionLimit {E} maxTransitions.
Arguments EmptyHandlerResult {E} state.
Arguments SequenceSource {E} state index source.
Arguments SequenceOwnership {E} source handler index.
Arguments OutOfFuel {E}.

Definition DEFAULT_MAX_TRANSITIONS : Z := 100.

(** [None]: absent or not finite; a fraction is truncated by the caller. *)
Definition normalizeMaxTransitions (value : option Z) : nat :=
  Z.to_nat (match value with None => DEFAULT_MAX_TRANSITIONS | Some v => Z.max 1 v end).

(** A partial record by handler state. *)
Definition SequenceOwnershipMap : Type := OnboardMachineState → option (list OnboardMachineState).
Definition DEFAULT_SEQUENCE_OWNERSHIP : SequenceOwnershipMap := λ s,
  match s with StProviderSelection => Some [StInference] | _ => None end.
Definition no_ownership : SequenceOwnershipMap := λ _, None.
(** [{ ...DEFAULT_SEQUENCE_OWNERSHIP, ...custom }]. *)
Definition merged_ownership (custom : SequenceOwnershipMap) : SequenceOwnershipMap := λ s,
  match custom s with Some l => Some l | None => DEFAULT_SEQUENCE_OWNERSHIP s end.

Definition sequenceSourceStatesForHandler (handlerState : OnboardMachineState)
    (ownership : SequenceOwnershipMap) : list OnboardMachineState :=
  handlerState :: default [] (ownership handlerState).

Section Runner.
Context {W E S Ctx : Type} {rt : RunnerRuntime W E S}.

Definition R (A : Type) : Type := ST W (run_error E) A.
Definition lift {A} (m : ST W E A) : R A := λ w,
  match m w with (Ok a, w') => (Ok a, w') | (Throw e, w') => (Throw (Inner e), w') end.

(** [Ok None] when no source state is declared. *)
Definition assertResultSourceState (r : OnboardStateResult) (currentState : OnboardMachineState)
    (resultIndex : nat) (requireSourceState : bool)
    : result (run_error E) (option OnboardMachineState) :=
  match source_state (result_metadata r) with
  | Some src =>
      if negb (truthy src) then
        if requireSourceState then Throw (SequenceSource currentState resultIndex (Some src))
        else Ok None
      else if state_id currentState =s src then Ok (Some currentState)
      else Throw (SequenceSource currentState resultIndex (Some src))
  | None =>
      if requireSourceState then Throw (SequenceSource currentState resultIndex None) else Ok None
  end.

Definition assertSequenceOwnership (sourceState handlerState : OnboardMachineState)
    (allowed : list OnboardMachineState) (resultIndex : nat) : result (run_error E) unit :=
  if state_in allowed sourceState then Ok tt
  else Throw (SequenceOwnership sourceState handlerState resultIndex).

Definition stopped (stopStates : list OnboardMachineState) (s : S) : bool :=
  isTerminalOnboardMachineState (rt_state s) || state_in stopStates (rt_state s).

Definition is_pause (r : OnboardStateResult) : bool :=
  match r with RPause _ _ => true | _ => false end.

Record Options := mkOptions {
  handlers : OnboardMachineState → option (Ctx → ST W E (list OnboardStateResult));
  maxTransitions : option Z;
  sequenceOwnership : SequenceOwnershipMap;
  stopStates : list OnboardMachineState;
  updateContext_ : option (Ctx → OnboardMachineState → OnboardStateResult → S → ST W E Ctx);
}.

(** The loop's variables, and whether a pause ended the run. *)
Record Progress := mkProgress {
  p_context : Ctx; p_session : S; p_transitions : nat; p_paused : bool }.

(** [for (const [resultIndex, result] of results.entries())]. *)
Fixpoint apply_results (o : Options) (limit : nat) (handlerState : OnboardMachineState)
    (requireSourceState : bool) (allowed : list OnboardMachineState) (resultIndex : nat)
    (results : list OnboardStateResult) (p : Progress) : R Progress :=
  match results with
  | [] => mret p
  | r :: rest =>
      if (limit <=? p_transitions p)%nat then st_throw (TransitionLimit limit)
      else
        let resultState := rt_state (p_session p) in
        source ← st_lift (assertResultSourceState r resultState resultIndex requireSourceState);
        st_lift (match source with
                 | Some src =>
                     if requireSourceState
                     then assertSequenceOwnership src handlerState allowed resultIndex else Ok tt
                 | None => Ok tt
                 end);;
        session ← lift (rt_applyResult r);
        context ← match updateContext_ o with
                  | Some f => lift (f (p_context p) resultState r session)
                  | None => mret (p_context p)
                  end;
        let p' := mkProgress context session (Datatypes.S (p_transitions p)) (is_pause r) in
        if is_pause r || stopped (stopStates o) session then mret p'
        else apply_results o limit handlerState requireSourceState allowed
               (Datatypes.S resultIndex) rest p'
  end.

(** One turn of the [while] loop, at a state that is not a stop. *)
Definition run_handler (o : Options) (limit : nat) (p : Progress) : R Progress :=
  if (limit <=? p_transitions p)%nat then st_throw (TransitionLimit limit)
  else
    let state := rt_state (p_session p) in
    match handlers o state with
    | None => st_throw (MissingHandler state)
    | Some handler =>
        results ← lift (handler (p_context p));
        match results with
        | [] => st_throw (EmptyHandlerResult state)
        | _ =>
            let requireSourceState := (1 <? List.length results)%nat in
            let allowed :=
              if requireSourceState
              then sequenceSourceStatesForHandler state (merged_ownership (sequenceOwnership o))
              else [] in
            apply_results o limit state requireSourceState allowed 0 results p
        end
    end.

Fixpoint run_loop (fuel : nat) (o : Options) (limit : nat) (p : Progress) : R Progress :=
  match fuel with
  | 0%nat => st_throw OutOfFuel
  | Datatypes.S fuel =>
      if p_paused p || stopped (stopStates o) (p_session p) then mret p
      else
        p' ← run_handler o limit p;
        run_loop fuel o limit p'
  end.

(** Each turn applies at least one result, so one more turn than the limit is
    enough fuel. *)
Definition runOnboardMachine (o : Options) (context : Ctx) : R (Ctx * S) :=
  let limit := normalizeMaxTransitions (maxTransitions o) in
  session ← lift rt_session;
  p ← run_loop (Datatypes.S (Datatypes.S limit)) o limit (mkProgress context session 0 false);
  mret (p_context p, p_session p).

(** ** Lemmas: one turn *)

(** The checks a result passed before it was applied. *)
Definition declares_source (r : OnboardStateResult) (s : S) : Prop :=
  ∀ src, source_state (result_metadata r) = Some src → truthy src = true → src = state_id (rt_state s).
Definition owned_by (o : Options) (handlerState : OnboardMachineState) (r : OnboardStateResult) (s : S)
    : Prop :=
  source_state (result_metadata r) = Some (state_id (rt_state s))
  ∧ rt_state s ∈ sequenceSourceStatesForHandler handlerState (merged_ownership (sequenceOwnership o)).

Definition applicable (o : Options) (handlerState : OnboardMachineState) (multi : bool)
    (r : OnboardStateResult) (s : S) : Prop :=
  declares_source r s ∧ (multi = true → owned_by o handlerState r s).

Lemma source_checked r state i multi src :
  assertResultSourceState r state i multi = Ok src →
  (∀ x, source_state (result_metadata r) = Some x → truthy x = true → x = state_id state)
  ∧ (multi = true → source_state (result_metadata r) = Some (state_id state) ∧ src = Some state)
  ∧ (∀ st, src = Some st → st = state).
Proof.
  unfold assertResultSourceState. destruct (source_state _) as [x|].
  - destruct (truthy x) eqn:Ex; cbn [negb].
    + destruct (state_id state =s x) eqn:Eq; [|done]. bools. subst x. intros [= <-].
      split_and!; [by intros ? [= <-]|done|by intros ? [= <-]].
    + destruct multi; [done|]. intros [= <-].
      split_and!; [intros ? [= <-] H; by rewrite Ex in H|done|done].
  - destruct multi; [done|]. by intros [= <-].
Qed.

Lemma lift_ok {A} (m : ST W E A) w a w' : lift m w = (Ok a, w') → m w = (Ok a, w').
Proof. unfold lift. destruct (m w) as [[?|?] ?]; [by intros [= <- <-]|done]. Qed.
Lemma lift_fuel {A} (m : ST W E A) w w' : lift m w ≠ (Throw OutOfFuel, w').
Proof. unfold lift. by destruct (m w) as [[?|?] ?]. Qed.

(** The outcomes of a turn: progress within the limit, or a real error. *)
Definition bounded (limit low : nat) (out : result (run_error E) Progress * W) : Prop :=
  match out.1 with
  | Ok p => (low ≤ p_transitions p)%nat ∧ (p_transitions p ≤ limit)%nat
  | Throw e => e ≠ OutOfFuel
  end.

Lemma bounded_lift {A} limit low (m : ST W E A) (f : A → R Progress) w :
  (∀ a w', bounded limit low (f a w')) → bounded limit low ((lift m ≫= f) w).
Proof.
  intros Hf. unfold mbind, ST_bind, lift. destruct (m w) as [[a|e] w']; [apply Hf|done].
Qed.

Lemma apply_results_bounded o limit hs multi allowed results i p w :
  (p_transitions p ≤ limit)%nat →
  bounded limit (p_transitions p + (if results is [] then 0 else 1))
    (apply_results o limit hs multi allowed i results p w).
Proof.
  revert i p w. induction results as [|r rest IH]; intros i p w Hp.
  { unfold bounded. cbn. lia. }
  cbn [apply_results]. destruct (limit <=? p_transitions p)%nat eqn:El; [done|].
  apply Nat.leb_gt in El. unfold mbind at 1, ST_bind at 1. unfold st_lift at 1.
  destruct (assertResultSourceState _ _ _ _) as [src|e] eqn:Es.
  2:{ unfold bounded, assertResultSourceState in *. cbn. repeat case_match; simplify_eq; done. }
  unfold mbind at 1, ST_bind at 1. unfold st_lift at 1.
  match goal with |- context [match ?x with Ok _ => _ | Throw _ => _ end] => destruct x as [[]|e] eqn:Eo end.
  2:{ unfold bounded, assertSequenceOwnership in *. cbn. repeat case_match; simplify_eq; done. }
  apply bounded_lift. intros s' w1.
  assert (H : ∀ c w2, bounded limit (p_transitions p + 1)
    ((let p' := mkProgress c s' (Datatypes.S (p_transitions p)) (is_pause r) in
      if is_pause r || stopped (stopStates o) s' then mret p'
      else apply_results o limit hs multi allowed (Datatypes.S i) rest p') w2)).
  { intros c w2. cbn zeta. destruct (is_pause r || stopped (stopStates o) s').
    - unfold bounded. cbn. lia.
    - specialize (IH (Datatypes.S i) (mkProgress c s' (Datatypes.S (p_transitions p)) (is_pause r)) w2).
      cbn [p_transitions] in IH. specialize (IH ltac:(lia)). unfold bounded in *.
      destruct (apply_results _ _ _ _ _ _ _ _ _) as [[p'|e] w3]; cbn [fst] in *; [|done].
      destruct rest; lia. }
  destruct (updateContext_ o) as [f|]; [apply bounded_lift; exact H|]. apply H.
Qed.

Lemma run_handler_bounded o limit p w :
  (p_transitions p ≤ limit)%nat → bounded limit (p_transitions p + 1) (run_handler o limit p w).
Proof.
  intros Hp. unfold run_handler. destruct (limit <=? p_transitions p)%nat; [done|].
  destruct (handlers o _) as [h|]; [|done]. apply bounded_lift. intros results w'.
  destruct results as [|r rest]; [done|].
  exact (apply_results_bounded o limit _ _ _ (r :: rest) 0 p w' Hp).
Qed.

(** The loop ends, within the limit, paused or at a stop. *)
Lemma run_loop_total o limit fuel p w :
  (p_transitions p ≤ limit)%nat → (limit - p_transitions p + 2 ≤ fuel)%nat →
  match (run_loop fuel o limit p w).1 with
  | Ok p' => (p_transitions p' ≤ limit)%nat
             ∧ p_paused p' || stopped (stopStates o) (p_session p') = true
  | Throw e => e ≠ OutOfFuel
  end.
Proof.
  revert p w. induction fuel as [|fuel IH]; intros p w Hp Hf; [lia|]. cbn [run_loop].
  destruct (p_paused p || stopped (stopStates o) (p_session p)) eqn:Es; [by cbn|].
  unfold mbind, ST_bind. pose proof (run_handler_bounded o limit p w Hp) as Hb.
  unfold bounded in Hb. unfold run_handler in *.
  destruct (limit <=? p_transitions p)%nat eqn:El; [done|]. apply Nat.leb_gt in El.
  match goal with |- context [match ?x with pair _ _ => _ end] => destruct x as [[p'|e] w'] end;
    cbn [fst] in *; [|done].
  apply IH; lia.
Qed.

(** ** Lemmas: invariants *)

Section Invariant.
Variable o : Options.
Variable I : W → S → Prop.
(** What is known of the results still to be applied. *)
Variable P : W → OnboardStateResult → Prop.
Hypothesis handlers_keep : ∀ st h c w s rs w',
  handlers o st = Some h → I w s → h c w = (Ok rs, w') → I w' s ∧ Forall (P w') rs.
Hypothesis context_keeps : ∀ f c st r s w, updateContext_ o = Some f → I w s →
  I (f c st r s w).2 s ∧ ∀ r', P w r' → P (f c st r s w).2 r'.
Hypothesis results_keep : ∀ hs multi r w s s' w',
  applicable o hs multi r s → P w r → I w s → rt_applyResult r w = (Ok s', w') →
  I w' s' ∧ (is_pause r || stopped (stopStates o) s' = false → ∀ r', P w r' → P w' r').

Lemma apply_results_invariant limit hs multi results i p w p' w' :
  let allowed := if multi : bool then sequenceSourceStatesForHandler hs
                                        (merged_ownership (sequenceOwnership o)) else [] in
  Forall (P w) results → I w (p_session p) →
  apply_results o limit hs multi allowed i results p w = (Ok p', w') → I w' (p_session p').
Proof using handlers_keep context_keeps results_keep.
  cbn zeta. revert i p w. induction results as [|r rest IH]; intros i p w HP HI; [by intros [= <- <-]|].
  apply Forall_cons in HP as [HPr HP].
  cbn [apply_results]. destruct (limit <=? p_transitions p)%nat; [done|].
  unfold mbind at 1, ST_bind at 1. unfold st_lift at 1.
  destruct (assertResultSourceState _ _ _ _) as [src|e] eqn:Es; [|done].
  unfold mbind at 1, ST_bind at 1. unfold st_lift at 1.
  match goal with |- context [match ?x with Ok _ => _ | Throw _ => _ end] => destruct x as [[]|e] eqn:Eo end;
    [|done].
  unfold mbind at 1, ST_bind at 1.
  destruct (lift (rt_applyResult r) w) as [[s'|e] w1] eqn:Ea; [|done]. apply lift_ok in Ea.
  assert (HI1 : I w1 s' ∧ (is_pause r || stopped (stopStates o) s' = false → ∀ r', P w r' → P w1 r')).
  { eapply results_keep; [|exact HPr|exact HI|exact Ea].
    destruct (source_checked _ _ _ _ _ Es) as (H1 & H2 & H3). split; [exact H1|].
    intros Hm. destruct (H2 Hm) as [Hsrc ->]. split; [done|].
    rewrite Hm in Eo. unfold assertSequenceOwnership in Eo.
    destruct (state_in _ _) eqn:Ei; [|done]. by apply state_in_spec in Ei. }
  destruct HI1 as [HI1 HP1]. unfold mbind at 1, ST_bind at 1.
  assert (Hrest : ∀ c w2, I w2 s' → (∀ r', P w1 r' → P w2 r') →
    (let q := mkProgress c s' (Datatypes.S (p_transitions p)) (is_pause r) in
     if is_pause r || stopped (stopStates o) s' then mret q
     else apply_results o limit hs multi
            (if multi then sequenceSourceStatesForHandler hs (merged_ownership (sequenceOwnership o)) else [])
            (Datatypes.S i) rest q) w2 = (Ok p', w') → I w' (p_session p')).
  { intros c w2 HI2 HP2. cbn zeta. destruct (is_pause r || stopped (stopStates o) s').
    - by intros [= <- <-].
    - apply IH; [|done]. eapply Forall_impl; [exact HP|]. intros r' Hr'. by apply HP2, HP1. }
  destruct (updateContext_ o) as [f|] eqn:Ef.
  - unfold lift.
    destruct (context_keeps f (p_context p) (rt_state (p_session p)) r s' w1 eq_refl HI1) as [HI2 HP2].
    destruct (f _ _ _ _ w1) as [[c|e] w2]; [|done]. by apply Hrest.
  - by apply Hrest.
Qed.

Lemma run_loop_invariant limit fuel p w p' w' :
  I w (p_session p) → run_loop fuel o limit p w = (Ok p', w') → I w' (p_session p').
Proof using handlers_keep context_keeps results_keep.
  revert p w. induction fuel as [|fuel IH]; intros p w HI; [done|]. cbn [run_loop].
  destruct (p_paused p || _); [by intros [= <- <-]|].
  unfold mbind at 1, ST_bind at 1. destruct (run_handler o limit p w) as [[q|e] w1] eqn:Eh; [|done].
  apply IH. revert Eh. unfold run_handler. destruct (limit <=? p_transitions p)%nat; [done|].
  destruct (handlers o _) as [h|] eqn:Eh; [|done]. unfold mbind at 1, ST_bind at 1, lift.
  destruct (h (p_context p) w) as [[results|e] w2] eqn:Er; [|done].
  destruct (handlers_keep _ h (p_context p) w _ _ _ Eh HI Er) as [HI1 HP].
  destruct results as [|r rest]; [done|]. by apply apply_results_invariant.
Qed.
End Invariant.
End Runner.
Arguments Options W E S Ctx : clear implicits.
Arguments Progress S Ctx : clear implicits.

(** ** sequence-runner.ts *)

Section Sequence.
Context {W E S Ctx : Type} {rt : RunnerRuntime W E S}.

Definition Phase : Type := OnboardMachineState * (Ctx → ST W E (Ctx * list OnboardStateResult)).

(** The world of the runner with the adapter's [pendingContext] variable. *)
Definition Pending : Type := W * Ctx.
Definition beside {Err A} (m : ST W Err A) : ST Pending Err A := λ wp,
  let r := m wp.1 in (r.1, (r.2, wp.2)).
#[export] Instance pending_rt : RunnerRuntime Pending E S := {|
  rt_state := rt_state (RunnerRuntime := rt);
  rt_session := beside rt_session;
  rt_applyResult r := beside (rt_applyResult r);
|}.

Definition Handlers : Type :=
  OnboardMachineState → option (Ctx → ST Pending E (list OnboardStateResult)).

Definition phase_handler (run : Ctx → ST W E (Ctx * list OnboardStateResult))
    : Ctx → ST Pending E (list OnboardStateResult) := λ context,
  phaseResult ← beside (run context);
  st_modify (λ wp, (wp.1, phaseResult.1));;
  mret phaseResult.2.

(** The error is the state of the duplicate phase.  The progress reporter only
    prints. *)
Fixpoint build_handlers (phases : list Phase) (handlers : Handlers)
    : result OnboardMachineState Handlers :=
  match phases with
  | [] => Ok handlers
  | (state, run) :: rest =>
      match handlers state with
      | Some _ => Throw state
      | None => build_handlers rest
                  (λ s, if bool_decide (s = state) then Some (phase_handler run) else handlers s)
      end
  end.
Definition buildOnboardSequenceHandlers (phases : list Phase) : result OnboardMachineState Handlers :=
  build_handlers phases (λ _, None).

Definition sequence_options (h : Handlers) (max : option Z) (ownership : SequenceOwnershipMap)
    (stops : list OnboardMachineState) : Options Pending E S Ctx :=
  mkOptions h max ownership stops (Some (λ _ _ _ _ wp, (Ok wp.2, wp))).

Definition runOnboardSequenceWithRunner (phases : list Phase) (max : option Z)
    (ownership : SequenceOwnershipMap) (stops : list OnboardMachineState) (context : Ctx)
    : result OnboardMachineState (ST W (run_error E) (Ctx * S)) :=
  h ← buildOnboardSequenceHandlers phases;
  Ok (λ w, let out := runOnboardMachine (sequence_options h max ownership stops) context (w, context) in
           (out.1, out.2.1)).

(** *** Reference: each phase runs on the context the previous one returned *)

Definition find_phase (phases : list Phase) (state : OnboardMachineState)
    : option (Ctx → ST W E (Ctx * list OnboardStateResult)) :=
  snd <$> List.find (λ ph, bool_decide (ph.1 = state)) phases.

Definition plain_options (max : option Z) (ownership : SequenceOwnershipMap)
    (stops : list OnboardMachineState) : Options W E S Ctx :=
  mkOptions (λ _, None) max ownership stops None.

Definition run_phase (phases : list Phase) (o : Options W E S Ctx) (limit : nat) (p : Progress S Ctx)
    : ST W (run_error E) (Progress S Ctx) :=
  if (limit <=? p_transitions p)%nat then st_throw (TransitionLimit limit)
  else
    let state := rt_state (p_session p) in
    match find_phase phases state with
    | None => st_throw (MissingHandler state)
    | Some run =>
        ran ← lift (run (p_context p));
        match ran.2 with
        | [] => st_throw (EmptyHandlerResult state)
        | results =>
            let multi := (1 <? List.length results)%nat in
            apply_results o limit state multi
              (if multi then sequenceSourceStatesForHandler state (merged_ownership (sequenceOwnership o))
               else [])
              0 results (mkProgress ran.1 (p_session p) (p_transitions p) (p_paused p))
        end
    end.

Fixpoint run_phases (fuel : nat) (phases : list Phase) (o : Options W E S Ctx) (limit : nat)
    (p : Progress S Ctx) : ST W (run_error E) (Progress S Ctx) :=
  match fuel with
  | 0%nat => st_throw OutOfFuel
  | Datatypes.S fuel =>
      if p_paused p || stopped (stopStates o) (p_session p) then mret p
      else p' ← run_phase phases o limit p; run_phases fuel phases o limit p'
  end.

Definition sequence_reference (phases : list Phase) (max : option Z)
    (ownership : SequenceOwnershipMap) (stops : list OnboardMachineState) (context : Ctx)
    : ST W (run_error E) (Ctx * S) :=
  let o := plain_options max ownership stops in
  let limit := normalizeMaxTransitions max in
  session ← lift rt_session;
  p ← run_phases (Datatypes.S (Datatypes.S limit)) phases o limit (mkProgress context session 0 false);
  mret (p_context p, p_session p).

Lemma build_handlers_find phases h0 h :
  build_handlers phases h0 = Ok h →
  ∀ st, h st = match h0 st with Some f => Some f | None => phase_handler <$> find_phase phases st end.
Proof.
  revert h0. induction phases as [|[s run] rest IH]; intros h0; cbn [build_handlers].
  { intros [= <-] st. by destruct (h0 st). }
  destruct (h0 s) eqn:E0; [done|]. intros H st. rewrite (IH _ H).
  unfold find_phase. cbn [List.find fst]. destruct (decide (st = s)) as [->|Hne].
  - by rewrite !bool_decide_eq_true_2, E0 by done.
  - rewrite (bool_decide_eq_false_2 (st = s)), (bool_decide_eq_false_2 (s = st)) by congruence. done.
Qed.

Lemma beside_lift {A} (m : ST W E A) w c :
  lift (beside m) (w, c) = ((lift m w).1, ((lift m w).2, c)).
Proof. unfold lift, beside. cbn. by destruct (m w) as [[?|?] ?]. Qed.

(** Applying results with the adapter's context hook is applying them on the
    pending context. *)
Lemma apply_results_pending h max own stops limit hs multi allowed results i p w c :
  (results ≠ [] ∨ p_context p = c) →
  let out := apply_results (plain_options max own stops) limit hs multi allowed i results
               (mkProgress c (p_session p) (p_transitions p) (p_paused p)) w in
  apply_results (sequence_options h max own stops) limit hs multi allowed i results p (w, c)
  = (out.1, (out.2, c)).
Proof.
  revert i p w. induction results as [|r rest IH]; intros i p w Hc; cbn zeta.
  { destruct Hc as [Hc|<-]; [done|]. by destruct p. }
  cbn [apply_results p_transitions p_session p_context p_paused].
  destruct (limit <=? p_transitions p)%nat; [done|].
  unfold mbind, ST_bind, st_lift.
  change (rt_state (RunnerRuntime := pending_rt)) with (rt_state (RunnerRuntime := rt)).
  destruct (assertResultSourceState _ _ _ _) as [src|e]; [|done].
  match goal with |- context [match ?x with Ok _ => _ | Throw _ => _ end] =>
    destruct x as [[]|e] eqn:Eo end; [|done].
  change (rt_applyResult (RunnerRuntime := pending_rt) r) with
    (beside (rt_applyResult (RunnerRuntime := rt) r)). rewrite beside_lift.
  destruct (lift (rt_applyResult r) w) as [[s'|e] w1]; cbn [fst snd]; [|done].
  cbn [updateContext_ sequence_options plain_options stopStates lift fst snd mret ST_ret].
  change (stopped (rt := pending_rt)) with (stopped (rt := rt)).
  destruct (is_pause r || stopped stops s'); [done|].
  apply (IH (Datatypes.S i) (mkProgress c s' (Datatypes.S (p_transitions p)) (is_pause r)) w1). by right.
Qed.

(** Without a context hook the context stays. *)
Lemma apply_results_context max own stops limit hs multi allowed results i p w p' :
  (apply_results (plain_options max own stops) limit hs multi allowed i results p w).1 = Ok p' →
  p_context p' = p_context p.
Proof.
  revert i p w. induction results as [|r rest IH]; intros i p w; cbn [apply_results].
  { by intros [= <-]. }
  destruct (limit <=? p_transitions p)%nat; [done|]. unfold mbind, ST_bind, st_lift.
  destruct (assertResultSourceState _ _ _ _) as [src|e]; [|done].
  match goal with |- context [match ?x with Ok _ => _ | Throw _ => _ end] =>
    destruct x as [[]|e] eqn:Eo end; [|done].
  destruct (lift (rt_applyResult r) w) as [[s'|e] w1]; [|done].
  cbn [updateContext_ plain_options mret ST_ret stopStates].
  destruct (is_pause r || stopped stops s'); [by intros [= <-]|].
  intros Hp. by rewrite (IH _ _ _ Hp).
Qed.

Lemma run_phase_pending phases h max own stops limit p w :
  build_handlers phases (λ _, None) = Ok h →
  let out := run_phase phases (plain_options max own stops) limit p w in
  ∃ c', run_handler (sequence_options h max own stops) limit p (w, p_context p)
        = (out.1, (out.2, c'))
        ∧ (∀ p', out.1 = Ok p' → p_context p' = c').
Proof.
  intros Hb. cbn zeta. unfold run_handler, run_phase.
  destruct (limit <=? p_transitions p)%nat; [by eexists|].
  change (rt_state (RunnerRuntime := pending_rt)) with (rt_state (RunnerRuntime := rt)).
  cbn [handlers sequence_options sequenceOwnership plain_options].
  rewrite (build_handlers_find _ _ _ Hb).
  destruct (find_phase phases _) as [run|]; cbn [fmap option_fmap option_map]; [|by eexists].
  unfold mbind, ST_bind, lift, phase_handler, mbind, ST_bind, beside. cbn [fst snd].
  destruct (run (p_context p) w) as [[[c' results]|e] w']; cbn [fst snd st_modify]; [|by eexists].
  unfold st_modify, mret, ST_ret. cbn [fst snd]. exists c'.
  destruct results as [|r rest]; [done|].
  rewrite (apply_results_pending h max own stops) by by left. split; [done|].
  intros p' Hp'. apply apply_results_context in Hp'. exact Hp'.
Qed.

Lemma run_phases_pending phases h max own stops limit fuel p w :
  build_handlers phases (λ _, None) = Ok h →
  let out := run_phases fuel phases (plain_options max own stops) limit p w in
  ∃ c', run_loop fuel (sequence_options h max own stops) limit p (w, p_context p)
        = (out.1, (out.2, c')).
Proof.
  intros Hb. revert p w. induction fuel as [|fuel IH]; intros p w; cbn zeta; [by eexists|].
  cbn [run_loop run_phases]. cbn [stopStates sequence_options plain_options].
  change (stopped (rt := pending_rt)) with (stopped (rt := rt)).
  destruct (p_paused p || stopped stops (p_session p)); [by eexists|].
  unfold mbind, ST_bind.
  destruct (run_phase_pending phases h max own stops limit p w Hb) as (c' & Hr & Hc).
  rewrite Hr. destruct (run_phase _ _ _ p w) as [[p'|e] w1]; cbn [fst snd] in *; [|by eexists].
  rewrite <- (Hc p' eq_refl). apply IH.
Qed.
End Sequence.

(** ** prerequisite-repair.ts *)

Inductive repair_error (E : Type) : Type :=
| RepairInner (e : E)
| NoRepairResults (state : OnboardMachineState)
| NotUpdateFree (phase expectedSource : OnboardMachineState)
| NoSuchEdge (e : machine_error)
| WrongRepairKind (phase : OnboardMachineState) (expected : OnboardMachineTransitionKind)
| WrongFinalState (phase final : OnboardMachineState)
| EntryStateChanged (expected got : OnboardMachineState).
Arguments RepairInner {E} e.
Arguments NoRepairResults {E} state.
Arguments NotUpdateFree {E} phase expectedSource.
Arguments NoSuchEdge {E} e.
Arguments WrongRepairKind {E} phase expected.
Arguments WrongFinalState {E} phase final.
Arguments EntryStateChanged {E} expected got.

(** The loop of [validateRepairResults]. *)
Fixpoint validate_from {E} (phase state : OnboardMachineState) (results : list OnboardStateResult)
    : result (repair_error E) OnboardMachineState :=
  match results with
  | [] => Ok state
  | RTransition next expected updates m :: rest =>
      if is_undefined updates && bool_decide (source_state m = Some (state_id state)) then
        match assertValidOnboardMachineTransition state next with
        | Throw e => Throw (NoSuchEdge e)
        | Ok t => if bool_decide (expected = Some (kind t)) then validate_from phase next rest
                  else Throw (WrongRepairKind phase (kind t))
        end
      else Throw (NotUpdateFree phase state)
  | _ :: _ => Throw (NotUpdateFree phase state)
  end.

Definition validateRepairResults {E} (results : list OnboardStateResult)
    (phase : OnboardMachineState) (expectedFinalStates : list OnboardMachineState)
    : result (repair_error E) OnboardMachineState :=
  state ← validate_from phase phase results;
  if state_in expectedFinalStates state then Ok state else Throw (WrongFinalState phase state).

Inductive RepairEvent : Type := RepairStarted | RepairCompleted | RepairFailed.

Section Repair.
Context {W E S Ctx : Type} {rt : RunnerRuntime W E S}.

Record RepairOptions := mkRepair {
  r_context : Ctx;
  r_durableEntryState : OnboardMachineState;
  r_phase : Phase (W := W) (E := E) (Ctx := Ctx);
  r_expectedFinalStates : list OnboardMachineState;
  (** [recordRepairEvent(type, { state, error, metadata })]; the metadata is fixed. *)
  r_recordRepairEvent : RepairEvent → OnboardMachineState → option string → ST W E unit;
  r_errorMessage : repair_error E → string;
}.

Record RepairResult := mkRepaired {
  rp_context : Ctx; rp_results : list OnboardStateResult; rp_finalState : OnboardMachineState }.

Definition rlift {A} (m : ST W E A) : ST W (repair_error E) A := λ w,
  match m w with (Ok a, w') => (Ok a, w') | (Throw e, w') => (Throw (RepairInner e), w') end.

(** The [try] block. *)
Definition repair_body (o : RepairOptions) : ST W (repair_error E) RepairResult :=
  let state := (r_phase o).1 in
  rlift (r_recordRepairEvent o RepairStarted state None);;
  ran ← rlift ((r_phase o).2 (r_context o));
  (if bool_decide (ran.2 = []) then st_throw (NoRepairResults state) else mret tt);;
  final ← st_lift (validateRepairResults ran.2 state (r_expectedFinalStates o));
  current ← rlift rt_session;
  (if bool_decide (rt_state current = r_durableEntryState o) then mret tt
   else st_throw (EntryStateChanged (r_durableEntryState o) (rt_state current)));;
  rlift (r_recordRepairEvent o RepairCompleted state None);;
  mret (mkRepaired ran.1 ran.2 final).

Definition runOnboardPrerequisiteRepair (o : RepairOptions) : ST W (repair_error E) RepairResult := λ w,
  match repair_body o w with
  | (Ok r, w') => (Ok r, w')
  | (Throw e, w') =>
      (Throw e, (r_recordRepairEvent o RepairFailed (r_phase o).1 (Some (r_errorMessage o e)) w').2)
  end.
End Repair.
Arguments RepairOptions W E Ctx : clear implicits.

(** The transitions a list of results stands for, from a state. *)
Inductive path : OnboardMachineState → list OnboardStateResult → OnboardMachineState → Prop :=
| path_nil s : path s [] s
| path_cons s t next m rest final :
    getOnboardMachineTransition s next = Some t → source_state m = Some (state_id s) →
    path next rest final → path s (RTransition next (Some (kind t)) JUndef m :: rest) final.

Lemma validate_from_path {E} phase state results final :
  validate_from (E := E) phase state results = Ok final ↔ path state results final.
Proof.
  split.
  - revert state. induction results as [|r rest IH]; intros state; cbn [validate_from].
    { intros [= <-]. constructor. }
    destruct r as [next expected u m| | |]; try done.
    destruct u; cbn [is_undefined andb]; try done.
    destruct (bool_decide (source_state m = _)) eqn:Es; [|done]. bools.
    unfold assertValidOnboardMachineTransition.
    destruct (getOnboardMachineTransition state next) as [t|] eqn:Et; cbn [of_option]; [|done].
    destruct (bool_decide (expected = _)) eqn:Ek; [|done]. bools. subst expected.
    intros H. by econstructor; [..|apply IH].
  - induction 1 as [|s t next m rest final Et Es _ IH]; [done|]. cbn [validate_from is_undefined andb].
    rewrite bool_decide_eq_true_2 by done. unfold assertValidOnboardMachineTransition.
    rewrite Et. cbn [of_option]. by rewrite bool_decide_eq_true_2.
Qed.

(** ** The runtime behind the interface *)

#[export] Instance onboard_runtime {host : Host} {receipts : ReceiptStore}
    : RunnerRuntime World session_error Session := {|
  rt_state s := m_state (machine s);
  rt_session := ensureSession;
  rt_applyResult := applyResult;
|}.

(** The file holds a session with the machine [m], which owes no receipt. *)
Definition at_machine {host : Host} {receipts : ReceiptStore} (w : World) (m : OnboardMachineSnapshot)
    : Prop :=
  ∃ s, holds w s ∧ machine s = m ∧ stationExpressReceiptRetirement s = None.

(** A result of the program's phases, for the session in the file: a transition without
    updates, an end of the run whose updates keep the session readable, a failure whose
    message is already redacted. *)
Definition result_fits {host : Host} (s : Session) (r : OnboardStateResult) : Prop :=
  match r with
  | RTransition next _ updates _ => updates = JUndef ∧ isTerminalOnboardMachineState next = false
  | RComplete updates _ =>
      updates_fit (filterSafeUpdates (if is_undefined updates || is_null updates then JObj [] else updates)) s
  | RPause updates _ =>
      updates_fit (filterSafeUpdates updates) s
      ∧ selection_gate (assign_updates (filterSafeUpdates updates) s) = true
  | RFailed error _ _ => redacted error
  end.
Definition fits_file {host : Host} {receipts : ReceiptStore} (w : World) (r : OnboardStateResult) : Prop :=
  ∃ s, holds w s ∧ result_fits s r.

Definition edge_rel (s t : OnboardMachineState) : Prop := edge s t = true.
Definition reached {host : Host} {receipts : ReceiptStore} (from : OnboardMachineState)
    (w : World) (s : Session) : Prop :=
  at_machine w (machine s) ∧ rtc edge_rel from (m_state (machine s)).

Section Files.
Context {host : Host} {receipts : ReceiptStore}.
Hypothesis Hurl : url_origin_law parseURL.
Implicit Types (s : Session) (w : World).

Lemma holds_unique w s s' : holds w s → holds w s' → s = s'.
Proof using Hurl.
  intros H H'. pose proof (ensure_holds _ _ Hurl H) as E. pose proof (ensure_holds _ _ Hurl H') as E'. unfold runs in *. congruence.
Qed.

(** The session but for its machine, its status and the time it was saved. *)
Lemma updates_fit_moved u s m st at_ :
  updates_fit u s → updates_fit u (s <| machine := m |> <| status := st |> <| updatedAt := at_ |>).
Proof.
  intros [Hm Hp Hn]. split; [by destruct Hm|destruct Hp as [[] ?]; by split|exact Hn].
Qed.
Lemma result_fits_moved s m st at_ r :
  result_fits s r → result_fits (s <| machine := m |> <| status := st |> <| updatedAt := at_ |>) r.
Proof.
  destruct r as [next e u md|u md|u md|e st' md]; cbn [result_fits]; [done| |intros [H Hg]; split; [|exact Hg]|done].
  all: by intros; apply updates_fit_moved.
Qed.

Lemma assigned_ok u s :
  session_ok s → safe_ok u → updates_fit u s → selection_gate (assign_updates u s) = true →
  session_ok (assign_updates u s).
Proof.
  intros Hok [Hp Hz Hw] [_ _ Hn] Hsel.
  pose proof (ok_provenance s Hok) as Kp. pose proof (ok_pid s Hok) as Kz. pose proof (ok_wechat s Hok) as Kw.
  destruct Hok. split; try done.
  - exact (default_ok (from_option (λ v, parseServingProfileProvenance v = Some v) True) _ _ Kp I Hp).
  - exact (default_ok (λ p, from_option (λ z, (0 <? z)%Z) true p = true) _ _ Kz eq_refl Hz).
  - exact (default_ok wechat_ok _ _ Kw I Hw).
Qed.

(** Recording choices leaves the machine and the receipt it owes. *)
Lemma updateContext_runs updates state md w s :
  holds w s → updates_fit (filterSafeUpdates updates) s →
  selection_gate (assign_updates (filterSafeUpdates updates) s) = true →
  ∃ saved w', updateContext updates state md w = (Ok saved, w') ∧ holds w' saved
    ∧ machine saved = machine s ∧ stationExpressReceiptRetirement saved = stationExpressReceiptRetirement s.
Proof using Hurl.
  intros Hh Hfit Hsel. pose proof Hh as [_ Hok _ _ Hf]. pose proof Hfit as [Hm Hp _].
  set (u := filterSafeUpdates updates) in *.
  assert (Hok' : session_ok (assign_updates u s)) by (apply assigned_ok; [done|apply filterSafeUpdates_safe|done..]).
  set (w1 := w <| w_tick := Datatypes.S (Datatypes.S (w_tick w)) |>).
  pose proof (updateSession_exact (λ s, mret (assign_updates u s)) w w1 s _ Hurl Hh eq_refl Hok' Hm) as Hu.
  set (saved := saved_at w1 (assign_updates u s)) in *.
  assert (Hsaved : holds (after_save w1 saved) saved) by (apply after_save_holds; auto).
  unfold runs in Hu. unfold updateContext. fold u. unfold mbind, ST_bind. rewrite Hu. cbn zeta.
  destruct (negb _).
  - destruct (emit_for_runs EvContextUpdated saved (Some (default (m_state (machine saved)) state)) None None
      (Some (jset (eventMetadata md) "fields" (jstrs (updates_keys u)))) (after_save w1 saved)) as (e & _ & R).
    unfold runs in R. rewrite R. eexists _, _. split; [reflexivity|]. split; [by eapply holds_disk|done].
  - exists saved, (after_save w1 saved). by split_and!.
Qed.

(** Applying a result that fits goes along one edge of the table, or stays; after a
    transition the results that are left still fit. *)
Lemma applyResult_edge r w s s' w' :
  result_fits s r → holds w s → stationExpressReceiptRetirement s = None →
  applyResult r w = (Ok s', w') →
  at_machine w' (machine s')
  ∧ (m_state (machine s') = m_state (machine s) ∨ edge (m_state (machine s)) (m_state (machine s')) = true)
  ∧ (is_pause r || isTerminalOnboardMachineState (m_state (machine s')) = false →
     ∀ r', result_fits s r' → fits_file w' r').
Proof using Hurl.
  intros HP Hh Hr Ea. pose proof (assert_exact r w s Hurl Hh) as [Q H].
  destruct (result_accepted s r) eqn:Hacc.
  2:{ revert Ea. unfold applyResult, mbind, ST_bind.
      destruct (assertResultWillApply r w) as [[[]|e] w1]; done. }
  destruct r as [next expected u m|u m|u m|err step m]; cbn [result_fits] in HP.
  - destruct HP as [-> Ht].
    destruct (applyResult_accepted next expected m w s Hurl Hh Hr Ht Hacc) as (w0 & _ & _ & Hh0 & Eq & He).
    destruct (transition_runs next m w0 s Hurl Hh0 Hr Ht He) as (saved & w2 & H1 & H2 & [at_ H3] & H4 & _).
    rewrite Eq, H1 in Ea. injection Ea as <- <-. split; [|split].
    + exists saved. split; [done|]. split; [done|]. by rewrite H4.
    + right. by rewrite H3.
    + intros _ r' Hr'. exists saved. split; [done|]. rewrite H4. by apply result_fits_moved.
  - revert Ea. unfold applyResult, mbind at 1, ST_bind at 1.
    destruct (assertResultWillApply _ w) as [[[]|e] w1] eqn:E1; [|done]. intros Ea.
    assert (Hh1 : holds w1 s) by (eapply holds_disk; [exact Hh|apply Q]).
    match type of Ea with complete ?updates _ _ = _ => pose proof (complete_outcome updates m w1 s Hurl Hh1 HP) as Ho end.
    cbn zeta in Ho. rewrite Ea in Ho. cbn [fst snd] in Ho. destruct Ho as (He & H2 & H3 & H4 & _).
    pose proof (co_machine _ H3) as Hm. split; [by exists s'|]. rewrite Hm. split; [by right|done].
  - revert Ea. unfold applyResult, mbind, ST_bind.
    destruct (assertResultWillApply _ w) as [[[]|e] w1] eqn:E1; [|done].
    assert (Hh1 : holds w1 s) by (eapply holds_disk; [exact Hh|apply Q]).
    rewrite (ensure_holds _ _ Hurl Hh1). destruct (isTerminalOnboardMachineState _); [done|].
    assert (Hh2 : holds (w1 <| w_tick := Datatypes.S (Datatypes.S (w_tick w1)) |>) s) by by eapply holds_disk.
    destruct (has_updates u); [|intros [= <- <-]; split; [by exists s|split; [by left|done]]].
    destruct HP as [Hfit Hsel].
    destruct (updateContext_runs u (Some (m_state (machine s))) m _ s Hh2 Hfit Hsel) as (saved & w2 & -> & H2 & H3 & H4).
    intros [= <- <-]. split; [exists saved; split; [done|]; by rewrite H4|]. rewrite H3. split; [by left|done].
  - revert Ea. unfold applyResult, mbind at 1, ST_bind at 1.
    destruct (assertResultWillApply _ w) as [[[]|e] w1] eqn:E1; [|done]. intros Ea.
    assert (Hh1 : holds w1 s) by (eapply holds_disk; [exact Hh|apply Q]).
    cbn [result_accepted] in Hacc.
    assert (Ht : isTerminalOnboardMachineState (m_state (machine s)) = false)
      by (destruct (m_state (machine s)); done).
    destruct (fail_runs err step m w1 s Hurl Hh1 Hr Ht HP) as (saved & w2 & H1 & H2 & [at_ H3] & H4 & _ & H6).
    rewrite H1 in Ea. injection Ea as <- <-. split; [exists saved; by split_and!|].
    rewrite H3. split; [by right|done].
Qed.

Lemma applyResult_reached from r w s s' w' :
  fits_file w r → reached from w s → applyResult r w = (Ok s', w') →
  reached from w' s'
  ∧ (is_pause r || isTerminalOnboardMachineState (m_state (machine s')) = false →
     ∀ r', fits_file w r' → fits_file w' r').
Proof using Hurl.
  intros (s1 & Hh1 & HP) [(s0 & Hh & Hm & Hr) Hp] Ea. rewrite (holds_unique w s1 s0 Hh1 Hh) in HP.
  destruct (applyResult_edge r w s0 s' w' HP Hh Hr Ea) as (Ha & He & Hrest). rewrite Hm in He.
  split.
  - split; [done|]. destruct He as [->|He]; [done|]. by eapply rtc_r.
  - intros Hstop r' (s2 & Hh2 & HP2). apply Hrest; [done|]. by rewrite <- (holds_unique w s2 s0 Hh2 Hh).
Qed.
End Files.

(** ** Properties *)

(** C32: the runner always ends, and within its limit: whatever the handlers and
    the runtime do, a run either returns paused or at a terminal or stop state
    after at most the allowed number of applied results, or throws one of its
    own errors; it never exhausts the fuel the model gives it. *)
Theorem runner_terminates {W E S Ctx : Type} {rt : RunnerRuntime W E S}
    (o : Options W E S Ctx) context session w :
  let limit := normalizeMaxTransitions (maxTransitions o) in
  match (run_loop (Datatypes.S (Datatypes.S limit)) o limit (mkProgress context session 0 false) w).1 with
  | Ok p => (p_transitions p ≤ limit)%nat
            ∧ p_paused p || stopped (stopStates o) (p_session p) = true
  | Throw e => e ≠ OutOfFuel
  end
  ∧ (runOnboardMachine o context w).1 ≠ Throw OutOfFuel.
Proof.
  intros limit.
  assert (H : ∀ s w', match (run_loop (Datatypes.S (Datatypes.S limit)) o limit
                               (mkProgress context s 0 false) w').1 with
    | Ok p => (p_transitions p ≤ limit)%nat
              ∧ p_paused p || stopped (stopStates o) (p_session p) = true
    | Throw e => e ≠ OutOfFuel end).
  { intros s w'. apply run_loop_total; cbn [p_transitions]; lia. }
  split; [apply H|]. unfold runOnboardMachine. fold limit. unfold mbind, ST_bind.
  destruct (lift rt_session w) as [[s|e] w'] eqn:El.
  - specialize (H s w'). destruct (run_loop _ _ _ _ w') as [[p|e] w2]; cbn in *; [done|congruence].
  - cbn. intros [= ->]. by apply lift_fuel in El.
Qed.

(** C2: over the session file, a run of the onboarding sequence follows the transition
    table.  If each phase leaves the recorded machine alone, as the step recorders do, and
    returns results that fit the session it leaves (transitions without updates, an end or
    a pause with the choices to record), then a run that returns leaves the file holding
    the machine of the session it returns, in a state the table reaches from the first
    one. *)
Theorem run_follows_table {host : Host} {receipts : ReceiptStore} {Ctx : Type}
    (phases : list (Phase (W := World) (E := session_error) (Ctx := Ctx))) max own stops context
    run w w' context' s s' :
  url_origin_law parseURL → holds w s → stationExpressReceiptRetirement s = None →
  (∀ state phase c m w c' results w', (state, phase) ∈ phases → at_machine w m →
     phase c w = (Ok (c', results), w') → at_machine w' m ∧ Forall (fits_file w') results) →
  runOnboardSequenceWithRunner phases max own stops context = Ok run →
  run w = (Ok (context', s'), w') →
  at_machine w' (machine s') ∧ rtc edge_rel (m_state (machine s)) (m_state (machine s')).
Proof.
  intros Hurl Hh Hr Hk Hb. unfold runOnboardSequenceWithRunner, buildOnboardSequenceHandlers in Hb.
  destruct (build_handlers phases (λ _, None)) as [h|st] eqn:Eb; [|done]. injection Hb as <-. cbn zeta.
  set (o := sequence_options h max own stops). unfold runOnboardMachine, mbind, ST_bind.
  change (rt_session (RunnerRuntime := pending_rt)) with (beside (Ctx := Ctx) ensureSession).
  assert (El : lift ensureSession w = (Ok s, w <| w_tick := Datatypes.S (Datatypes.S (w_tick w)) |>))
    by (unfold lift; by rewrite (ensure_holds _ _ Hurl Hh)).
  rewrite beside_lift, El. cbn [fst snd]. clear El.
  set (w1 := w <| w_tick := Datatypes.S (Datatypes.S (w_tick w)) |>).
  match goal with |- context [run_loop ?f o ?l ?p (w1, context)] =>
    destruct (run_loop f o l p (w1, context)) as [[q|e] [w2 c2]] eqn:Er end; cbn [fst snd]; [|done].
  intros [= _ <- <-].
  apply (run_loop_invariant o (λ wc s1, reached (m_state (machine s)) wc.1 s1) (λ wc, fits_file wc.1)) in Er;
    [exact Er| | | |].
  - intros st hd c [w3 c3] s1 rs [w4 c4] Ehd [Ha Hp] Eh. cbn [fst] in *.
    cbn [handlers o sequence_options] in Ehd. rewrite (build_handlers_find _ _ _ Eb) in Ehd. cbn beta in Ehd.
    destruct (find_phase phases st) as [phase|] eqn:Ef; [|done]. injection Ehd as <-.
    assert (Hin : ∃ state, (state, phase) ∈ phases).
    { unfold find_phase in Ef.
      match type of Ef with _ <$> ?x = _ => destruct x as [[state ph]|] eqn:E end; [|done].
      injection Ef as <-. apply find_some in E as [E _]. exists state. by apply list_elem_of_In. }
    destruct Hin as [state Hin]. revert Eh. unfold phase_handler, beside, mbind, ST_bind, st_modify. cbn [fst snd].
    destruct (phase c w3) as [[[c5 results]|e] w5] eqn:Ephase; cbn [fst snd]; [|done].
    unfold mret, ST_ret. cbn [fst snd]. intros [= <- <- _].
    destruct (Hk _ _ _ _ _ _ _ _ Hin Ha Ephase) as [Ha' Hfits]. by split; [split|].
  - intros f c st r s1 [w3 c3] [= <-] Hi. by split.
  - intros _ _ r [w3 c3] s1 s2 [w4 c4] _ HP Hi Ea. cbn [fst] in *.
    assert (Ea' : applyResult r w3 = (Ok s2, w4)).
    { revert Ea. change (rt_applyResult (RunnerRuntime := pending_rt) r) with (beside (Ctx := Ctx) (applyResult r)).
      unfold beside. cbn [fst snd]. destruct (applyResult r w3) as [x y]. cbn [fst snd]. by intros [= -> -> _]. }
    destruct (applyResult_reached Hurl _ r w3 s1 s2 w4 HP Hi Ea') as [Hi' Hrest]. split; [exact Hi'|].
    intros Hstop. apply Hrest. unfold stopped in Hstop. cbn [rt_state pending_rt onboard_runtime] in Hstop.
    apply orb_false_iff in Hstop as [-> Hstop]. apply orb_false_iff in Hstop as [Hstop _]. exact Hstop.
  - cbn [fst p_session]. split; [|apply rtc_refl]. exists s. split; [by eapply holds_disk|done].
Qed.

(** The sequence adapter runs its phases one after another on each other's
    contexts: with distinct phase states, running the phases through the generic
    runner with its shared pending context is the same, results and effects, as
    handing each phase's returned context to the next; a state given twice is
    refused before anything runs. *)
Theorem sequence_threads_context {W E S Ctx : Type} {rt : RunnerRuntime W E S}
    (phases : list (Phase (W := W) (E := E) (Ctx := Ctx))) max own stops context :
  match runOnboardSequenceWithRunner phases max own stops context with
  | Ok run => NoDup (map fst phases) ∧ ∀ w, run w = sequence_reference phases max own stops context w
  | Throw st => st ∈ map fst phases ∧ ¬ NoDup (map fst phases)
  end.
Proof.
  assert (K : ∀ l (h0 : Handlers (W := W) (E := E) (Ctx := Ctx)),
    match build_handlers l h0 with
    | Ok _ => NoDup (map fst l) ∧ ∀ st, st ∈ map fst l → h0 st = None
    | Throw st => st ∈ map fst l ∧ (is_Some (h0 st) ∨ ¬ NoDup (map fst l))
    end).
  { induction l as [|[s run] l IH]; intros h0; cbn [build_handlers map fst].
    { split; [constructor|]. by intros st ?%elem_of_nil. }
    destruct (h0 s) eqn:E0; [split; [by left|left; eauto]|].
    specialize (IH (λ s', if bool_decide (s' = s) then Some (phase_handler run) else h0 s')).
    destruct (build_handlers l _) as [h|st].
    - destruct IH as [Hnd Hl]. split.
      + constructor; [|done]. intros Hin. specialize (Hl s Hin). by rewrite bool_decide_eq_true_2 in Hl.
      + intros st [->|Hin]%elem_of_cons; [done|]. specialize (Hl st Hin). by destruct (bool_decide _).
    - destruct IH as [Hin Hor]. split; [by right|].
      destruct (decide (st = s)) as [->|Hne].
      + right. intros [Hn _]%NoDup_cons. done.
      + rewrite bool_decide_eq_false_2 in Hor by done.
        destruct Hor as [?|Hn]; [by left|right]. by intros [_ ?]%NoDup_cons. }
  specialize (K phases (λ _, None)). unfold runOnboardSequenceWithRunner, buildOnboardSequenceHandlers.
  destruct (build_handlers phases (λ _, None)) as [h|st] eqn:Eb; cbn [mbind result_bind].
  - split; [apply K|]. intros w. unfold runOnboardMachine, sequence_reference.
    cbn [maxTransitions sequence_options]. unfold mbind, ST_bind.
    change (rt_session (RunnerRuntime := pending_rt)) with (beside (Ctx := Ctx) (rt_session (RunnerRuntime := rt))).
    rewrite beside_lift. destruct (lift rt_session w) as [[s|e] w1]; cbn [fst snd]; [|done].
    destruct (run_phases_pending phases h max own stops (normalizeMaxTransitions max)
      (Datatypes.S (Datatypes.S (normalizeMaxTransitions max))) (mkProgress context s 0 false) w1 Eb)
      as [c' Hr]. cbn [p_context] in Hr. rewrite Hr.
    destruct (run_phases _ _ _ _ _ w1) as [[p|e] w2]; done.
  - destruct K as [Hin [[? ?]|Hn]]; [done|]. by split.
Qed.

(** A prerequisite repair that returns has proved its results harmless: they
    are a legal path of update-free transitions from the phase's state, each
    naming its source and its kind, to an expected final state, and the durable
    state is still the entry state; nothing is applied by the repair itself. *)
Theorem repair_results_validated {W E S Ctx : Type} {rt : RunnerRuntime W E S}
    (o : RepairOptions W E Ctx) w :
  match runOnboardPrerequisiteRepair o w with
  | (Ok r, _) =>
      path (r_phase o).1 (rp_results r) (rp_finalState r)
      ∧ rp_finalState r ∈ r_expectedFinalStates o ∧ rp_results r ≠ []
      ∧ ∃ current w1 w2, rt_session w1 = (Ok current, w2) ∧ rt_state current = r_durableEntryState o
  | (Throw _, _) => True
  end.
Proof.
  unfold runOnboardPrerequisiteRepair. destruct (repair_body o w) as [[r|e] w'] eqn:Eb; [|done].
  revert Eb. unfold repair_body, mbind, ST_bind, rlift, st_lift, mret, ST_ret, st_throw.
  destruct (r_recordRepairEvent o RepairStarted _ _ w) as [[[]|] w1]; [|done].
  destruct ((r_phase o).2 (r_context o) w1) as [[ran|] w2]; [|done].
  destruct (bool_decide (ran.2 = [])) eqn:En; [done|]. bools.
  unfold validateRepairResults.
  destruct (validate_from _ _ ran.2) as [final|] eqn:Ev; cbn [mbind result_bind]; [|done].
  destruct (state_in _ final) eqn:Ei; [|done].
  destruct (rt_session w2) as [[current|] w3] eqn:Es; [|done].
  destruct (bool_decide (rt_state current = _)) eqn:Ec; [|done]. bools.
  destruct (r_recordRepairEvent o RepairCompleted _ _ w3) as [[[]|] w4]; [|done].
  intros [= <- <-]. cbn [rp_results rp_finalState].
  split; [by eapply validate_from_path|]. split; [by apply state_in_spec|]. split; [done|].
  by exists current, w2, w3.
Qed.

(** ** On the sample session *)

(** The phases from the sandbox to the end, which count their runs in the context; the last
    one records a model. *)
Definition counted (results : list OnboardStateResult)
    : nat → ST (World (receipts := one_receipt)) session_error (nat * list OnboardStateResult) :=
  λ c w, (Ok (Datatypes.S c, results), w).
Definition sample_updates : json := JObj [("model", JStr "m2")].
Definition sample_phases : list (Phase (W := World (receipts := one_receipt)) (E := session_error) (Ctx := nat)) :=
  [(StSandbox, counted [RTransition StOpenclaw (Some Branch) JUndef None]);
   (StOpenclaw, counted [RTransition StPolicies None JUndef None]);
   (StPolicies, counted [RTransition StFinalizing None JUndef None]);
   (StFinalizing, counted [RTransition StPostVerify None JUndef None]);
   (StPostVerify, counted [RComplete sample_updates None])].

Lemma sample_updates_fit s : session_ok (host := sample_host) s →
  mem_stable (host := sample_host) s → persist_stable (host := sample_host) s →
  updates_fit (host := sample_host) (filterSafeUpdates (host := sample_host) sample_updates) s.
Proof. intros Hok Hm [Hp Hc]. split; [by destruct Hm|split; [by destruct Hp|done]|exact (ok_name_flag s Hok)]. Qed.

Lemma run_follows_table_witness :
  match runOnboardSequenceWithRunner (rt := onboard_runtime (host := sample_host)) sample_phases None no_ownership [] 0%nat with
  | Ok run => match run sample_world with
              | (Ok (count, s'), w') =>
                  at_machine (host := sample_host) w' (machine s')
                  ∧ rtc edge_rel StSandbox (m_state (machine s'))
                  ∧ m_state (machine s') = StComplete ∧ model s' = Some "m2" ∧ count = 5%nat
              | (Throw _, _) => False
              end
  | Throw _ => False
  end.
Proof.
  assert (Hst : match runOnboardSequenceWithRunner (rt := onboard_runtime (host := sample_host)) sample_phases None no_ownership [] 0%nat with
    | Ok run => (λ p, (m_state (machine p.2), model p.2, p.1)) <$>
                match run sample_world with (Ok p, _) => Some p | _ => None end
    | Throw _ => None
    end = Some (StComplete, Some "m2", 5%nat)) by (vm_compute; reflexivity).
  destruct (runOnboardSequenceWithRunner (rt := onboard_runtime (host := sample_host)) sample_phases None no_ownership [] 0%nat)
    as [run|st] eqn:Eb; [|discriminate Hst].
  destruct (run sample_world) as [[[c s']|e] w'] eqn:Er; [|discriminate Hst].
  injection Hst as H1 H2 H3.
  assert (Hk : ∀ state phase c m w c' results w', (state, phase) ∈ sample_phases →
    at_machine (host := sample_host) w m → phase c w = (Ok (c', results), w') →
    at_machine (host := sample_host) w' m ∧ Forall (fits_file (host := sample_host) w') results).
  { intros state phase c0 m w c' results w1 Hin Ha. pose proof Ha as (s0 & Hh & _).
    assert (Hf : ∀ r, result_fits (host := sample_host) s0 r →
      counted [r] c0 w = (Ok (c', results), w1) →
      at_machine (host := sample_host) w1 m ∧ Forall (fits_file (host := sample_host) w1) results).
    { intros r Hr [= <- <- <-]. split; [exact Ha|]. constructor; [|constructor]. by exists s0. }
    repeat (apply elem_of_cons in Hin as [[= -> ->]|Hin]; [by apply Hf; first [split; reflexivity|
      apply sample_updates_fit; apply Hh]|]). by apply elem_of_nil in Hin. }
  destruct (run_follows_table (host := sample_host) sample_phases None no_ownership [] 0%nat run
    sample_world w' c sample_session s' one_url_law sample_holds eq_refl Hk Eb Er) as [K1 K2].
  split; [exact K1|]. split; [exact K2|]. split; [exact H1|]. split; [exact H2|exact H3].
Defined.
