(* ===== verification/Recreate.v ===== *)
(** * The sandbox recreation journal

    src/lib/onboard/sandbox-recreate-transaction.ts: the transaction a same-name
    replacement keeps in the session's checkpoint, its phases, the plan a crashed
    replacement resumes by, and the runtime an onboarding run drives it with;
    onboard-recreate-journal.ts and rebuild-recreate-journal.ts, which open it.

    A registry row is its JSON object.  [localeCompare] is the collation of the
    platform ([Collation]); the observation of the live sandbox is a reading of an
    environment the journal does not own. *)

From S2P Require Import Prelude Json Canonical Names Machine Choices Time Station Checkpoint SessionData.
From S2P Require Import SessionParse Events SessionStore Recovery.

(** ** Fingerprints *)

Section WithCollation.
Context {collation : Collation}.

Definition SandboxEntry : Type := list (string * json).

Definition ROUTE_RESERVATION_FIELDS : list string :=
  ["pendingRouteReservation"; "reservationSessionId"; "provider"; "model"; "endpointUrl";
   "endpointSource"; "credentialEnv"; "preferredInferenceApi"; "gatewayName"; "gatewayPort"].

Section WithHost.
Context {host : Host}.

Definition fingerprintSandboxRecreateValue (value : json) : string :=
  sha256_hex (match value with JStr s => s | _ => json_text (canonicalJsonValue value) end).

Definition fingerprintSandboxRegistryEntry (entry : SandboxEntry) : string :=
  fingerprintSandboxRecreateValue
    (JObj (List.filter (λ kv, negb (includes ROUTE_RESERVATION_FIELDS kv.1)) entry)).

(** ** Observations and rows *)

Inductive ObservedState : Type := Missing | NotReady | Ready.
#[export] Instance ObservedState_eq_dec : EqDecision ObservedState.
Proof. solve_decision. Defined.

Record SandboxRecreateObservation := mkObs {
  ob_state : ObservedState;
  liveIdentityFingerprint : option string;
}.

(** The string properties of a row; [None]: absent or null. *)
Definition lifecycleGeneration (e : SandboxEntry) : option string :=
  readString (jget e "lifecycleGeneration").
Definition lifecycleLiveIdentityFingerprint (e : SandboxEntry) : option string :=
  readString (jget e "lifecycleLiveIdentityFingerprint").

Definition checkpointSourceWorkload (source : SandboxEntry)
    : option CheckpointSandboxRecreateSourceWorkload :=
  match readString (jget source "imageTag") with
  | Some tag =>
      if truthy tag then
        Some (mkSourceWorkload (readString (jget source "openshellDriver")) tag
          (match jget source "workload" with
           | JObj w =>
               if is_str "legacy-dockerfile" (jget w "kind")
               then Some (mkWorkloadRef (readString (jget w "reference"))
                                        (is_true_json (jget w "shared")))
               else None
           | _ => None
           end))
      else None
  | None => None
  end.

(** ** The journal in a session *)

Definition baseCheckpoint (s : Session) : OnboardCheckpoint :=
  default (deriveCheckpointFromSession s) (checkpoint s).
Definition activeTransaction (s : Session) : option CheckpointSandboxRecreateTransaction :=
  cp_sandboxRecreate (baseCheckpoint s).

(** [session.checkpoint = { ...checkpoint, machineState, updatedAt: now, sandboxRecreate }]. *)
Definition set_journal (s : Session) (now_ : string)
    (tx : option CheckpointSandboxRecreateTransaction) : Session :=
  s <| checkpoint := Some (baseCheckpoint s <| cp_machineState := m_state (machine s) |>
                             <| cp_updatedAt := now_ |> <| cp_sandboxRecreate := tx |>) |>.

Definition ORDERED_PHASES : list CheckpointSandboxRecreatePhase :=
  [PhPlanned; PhDeleting; PhDeleted; PhCreating; PhCreated; PhRegistryCommitting; PhCompleted].
Definition phaseIndex (p : CheckpointSandboxRecreatePhase) : nat :=
  default 0 (fst <$> list_find (λ q, q = p) ORDERED_PHASES).
Definition sandboxRecreatePhaseReached (phase target : CheckpointSandboxRecreatePhase) : bool :=
  (phaseIndex target <=? phaseIndex phase)%nat.

Record BeginSandboxRecreateTransactionInput := mkBegin {
  b_sandboxName : string;
  b_gatewayName : string;
  b_gatewayPort : Z;
  b_sourceEntry : option SandboxEntry;
  b_observation : SandboxRecreateObservation;
  b_targetIntentFingerprint : string;
}.

Definition assertSameTransaction (tx : CheckpointSandboxRecreateTransaction)
    (i : BeginSandboxRecreateTransactionInput) : result checkpoint_error unit :=
  throw_unless ((tx_sandboxName tx =s b_sandboxName i) && (tx_gatewayName tx =s b_gatewayName i)
                && (tx_gatewayPort tx =? b_gatewayPort i)%Z
                && (targetIntentFingerprint tx =s b_targetIntentFingerprint i))
    (DifferentTransaction (b_sandboxName i)).

(** [now_], [id] and [generation] are the defaults: the clock and two random UUIDs. *)
Definition beginSandboxRecreateTransaction (s : Session) (i : BeginSandboxRecreateTransactionInput)
    (now_ id generation : string)
    : result checkpoint_error (Session * CheckpointSandboxRecreateTransaction) :=
  match activeTransaction s with
  | Some existing => assertSameTransaction existing i;; Ok (s, existing)
  | None =>
      throw_unless (bool_decide (ob_state (b_observation i) = Missing)
                    || truthy_opt (liveIdentityFingerprint (b_observation i)))
        (NoStableId (b_sandboxName i));;
      source ← of_option (NoSourceRow (b_sandboxName i)) (b_sourceEntry i);
      let tx := mkTx id 0 (b_sandboxName i) (b_gatewayName i) (b_gatewayPort i)
                  (fingerprintSandboxRegistryEntry source)
                  (liveIdentityFingerprint (b_observation i)) (checkpointSourceWorkload source)
                  (b_targetIntentFingerprint i) generation None
                  (if bool_decide (ob_state (b_observation i) = Missing) then PhDeleted else PhPlanned)
                  now_ now_ in
      Ok (set_journal s now_ (Some tx), tx)
  end.

(** The transaction of the session, when it is [id]'s. *)
Definition owned_transaction (s : Session) (id : string) (e : checkpoint_error)
    : result checkpoint_error CheckpointSandboxRecreateTransaction :=
  match activeTransaction s with
  | Some current => if tx_id current =s id then Ok current else Throw e
  | None => Throw e
  end.

Definition advanceSandboxRecreateTransaction (s : Session) (id : string)
    (phase : CheckpointSandboxRecreatePhase) (now_ : string)
    : result checkpoint_error (Session * CheckpointSandboxRecreateTransaction) :=
  current ← owned_transaction s id OwnershipChanged;
  if bool_decide (tx_phase current = phase) then Ok (s, current)
  else if (phaseIndex phase <? phaseIndex (tx_phase current))%nat
  then Throw (BackwardPhase (tx_phase current) phase)
  else
    let next := current <| tx_revision := js_succ (tx_revision current) |> <| tx_phase := phase |>
                  <| tx_updatedAt := now_ |> in
    Ok (set_journal s now_ (Some next), next).

Definition recordSandboxRecreateTargetCreated (s : Session) (id : string)
    (observation : SandboxRecreateObservation) (now_ : string)
    : result checkpoint_error (Session * CheckpointSandboxRecreateTransaction) :=
  throw_unless (bool_decide (ob_state observation = Ready)
                && truthy_opt (liveIdentityFingerprint observation)) ReplacementNotReady;;
  current ← owned_transaction s id OwnershipChanged;
  let target := targetLiveIdentityFingerprint current in
  let live := liveIdentityFingerprint observation in
  throw_unless (negb (truthy_opt target && negb (bool_decide (target = live)))) DifferentReplacement;;
  if bool_decide (tx_phase current = PhCreated) && bool_decide (target = live) then Ok (s, current)
  else
    throw_unless (bool_decide (tx_phase current = PhCreating)) (WrongPhase (tx_phase current));;
    let next := current <| tx_revision := js_succ (tx_revision current) |> <| tx_phase := PhCreated |>
                  <| targetLiveIdentityFingerprint := live |> <| tx_updatedAt := now_ |> in
    Ok (set_journal s now_ (Some next), next).

Definition abandonSandboxRecreateTransaction (s : Session) (id now_ : string)
    : result checkpoint_error Session :=
  current ← owned_transaction s id OwnershipChanged;
  throw_unless ((tx_revision current =? 0)%Z
                && negb (truthy_opt (targetLiveIdentityFingerprint current)))
    (EffectRecorded (tx_sandboxName current));;
  Ok (set_journal s now_ None).

Definition clearCompletedSandboxRecreateTransaction (s : Session) (id now_ : string)
    : result checkpoint_error Session :=
  current ← owned_transaction s id NotCompleted;
  throw_unless (bool_decide (tx_phase current = PhCompleted)) NotCompleted;;
  Ok (set_journal s now_ None).

(** ** The recovery plan *)

Inductive RejectReason : Type :=
| NoJournaledIdentity | RowMismatch | RegisteredNotReady | NotJournaledReplacement
| CompletedMismatch | SourceRowChanged | SourceIdentityLost | PreservedRowChanged
| SandboxAppeared | RegistrationUncommitted.

Inductive SandboxRecreateRecoveryPlan : Type :=
| ContinueDelete | ContinueCreate | AcceptTarget | Reject (reason : RejectReason).

Definition planSandboxRecreateRecovery (tx : CheckpointSandboxRecreateTransaction)
    (observation : SandboxRecreateObservation) (registryEntry : option SandboxEntry)
    : SandboxRecreateRecoveryPlan :=
  let target := targetLiveIdentityFingerprint tx in
  if bool_decide ((registryEntry ≫= lifecycleGeneration) = Some (targetGeneration tx)) then
    if negb (truthy_opt target) then Reject NoJournaledIdentity
    else if negb (bool_decide ((registryEntry ≫= lifecycleLiveIdentityFingerprint) = target))
    then Reject RowMismatch
    else if negb (bool_decide (ob_state observation = Ready)) then Reject RegisteredNotReady
    else if negb (bool_decide (liveIdentityFingerprint observation = target))
    then Reject NotJournaledReplacement
    else AcceptTarget
  else
    let sourceRegistered :=
      match registryEntry with
      | Some e => fingerprintSandboxRegistryEntry e =s sourceRegistryFingerprint tx
      | None => false
      end in
    match tx_phase tx with
    | PhCompleted => Reject CompletedMismatch
    | PhPlanned | PhDeleting =>
        if negb sourceRegistered then Reject SourceRowChanged
        else if bool_decide (ob_state observation = Missing) then ContinueCreate
        else if negb (truthy_opt (sourceLiveIdentityFingerprint tx))
                || negb (bool_decide (liveIdentityFingerprint observation
                                      = sourceLiveIdentityFingerprint tx))
        then Reject SourceIdentityLost
        else ContinueDelete
    | PhDeleted | PhCreating =>
        if negb sourceRegistered then Reject PreservedRowChanged
        else if bool_decide (ob_state observation = Missing) then ContinueCreate
        else Reject SandboxAppeared
    | PhCreated | PhRegistryCommitting => Reject RegistrationUncommitted
    end.

(** ** The proof a deletion outside the journal's owner checks *)

Record SandboxRecreateSourceProof := mkProof {
  pr_transactionId : string;
  pr_sandboxName : string;
  pr_gatewayName : string;
  pr_gatewayPort : Z;
  pr_sourceRegistryFingerprint : string;
  pr_sourceLiveIdentityFingerprint : option string;
  sourceConfirmedAbsent : bool;
  pr_targetGeneration : string;
}.

Definition sandboxRecreateSourceProof (tx : CheckpointSandboxRecreateTransaction)
    : SandboxRecreateSourceProof :=
  mkProof (tx_id tx) (tx_sandboxName tx) (tx_gatewayName tx) (tx_gatewayPort tx)
    (sourceRegistryFingerprint tx) (sourceLiveIdentityFingerprint tx)
    (sandboxRecreatePhaseReached (tx_phase tx) PhDeleted) (targetGeneration tx).

Record SandboxRecreateSourceCheck := mkCheck {
  ch_sandboxName : string;
  ch_gatewayName : string;
  ch_gatewayPort : Z;
  ch_registryEntry : option SandboxEntry;
  ch_observation : SandboxRecreateObservation;
}.

Inductive SourceMismatchReason : Type :=
| NoActiveTransaction | OtherSandbox (name : string) | OtherGateway (name : string) (port : Z)
| RowAbsent | RowChanged | DeletionUnconfirmed | NoLiveId | NotRecordedSource.

Definition assertSandboxRecreateSourceProof (proof : option SandboxRecreateSourceProof)
    (check : SandboxRecreateSourceCheck) : result SourceMismatchReason SandboxRecreateSourceProof :=
  p ← of_option NoActiveTransaction proof;
  throw_unless (pr_sandboxName p =s ch_sandboxName check) (OtherSandbox (pr_sandboxName p));;
  throw_unless ((pr_gatewayName p =s ch_gatewayName check)
                && (pr_gatewayPort p =? ch_gatewayPort check)%Z)
    (OtherGateway (pr_gatewayName p) (pr_gatewayPort p));;
  row ← of_option RowAbsent (ch_registryEntry check);
  throw_unless (fingerprintSandboxRegistryEntry row =s pr_sourceRegistryFingerprint p) RowChanged;;
  if bool_decide (ob_state (ch_observation check) = Missing) then
    throw_unless (sourceConfirmedAbsent p) DeletionUnconfirmed;; Ok p
  else
    throw_unless (truthy_opt (liveIdentityFingerprint (ch_observation check))) NoLiveId;;
    throw_unless (bool_decide (liveIdentityFingerprint (ch_observation check)
                               = pr_sourceLiveIdentityFingerprint p)) NotRecordedSource;;
    Ok p.

Definition selectedGatewayForSandboxRecreate (c : option OnboardCheckpoint) (gatewayName : string)
    : option (string * Z) :=
  match cp_gatewayAuthority <$> c with
  | Some (Selected a) => if ga_name a =s gatewayName then Some (ga_name a, ga_port a) else None
  | _ => None
  end.

Record RecreateRequest := mkRequest {
  rq_id : string;
  rq_targetGeneration : string;
  rq_targetIntentFingerprint : string;
}.

(** [None]: the journal does not match the requested replacement. *)
Definition matchingSandboxRecreateTransaction (s : option Session) (sandboxName gatewayName : string)
    (request : RecreateRequest) : option CheckpointSandboxRecreateTransaction :=
  tx ← (s ≫= checkpoint) ≫= cp_sandboxRecreate;
  if (tx_id tx =s rq_id request) && (tx_sandboxName tx =s sandboxName)
     && (tx_gatewayName tx =s gatewayName)
     && (targetIntentFingerprint tx =s rq_targetIntentFingerprint request)
     && (targetGeneration tx =s rq_targetGeneration request)
  then Some tx else None.

(** ** Lemmas: the journal in a well-formed session *)

Definition tx_valid (tx : CheckpointSandboxRecreateTransaction) : Prop :=
  parseSandboxRecreateTransaction (tx_json tx) = Some tx.

Lemma journal_tx_rt tx : tx_valid tx → readSandboxRecreate (tx_json tx) = Some (Some tx).
Proof. unfold tx_valid, tx_json, readSandboxRecreate. by intros ->. Qed.

Lemma with_checkpoint_ok s c :
  session_ok s → checkpoint_parts parseURL c → session_ok (s <| checkpoint := Some c |>).
Proof.
  intros [] Hc%serialized_parse. split; try done. cbn. eauto.
Qed.

Lemma with_checkpoint_stable s c :
  (mem_stable s → mem_stable (s <| checkpoint := c |>))
  ∧ (persist_stable s → persist_stable (s <| checkpoint := c |>)).
Proof. split; [by intros []|]. intros [[] ?]. by split. Qed.

Lemma parts_at c m at_ :
  checkpoint_parts parseURL c → isCanonicalIso at_ = true →
  checkpoint_parts parseURL (c <| cp_machineState := m |> <| cp_updatedAt := at_ |>).
Proof. intros [] ?. by split. Qed.

Lemma parts_updatedAt s at_ :
  deriveCheckpointFromSession s <| cp_updatedAt := at_ |>
  = deriveCheckpointFromSession (s <| updatedAt := at_ |>).
Proof. done. Qed.

Lemma base_parts s m at_ :
  url_origin_law parseURL → session_ok s → isCanonicalIso at_ = true →
  checkpoint_parts parseURL (baseCheckpoint s <| cp_machineState := m |> <| cp_updatedAt := at_ |>).
Proof.
  intros Hurl Hok Hat. unfold baseCheckpoint. pose proof (ok_checkpoint s Hok) as Hc.
  destruct (checkpoint s) as [c|]; cbn [default from_option id] in *.
  - destruct Hc as (o & a & t & Hc%schema_parts); [|done]. by apply parts_at.
  - pose proof (derived_parts (s <| updatedAt := at_ |>) (session_ok_updatedAt _ _ Hok) Hat) as [].
    by split.
Qed.

Lemma base_journal_valid s tx :
  url_origin_law parseURL → session_ok s → activeTransaction s = Some tx →
  tx_valid tx
  ∧ journal_matches (cp_sandboxIdentity (baseCheckpoint s)) (cp_gatewayAuthority (baseCheckpoint s)) tx
    = true.
Proof.
  intros Hurl Hok Ha. unfold activeTransaction, baseCheckpoint in *.
  pose proof (ok_checkpoint s Hok) as Hc. destruct (checkpoint s) as [c|]; [|done].
  cbn [default from_option id] in *. destruct Hc as (o & a & t & Hc%schema_parts); [|done].
  destruct Hc as [_ _ _ _ _ _ _ _ Hj Hm]. rewrite Ha in Hj, Hm. split; [|done].
  cbn [from_option] in Hj. unfold tx_valid, readSandboxRecreate in *. unfold tx_json in *.
  destruct (parseSandboxRecreateTransaction _); [|done]. by injection Hj as ->.
Qed.

Lemma set_journal_ok s at_ tx :
  url_origin_law parseURL → session_ok s → isCanonicalIso at_ = true →
  from_option tx_valid True tx →
  from_option (journal_matches (cp_sandboxIdentity (baseCheckpoint s))
                 (cp_gatewayAuthority (baseCheckpoint s))) true tx = true →
  session_ok (set_journal s at_ tx).
Proof.
  intros Hurl Hok Hat Htx Hm. apply with_checkpoint_ok; [done|].
  pose proof (base_parts s (m_state (machine s)) at_ Hurl Hok Hat) as []. split; try done.
  destruct tx as [tx|]; [|done]. by apply journal_tx_rt.
Qed.

Lemma set_journal_stable s at_ tx :
  (mem_stable s → mem_stable (set_journal s at_ tx))
  ∧ (persist_stable s → persist_stable (set_journal s at_ tx)).
Proof. apply with_checkpoint_stable. Qed.

Lemma set_journal_active s at_ tx : activeTransaction (set_journal s at_ tx) = tx.
Proof. done. Qed.

(** ** Lemmas: the journal's history *)

Inductive JournalOp : Type :=
| OpAdvance (id : string) (phase : CheckpointSandboxRecreatePhase) (now_ : string)
| OpCreated (id : string) (observation : SandboxRecreateObservation) (now_ : string)
| OpAbandon (id now_ : string)
| OpClear (id now_ : string).

Definition run_op (s : Session) (op : JournalOp) : result checkpoint_error Session :=
  match op with
  | OpAdvance id phase now_ => fst <$> advanceSandboxRecreateTransaction s id phase now_
  | OpCreated id o now_ => fst <$> recordSandboxRecreateTargetCreated s id o now_
  | OpAbandon id now_ => abandonSandboxRecreateTransaction s id now_
  | OpClear id now_ => clearCompletedSandboxRecreateTransaction s id now_
  end.
Fixpoint run_ops (s : Session) (ops : list JournalOp) : result checkpoint_error Session :=
  match ops with [] => Ok s | op :: ops => s' ← run_op s op; run_ops s' ops end.

(** The clock gives ISO times and the probe hashes what it observes. *)
Definition op_fits (op : JournalOp) : Prop :=
  match op with
  | OpAdvance _ _ now_ | OpAbandon _ now_ | OpClear _ now_ => isCanonicalIso now_ = true
  | OpCreated _ o now_ =>
      isCanonicalIso now_ = true
      ∧ from_option SHA256_PATTERN true (liveIdentityFingerprint o) = true
  end.

(** One revision per phase at most, and no target before its creation. *)
Record journal_wf (tx : CheckpointSandboxRecreateTransaction) : Prop := {
  wf_revision : (0 ≤ tx_revision tx ≤ Z.of_nat (phaseIndex (tx_phase tx)))%Z;
  wf_target : truthy_opt (targetLiveIdentityFingerprint tx) = true →
              sandboxRecreatePhaseReached (tx_phase tx) PhCreated = true;
}.

(** The source, the target and the owner of a transaction never change; its phase
    and its revision only grow, together. *)
Record journal_le (tx tx' : CheckpointSandboxRecreateTransaction) : Prop := {
  le_frame : tx' = tx <| tx_revision := tx_revision tx' |> <| tx_phase := tx_phase tx' |>
                     <| targetLiveIdentityFingerprint := targetLiveIdentityFingerprint tx' |>
                     <| tx_updatedAt := tx_updatedAt tx' |>;
  le_phase : (phaseIndex (tx_phase tx) ≤ phaseIndex (tx_phase tx'))%nat;
  le_revision : (tx_revision tx ≤ tx_revision tx')%Z;
  le_same : tx_phase tx = tx_phase tx' → tx' = tx;
  le_target : truthy_opt (targetLiveIdentityFingerprint tx) = true →
              targetLiveIdentityFingerprint tx' = targetLiveIdentityFingerprint tx;
}.

Lemma phaseIndex_inj p q : phaseIndex p = phaseIndex q → p = q.
Proof. by destruct p, q. Qed.
Lemma phaseIndex_max p : (phaseIndex p ≤ 6)%nat.
Proof. destruct p; vm_compute; lia. Qed.

Lemma journal_le_refl tx : journal_le tx tx.
Proof. split; try done. by destruct tx. Qed.

Lemma journal_le_trans t1 t2 t3 : journal_le t1 t2 → journal_le t2 t3 → journal_le t1 t3.
Proof.
  intros [F1 P1 R1 S1 T1] [F2 P2 R2 S2 T2]. split; try lia.
  - rewrite F2, F1. by destruct t1.
  - intros E. assert (tx_phase t1 = tx_phase t2) as E2.
    { apply phaseIndex_inj. rewrite E in P1 |- *. lia. }
    rewrite (S2 ltac:(congruence)). by apply S1.
  - intros H. rewrite <- (T1 H). apply T2. by rewrite (T1 H).
Qed.

(** The fields of a transaction the checkpoint parser accepts. *)
Record tx_fields (tx : CheckpointSandboxRecreateTransaction) : Prop := {
  vf_id : UUID_PATTERN (tx_id tx) = true;
  vf_sandbox : readSandboxName (JStr (tx_sandboxName tx)) = Some (tx_sandboxName tx);
  vf_gateway : truthy (tx_gatewayName tx) = true;
  vf_port : readPortNumber (JNum (NInt (tx_gatewayPort tx))) = Some (tx_gatewayPort tx);
  vf_canonical : (tx_gatewayName tx =s canonicalGatewayName (tx_gatewayPort tx)) = true;
  vf_source : SHA256_PATTERN (sourceRegistryFingerprint tx) = true;
  vf_live : from_option SHA256_PATTERN true (sourceLiveIdentityFingerprint tx) = true;
  vf_workload : parseSandboxRecreateSourceWorkload (from_option source_workload_json JNull (sourceWorkload tx))
                = Some (sourceWorkload tx);
  vf_intent : SHA256_PATTERN (targetIntentFingerprint tx) = true;
  vf_generation : UUID_PATTERN (targetGeneration tx) = true;
  vf_target : from_option SHA256_PATTERN true (targetLiveIdentityFingerprint tx) = true;
  vf_revision : (0 ≤ tx_revision tx ≤ MAX_SAFE_INTEGER)%Z;
  vf_started : isCanonicalIso (tx_startedAt tx) = true;
  vf_updated : isCanonicalIso (tx_updatedAt tx) = true;
}.

Lemma nullable_sha256 o :
  readNullableSha256 (jopt o) = if from_option SHA256_PATTERN true o then Some o else None.
Proof. destruct o; [|done]. cbn [jopt from_option readNullableSha256]. by destruct (SHA256_PATTERN _). Qed.

Lemma tx_valid_fields tx : tx_valid tx ↔ tx_fields tx.
Proof.
  unfold tx_valid, parseSandboxRecreateTransaction, tx_json. jget_simpl. cbn [Z.eqb negb].
  destruct tx as [id rev sn gn gp sr sl sw ti tg tl ph st up]. cbn [tx_id tx_revision tx_sandboxName
    tx_gatewayName tx_gatewayPort sourceRegistryFingerprint sourceLiveIdentityFingerprint
    sourceWorkload targetIntentFingerprint targetGeneration targetLiveIdentityFingerprint tx_phase
    tx_startedAt tx_updatedAt]. rewrite !nullable_sha256, readPhase_id.
  unfold readUuid, readSha256, readNonEmpty, readSafeNatural, readCanonicalIsoTimestamp. split.
  - intros H. opt_inv H. if_somes. bools.
    split; cbn [tx_id tx_revision tx_sandboxName tx_gatewayName
      tx_gatewayPort sourceRegistryFingerprint sourceLiveIdentityFingerprint sourceWorkload
      targetIntentFingerprint targetGeneration targetLiveIdentityFingerprint tx_startedAt tx_updatedAt];
      try done; try (split; done); rewrite_bools; try done.
    + by apply truthy_true.
    + by apply String.eqb_eq.
  - intros []. simpl in *. rewrite_bools. rewrite vf_sandbox0, vf_port0, vf_workload0. cbn.
    rewrite_bools. cbn. rewrite !(proj2 (Z.leb_le _ _)) by lia. done.
Qed.

Lemma owned_inv s id e tx :
  owned_transaction s id e = Ok tx → activeTransaction s = Some tx ∧ tx_id tx = id.
Proof.
  unfold owned_transaction. destruct (activeTransaction s) as [t|]; [|done].
  destruct (tx_id t =s id) eqn:E; [|done]. bools. by intros [= <-].
Qed.

Lemma phase_bound p : (Z.of_nat (phaseIndex p) < MAX_SAFE_INTEGER)%Z.
Proof. pose proof (phaseIndex_max p). unfold MAX_SAFE_INTEGER. lia. Qed.

(** One step of the journal: later, still well formed, still accepted by the parser. *)
Lemma journal_step tx phase target at_ :
  journal_wf tx → tx_valid tx → (phaseIndex (tx_phase tx) < phaseIndex phase)%nat →
  isCanonicalIso at_ = true → from_option SHA256_PATTERN true target = true →
  (truthy_opt (targetLiveIdentityFingerprint tx) = true → target = targetLiveIdentityFingerprint tx) →
  (truthy_opt target = true → sandboxRecreatePhaseReached phase PhCreated = true) →
  let tx' := tx <| tx_revision := js_succ (tx_revision tx) |> <| tx_phase := phase |>
               <| targetLiveIdentityFingerprint := target |> <| tx_updatedAt := at_ |> in
  journal_le tx tx' ∧ journal_wf tx' ∧ tx_valid tx'.
Proof.
  intros [Hr Ht] Hv Hp Hat Hsha Hkeep Hnew tx'. pose proof (phase_bound (tx_phase tx)) as Hb.
  assert (Hs : tx_revision tx' = (tx_revision tx + 1)%Z) by (cbn; apply js_succ_lt; lia).
  assert (Hph : tx_phase tx' = phase) by done.
  split; [|split].
  - split; [reflexivity|rewrite Hph; lia|rewrite Hs; lia| |exact Hkeep].
    rewrite Hph. intros E. rewrite E in Hp. lia.
  - split; rewrite ?Hs, ?Hph; [lia|exact Hnew].
  - apply tx_valid_fields in Hv as []. apply tx_valid_fields. split; try assumption. rewrite Hs. lia.
Qed.

(** What an operation leaves behind. *)
Definition journal_after (tx : CheckpointSandboxRecreateTransaction) (s' : Session) : Prop :=
  match activeTransaction s' with
  | Some tx' => journal_le tx tx' ∧ journal_wf tx'
  | None => ∃ tx', journal_le tx tx'
              ∧ (tx_phase tx' = PhCompleted
                 ∨ (tx_revision tx' = 0%Z ∧ truthy_opt (targetLiveIdentityFingerprint tx') = false))
  end.

Lemma journal_set_ok s tx tx' at_ :
  url_origin_law parseURL → session_ok s → activeTransaction s = Some tx → isCanonicalIso at_ = true →
  journal_le tx tx' ∧ journal_wf tx' ∧ tx_valid tx' →
  session_ok (set_journal s at_ (Some tx')) ∧ journal_after tx (set_journal s at_ (Some tx')).
Proof.
  intros Hurl Hok Ha Hat (Hle & Hwf & Hv). split; [|by split].
  apply set_journal_ok; try done. destruct (base_journal_valid s tx Hurl Hok Ha) as [_ Hm].
  rewrite (le_frame _ _ Hle). exact Hm.
Qed.

Lemma clear_step_ok s tx at_ :
  url_origin_law parseURL → session_ok s → isCanonicalIso at_ = true →
  (tx_phase tx = PhCompleted
   ∨ (tx_revision tx = 0%Z ∧ truthy_opt (targetLiveIdentityFingerprint tx) = false)) →
  session_ok (set_journal s at_ None) ∧ journal_after tx (set_journal s at_ None).
Proof.
  intros Hurl Hok Hat Hd. split; [by apply set_journal_ok|]. exists tx. by split; [apply journal_le_refl|].
Qed.

Lemma run_op_ok s op s' tx :
  url_origin_law parseURL → session_ok s → op_fits op → activeTransaction s = Some tx →
  journal_wf tx → run_op s op = Ok s' → session_ok s' ∧ journal_after tx s'.
Proof.
  intros Hurl Hok Hfit Ha Hwf.
  destruct (base_journal_valid s tx Hurl Hok Ha) as [Hv _].
  pose proof (proj1 (tx_valid_fields tx) Hv) as Hvf.
  assert (Hstay : session_ok s ∧ journal_after tx s).
  { split; [done|]. unfold journal_after. rewrite Ha. by split; [apply journal_le_refl|]. }
  destruct op as [id phase at_|id o at_|id at_|id at_]; cbn [run_op op_fits] in *.
  - unfold advanceSandboxRecreateTransaction. destruct (owned_transaction s id _) as [t|] eqn:E; [|done].
    apply owned_inv in E as [E _]. rewrite E in Ha. injection Ha as ->. cbn [mbind result_bind].
    destruct (bool_decide (tx_phase tx = phase)) eqn:Ep; [by intros [= <-]|]. bools.
    destruct (phaseIndex phase <? phaseIndex (tx_phase tx))%nat eqn:El; [done|].
    apply Nat.ltb_ge in El. intros [= <-]. apply (journal_set_ok s tx); [done..|].
    apply (journal_step tx phase (targetLiveIdentityFingerprint tx)); try done.
    + assert (phaseIndex (tx_phase tx) ≠ phaseIndex phase) by (intros H; by apply phaseIndex_inj in H).
      lia.
    + by destruct Hvf.
    + intros H. apply (wf_target _ Hwf) in H. unfold sandboxRecreatePhaseReached in *.
      apply Nat.leb_le in H. apply Nat.leb_le. lia.
  - destruct Hfit as [Hat Hsha]. unfold recordSandboxRecreateTargetCreated, throw_unless.
    destruct (bool_decide _ && _); [|done]. cbn [mbind result_bind].
    destruct (owned_transaction s id _) as [t|] eqn:E; [|done].
    apply owned_inv in E as [E _]. rewrite E in Ha. injection Ha as ->. cbn [mbind result_bind].
    destruct (truthy_opt _ && _) eqn:Ed; [done|]. cbn [negb mbind result_bind].
    destruct (bool_decide _ && bool_decide _) ; [by intros [= <-]|].
    destruct (bool_decide (tx_phase tx = PhCreating)) eqn:Ep; [|done]. bools.
    cbn [mbind result_bind fmap result_fmap fst]. intros [= <-]. apply (journal_set_ok s tx); [done..|].
    apply (journal_step tx PhCreated (liveIdentityFingerprint o)); try done.
    + rewrite Ep. vm_compute. lia.
    + intros H. rewrite H in Ed. cbn [andb] in Ed. by bools.
  - unfold abandonSandboxRecreateTransaction, throw_unless.
    destruct (owned_transaction s id _) as [t|] eqn:E; [|done].
    apply owned_inv in E as [E _]. rewrite E in Ha. injection Ha as ->. cbn [mbind result_bind].
    destruct (_ && _) eqn:Ed; [|done]. cbn [mbind result_bind]. bools. intros [= <-].
    apply clear_step_ok; [done..|]. by right.
  - unfold clearCompletedSandboxRecreateTransaction, throw_unless.
    destruct (owned_transaction s id _) as [t|] eqn:E; [|done].
    apply owned_inv in E as [E _]. rewrite E in Ha. injection Ha as ->. cbn [mbind result_bind].
    destruct (bool_decide _) eqn:Ed; [|done]. cbn [mbind result_bind]. bools. intros [= <-].
    apply clear_step_ok; [done..|]. by left.
Qed.

Lemma run_op_inactive s op : activeTransaction s = None → is_ok (run_op s op) = false.
Proof.
  intros Ha. destruct op; cbn [run_op]; unfold advanceSandboxRecreateTransaction,
    recordSandboxRecreateTargetCreated, abandonSandboxRecreateTransaction,
    clearCompletedSandboxRecreateTransaction, owned_transaction, throw_unless; rewrite Ha; try done.
  by destruct (_ && _).
Qed.

Lemma run_ops_ok ops s s' tx :
  url_origin_law parseURL → session_ok s → Forall op_fits ops → activeTransaction s = Some tx →
  journal_wf tx → run_ops s ops = Ok s' → session_ok s' ∧ journal_after tx s'.
Proof.
  intros Hurl. revert s tx. induction ops as [|op ops IH]; intros s tx Hok Hf Ha Hwf.
  { intros [= <-]. split; [done|]. unfold journal_after. rewrite Ha. by split; [apply journal_le_refl|]. }
  apply Forall_cons in Hf as [Hop Hf]. cbn [run_ops].
  destruct (run_op s op) as [s1|] eqn:E; [|done]. cbn [mbind result_bind]. intros Hr.
  destruct (run_op_ok s op s1 tx Hurl Hok Hop Ha Hwf E) as [Hok1 H1].
  unfold journal_after in H1. destruct (activeTransaction s1) as [tx1|] eqn:Ea.
  - destruct H1 as [Hle1 Hwf1]. destruct (IH s1 tx1 Hok1 Hf Ea Hwf1 Hr) as [Hok' H'].
    split; [done|]. unfold journal_after in *. destruct (activeTransaction s') as [tx'|].
    + destruct H' as [Hle' ?]. split; [by eapply journal_le_trans|done].
    + destruct H' as (tx' & Hle' & Hd). exists tx'. split; [by eapply journal_le_trans|done].
  - destruct ops as [|op' ops]; [|]; cbn [run_ops] in Hr.
    + injection Hr as <-. split; [done|]. unfold journal_after. rewrite Ea. exact H1.
    + pose proof (run_op_inactive s1 op' Ea) as Hi. by destruct (run_op s1 op').
Qed.
End WithHost.
End WithCollation.

(** ** The runtime of a replacement *)

Inductive recreate_error : Type :=
| StoreThrew (e : session_error)
| ObserveThrew
| JournalMismatch (sandboxName : string)
| ResumeRefused (reason : RejectReason)
| NotJournaledSource
| StillReported
| NoRecreateTransaction
| JournalUnrecorded
| ReplacementUnproven.

(** [randomUUID()], the n-th one. *)
Class Uuids := random_uuid : nat → string.

Inductive SandboxRecreateSourcePresence : Type := PresenceMissing | PresenceSource.
#[export] Instance presence_eq_dec : EqDecision SandboxRecreateSourcePresence.
Proof. solve_decision. Defined.

(** The transaction as loaded and the variables the closures share. *)
Record SandboxRecreateRuntime := mkRuntime {
  rr_transaction : CheckpointSandboxRecreateTransaction;
  rr_phase : CheckpointSandboxRecreatePhase;
  rr_target : option string;
  acceptedTarget : bool;
}.
#[export] Instance eta_runtime : Eta SandboxRecreateRuntime := λ r,
  mkRuntime (rr_transaction r) (rr_phase r) (rr_target r) (acceptedTarget r).

Section Runtime.
Context {collation : Collation} {host : Host} {receipts : ReceiptStore} {uuids : Uuids}.
(** The environment outside the session file; [look env sandbox gateway] is what a
    probe of it reports, [None] when the probe throws. *)
Context {Env : Type} (look : Env → string → string → option SandboxRecreateObservation).

Definition JM (A : Type) : Type := ST (World * Env) recreate_error A.
Definition store {A} (m : M A) : JM A := λ we,
  match m we.1 with
  | (Ok a, w') => (Ok a, (w', we.2))
  | (Throw e, w') => (Throw (StoreThrew e), (w', we.2))
  end.
Definition observe (sandboxName gatewayName : string) : JM SandboxRecreateObservation := λ we,
  (of_option ObserveThrew (look we.2 sandboxName gatewayName), we).
Definition refused_unless (b : bool) (e : recreate_error) : JM unit := st_lift (throw_unless b e).

Definition checkpoint_result {A} (r : result checkpoint_error A) : M A :=
  st_lift (match r with Ok a => Ok a | Throw e => Throw (CheckpointRefused e) end).

(** A journal operation as an update of the session file; [X] is what it leaves
    in the caller's variable. *)
Definition journal_update {X}
    (op : Session → string → result checkpoint_error (Session * X)) : M X :=
  updated ← updateSessionWith (λ current, at_ ← read_clock; checkpoint_result (op current at_));
  mret updated.2.

Definition rr_advance (r : SandboxRecreateRuntime) (next : CheckpointSandboxRecreatePhase)
    : JM SandboxRecreateRuntime :=
  phase ← store (journal_update (λ current at_,
            prod_map id tx_phase
              <$> advanceSandboxRecreateTransaction current (tx_id (rr_transaction r)) next at_));
  mret (r <| rr_phase := phase |>).

Definition rr_observe (r : SandboxRecreateRuntime) : JM SandboxRecreateObservation :=
  observe (tx_sandboxName (rr_transaction r)) (tx_gatewayName (rr_transaction r)).

(** The live sandbox is the journaled source. *)
Definition is_source (tx : CheckpointSandboxRecreateTransaction)
    (live : SandboxRecreateObservation) : bool :=
  truthy_opt (sourceLiveIdentityFingerprint tx)
  && bool_decide (liveIdentityFingerprint live = sourceLiveIdentityFingerprint tx).

Definition presence_of (live : SandboxRecreateObservation) : SandboxRecreateSourcePresence :=
  if bool_decide (ob_state live = Missing) then PresenceMissing else PresenceSource.

Definition beginDelete (r : SandboxRecreateRuntime)
    : JM (SandboxRecreateSourcePresence * SandboxRecreateRuntime) :=
  live ← rr_observe r;
  refused_unless (bool_decide (ob_state live = Missing) || is_source (rr_transaction r) live)
    NotJournaledSource;;
  r ← (if sandboxRecreatePhaseReached (rr_phase r) PhDeleted then mret r else rr_advance r PhDeleting);
  mret (presence_of live, r).

Definition confirmDeleted (r : SandboxRecreateRuntime) : JM SandboxRecreateRuntime :=
  live ← rr_observe r;
  refused_unless (bool_decide (ob_state live = Missing)) StillReported;;
  rr_advance r PhDeleted.

Definition recordCreated (r : SandboxRecreateRuntime) : JM SandboxRecreateRuntime :=
  observation ← rr_observe r;
  target ← store (journal_update (λ current at_,
             prod_map id targetLiveIdentityFingerprint
               <$> recordSandboxRecreateTargetCreated current (tx_id (rr_transaction r))
                     observation at_));
  mret (r <| rr_target := target |>).

(** [lifecycleGeneration] and [lifecycleLiveIdentityFingerprint] of the new row. *)
Definition registrationFields (r : SandboxRecreateRuntime) : list (string * json) :=
  ("lifecycleGeneration", JStr (targetGeneration (rr_transaction r)))
  :: (match rr_target r with
      | Some t => if truthy t then [("lifecycleLiveIdentityFingerprint", JStr t)] else []
      | None => []
      end).

(** [load] is the store's [loadSession].  The runtime of no request, [None], deletes
    nothing ([no_begin_delete]) and its other operations do nothing. *)
Definition createSandboxRecreateRuntime (load : M (option Session)) (request : option RecreateRequest)
    (sandboxName gatewayName : string) (registryEntry : option SandboxEntry)
    : JM (option SandboxRecreateRuntime) :=
  match request with
  | None => mret None
  | Some request =>
      s ← store load;
      tx ← st_lift (of_option (JournalMismatch sandboxName)
             (matchingSandboxRecreateTransaction s sandboxName gatewayName request));
      observation ← observe sandboxName (tx_gatewayName tx);
      let r := mkRuntime tx (tx_phase tx) (targetLiveIdentityFingerprint tx) false in
      match planSandboxRecreateRecovery tx observation registryEntry with
      | Reject reason => st_throw (ResumeRefused reason)
      | AcceptTarget => mret (Some (r <| acceptedTarget := true |>))
      | ContinueCreate =>
          if (phaseIndex (tx_phase tx) <? phaseIndex PhDeleted)%nat
          then r ← rr_advance r PhDeleted; mret (Some r) else mret (Some r)
      | ContinueDelete => mret (Some r)
      end
  end.

Definition no_begin_delete : JM SandboxRecreateSourcePresence := st_throw NoRecreateTransaction.

(** ** Opening and closing a journal (onboard-recreate-journal.ts) *)

Record SandboxRecreateTarget := mkTarget {
  tg_sandboxName : string; tg_gatewayName : string; tg_gatewayPort : Z }.

(** The mutator both journals open with: the checkpoint takes the identity and the
    authority of the target, then the transaction is begun. *)
Definition open_in_session (target : SandboxRecreateTarget) (agentName : string)
    (authority : CheckpointGatewayAuthority) (intent : string) (source : option SandboxEntry)
    (observation : SandboxRecreateObservation) (current : Session) : M Session :=
  at_ ← read_clock;
  let current := current <| checkpoint := Some (baseCheckpoint current
        <| cp_machineState := m_state (machine current) |> <| cp_updatedAt := at_ |>
        <| cp_sandboxIdentity := Selected (mkIdentity (tg_sandboxName target) agentName) |>
        <| cp_gatewayAuthority := Selected authority |>) |> in
  w ← st_get;
  at_ ← read_clock;
  begun ← checkpoint_result (beginSandboxRecreateTransaction current
            (mkBegin (tg_sandboxName target) (tg_gatewayName target) (tg_gatewayPort target)
               source observation intent)
            at_ (random_uuid (2 * w_tick w)) (random_uuid (2 * w_tick w + 1)));
  mret begun.1.

Definition open_journal (target : SandboxRecreateTarget) (agentName : string)
    (authority : CheckpointGatewayAuthority) (intent : string) (source : option SandboxEntry)
    (observation : SandboxRecreateObservation)
    : JM (Session * CheckpointSandboxRecreateTransaction) :=
  s ← store (updateSession (open_in_session target agentName authority intent source observation));
  tx ← st_lift (of_option JournalUnrecorded (checkpoint s ≫= cp_sandboxRecreate));
  mret (s, tx).

(** The plan for the transaction already in the file, if any. *)
Definition resume_plan (source : option SandboxEntry) (observation : SandboxRecreateObservation)
    : JM (option SandboxRecreateRecoveryPlan) :=
  loaded ← store loadSession;
  let active := (loaded ≫= checkpoint) ≫= cp_sandboxRecreate in
  match (λ tx, planSandboxRecreateRecovery tx observation source) <$> active with
  | Some (Reject reason) => st_throw (ResumeRefused reason)
  | plan => mret plan
  end.

(** [authority] and [sourceEntry]: what [resolveGatewayTeardownAuthority] and the
    registry give for the target. *)
Definition openOnboardRecreateJournal (target : SandboxRecreateTarget) (agentName intent : string)
    (authority : CheckpointGatewayAuthority) (sourceEntry : option SandboxEntry)
    : JM (option SandboxRecreateRuntime) :=
  source ← st_lift (of_option (StoreThrew (CheckpointRefused (NoSourceRow (tg_sandboxName target))))
                      sourceEntry);
  observation ← observe (tg_sandboxName target) (tg_gatewayName target);
  resume_plan (Some source) observation;;
  opened ← open_journal target agentName authority intent (Some source) observation;
  let tx := opened.2 in
  createSandboxRecreateRuntime (mret (Some opened.1))
    (Some (mkRequest (tx_id tx) (targetGeneration tx) (targetIntentFingerprint tx)))
    (tg_sandboxName target) (tg_gatewayName target) (Some source).

Definition journal_abandon (r : SandboxRecreateRuntime) : JM unit :=
  store (journal_update (λ current at_,
    (λ s, (s, tt)) <$> abandonSandboxRecreateTransaction current (tx_id (rr_transaction r)) at_)).

(** [for (const next of ["registry_committing", "completed"])]: the phase is read again
    each time. *)
Fixpoint advance_through (id at_ : string) (phases : list CheckpointSandboxRecreatePhase) (s : Session)
    : result checkpoint_error Session :=
  match phases with
  | [] => Ok s
  | next :: rest =>
      s ← (match tx_phase <$> ((checkpoint s) ≫= cp_sandboxRecreate) with
           | Some phase =>
               if sandboxRecreatePhaseReached phase next then Ok s
               else fst <$> advanceSandboxRecreateTransaction s id next at_
           | None => fst <$> advanceSandboxRecreateTransaction s id next at_
           end);
      advance_through id at_ rest s
  end.

(** One reading of the clock stands for the readings of one synchronous mutator. *)
Definition journal_complete (r : SandboxRecreateRuntime) : JM unit :=
  store (journal_update (λ current at_,
    s ← advance_through (tx_id (rr_transaction r)) at_ [PhRegistryCommitting; PhCompleted] current;
    (λ s, (s, tt)) <$> clearCompletedSandboxRecreateTransaction s (tx_id (rr_transaction r)) at_)).

(** ** rebuild-recreate-journal.ts *)

Record RebuildRecreateJournal := mkRebuild {
  rj_runtime : SandboxRecreateRuntime;
  rj_sourceConfirmedAbsent : bool;
}.

Definition openRebuildRecreateJournal (target : SandboxRecreateTarget) (agentName intent : string)
    (authority : CheckpointGatewayAuthority) (sourceEntry : option SandboxEntry)
    : JM RebuildRecreateJournal :=
  observation ← observe (tg_sandboxName target) (tg_gatewayName target);
  plan ← resume_plan sourceEntry observation;
  let recovery := default ContinueDelete plan in
  opened ← open_journal target agentName authority intent sourceEntry observation;
  let tx := opened.2 in
  mret (mkRebuild
    (mkRuntime tx (tx_phase tx) (targetLiveIdentityFingerprint tx)
       (match recovery with AcceptTarget => true | _ => false end))
    (match recovery with ContinueCreate => true | _ => false end)).

Definition rebuild_markDeleting (r : SandboxRecreateRuntime) : JM SandboxRecreateRuntime :=
  if sandboxRecreatePhaseReached (rr_phase r) PhDeleted then mret r else rr_advance r PhDeleting.

Definition rebuild_observeSourceForDelete (r : SandboxRecreateRuntime)
    : JM SandboxRecreateSourcePresence :=
  current ← rr_observe r;
  refused_unless (bool_decide (ob_state current = Missing) || is_source (rr_transaction r) current)
    NotJournaledSource;;
  mret (presence_of current).

Definition rebuild_completeAcceptedTarget (r : SandboxRecreateRuntime) : JM unit :=
  refused_unless (acceptedTarget r) ReplacementUnproven;;
  r ← (if sandboxRecreatePhaseReached (rr_phase r) PhRegistryCommitting then mret r
       else rr_advance r PhRegistryCommitting);
  r ← (if sandboxRecreatePhaseReached (rr_phase r) PhCompleted then mret r
       else rr_advance r PhCompleted);
  store (journal_update (λ current at_,
    (λ s, (s, tt)) <$> clearCompletedSandboxRecreateTransaction current (tx_id (rr_transaction r)) at_)).

(** ** Lemmas: the runtime over the session file *)

Definition clock_law : Prop := ∀ n, isCanonicalIso (now n) = true.

Lemma active_updatedAt s at_ : activeTransaction (s <| updatedAt := at_ |>) = activeTransaction s.
Proof. unfold activeTransaction, baseCheckpoint. cbn. by destruct (checkpoint s). Qed.

Lemma journal_update_spec {X} (op : Session → string → result checkpoint_error (Session * X)) w s :
  url_origin_law parseURL → clock_law → holds w s →
  (∀ at_ s' x, isCanonicalIso at_ = true → op s at_ = Ok (s', x) →
     session_ok s' ∧ (s' = s ∨ ∃ c, s' = s <| checkpoint := Some c |>)) →
  match op s (now (S (S (w_tick w)))) with
  | Ok (s', x) => ∃ w' saved, runs (journal_update op) w (Ok x) w' ∧ holds w' saved
      ∧ activeTransaction saved = activeTransaction s' ∧ w_events w' = w_events w
  | Throw e => ∃ w', runs (journal_update op) w (Throw (CheckpointRefused e)) w' ∧ same_but_clock w w'
  end.
Proof.
  intros Hurl Hclock Hh Hop. pose proof Hh as [_ Hok Hm Hp Hf].
  pose proof (load_or_create_loaded _ _ _ (holds_loads _ _ Hurl Hh)) as Hl.
  destruct (op s _) as [[s' x]|e] eqn:Eo.
  - set (w2 := w <| w_tick := S (S (S (w_tick w))) |>).
    destruct (Hop _ _ _ (Hclock _) Eo) as [Hok' Hs'].
    assert (Hst : mem_stable s' ∧ persist_stable s' ∧ invalidDisclosure s' = false).
    { destruct Hs' as [->|[c ->]]; [done|].
      destruct (with_checkpoint_stable s (Some c)). split_and!; auto. }
    destruct Hst as (Hm' & Hp' & Hf').
    assert (Hrun : runs (at_ ← read_clock; checkpoint_result (op s at_))
                     (w <| w_tick := S (S (w_tick w)) |>) (Ok (s', x)) w2).
    { unfold runs, mbind, ST_bind, read_clock, checkpoint_result, st_lift.
      cbn [w_tick upd eta_World]. by rewrite Eo. }
    pose proof (updateSessionWith_exact
      (λ current, at_ ← read_clock; checkpoint_result (op current at_)) w w2 s s' x Hurl Hh Hrun
      Hok' Hm') as Hu.
    exists (after_save w2 (saved_at w2 s')), (saved_at w2 s').
    split. { unfold runs, journal_update, mbind, ST_bind. unfold runs, mbind, ST_bind in Hu. by rewrite Hu. }
    split; [by apply after_save_holds|]. split; [apply active_updatedAt|done].
  - exists (w <| w_tick := S (S (S (w_tick w))) |>). split; [|done].
    unfold runs, journal_update, updateSessionWith, mbind, ST_bind in *. rewrite Hl.
    unfold read_clock, checkpoint_result, st_lift. cbn [w_tick upd]. by rewrite Eo.
Qed.

Lemma advance_shape s id phase at_ s' tx' :
  advanceSandboxRecreateTransaction s id phase at_ = Ok (s', tx') →
  activeTransaction s' = Some tx' ∧ tx_phase tx' = phase
  ∧ (s' = s ∨ ∃ c, s' = s <| checkpoint := Some c |>).
Proof.
  unfold advanceSandboxRecreateTransaction.
  destruct (owned_transaction s id _) as [t|] eqn:E; [|done]. apply owned_inv in E as [E _].
  cbn [mbind result_bind]. destruct (bool_decide _) eqn:Ep.
  - intros [= <- <-]. bools. by split_and!; [..|left].
  - destruct (_ <? _)%nat; [done|]. intros [= <- <-]. split_and!; [done|done|right; by eexists].
Qed.

Lemma record_shape s id o at_ s' tx' :
  recordSandboxRecreateTargetCreated s id o at_ = Ok (s', tx') →
  activeTransaction s' = Some tx' ∧ tx_phase tx' = PhCreated
  ∧ targetLiveIdentityFingerprint tx' = liveIdentityFingerprint o
  ∧ ob_state o = Ready ∧ truthy_opt (liveIdentityFingerprint o) = true
  ∧ (s' = s ∨ ∃ c, s' = s <| checkpoint := Some c |>).
Proof.
  unfold recordSandboxRecreateTargetCreated, throw_unless.
  destruct (bool_decide (ob_state o = Ready) && _) eqn:Eo; [|done]. cbn [mbind result_bind].
  destruct (owned_transaction s id _) as [t|] eqn:E; [|done]. apply owned_inv in E as [E _].
  cbn [mbind result_bind]. destruct (negb _); [|done]. cbn [mbind result_bind].
  destruct (bool_decide _ && bool_decide _) eqn:Es.
  - intros [= <- <-]. bools. by split_and!; [..|left].
  - destruct (bool_decide (tx_phase t = PhCreating)) eqn:Ec; [|done]. cbn [mbind result_bind].
    intros [= <- <-]. bools. split_and!; try done. right; by eexists.
Qed.

(** The runtime's view is behind the file's journal, which is the same transaction. *)
Definition tracks (r : SandboxRecreateRuntime) (w : World) : Prop :=
  ∃ s tx, holds w s ∧ activeTransaction s = Some tx ∧ journal_le (rr_transaction r) tx
  ∧ journal_wf tx ∧ (phaseIndex (rr_phase r) ≤ phaseIndex (tx_phase tx))%nat.

(** The journal in the file has reached a phase. *)
Definition durable_phase (w : World) (id : string) (phase : CheckpointSandboxRecreatePhase) : Prop :=
  ∃ s tx, holds w s ∧ activeTransaction s = Some tx ∧ tx_id tx = id
  ∧ sandboxRecreatePhaseReached (tx_phase tx) phase = true.

Lemma tracks_durable r w phase :
  tracks r w → sandboxRecreatePhaseReached (rr_phase r) phase = true →
  durable_phase w (tx_id (rr_transaction r)) phase.
Proof.
  intros (s & tx & Hh & Ha & Hle & _ & Hp) Hr. exists s, tx. split_and!; try done.
  - by rewrite (le_frame _ _ Hle).
  - unfold sandboxRecreatePhaseReached in *. apply Nat.leb_le in Hr. apply Nat.leb_le. lia.
Qed.

(** An update that is a journal operation and leaves its transaction in the session,
    related to its result by [Q]. *)
Definition follows {X} (op : Session → string → result checkpoint_error (Session * X))
    (Q : X → CheckpointSandboxRecreateTransaction → Prop) : Prop :=
  ∀ s at_ s' x, isCanonicalIso at_ = true → op s at_ = Ok (s', x) →
    (∃ o, op_fits o ∧ run_op s o = Ok s')
    ∧ (s' = s ∨ ∃ c, s' = s <| checkpoint := Some c |>)
    ∧ ∃ tx', activeTransaction s' = Some tx' ∧ Q x tx'.

Lemma advance_follows id next :
  follows (λ current at_, prod_map Datatypes.id tx_phase
             <$> advanceSandboxRecreateTransaction current id next at_)
    (λ x tx, x = next ∧ tx_phase tx = next).
Proof.
  intros s at_ s' x Hat Eo. cbv beta in Eo.
  destruct (advanceSandboxRecreateTransaction s id next at_) as [[s1 tx1]|] eqn:E; [|discriminate Eo].
  injection Eo as <- <-. destruct (advance_shape _ _ _ _ _ _ E) as (Ha & Hp & Hsh).
  split; [|split; [done|by exists tx1]]. exists (OpAdvance id next at_). cbn [run_op]. by rewrite E.
Qed.

Lemma created_follows id o :
  from_option SHA256_PATTERN true (liveIdentityFingerprint o) = true →
  follows (λ current at_, prod_map Datatypes.id targetLiveIdentityFingerprint
             <$> recordSandboxRecreateTargetCreated current id o at_)
    (λ x tx, x = liveIdentityFingerprint o ∧ tx_phase tx = PhCreated
             ∧ targetLiveIdentityFingerprint tx = liveIdentityFingerprint o
             ∧ ob_state o = Ready ∧ truthy_opt (liveIdentityFingerprint o) = true).
Proof.
  intros Hsha s at_ s' x Hat Eo. cbv beta in Eo.
  destruct (recordSandboxRecreateTargetCreated s id o at_) as [[s1 tx1]|] eqn:E; [|discriminate Eo].
  injection Eo as <- <-. destruct (record_shape _ _ _ _ _ _ E) as (Ha & Hp & Htg & Hrd & Htr & Hsh).
  split; [|split; [done|by exists tx1]]. exists (OpCreated id o at_). cbn [run_op]. by rewrite E.
Qed.

(** A journal operation of the runtime: it commits and the runtime still tracks the
    file, or the file is as it was. *)
Lemma tracked_update {X} (op : Session → string → result checkpoint_error (Session * X))
    (Q : X → CheckpointSandboxRecreateTransaction → Prop) r w :
  url_origin_law parseURL → clock_law → tracks r w → follows op Q →
  match journal_update op w with
  | (Ok x, w') => w_events w' = w_events w
      ∧ ∃ s tx, holds w' s ∧ activeTransaction s = Some tx ∧ journal_le (rr_transaction r) tx
                ∧ journal_wf tx ∧ (phaseIndex (rr_phase r) ≤ phaseIndex (tx_phase tx))%nat ∧ Q x tx
  | (Throw _, w') => same_but_clock w w'
  end.
Proof.
  intros Hurl Hclock (s & tx & Hh & Ha & Hle & Hwf & Hp) Hop.
  pose proof (journal_update_spec op w s Hurl Hclock Hh) as Hs.
  assert (Hok : ∀ at_ s' x, isCanonicalIso at_ = true → op s at_ = Ok (s', x) →
    session_ok s' ∧ (s' = s ∨ ∃ c, s' = s <| checkpoint := Some c |>)).
  { intros at_ s' x Hat Eo. destruct (Hop s at_ s' x Hat Eo) as ((o & Hf & Er) & Hsh & _).
    split; [|done]. by eapply run_op_ok; [..|exact Er]; [|apply Hh|..]. }
  specialize (Hs Hok).
  destruct (op s (now (S (S (w_tick w))))) as [[s' x]|e] eqn:Eo.
  - destruct Hs as (w' & saved & Hr & Hh' & Hact & Hev). rewrite Hr. split; [done|].
    destruct (Hop s _ s' x (Hclock _) Eo) as ((o & Hf & Er) & _ & tx' & Ha' & HQ).
    destruct (run_op_ok s o s' tx Hurl (h_ok _ _ Hh) Hf Ha Hwf Er) as [_ Hafter].
    unfold journal_after in Hafter. rewrite Ha' in Hafter. destruct Hafter as [Hle' Hwf'].
    exists saved, tx'. split; [done|]. split; [by rewrite Hact|].
    split; [by eapply journal_le_trans|]. split; [done|]. split; [|done].
    pose proof (le_phase _ _ Hle'). lia.
  - destruct Hs as (w' & Hr & Hq). by rewrite Hr.
Qed.

Lemma rr_advance_spec r next w env :
  url_origin_law parseURL → clock_law → tracks r w →
  match rr_advance r next (w, env) with
  | (Ok r', (w', env')) => env' = env ∧ tracks r' w' ∧ rr_phase r' = next
      ∧ rr_transaction r' = rr_transaction r
  | (Throw _, (w', env')) => env' = env ∧ same_but_clock w w'
  end.
Proof.
  intros Hurl Hclock Ht. unfold rr_advance, mbind, ST_bind, store. cbn [fst snd].
  pose proof (tracked_update _ _ r w Hurl Hclock Ht
    (advance_follows (tx_id (rr_transaction r)) next)) as Hu.
  destruct (journal_update _ w) as [[x|e] w']; [|by split].
  destruct Hu as (_ & s & tx & H1 & H2 & H3 & H4 & H5 & -> & H6).
  split; [done|]. split; [|done]. exists s, tx. split_and!; try done. cbn. by rewrite H6.
Qed.

Lemma recordCreated_spec r w env :
  url_origin_law parseURL → clock_law → tracks r w →
  (∀ o, look env (tx_sandboxName (rr_transaction r)) (tx_gatewayName (rr_transaction r)) = Some o →
        from_option SHA256_PATTERN true (liveIdentityFingerprint o) = true) →
  match recordCreated r (w, env) with
  | (Ok r', (w', env')) => env' = env ∧ tracks r' w'
      ∧ ∃ o s tx, look env (tx_sandboxName (rr_transaction r)) (tx_gatewayName (rr_transaction r)) = Some o
          ∧ ob_state o = Ready ∧ rr_target r' = liveIdentityFingerprint o
          ∧ holds w' s ∧ activeTransaction s = Some tx
          ∧ tx_phase tx = PhCreated ∧ targetLiveIdentityFingerprint tx = rr_target r'
          ∧ truthy_opt (rr_target r') = true
  | (Throw _, (w', env')) => env' = env ∧ same_but_clock w w'
  end.
Proof.
  intros Hurl Hclock Ht Hsha. unfold recordCreated, rr_observe, observe, mbind at 1, ST_bind at 1.
  cbn [snd]. destruct (look env _ _) as [o|] eqn:El; cbn [of_option]; [|by split].
  specialize (Hsha o eq_refl). unfold mbind, ST_bind, store. cbn [fst snd].
  pose proof (tracked_update _ _ r w Hurl Hclock Ht
    (created_follows (tx_id (rr_transaction r)) o Hsha)) as Hu.
  destruct (journal_update _ w) as [[x|e] w']; [|by split].
  destruct Hu as (_ & s & tx & H1 & H2 & H3 & H4 & H5 & -> & H6 & H7 & H8 & H9).
  split; [done|]. split; [by exists s, tx|]. by exists o, s, tx.
Qed.

(** What each destructive step of a replacement is guaranteed when it returns. *)
Inductive RuntimeStep : Type := StepDelete | StepConfirm | StepCreated.
Definition run_runtime_step (r : SandboxRecreateRuntime) (step : RuntimeStep)
    : JM (SandboxRecreateSourcePresence * SandboxRecreateRuntime) :=
  match step with
  | StepDelete => beginDelete r
  | StepConfirm => r ← confirmDeleted r; mret (PresenceMissing, r)
  | StepCreated => r ← recordCreated r; mret (PresenceSource, r)
  end.
Definition step_guarantee (r r' : SandboxRecreateRuntime) (step : RuntimeStep)
    (presence : SandboxRecreateSourcePresence) (o : SandboxRecreateObservation) (w' : World) : Prop :=
  match step with
  | StepDelete =>
      durable_phase w' (tx_id (rr_transaction r)) PhDeleting
      ∧ (presence = PresenceMissing ↔ ob_state o = Missing)
      ∧ (presence = PresenceSource → is_source (rr_transaction r) o = true)
  | StepConfirm =>
      durable_phase w' (tx_id (rr_transaction r)) PhDeleted ∧ ob_state o = Missing
  | StepCreated =>
      ob_state o = Ready ∧ ∃ s tx, holds w' s ∧ activeTransaction s = Some tx
      ∧ tx_phase tx = PhCreated ∧ targetLiveIdentityFingerprint tx = liveIdentityFingerprint o
      ∧ truthy_opt (liveIdentityFingerprint o) = true
  end.
End Runtime.

(** ** A replacement and its crashes

    The state a crash leaves behind: the session in the file, the live sandbox (its
    identity, and whether it is ready) and its registry row. *)

Record Replacement := mkReplacement {
  rp_session : Session;
  rp_live : option (string * bool);
  rp_row : SandboxEntry;
}.

Definition observe_live (live : option (string * bool)) : SandboxRecreateObservation :=
  match live with
  | None => mkObs Missing None
  | Some (fp, ready) => mkObs (if ready then Ready else NotReady) (Some fp)
  end.

Section Replacing.
Context {collation : Collation} {host : Host}.

(** The rows that differ in the reservation of a route only. *)
Definition durable_row (row : SandboxEntry) : SandboxEntry :=
  List.filter (λ kv, negb (includes ROUTE_RESERVATION_FIELDS kv.1)) row.

(** The row of the journaled replacement. *)
Definition registered (tx : CheckpointSandboxRecreateTransaction) (row : SandboxEntry) : bool :=
  bool_decide (lifecycleGeneration row = Some (targetGeneration tx))
  && bool_decide (lifecycleLiveIdentityFingerprint row = targetLiveIdentityFingerprint tx).

(** The steps of the process that owns the transaction, of OpenShell under its
    orders, and of the registry; a crash is any state between two steps. *)
Inductive replace_step : Replacement → Replacement → Prop :=
| rs_deleting s s' tx tx' fp ready row at_ :
    activeTransaction s = Some tx → sourceLiveIdentityFingerprint tx = Some fp →
    advanceSandboxRecreateTransaction s (tx_id tx) PhDeleting at_ = Ok (s', tx') →
    replace_step (mkReplacement s (Some (fp, ready)) row) (mkReplacement s' (Some (fp, ready)) row)
| rs_delete s tx live row :
    activeTransaction s = Some tx → tx_phase tx = PhDeleting →
    replace_step (mkReplacement s live row) (mkReplacement s None row)
| rs_confirm s s' tx tx' row at_ :
    activeTransaction s = Some tx →
    advanceSandboxRecreateTransaction s (tx_id tx) PhDeleted at_ = Ok (s', tx') →
    replace_step (mkReplacement s None row) (mkReplacement s' None row)
| rs_creating s s' tx tx' live row at_ :
    activeTransaction s = Some tx → tx_phase tx = PhDeleted →
    advanceSandboxRecreateTransaction s (tx_id tx) PhCreating at_ = Ok (s', tx') →
    replace_step (mkReplacement s live row) (mkReplacement s' live row)
| rs_create s tx fp row :
    activeTransaction s = Some tx → tx_phase tx = PhCreating →
    replace_step (mkReplacement s None row) (mkReplacement s (Some (fp, false)) row)
| rs_ready s fp ready ready' row :
    replace_step (mkReplacement s (Some (fp, ready)) row) (mkReplacement s (Some (fp, ready')) row)
| rs_record s s' tx tx' live row at_ :
    activeTransaction s = Some tx →
    recordSandboxRecreateTargetCreated s (tx_id tx) (observe_live live) at_ = Ok (s', tx') →
    replace_step (mkReplacement s live row) (mkReplacement s' live row)
| rs_register s tx live row row' :
    activeTransaction s = Some tx → tx_phase tx = PhCreated → registered tx row' = true →
    replace_step (mkReplacement s live row) (mkReplacement s live row')
| rs_route s live row row' :
    durable_row row = durable_row row' →
    replace_step (mkReplacement s live row) (mkReplacement s live row')
| rs_commit s s' tx tx' phase live row at_ :
    activeTransaction s = Some tx → registered tx row = true → tx_phase tx = PhCreated ∨ tx_phase tx = PhRegistryCommitting →
    phase = PhRegistryCommitting ∨ phase = PhCompleted →
    advanceSandboxRecreateTransaction s (tx_id tx) phase at_ = Ok (s', tx') →
    replace_step (mkReplacement s live row) (mkReplacement s' live row).

(** What the recovery of a crashed replacement has to do. *)
Definition expected_plan (tx : CheckpointSandboxRecreateTransaction) (r : Replacement)
    : SandboxRecreateRecoveryPlan :=
  if registered tx (rp_row r) then
    match rp_live r with Some (_, true) => AcceptTarget | _ => Reject RegisteredNotReady end
  else
    match tx_phase tx, rp_live r with
    | PhPlanned, None | PhDeleting, None | PhDeleted, None | PhCreating, None => ContinueCreate
    | PhPlanned, Some _ | PhDeleting, Some _ => ContinueDelete
    | PhDeleted, Some _ | PhCreating, Some _ => Reject SandboxAppeared
    | PhCreated, _ | PhRegistryCommitting, _ => Reject RegistrationUncommitted
    | PhCompleted, _ => Reject CompletedMismatch
    end.

(** The source row is still there. *)
Definition source_row (tx : CheckpointSandboxRecreateTransaction) (row : SandboxEntry) : Prop :=
  fingerprintSandboxRegistryEntry row = sourceRegistryFingerprint tx
  ∧ lifecycleGeneration row ≠ Some (targetGeneration tx).

Definition phase_facts (tx : CheckpointSandboxRecreateTransaction) (live : option (string * bool))
    (row : SandboxEntry) : Prop :=
  match tx_phase tx with
  | PhPlanned | PhDeleting =>
      source_row tx row ∧ targetLiveIdentityFingerprint tx = None
      ∧ ∀ fp ready, live = Some (fp, ready) →
          truthy fp = true ∧ sourceLiveIdentityFingerprint tx = Some fp
  | PhDeleted => source_row tx row ∧ targetLiveIdentityFingerprint tx = None ∧ live = None
  | PhCreating => source_row tx row ∧ targetLiveIdentityFingerprint tx = None
  | PhCreated => (source_row tx row ∨ registered tx row = true)
      ∧ ∃ fp ready, live = Some (fp, ready) ∧ targetLiveIdentityFingerprint tx = Some fp
                    ∧ truthy fp = true
  | PhRegistryCommitting | PhCompleted => registered tx row = true
      ∧ ∃ fp ready, live = Some (fp, ready) ∧ targetLiveIdentityFingerprint tx = Some fp
                    ∧ truthy fp = true
  end.

Lemma jget_filter (o : list (string * json)) (p : string * json → bool) key :
  (∀ v, p (key, v) = true) → jget (List.filter p o) key = jget o key.
Proof.
  intros Hp. induction o as [|[k v] o IH]; [done|]. cbn [List.filter].
  destruct (p (k, v)) eqn:E; cbn [jget]; destruct (k =s key) eqn:Ek; try done; bools.
  subst k. by rewrite Hp in E.
Qed.

Lemma durable_lifecycle row row' :
  durable_row row = durable_row row' →
  fingerprintSandboxRegistryEntry row = fingerprintSandboxRegistryEntry row'
  ∧ lifecycleGeneration row = lifecycleGeneration row'
  ∧ lifecycleLiveIdentityFingerprint row = lifecycleLiveIdentityFingerprint row'.
Proof.
  intros E. assert (Hj : ∀ key, includes ROUTE_RESERVATION_FIELDS key = false →
                          jget row key = jget row' key).
  { intros key Hk. unfold durable_row in E.
    assert (Hp : ∀ v : json, (λ kv, negb (includes ROUTE_RESERVATION_FIELDS kv.1)) (key, v) = true)
      by (intros v; cbn; by rewrite Hk).
    rewrite <- (jget_filter row _ key Hp), E. by apply jget_filter. }
  unfold fingerprintSandboxRegistryEntry. unfold durable_row in E. rewrite E.
  unfold lifecycleGeneration, lifecycleLiveIdentityFingerprint. by rewrite !Hj.
Qed.

Lemma phase_facts_row tx live row row' :
  durable_row row = durable_row row' → phase_facts tx live row → phase_facts tx live row'.
Proof.
  intros (E1 & E2 & E3)%durable_lifecycle.
  unfold phase_facts, source_row, registered. by rewrite E1, E2, E3.
Qed.

Lemma facts_plan r tx :
  phase_facts tx (rp_live r) (rp_row r) →
  planSandboxRecreateRecovery tx (observe_live (rp_live r)) (Some (rp_row r)) = expected_plan tx r.
Proof.
  unfold phase_facts, planSandboxRecreateRecovery, expected_plan, registered, source_row.
  cbn [mbind option_bind]. destruct r as [s live row]. cbn [rp_live rp_row rp_session].
  destruct (bool_decide (lifecycleGeneration row = Some (targetGeneration tx))) eqn:Eg; bools; cbn [andb].
  - intros Hf. assert (H : ∃ fp ready, live = Some (fp, ready)
      ∧ targetLiveIdentityFingerprint tx = Some fp ∧ truthy fp = true
      ∧ bool_decide (lifecycleLiveIdentityFingerprint row = targetLiveIdentityFingerprint tx) = true).
    { destruct (tx_phase tx); destruct Hf as (Hr & Hf); try (by destruct Hr);
        destruct Hf as (fp & ready & H); exists fp, ready; split_and!; try apply H;
        [by destruct Hr as [[_ ?]|]|done..]. }
    destruct H as (fp & ready & -> & -> & Hfp & Hl). rewrite Hl. cbn [truthy_opt from_option negb].
    rewrite Hfp. cbn [negb observe_live ob_state liveIdentityFingerprint].
    rewrite (bool_decide_eq_true_2 (Some fp = Some fp)) by done. by destruct ready.
  - intros Hf. destruct (tx_phase tx); destruct Hf as (Hr & Hf).
    1,2: destruct Hr as [Hr _]; apply String.eqb_eq in Hr; rewrite Hr; cbn [negb];
      destruct live as [[fp ready]|]; [|done]; destruct Hf as [_ Hf];
      destruct (Hf fp ready eq_refl) as [Ht ->]; cbn [truthy_opt from_option];
      rewrite Ht; cbn [observe_live ob_state liveIdentityFingerprint negb orb];
      rewrite (bool_decide_eq_true_2 (Some fp = Some fp)) by done; by destruct ready.
    1,2: destruct Hr as [Hr _]; apply String.eqb_eq in Hr; rewrite Hr; cbn [negb];
      by destruct live as [[fp []]|].
    all: done.
Qed.

(** The plan for any observation and any row, whoever left them: deletion is continued for
    the journaled source under its row, the creation where nothing is live under that row,
    and the replacement is accepted by its recorded identity, ready and registered. *)
Definition source_row_in (fingerprint generation : string) (e : option SandboxEntry) : Prop :=
  ∃ row, e = Some row ∧ fingerprintSandboxRegistryEntry row = fingerprint
         ∧ lifecycleGeneration row ≠ Some generation.

Lemma plan_decides tx o e :
  let plan := planSandboxRecreateRecovery tx o e in
  (plan = ContinueDelete ↔
     (tx_phase tx = PhPlanned ∨ tx_phase tx = PhDeleting)
     ∧ source_row_in (sourceRegistryFingerprint tx) (targetGeneration tx) e ∧ ob_state o ≠ Missing
     ∧ truthy_opt (sourceLiveIdentityFingerprint tx) = true
     ∧ liveIdentityFingerprint o = sourceLiveIdentityFingerprint tx)
  ∧ (plan = ContinueCreate ↔
       (phaseIndex (tx_phase tx) ≤ phaseIndex PhCreating)%nat
       ∧ source_row_in (sourceRegistryFingerprint tx) (targetGeneration tx) e ∧ ob_state o = Missing)
  ∧ (plan = AcceptTarget ↔
       ∃ row fp, e = Some row ∧ lifecycleGeneration row = Some (targetGeneration tx)
         ∧ truthy fp = true ∧ targetLiveIdentityFingerprint tx = Some fp
         ∧ lifecycleLiveIdentityFingerprint row = Some fp
         ∧ ob_state o = Ready ∧ liveIdentityFingerprint o = Some fp).
Proof.
  cbv zeta. unfold planSandboxRecreateRecovery, source_row_in.
  destruct e as [row|]; cbn [mbind option_bind].
  2: { destruct (tx_phase tx); (split; [split; [discriminate|by intros (_ & (? & ? & _) & _)]|]);
       (split; [split; [discriminate|by intros (_ & (? & ? & _) & _)]|]);
       (split; [discriminate|by intros (? & ? & ? & _)]). }
  destruct (bool_decide (lifecycleGeneration row = _)) eqn:Eg; bools.
  - split; [|split].
    1,2: split; [by repeat case_match|by intros (_ & (? & [= <-] & _ & ?) & _)].
    split.
    + repeat case_match; try done; intros _; bools.
      destruct (targetLiveIdentityFingerprint tx) as [fp|] eqn:Et; [|done].
      by exists row, fp.
    + intros (? & fp & [= <-] & _ & Hfp & Ht & Hl & Ho & Hlo). rewrite Ht. cbn [truthy_opt from_option].
      rewrite Hfp. cbn [negb]. by rewrite !bool_decide_eq_true_2 by congruence.
  - assert (Hno : ∀ P : Prop, (∃ row0 fp, Some row = Some row0 ∧ lifecycleGeneration row0 = Some (targetGeneration tx)
      ∧ truthy fp = true ∧ targetLiveIdentityFingerprint tx = Some fp
      ∧ lifecycleLiveIdentityFingerprint row0 = Some fp ∧ ob_state o = Ready ∧ liveIdentityFingerprint o = Some fp) → P)
      by (by intros P (? & ? & [= <-] & ? & _)).
    destruct (fingerprintSandboxRegistryEntry row =s sourceRegistryFingerprint tx) eqn:Es; bools; cbn [negb].
    2: { split; [|split]; (split; [by repeat case_match|]).
         1,2: by intros (_ & (? & [= <-] & ? & _) & _). by apply Hno. }
    assert (Hrow : ∃ row0, Some row = Some row0 ∧ fingerprintSandboxRegistryEntry row0 = sourceRegistryFingerprint tx
      ∧ lifecycleGeneration row0 ≠ Some (targetGeneration tx)) by by exists row.
    split; [|split; [|split; [by repeat case_match|by apply Hno]]].
    + split.
      * repeat case_match; try done; intros _; bools; split_and!; auto.
      * intros ([->| ->] & _ & Ho & Ht & Hl); rewrite (bool_decide_eq_false_2 _ Ho), Ht; cbn [negb orb];
          by rewrite bool_decide_eq_true_2.
    + split.
      * repeat case_match; try done; intros _; bools; split_and!; try done; vm_compute; lia.
      * intros (Hp & _ & Ho). rewrite Ho. destruct (tx_phase tx); try done; vm_compute in Hp; lia.
Qed.

(** The parts of a transaction the facts are about. *)
Definition same_ends (tx tx' : CheckpointSandboxRecreateTransaction) : Prop :=
  sourceRegistryFingerprint tx' = sourceRegistryFingerprint tx
  ∧ sourceLiveIdentityFingerprint tx' = sourceLiveIdentityFingerprint tx
  ∧ targetGeneration tx' = targetGeneration tx.

Lemma advance_tx s tx phase at_ s' tx' :
  activeTransaction s = Some tx →
  advanceSandboxRecreateTransaction s (tx_id tx) phase at_ = Ok (s', tx') →
  activeTransaction s' = Some tx' ∧ tx_phase tx' = phase
  ∧ (phaseIndex (tx_phase tx) ≤ phaseIndex phase)%nat ∧ same_ends tx tx'
  ∧ targetLiveIdentityFingerprint tx' = targetLiveIdentityFingerprint tx.
Proof.
  intros Ha E. destruct (advance_shape _ _ _ _ _ _ E) as (Ha' & Hp & _). split; [done|]. split; [done|].
  revert E. unfold advanceSandboxRecreateTransaction, owned_transaction. rewrite Ha, String.eqb_refl.
  cbn [mbind result_bind]. destruct (bool_decide _) eqn:Ep; bools.
  - intros [= _ <-]. by rewrite Ep.
  - destruct (_ <? _)%nat eqn:El; [done|]. apply Nat.ltb_ge in El. by intros [= _ <-].
Qed.

Lemma source_row_ends tx tx' row : same_ends tx tx' → source_row tx row → source_row tx' row.
Proof. unfold source_row. by intros (-> & _ & ->). Qed.

Lemma registered_ends tx tx' row :
  same_ends tx tx' → targetLiveIdentityFingerprint tx' = targetLiveIdentityFingerprint tx →
  registered tx' row = registered tx row.
Proof. unfold registered. by intros (_ & _ & ->) ->. Qed.

Lemma record_tx s tx o at_ s' tx' :
  activeTransaction s = Some tx →
  recordSandboxRecreateTargetCreated s (tx_id tx) o at_ = Ok (s', tx') →
  activeTransaction s' = Some tx' ∧ same_ends tx tx' ∧ tx_phase tx' = PhCreated
  ∧ (tx_phase tx = PhCreating ∨ tx' = tx)
  ∧ targetLiveIdentityFingerprint tx' = liveIdentityFingerprint o
  ∧ truthy_opt (liveIdentityFingerprint o) = true.
Proof.
  intros Ha E. destruct (record_shape _ _ _ _ _ _ E) as (Ha' & Hp & Ht & _ & Htr & _).
  assert (H : same_ends tx tx' ∧ (tx_phase tx = PhCreating ∨ tx' = tx)); [|by split_and!; try apply H].
  revert E. unfold recordSandboxRecreateTargetCreated, owned_transaction, throw_unless.
  rewrite Ha, String.eqb_refl. destruct (_ && _); [|done]. cbn [mbind result_bind].
  destruct (negb _); [|done]. cbn [mbind result_bind].
  destruct (_ && _); [intros [= _ <-]; by split; [|right]|].
  destruct (bool_decide _) eqn:Ec; [|done]. bools. cbn [mbind result_bind].
  intros [= _ <-]. by split; [|left].
Qed.

Lemma replace_step_facts r r' tx :
  replace_step r r' → activeTransaction (rp_session r) = Some tx →
  phase_facts tx (rp_live r) (rp_row r) →
  ∃ tx', activeTransaction (rp_session r') = Some tx' ∧ phase_facts tx' (rp_live r') (rp_row r')
         ∧ same_ends tx tx'.
Proof.
  intros Hstep Ha Hf. inversion Hstep; subst; cbn [rp_session rp_live rp_row] in *;
    repeat match goal with
    | H : activeTransaction ?s = Some ?t, H' : activeTransaction ?s = Some ?t' |- _ =>
        assert (t' = t) as -> by congruence; clear H'
    | H : activeTransaction ?s = Some ?t,
      H' : advanceSandboxRecreateTransaction ?s (tx_id ?t) _ _ = Ok _ |- _ =>
        apply (advance_tx _ _ _ _ _ _ H) in H' as (Ha' & Hph & Hle & He & Ht)
    | H : activeTransaction ?s = Some ?t,
      H' : recordSandboxRecreateTargetCreated ?s (tx_id ?t) _ _ = Ok _ |- _ =>
        apply (record_tx _ _ _ _ _ _ H) in H' as (Ha' & He & Hph & Hor & Ht & Htr)
    end; eexists; (split; [eassumption|]); (split; [|by try exact He]); unfold phase_facts in *;
    try rewrite Hph; repeat match goal with H : tx_phase _ = _ |- _ => rewrite H in * end.
  - (* deleting *)
    assert (K : source_row tx row ∧ targetLiveIdentityFingerprint tx = None
      ∧ ∀ fp0 ready0, Some (fp, ready) = Some (fp0, ready0) →
          truthy fp0 = true ∧ sourceLiveIdentityFingerprint tx = Some fp0).
    { destruct (tx_phase tx); try exact Hf; vm_compute in Hle; lia. }
    destruct K as (K1 & K2 & K3). split; [by eapply source_row_ends|]. split; [by rewrite Ht|].
    destruct He as (_ & -> & _). exact K3.
  - (* deletion *)
    destruct Hf as (K1 & K2 & _). by split_and!.
  - (* confirmed *)
    assert (K : source_row tx row ∧ targetLiveIdentityFingerprint tx = None).
    { destruct (tx_phase tx); try (by split; apply Hf); vm_compute in Hle; lia. }
    destruct K as [K1 K2]. split; [by eapply source_row_ends|]. by rewrite Ht.
  - (* creating *)
    destruct Hf as (K1 & K2 & _). split; [by eapply source_row_ends|]. by rewrite Ht.
  - (* created by OpenShell *) exact Hf.
  - (* ready *)
    destruct (tx_phase tx); [..|]; try (destruct Hf as (K1 & K2 & K3); split_and!; [done..|];
      intros fp0 r0 [= <- <-]; by apply (K3 fp ready));
      try (destruct Hf as (K1 & fp0 & r0 & [= <- <-] & K3); split; [done|]; by exists fp, ready');
      [by destruct Hf as (_ & _ & ?)|exact Hf].
  - (* recorded *)
    destruct live as [[fp ready]|]; [|discriminate Htr]. cbn [observe_live liveIdentityFingerprint] in *.
    cbn [truthy_opt from_option] in Htr.
    split; [|by exists fp, ready]. destruct Hor as [Hc|Heq].
    + rewrite Hc in Hf. left. by eapply source_row_ends; [|apply Hf].
    + subst. rewrite Hph in Hf. by destruct Hf.
  - (* registered *) destruct Hf as [_ Hf]. split; [by right|done].
  - (* route *) exact (phase_facts_row _ _ _ _ ltac:(eassumption) Hf).
  - (* committed *)
    assert (K : registered tx' row = true ∧ ∃ fp ready, live = Some (fp, ready)
                ∧ targetLiveIdentityFingerprint tx' = Some fp ∧ truthy fp = true).
    { rewrite (registered_ends tx tx') by done. split; [done|]. rewrite Ht.
      match goal with H : _ ∨ _ |- _ => destruct H as [Hp|Hp]; rewrite Hp in Hf; apply Hf end. }
    match goal with H : phase = _ ∨ phase = _ |- _ => by destruct H as [->| ->] end.
Qed.
End Replacing.

(** ** Properties *)

(** *** Beginning a transaction *)

(** The request names the sandbox and the gateway the checkpoint selected, and its
    values are what the platform and the registry give. *)
Record begin_fits {collation : Collation} {host : Host} (s : Session)
    (i : BeginSandboxRecreateTransactionInput) (source : SandboxEntry) (id generation : string)
    : Prop := {
  bf_id : UUID_PATTERN id = true;
  bf_generation : UUID_PATTERN generation = true;
  bf_sandbox : readSandboxName (JStr (b_sandboxName i)) = Some (b_sandboxName i);
  bf_port : readPortNumber (JNum (NInt (b_gatewayPort i))) = Some (b_gatewayPort i);
  bf_gateway : b_gatewayName i = canonicalGatewayName (b_gatewayPort i);
  bf_named : truthy (b_gatewayName i) = true;
  bf_intent : SHA256_PATTERN (b_targetIntentFingerprint i) = true;
  bf_live : from_option SHA256_PATTERN true (liveIdentityFingerprint (b_observation i)) = true;
  bf_workload :
    parseSandboxRecreateSourceWorkload
      (from_option source_workload_json JNull (checkpointSourceWorkload source))
    = Some (checkpointSourceWorkload source);
  bf_identity : from_option (λ d, d =s b_sandboxName i) false
                  (match cp_sandboxIdentity (baseCheckpoint s) with
                   | Selected d => Some (id_name d) | _ => None end) = true;
  bf_authority : match cp_gatewayAuthority (baseCheckpoint s) with
                 | Selected a => (ga_name a =s b_gatewayName i) && (ga_port a =? b_gatewayPort i)%Z
                 | _ => false
                 end = true;
}.

Lemma begin_shape {collation : Collation} {host : Host} s i now_ id gen source s0 tx0 :
  activeTransaction s = None → b_sourceEntry i = Some source →
  beginSandboxRecreateTransaction s i now_ id gen = Ok (s0, tx0) →
  s0 = set_journal s now_ (Some tx0)
  ∧ (ob_state (b_observation i) = Missing ∨ truthy_opt (liveIdentityFingerprint (b_observation i)) = true)
  ∧ tx0 = mkTx id 0 (b_sandboxName i) (b_gatewayName i) (b_gatewayPort i)
            (fingerprintSandboxRegistryEntry source) (liveIdentityFingerprint (b_observation i))
            (checkpointSourceWorkload source) (b_targetIntentFingerprint i) gen None
            (if bool_decide (ob_state (b_observation i) = Missing) then PhDeleted else PhPlanned)
            now_ now_.
Proof.
  intros Ha Hs. unfold beginSandboxRecreateTransaction, throw_unless. rewrite Ha, Hs.
  destruct (bool_decide _ || _) eqn:Eo; [|done]. cbn [mbind result_bind of_option].
  intros [= <- <-]. split; [done|]. split; [|done].
  apply orb_true_iff in Eo as [Eo|Eo]; [left; by bools|by right].
Qed.

Lemma begin_ok {collation : Collation} {host : Host} s i now_ id gen source s0 tx0 :
  url_origin_law parseURL → (∀ x, SHA256_PATTERN (sha256_hex x) = true) →
  session_ok s → isCanonicalIso now_ = true → activeTransaction s = None →
  b_sourceEntry i = Some source → begin_fits s i source id gen →
  beginSandboxRecreateTransaction s i now_ id gen = Ok (s0, tx0) →
  session_ok s0 ∧ activeTransaction s0 = Some tx0 ∧ journal_wf tx0.
Proof.
  intros Hurl Hsha Hok Hnow Ha Hs [] E.
  destruct (begin_shape _ _ _ _ _ _ _ _ Ha Hs E) as (-> & _ & ->).
  split; [|split; [done|]].
  - apply set_journal_ok; [done..| |].
    + apply tx_valid_fields. split; try done; [by apply String.eqb_eq|].
      apply Hsha.
    + cbn [from_option]. unfold journal_matches.
      destruct (cp_sandboxIdentity (baseCheckpoint s)) as [| |d]; try done.
      destruct (cp_gatewayAuthority (baseCheckpoint s)) as [| |au]; try done.
      cbn [from_option] in *. cbn [tx_sandboxName tx_gatewayName tx_gatewayPort].
      by rewrite bf_identity0, <- andb_assoc, bf_authority0.
  - split; [cbn; lia|done].
Qed.

(** C33: a journal only moves forward.  From the transaction a replacement began,
    any sequence of journal operations that all return leaves a well-formed session
    whose journal is the same transaction, no earlier in phase and revision and with
    its source, its generation and any recorded replacement unchanged; it can have
    disappeared only after completion, or before it had any effect. *)
Theorem journal_only_advances {collation : Collation} {host : Host} s i now_ id gen source s0 tx0 ops s' :
  url_origin_law parseURL → (∀ x, SHA256_PATTERN (sha256_hex x) = true) →
  session_ok s → isCanonicalIso now_ = true → activeTransaction s = None →
  b_sourceEntry i = Some source → begin_fits s i source id gen → Forall op_fits ops →
  beginSandboxRecreateTransaction s i now_ id gen = Ok (s0, tx0) → run_ops s0 ops = Ok s' →
  session_ok s'
  ∧ match activeTransaction s' with
    | Some tx' => journal_le tx0 tx' ∧ (0 ≤ tx_revision tx' ≤ Z.of_nat (phaseIndex (tx_phase tx')) ≤ 6)%Z
    | None => ∃ tx', journal_le tx0 tx'
                ∧ (tx_phase tx' = PhCompleted
                   ∨ (tx_revision tx' = 0%Z
                      ∧ truthy_opt (targetLiveIdentityFingerprint tx') = false))
    end.
Proof.
  intros Hurl Hsha Hok Hnow Ha Hs Hfit Hops E Hr.
  destruct (begin_ok _ _ _ _ _ _ _ _ Hurl Hsha Hok Hnow Ha Hs Hfit E) as (Hok0 & Ha0 & Hwf0).
  destruct (run_ops_ok ops s0 s' tx0 Hurl Hok0 Hops Ha0 Hwf0 Hr) as [Hok' Hj].
  split; [done|]. unfold journal_after in Hj. destruct (activeTransaction s') as [tx'|]; [|done].
  destruct Hj as [Hle [Hrev _]]. split; [done|]. pose proof (phaseIndex_max (tx_phase tx')). lia.
Qed.

(** C1: a crashed replacement resumes correctly.  From any state that the steps of a
    replacement, of OpenShell and of the registry can leave behind, the recovery
    plan is exactly the expected one: it deletes while the source is still there,
    creates once it is gone, accepts the replacement once it is registered and
    ready, and refuses only between the creation of the replacement and its
    registration.  And whatever sandbox and row anyone else has put there meanwhile, from
    such a journal the plan deletes only the sandbox that was live when the replacement
    began, under the row it had; creates only where nothing is live, under that row; and
    accepts only the recorded replacement, ready and registered. *)
Theorem crash_recovery_exact {collation : Collation} {host : Host} s i now_ id gen source live s0 tx0 r :
  b_sourceEntry i = Some source → b_observation i = observe_live live →
  lifecycleGeneration source ≠ Some gen → activeTransaction s = None →
  beginSandboxRecreateTransaction s i now_ id gen = Ok (s0, tx0) →
  rtc replace_step (mkReplacement s0 live source) r →
  ∃ tx, activeTransaction (rp_session r) = Some tx
  ∧ planSandboxRecreateRecovery tx (observe_live (rp_live r)) (Some (rp_row r)) = expected_plan tx r
  ∧ (expected_plan tx r = ContinueDelete →
     is_Some (rp_live r) ∧ fst <$> rp_live r = fst <$> live)
  ∧ ∀ o e, let plan := planSandboxRecreateRecovery tx o e in
    (plan = ContinueDelete ↔
       (tx_phase tx = PhPlanned ∨ tx_phase tx = PhDeleting)
       ∧ source_row_in (fingerprintSandboxRegistryEntry source) gen e ∧ ob_state o ≠ Missing
       ∧ ∃ fp, truthy fp = true ∧ fst <$> live = Some fp ∧ liveIdentityFingerprint o = Some fp)
    ∧ (plan = ContinueCreate ↔
         (phaseIndex (tx_phase tx) ≤ phaseIndex PhCreating)%nat
         ∧ source_row_in (fingerprintSandboxRegistryEntry source) gen e ∧ ob_state o = Missing)
    ∧ (plan = AcceptTarget ↔
         ∃ row fp, e = Some row ∧ lifecycleGeneration row = Some gen
           ∧ truthy fp = true ∧ targetLiveIdentityFingerprint tx = Some fp
           ∧ lifecycleLiveIdentityFingerprint row = Some fp
           ∧ ob_state o = Ready ∧ liveIdentityFingerprint o = Some fp).
Proof.
  intros Hs Hobs Hgen Ha E Hrtc.
  destruct (begin_shape _ _ _ _ _ _ _ _ Ha Hs E) as (Hs0 & Hid & Htx0). rewrite Hobs in Hid, Htx0.
  assert (Hf0 : phase_facts tx0 live source).
  { rewrite Htx0. unfold phase_facts. cbn [tx_phase targetLiveIdentityFingerprint].
    assert (Hsr : source_row tx0 source) by (rewrite Htx0; by split). rewrite Htx0 in Hsr.
    destruct live as [[fp ready]|]; cbn [observe_live ob_state liveIdentityFingerprint] in *.
    - rewrite bool_decide_eq_false_2 by (by destruct ready). split_and!; [done..|].
      intros fp' ready' [= <- <-]. split; [|done]. destruct Hid as [Hm|Hm]; [by destruct ready|done].
    - by rewrite bool_decide_eq_true_2. }
  assert (Hl : sourceLiveIdentityFingerprint tx0 = fst <$> live)
    by (rewrite Htx0; by destruct live as [[? []]|]).
  assert (Hends : sourceRegistryFingerprint tx0 = fingerprintSandboxRegistryEntry source ∧ targetGeneration tx0 = gen)
    by (by rewrite Htx0).
  assert (H : ∃ tx, activeTransaction (rp_session r) = Some tx
    ∧ phase_facts tx (rp_live r) (rp_row r) ∧ same_ends tx0 tx).
  { clear Hid Htx0 E. remember (mkReplacement s0 live source) as r0 eqn:Er0.
    assert (K : ∃ tx, activeTransaction (rp_session r0) = Some tx
      ∧ phase_facts tx (rp_live r0) (rp_row r0) ∧ same_ends tx0 tx)
      by (exists tx0; subst; by split_and!).
    clear Er0. induction Hrtc as [r|r1 r2 r3 Hstep _ IH]; [done|]. apply IH.
    destruct K as (tx & K1 & K2 & K3 & K4 & K5).
    destruct (replace_step_facts _ _ _ Hstep K1 K2) as (tx' & ? & ? & E3 & E4 & E5).
    exists tx'. split; [done|]. split; [done|]. unfold same_ends. by rewrite E3, E4, E5. }
  destruct H as (tx & Hat & Hf & (Hfp & He & Hg)). exists tx. split; [done|].
  split; [by apply facts_plan|]. split.
  2: { intros o e. pose proof (plan_decides tx o e) as Hd. cbv zeta in Hd |- *.
       rewrite Hfp, He, Hg, Hl, (proj1 Hends), (proj2 Hends) in Hd.
       destruct Hd as (Hd & Hc & Ht). split; [|by split]. rewrite Hd.
       destruct (fst <$> live) as [fp|]; cbn [truthy_opt from_option]; naive_solver. }
  intros Hplan. rewrite <- Hl, <- He. revert Hplan Hf.
  unfold expected_plan, phase_facts. destruct (registered tx (rp_row r)).
  { by destruct (rp_live r) as [[? []]|]. }
  destruct (tx_phase tx), (rp_live r) as [[fp ready]|]; try done;
    intros _ (_ & _ & Hs1); destruct (Hs1 fp ready eq_refl) as [_ ->]; by split.
Qed.

(** fingerprints identify values, not their writing.  Two values that differ in the
    order of the properties of some objects in them and in undefined properties
    have the same fingerprint; and so have two registry rows whose durable parts do,
    whatever their reservation of a route. *)
Theorem fingerprints_canonical {collation : Collation} {host : Host} (K : string → Prop) v v' row row' :
  collates K → json_same K v v' → json_same K (JObj (durable_row row)) (JObj (durable_row row')) →
  fingerprintSandboxRecreateValue v = fingerprintSandboxRecreateValue v'
  ∧ fingerprintSandboxRegistryEntry row = fingerprintSandboxRegistryEntry row'.
Proof.
  intros Hc Hv Hr.
  assert (H : ∀ j j', json_same K j j' →
    fingerprintSandboxRecreateValue j = fingerprintSandboxRecreateValue j').
  { intros j j' Hj. unfold fingerprintSandboxRecreateValue. f_equal.
    pose proof (λ s, same_string K j j' s Hj) as Hstr.
    rewrite <- (canonical_same K j j' Hc Hj).
    destruct j as [| | | |s| |]; [..|by rewrite (proj1 (Hstr s) eq_refl)| |];
      destruct j' as [| | | |s'| |]; try done; by pose proof (proj2 (Hstr s') eq_refl). }
  split; [by apply H|]. by apply (H (JObj (durable_row row)) (JObj (durable_row row'))).
Qed.

(** C20: a replacement journals before it acts.  A step of the runtime that
    returns was decided on one observation of the live sandbox, and by then the
    file already holds the journal in the phase the step enters: deletion is
    granted only for the journaled source, after its phase is durable; absence is
    confirmed only when observed; the replacement is recorded with the identity
    observed.  A step that throws leaves the file and the events as they were. *)
Theorem replacement_writes_ahead {host : Host} {receipts : ReceiptStore}
    {Env : Type} (look : Env → string → string → option SandboxRecreateObservation) r w env step :
  url_origin_law parseURL → clock_law → tracks r w →
  (∀ e sandbox gateway o, look e sandbox gateway = Some o →
     from_option SHA256_PATTERN true (liveIdentityFingerprint o) = true) →
  match run_runtime_step look r step (w, env) with
  | (Ok (presence, r'), (w', env')) => env' = env ∧ tracks r' w'
      ∧ ∃ o, look env (tx_sandboxName (rr_transaction r)) (tx_gatewayName (rr_transaction r)) = Some o
             ∧ step_guarantee r r' step presence o w'
  | (Throw _, (w', env')) => env' = env ∧ same_but_clock w w'
  end.
Proof.
  intros Hurl Hclock Ht Hsha. destruct step; cbn [run_runtime_step step_guarantee].
  - unfold beginDelete, rr_observe, observe. unfold mbind at 1, ST_bind at 1. cbn [snd].
    destruct (look env _ _) as [o|]; cbn [of_option]; [|by split].
    unfold mbind at 1, ST_bind at 1. unfold refused_unless, st_lift, throw_unless.
    destruct (bool_decide (ob_state o = Missing) || _) eqn:Eg; [|by split].
    assert (Hpr : (presence_of o = PresenceMissing ↔ ob_state o = Missing)
                  ∧ (presence_of o = PresenceSource → is_source (rr_transaction r) o = true)).
    { unfold presence_of. destruct (bool_decide (ob_state o = Missing)) eqn:Em; bools.
      - by split.
      - cbn [orb] in Eg. by split. }
    unfold mbind, ST_bind. destruct (sandboxRecreatePhaseReached (rr_phase r) PhDeleted) eqn:Ep.
    + split; [done|]. split; [done|]. exists o. split; [done|]. split; [|done].
      apply tracks_durable; [done|]. unfold sandboxRecreatePhaseReached in *.
      by destruct (rr_phase r).
    + pose proof (rr_advance_spec r PhDeleting w env Hurl Hclock Ht) as Ha.
      destruct (rr_advance r PhDeleting (w, env)) as [[r'|e] [w' env']]; [|done].
      destruct Ha as (-> & Ht' & Hph & Htx). split; [done|]. split; [done|]. exists o.
      split; [done|]. split; [|done]. rewrite <- Htx. apply tracks_durable; [done|]. by rewrite Hph.
  - unfold confirmDeleted, rr_observe, observe. unfold mbind at 1, ST_bind at 1.
    unfold mbind at 1, ST_bind at 1. cbn [snd].
    destruct (look env _ _) as [o|]; cbn [of_option]; [|by split].
    unfold mbind at 1, ST_bind at 1. unfold refused_unless, st_lift, throw_unless.
    destruct (bool_decide (ob_state o = Missing)) eqn:Em; [|by split]. bools.
    pose proof (rr_advance_spec r PhDeleted w env Hurl Hclock Ht) as Ha.
    destruct (rr_advance r PhDeleted (w, env)) as [[r'|e] [w' env']]; [|done].
    destruct Ha as (-> & Ht' & Hph & Htx). split; [done|]. split; [done|]. exists o.
    split; [done|]. split; [|done]. rewrite <- Htx. apply tracks_durable; [done|]. by rewrite Hph.
  - unfold mbind, ST_bind.
    pose proof (recordCreated_spec look r w env Hurl Hclock Ht (Hsha env _ _)) as Hc.
    destruct (recordCreated look r (w, env)) as [[r'|e] [w' env']]; [|done].
    destruct Hc as (-> & Ht' & o & s & tx & H1 & H2 & H3 & H4 & H5 & H6 & H7 & H8).
    split; [done|]. split; [done|]. exists o. split; [done|]. split; [done|].
    rewrite H3 in H7, H8. by exists s, tx.
Qed.

(** ** On a concrete replacement *)

(** Collation by length, a total order on keys of different lengths. *)
Definition by_length : Collation := λ a b, (String.length a <=? String.length b)%nat.

Definition sample_row : SandboxEntry :=
  [("name", JStr "my-assistant"); ("provider", JStr "openai"); ("lifecycleGeneration", JStr "older")].

Lemma fingerprints_canonical_witness :
  fingerprintSandboxRegistryEntry (collation := by_length) (host := sample_host) sample_row
  = fingerprintSandboxRegistryEntry (collation := by_length) (host := sample_host)
      [("lifecycleGeneration", JStr "older"); ("model", JStr "m"); ("name", JStr "my-assistant")].
Proof.
  pose (K := λ k, k = "name" ∨ k = "lifecycleGeneration").
  assert (Hc : collates (collation := by_length) K).
  { unfold by_length. split; unfold locale_le.
    - intros a b. rewrite !Nat.leb_le. lia.
    - intros a b c. rewrite !Nat.leb_le. lia.
    - intros a b [->| ->] [->| ->]; vm_compute; congruence. }
  apply (fingerprints_canonical (collation := by_length) (host := sample_host) K JNull JNull);
    [exact Hc|apply same_refl|].
  apply same_order.
  - vm_compute. apply NoDup_cons. split; [|apply NoDup_singleton].
    intros H. apply list_elem_of_singleton in H. discriminate H.
  - vm_compute. constructor; [by left|]. constructor; [by right|]. constructor.
  - vm_compute. apply perm_swap.
Defined.

Definition sample_sha : string := of_chars (repeat "a"%char 64).
Definition sample_uuid : string := "01234567-89ab-4def-8123-456789abcdef".

(** The sample session with a checkpoint that selected a sandbox and a gateway. *)
Definition selected_checkpoint : option OnboardCheckpoint := Eval vm_compute in
  match inspectCheckpoint one_url (sample_checkpoint_json 2) with Migrated c _ => Some c | _ => None end.
Definition selected_session : Session := sample_session <| checkpoint := selected_checkpoint |>.

Definition sample_begin : BeginSandboxRecreateTransactionInput :=
  mkBegin "box" "nemoclaw-9000" 9000 (Some sample_row) (observe_live (Some (sample_sha, true))) sample_sha.

Definition begun : Session * CheckpointSandboxRecreateTransaction := Eval vm_compute in
  match beginSandboxRecreateTransaction (collation := by_length) (host := sample_host)
          selected_session sample_begin "2026-01-01T00:00:00.000Z" sample_uuid sample_uuid with
  | Ok x => x
  | Throw _ => (sample_session, mkTx "" 0 "" "" 0 "" None None "" "" None PhPlanned "" "")
  end.

Lemma begun_eq :
  beginSandboxRecreateTransaction (collation := by_length) (host := sample_host)
    selected_session sample_begin "2026-01-01T00:00:00.000Z" sample_uuid sample_uuid
  = Ok (begun.1, begun.2).
Proof. vm_compute. reflexivity. Qed.

Lemma selected_ok : session_ok (host := sample_host) selected_session.
Proof.
  destruct selected_checkpoint as [c|] eqn:Ec; [|discriminate Ec]. unfold selected_session. rewrite Ec.
  apply (with_checkpoint_ok (host := sample_host)); [exact (h_ok _ _ sample_holds)|].
  assert (H : ∃ o a t, parseSchema one_url o a t = Some c).
  { exists match sample_checkpoint_json 2 with JObj o => o | _ => [] end,
      (jget match sample_checkpoint_json 2 with JObj o => o | _ => [] end "gatewayAuthority"), JNull.
    rewrite <- Ec. vm_compute. reflexivity. }
  destruct H as (o & a & t & H). exact (schema_parts one_url one_url_law o a t c H).
Qed.

Lemma sample_begin_fits :
  begin_fits (collation := by_length) (host := sample_host) selected_session sample_begin sample_row
    sample_uuid sample_uuid.
Proof. split; vm_compute; reflexivity. Qed.

Lemma journal_only_advances_witness :
  match run_ops begun.1 [OpAdvance sample_uuid PhDeleting "2026-01-01T00:00:01.000Z";
                         OpAdvance sample_uuid PhDeleted "2026-01-01T00:00:02.000Z"] with
  | Ok s' => session_ok (host := sample_host) s'
             ∧ tx_phase <$> activeTransaction s' = Some PhDeleted
  | Throw _ => False
  end.
Proof.
  destruct (run_ops begun.1 _) as [s'|e] eqn:Er; [|vm_compute in Er; discriminate Er].
  assert (Hp : tx_phase <$> activeTransaction s' = Some PhDeleted).
  { vm_compute in Er. injection Er as <-. vm_compute. reflexivity. }
  split; [|exact Hp].
  apply (journal_only_advances (collation := by_length) (host := sample_host) selected_session
    sample_begin "2026-01-01T00:00:00.000Z" sample_uuid sample_uuid sample_row begun.1 begun.2
    [OpAdvance sample_uuid PhDeleting "2026-01-01T00:00:01.000Z";
     OpAdvance sample_uuid PhDeleted "2026-01-01T00:00:02.000Z"] s').
  - exact one_url_law.
  - intros x. vm_compute. reflexivity.
  - exact selected_ok.
  - vm_compute. reflexivity.
  - vm_compute. reflexivity.
  - reflexivity.
  - exact sample_begin_fits.
  - constructor; [vm_compute; reflexivity|]. constructor; [vm_compute; reflexivity|]. constructor.
  - exact begun_eq.
  - exact Er.
Defined.

(** A crash after the deletion and before its confirmation; a foreign sandbox that took the
    name meanwhile is not deleted. *)
Definition foreign_sha : string := of_chars (repeat "b"%char 64).
Lemma crash_recovery_exact_witness :
  match advanceSandboxRecreateTransaction begun.1 sample_uuid PhDeleting "2026-01-01T00:00:01.000Z" with
  | Ok (s1, _) => ∃ tx, activeTransaction s1 = Some tx
      ∧ planSandboxRecreateRecovery (collation := by_length) (host := sample_host) tx
          (observe_live None) (Some sample_row) = expected_plan tx (mkReplacement s1 None sample_row)
      ∧ expected_plan tx (mkReplacement s1 None sample_row) = ContinueCreate
      ∧ planSandboxRecreateRecovery (collation := by_length) (host := sample_host) tx
          (observe_live (Some (foreign_sha, true))) (Some sample_row) ≠ ContinueDelete
  | Throw _ => False
  end.
Proof.
  destruct (advanceSandboxRecreateTransaction begun.1 sample_uuid PhDeleting
    "2026-01-01T00:00:01.000Z") as [[s1 tx1]|e] eqn:E1; [|vm_compute in E1; discriminate E1].
  assert (H1 : activeTransaction s1 = Some tx1 ∧ tx_phase tx1 = PhDeleting
               ∧ expected_plan tx1 (mkReplacement s1 None sample_row) = ContinueCreate).
  { vm_compute in E1. injection E1 as <- <-. vm_compute. split; [reflexivity|split; reflexivity]. }
  destruct H1 as (H1 & H2 & H3).
  destruct (crash_recovery_exact (collation := by_length) (host := sample_host) selected_session
    sample_begin "2026-01-01T00:00:00.000Z" sample_uuid sample_uuid sample_row
    (Some (sample_sha, true)) begun.1 begun.2 (mkReplacement s1 None sample_row))
    as (tx & Ha & Hp & _ & Hany).
  - reflexivity.
  - reflexivity.
  - vm_compute. discriminate.
  - vm_compute. reflexivity.
  - exact begun_eq.
  - eapply rtc_l; [|eapply rtc_l; [|apply rtc_refl]].
    + eapply (rs_deleting begun.1 s1 begun.2 tx1 sample_sha true);
        [vm_compute; reflexivity|vm_compute; reflexivity|exact E1].
    + exact (rs_delete s1 tx1 _ sample_row H1 H2).
  - exists tx. split; [exact Ha|]. split; [exact Hp|]. split.
    + cbn [rp_session] in Ha. rewrite H1 in Ha. injection Ha as <-. exact H3.
    + intros Hd. apply Hany in Hd as (_ & _ & _ & fp & _ & Hl & Ho). vm_compute in Hl, Ho.
      rewrite <- Hl in Ho. discriminate Ho.
Defined.

(** The journal in the file of the sample world. *)
Definition journal_session : Session := Eval vm_compute in begun.1.
Definition journal_world : World (receipts := one_receipt) :=
  mkWorld _ (Stored (json_disk (serializeSessionForDisk (host := sample_host) journal_session))) 0 []
    (None, true).
Definition journal_runtime : SandboxRecreateRuntime := mkRuntime begun.2 PhPlanned None false.
Definition one_sandbox : unit → string → string → option SandboxRecreateObservation :=
  λ _ _ _, Some (observe_live (Some (sample_sha, true))).

Lemma journal_tracked : tracks (host := sample_host) journal_runtime journal_world.
Proof.
  destruct (begin_ok (collation := by_length) (host := sample_host) selected_session sample_begin
    "2026-01-01T00:00:00.000Z" sample_uuid sample_uuid sample_row begun.1 begun.2)
    as (Hok & Ha & Hwf); [exact one_url_law|intros x; vm_compute; reflexivity|exact selected_ok
      |vm_compute; reflexivity|vm_compute; reflexivity|reflexivity|exact sample_begin_fits|exact begun_eq|].
  exists journal_session, begun.2. pose proof sample_holds as [_ _ Hm Hp _].
  split; [|split; [exact Ha|split; [apply journal_le_refl|split; [exact Hwf|apply le_n]]]].
  assert (Eq : journal_session = set_journal selected_session
                "2026-01-01T00:00:00.000Z" (Some begun.2)) by (vm_compute; reflexivity).
  split; [reflexivity|exact Hok| | |reflexivity]; rewrite Eq;
    apply (set_journal_stable (host := sample_host)); apply (with_checkpoint_stable (host := sample_host));
    assumption.
Qed.

Lemma replacement_writes_ahead_witness :
  match run_runtime_step (host := sample_host) one_sandbox journal_runtime StepDelete (journal_world, tt) with
  | (Ok (presence, r'), (w', _)) => presence = PresenceSource
      ∧ durable_phase (host := sample_host) w' sample_uuid PhDeleting
  | (Throw _, _) => False
  end.
Proof.
  pose proof (replacement_writes_ahead (host := sample_host) one_sandbox journal_runtime journal_world
    tt StepDelete one_url_law (λ n, eq_refl) journal_tracked) as H.
  assert (Hsha : ∀ e sandbox gateway o, one_sandbox e sandbox gateway = Some o →
    from_option SHA256_PATTERN true (liveIdentityFingerprint o) = true)
    by (intros ? ? ? ? [= <-]; vm_compute; reflexivity).
  specialize (H Hsha).
  assert (Hp : (fst <$> match (run_runtime_step (host := sample_host) one_sandbox journal_runtime
      StepDelete (journal_world, tt)).1 with Ok x => Some x | Throw _ => None end)
    = Some PresenceSource) by (vm_compute; reflexivity).
  destruct (run_runtime_step (host := sample_host) one_sandbox journal_runtime StepDelete
    (journal_world, tt)) as [[[presence r']|e] [w' env']]; [|discriminate Hp].
  injection Hp as ->. destruct H as (_ & _ & o & _ & H & _). split; [reflexivity|exact H].
Defined.
