(* ===== verification/CheckpointRecord.v ===== *)
(** * Recording and replaying the effects of an onboarding run

    src/lib/onboard/checkpoint-record.ts writes what a run decided and which
    provider credentials it registered into the session's checkpoint;
    src/lib/onboard/checkpoint-replay.ts decides, when the run is resumed, which of
    those effects may be skipped. *)

From S2P Require Import Prelude Json Names Machine Choices Time Station Checkpoint SessionData.
From S2P Require Import SessionParse Events SessionStore Recovery Recreate.

(** ** checkpoint-record.ts *)

Inductive ProviderEffectGroupName : Type := WebSearchProviders | MessagingProviders.
#[export] Instance ProviderEffectGroupName_eq_dec : EqDecision ProviderEffectGroupName.
Proof. solve_decision. Defined.

Definition effect_group (g : ProviderEffectGroupName) : CheckpointEffectGroupName :=
  match g with
  | WebSearchProviders => WebSearchProviderGroup
  | MessagingProviders => MessagingProvidersGroup
  end.
Definition other_group (g : ProviderEffectGroupName) : ProviderEffectGroupName :=
  match g with
  | WebSearchProviders => MessagingProviders
  | MessagingProviders => WebSearchProviders
  end.

(** [value] is truthy and [value.trim() === value]. *)
Definition trimmed (s : string) : bool := truthy s && (js_trim s =s s).

Definition valid_binding (b : CheckpointProviderBinding) : bool :=
  trimmed (b_name b) && trimmed (b_type b) && trimmed (b_credentialEnv b).

Definition assertValidProviderBindings (bindings : list CheckpointProviderBinding)
    : result checkpoint_error unit :=
  throw_unless (forallb valid_binding bindings && no_dup_b (map b_name bindings)) InvalidBindings.

Definition checkpointProviderEffectGroupNames (c : OnboardCheckpoint) (g : ProviderEffectGroupName)
    : result checkpoint_error (list string) :=
  match group_get (cp_effectGroups c) (effect_group g) with
  | None => Ok []
  | Some receipt =>
      let names := js_split "," (fingerprint receipt) in
      throw_unless (truthy (fingerprint receipt) && forallb trimmed names
                    && (js_join "," names =s fingerprint receipt) && no_dup_b names) InvalidReceipt;;
      Ok names
  end.

(** [session.checkpoint = { ...base, machineState, updatedAt: now, ...f(base) }]. *)
Definition record_checkpoint (s : Session) (now_ : string) (f : OnboardCheckpoint → OnboardCheckpoint)
    : Session :=
  s <| checkpoint := Some (f (baseCheckpoint s <| cp_machineState := m_state (machine s) |>
                                <| cp_updatedAt := now_ |>)) |>.

Definition recordCheckpointSandboxIdentity (s : Session) (name agent now_ : string) : Session :=
  record_checkpoint s now_ (λ c, c <| cp_sandboxIdentity := Selected (mkIdentity name agent) |>).

Definition recordCheckpointEffectGroup (s : Session) (group : CheckpointEffectGroupName)
    (fingerprint now_ : string) : Session :=
  record_checkpoint s now_ (λ c,
    c <| cp_effectGroups := group_set group (Some (mkEffect now_ fingerprint)) (cp_effectGroups c) |>).

Definition selected_or_declined {T} (o : option T) : CheckpointDecision T :=
  match o with Some v => Selected v | None => Declined end.

Definition recordCheckpointWebSearch (s : Session) (config : option WebSearchConfig) (now_ : string)
    : Session :=
  record_checkpoint s now_ (λ c, c <| cp_webSearch := selected_or_declined config |>).

Definition recordCheckpointMessaging (s : Session) (plan : option json) (now_ : string) : Session :=
  record_checkpoint s now_ (λ c, c <| cp_messaging := selected_or_declined
    ((λ p, mkMessaging (getActiveChannelIdsFromPlan (Some p)) (getDisabledChannelIdsFromPlan (Some p)))
       <$> plan) |>).

Definition recordCheckpointResourceProfile (s : Session) (profile : option CheckpointResourceProfile)
    (now_ : string) : Session :=
  record_checkpoint s now_ (λ c, c <| cp_resourceProfile := selected_or_declined profile |>).

(** [[...new Set(l)]]: the first occurrence of each string. *)
Fixpoint uniq_from (seen l : list string) : list string :=
  match l with
  | [] => []
  | x :: l' => if includes seen x then uniq_from seen l' else x :: uniq_from (x :: seen) l'
  end.
Definition uniq (l : list string) : list string := uniq_from [] l.

(** The receipt of a group of providers: none when it registered none. *)
Definition group_receipt (now_ : string) (bindings : list CheckpointProviderBinding)
    : option CheckpointEffectGroupRecord :=
  match bindings with
  | [] => None
  | _ => Some (mkEffect now_ (js_join "," (map b_name bindings)))
  end.

Definition recordCheckpointProviderEffectGroups (s : Session)
    (webSearch messaging : list CheckpointProviderBinding) (now_ : string)
    : result checkpoint_error Session :=
  let next := webSearch ++ messaging in
  assertValidProviderBindings next;;
  Ok (record_checkpoint s now_ (λ c,
        c <| cp_effectGroups := group_set WebSearchProviderGroup (group_receipt now_ webSearch)
               (group_set MessagingProvidersGroup (group_receipt now_ messaging) (cp_effectGroups c)) |>
          <| cp_bindings := mkBindings (uniq (map b_credentialEnv next)) next |>)).

Definition named_in (names : list string) (b : CheckpointProviderBinding) : bool :=
  includes names (b_name b).

Definition recordCheckpointProviderEffectGroup (s : Session) (group : ProviderEffectGroupName)
    (registered : list CheckpointProviderBinding) (now_ : string) : result checkpoint_error Session :=
  assertValidProviderBindings registered;;
  let base := baseCheckpoint s in
  let recorded := registeredProviders (cp_bindings base) in
  assertValidProviderBindings recorded;;
  previousNames ← checkpointProviderEffectGroupNames base group;
  otherNames ← checkpointProviderEffectGroupNames base (other_group group);
  let owned := previousNames ++ otherNames in
  throw_unless (no_dup_b owned) ConflictingOwnership;;
  throw_unless (forallb (includes (map b_name recorded)) owned) ReceiptWithoutBindings;;
  throw_unless (negb (existsb (named_in otherNames) registered)) OwnedByOtherGroup;;
  let previous := List.filter (named_in previousNames) recorded in
  let adopted := List.filter (λ b, negb (named_in previousNames b) && negb (named_in otherNames b)
                                   && named_in (map b_name registered) b) recorded in
  let remaining := List.filter (λ b, negb (named_in previousNames b)
                                     && negb (named_in (map b_name adopted) b)) recorded in
  let next := remaining ++ registered in
  assertValidProviderBindings next;;
  let replacedEnvs := map b_credentialEnv (previous ++ adopted) in
  Ok (record_checkpoint s now_ (λ c,
        c <| cp_effectGroups := group_set (effect_group group) (group_receipt now_ registered)
               (cp_effectGroups c) |>
          <| cp_bindings := mkBindings
               (uniq (List.filter (λ env, negb (includes replacedEnvs env))
                        (credentialEnvs (cp_bindings base)) ++ map b_credentialEnv next)) next |>)).

(** ** checkpoint-replay.ts *)

Definition checkpointSandboxIdentityMatches (session : option Session) (name : string) : bool :=
  match session with
  | None => false
  | Some s =>
      match checkpoint s with
      | Some c => match cp_sandboxIdentity c with Selected i => id_name i =s name | _ => false end
      | None => pp_sandboxName (sandboxPromptProgress s) && bool_decide (sandboxName s = Some name)
      end
  end.

(** [ONBOARD_MACHINE_STATES.indexOf(state)]: every state is in the list. *)
Definition machine_state_index (state : OnboardMachineState) : nat :=
  default 0 (fst <$> list_find (λ s, s = state) ONBOARD_MACHINE_STATES).

Definition checkpointProvesSandboxStepComplete (session : option Session) : bool :=
  match session with
  | Some s => match checkpoint s with
              | Some _ => (machine_state_index StSandbox <? machine_state_index (m_state (machine s)))%nat
              | None => false
              end
  | None => false
  end.

Inductive EffectGroupReplayReason : Type :=
| NotRecorded | PostconditionFailed | FingerprintMismatch | AlreadyCompleteRevalidated.

(** [action] is [skip] exactly for the last reason. *)
Record EffectGroupReplayDecision := mkReplay {
  replay_group : CheckpointEffectGroupName;
  replay_skip : bool;
  replay_reason : EffectGroupReplayReason;
}.

Definition planEffectGroupReplay (c : OnboardCheckpoint) (group : CheckpointEffectGroupName)
    (observedFingerprint : option string) : EffectGroupReplayDecision :=
  match group_get (cp_effectGroups c) group with
  | None => mkReplay group false NotRecorded
  | Some record =>
      if negb (truthy_opt observedFingerprint) then mkReplay group false PostconditionFailed
      else if bool_decide (observedFingerprint = Some (fingerprint record))
      then mkReplay group true AlreadyCompleteRevalidated
      else mkReplay group false FingerprintMismatch
  end.

(** [new Map(bindings.map((b) => [b.name, b])).get(name)]: the last one wins. *)
Definition binding_named (bindings : list CheckpointProviderBinding) (name : string)
    : option CheckpointProviderBinding :=
  List.find (λ b, b_name b =s name) (rev bindings).

Section Replay.
(** The live registration of a binding still matches. *)
Context (bindingMatches : CheckpointProviderBinding → bool).

Definition binding_revalidated (registered required : list CheckpointProviderBinding) (name : string)
    : bool :=
  match binding_named registered name, binding_named required name with
  | Some b, Some r =>
      (b_type b =s b_type r) && (b_credentialEnv b =s b_credentialEnv r) && bindingMatches b
  | _, _ => false
  end.

Definition observeProviderEffectFingerprint (c : OnboardCheckpoint) (group : CheckpointEffectGroupName)
    (required : list CheckpointProviderBinding) : option string :=
  match fingerprint <$> group_get (cp_effectGroups c) group with
  | None => None
  | Some fp =>
      let names := List.filter truthy (js_split "," fp) in
      if negb (truthy fp) || (List.length names =? 0)%nat || negb (js_join "," names =s fp)
         || negb (List.length names =? List.length required)%nat then None
      else if negb (no_dup_b names) || negb (no_dup_b (map b_name required)) then None
      else
        let receipt := List.filter (named_in names) (registeredProviders (cp_bindings c)) in
        if negb (List.length receipt =? List.length names)%nat then None
        else if forallb (binding_revalidated receipt required) names then Some fp else None
  end.
End Replay.

Definition HERMES_TAVILY_PROVIDER_PROFILE_ID : string := "tavily-hermes-v1".

(** [agentName]: [agent?.name], as the code's [agent] is only read there. *)
Definition requiredWebSearchProviderType (provider : WebSearchProvider) (agentName : option string)
    : string :=
  if bool_decide (provider = Tavily)
     && bool_decide (js_lower ∘ js_trim <$> agentName = Some "hermes")
  then HERMES_TAVILY_PROVIDER_PROFILE_ID else provider_id provider.

Inductive SandboxCreateReplayDecision : Type :=
| ReuseSandbox (identity : CheckpointSandboxIdentity)
| CreateSandbox (identity : CheckpointSandboxIdentity)
| CaptureIdentityFirst.

Definition planSandboxCreateReplay (c : OnboardCheckpoint) (liveSandboxExists : bool)
    : SandboxCreateReplayDecision :=
  match cp_sandboxIdentity c with
  | Selected identity =>
      if liveSandboxExists then ReuseSandbox identity else CreateSandbox identity
  | _ => CaptureIdentityFirst
  end.

(** ** Lemmas: comma-joined names *)

Definition comma_free (s : string) : bool := sep_free "," s.

(** ** Lemmas: what a provider group owns *)

(** The bindings registered under the names of a group's receipt. *)
Definition receipt_names (c : OnboardCheckpoint) (g : CheckpointEffectGroupName) : list string :=
  match group_get (cp_effectGroups c) g with Some r => js_split "," (fingerprint r) | None => [] end.
Definition owners (c : OnboardCheckpoint) (g : ProviderEffectGroupName) : list CheckpointProviderBinding :=
  List.filter (named_in (receipt_names c (effect_group g))) (registeredProviders (cp_bindings c)).

Lemma elem_filter {A} (p : A → bool) l x : x ∈ List.filter p l ↔ x ∈ l ∧ p x = true.
Proof. by rewrite !list_elem_of_In, filter_In. Qed.

Lemma named_in_spec names b : named_in names b = true ↔ b_name b ∈ names.
Proof. apply includes_spec. Qed.

Lemma elem_names l (b : CheckpointProviderBinding) : b ∈ l → b_name b ∈ map b_name l.
Proof. intros H. by apply list_elem_of_fmap_2. Qed.

Lemma nodup_names l : NoDup (map b_name l) → NoDup l.
Proof. apply NoDup_fmap_1. Qed.

Lemma find_unique l b :
  NoDup (map b_name l) → b ∈ l → List.find (λ x, b_name x =s b_name b) l = Some b.
Proof.
  induction l as [|x l IH]; intros Hnd Hb; [by apply not_elem_of_nil in Hb|].
  cbn [map] in Hnd. apply NoDup_cons in Hnd as [Hx Hnd]. cbn [List.find].
  apply elem_of_cons in Hb as [->|Hb]; [by rewrite String.eqb_refl|].
  destruct (b_name x =s b_name b) eqn:E; [|by apply IH].
  bools. destruct Hx. rewrite E. by apply elem_names.
Qed.

Lemma binding_named_unique l b : NoDup (map b_name l) → b ∈ l → binding_named l (b_name b) = Some b.
Proof.
  intros Hnd Hb. unfold binding_named. apply find_unique.
  - rewrite map_rev. by rewrite (Permutation_rev (map b_name l)) in Hnd.
  - by rewrite <- Permutation_rev.
Qed.

Lemma binding_named_inv l name b : binding_named l name = Some b → b ∈ l ∧ b_name b = name.
Proof.
  unfold binding_named. intros [H E]%find_some. bools. split; [|done].
  apply list_elem_of_In in H. by rewrite <- Permutation_rev in H.
Qed.

Lemma perm_of_incl {A} (l k : list A) :
  NoDup l → (∀ x, x ∈ l → x ∈ k) → List.length k = List.length l → l ≡ₚ k.
Proof.
  intros Hnd Hi Hlen. apply submseteq_length_Permutation; [by apply NoDup_submseteq|].
  by rewrite Hlen.
Qed.

(** A receipt names bindings that are all there, once. *)
Definition receipt_backed (c : OnboardCheckpoint) (g : ProviderEffectGroupName) : Prop :=
  is_Some (group_get (cp_effectGroups c) (effect_group g))
  ∧ Forall (λ n, truthy n = true) (receipt_names c (effect_group g))
  ∧ NoDup (receipt_names c (effect_group g))
  ∧ map b_name (owners c g) ≡ₚ receipt_names c (effect_group g).

Lemma filter_all {A} (p : A → bool) l : Forall (λ x, p x = true) l → List.filter p l = l.
Proof. induction 1 as [|x l Hx _ IH]; [done|]. cbn [List.filter]. by rewrite Hx, IH. Qed.

Lemma observed_names fp :
  let names := List.filter truthy (js_split "," fp) in
  (List.length names =? 0)%nat = false → js_join "," names = fp →
  names = js_split "," fp ∧ Forall (λ n, truthy n = true) names.
Proof.
  intros names Hn Hj. apply Nat.eqb_neq in Hn. split.
  - transitivity (js_split "," (js_join "," names)); [|by rewrite Hj].
    symmetry. apply split_join; [by intros H; rewrite H in Hn|].
    apply Forall_forall. intros n Hin. apply elem_filter in Hin as [Hin _].
    pose proof (split_pieces "," fp) as Hp. by rewrite Forall_forall in Hp; apply Hp.
  - apply Forall_forall. intros n Hin. by apply elem_filter in Hin as [_ ?].
Qed.

Lemma revalidated_inv matches registered required name :
  binding_revalidated matches registered required name = true →
  ∃ b, binding_named registered name = Some b ∧ binding_named required name = Some b
       ∧ matches b = true.
Proof.
  unfold binding_revalidated. destruct (binding_named registered name) as [b|] eqn:Eb; [|done].
  destruct (binding_named required name) as [r|] eqn:Er; [|done]. intros H. bools.
  apply binding_named_inv in Eb as [_ Hb], Er as [_ Hr]. exists b. split; [done|].
  split; [|done]. f_equal. destruct b, r. cbn in *. by subst.
Qed.

Lemma replay_exact matches c g required :
  replay_skip (planEffectGroupReplay c (effect_group g)
                 (observeProviderEffectFingerprint matches c (effect_group g) required)) = true
  ↔ receipt_backed c g ∧ required ≡ₚ owners c g ∧ Forall (λ b, matches b = true) (owners c g).
Proof.
  unfold planEffectGroupReplay, observeProviderEffectFingerprint, receipt_backed, owners, receipt_names.
  destruct (group_get _ _) as [[at_ fp]|]; cbn [fmap option_fmap option_map fingerprint];
    [|split; [done|by intros [[[? ?] _] _]]].
  set (names := List.filter truthy (js_split "," fp)). set (regs := registeredProviders (cp_bindings c)).
  split.
  - destruct (negb (truthy fp) || _ || _ || _) eqn:E1; [done|]. bools.
    destruct (negb (no_dup_b names) || _) eqn:E2; [done|]. unfold no_dup_b in E2. bools.
    destruct (observed_names fp) as [En Ht]; [done..|]. fold names in En, Ht. rewrite <- En.
    set (receipt := List.filter (named_in names) regs).
    destruct (negb (List.length receipt =? _)%nat) eqn:E3; [done|]. bools.
    destruct (forallb _ names) eqn:E4; [|done]. intros _.
    rewrite forallb_forall in E4. 
    repeat match goal with H : (_ =? _)%nat = true |- _ => apply Nat.eqb_eq in H end.
    assert (Hrev : ∀ n, n ∈ names → ∃ b, b ∈ receipt ∧ b ∈ required ∧ b_name b = n ∧ matches b = true).
    { intros n Hin. apply list_elem_of_In, E4, revalidated_inv in Hin as (b & B1 & B2 & ?).
      apply binding_named_inv in B1 as [? ?], B2 as [? _]. by exists b. }
    assert (Hp : names ≡ₚ map b_name receipt).
    { apply perm_of_incl; [done| |by rewrite length_map].
      intros n (b & ? & _ & <- & _)%Hrev. by apply elem_names. }
    assert (Hnd : NoDup (map b_name receipt)) by by rewrite <- Hp.
    assert (Hof : ∀ b, b ∈ receipt → b ∈ required ∧ matches b = true).
    { intros b Hb. assert (Hn : b_name b ∈ names) by (rewrite Hp; by apply elem_names).
      destruct (Hrev _ Hn) as (b' & B1 & B2 & B3 & B4).
      pose proof (binding_named_unique _ _ Hnd Hb) as U1.
      pose proof (binding_named_unique _ _ Hnd B1) as U2. rewrite B3, U1 in U2. by injection U2 as ->. }
    split_and!; [done|done|done|by symmetry| |].
    + symmetry. apply perm_of_incl; [by apply nodup_names|by intros b [? _]%Hof|lia].
    + apply Forall_forall. by intros b [_ ?]%Hof.
  - intros ((_ & Ht & Hnd & Hp) & Hreq & Hm).
    assert (En : names = js_split "," fp) by by apply filter_all. rewrite <- En in *.
    set (receipt := List.filter (named_in names) regs) in *.
    assert (Hnd' : NoDup (map b_name receipt)) by by rewrite Hp.
    assert (Hndr : NoDup (map b_name required)) by by rewrite Hreq.
    assert (E1 : negb (truthy fp) || (List.length names =? 0)%nat || negb (js_join "," names =s fp)
                 || negb (List.length names =? List.length required)%nat = false).
    { rewrite En at 2. rewrite (join_split ","), String.eqb_refl. rewrite Hreq, <- (length_map b_name receipt), Hp.
      rewrite Nat.eqb_refl. destruct names as [|n names'] eqn:E; [by destruct (split_not_nil "," fp)|].
      cbn [List.length Nat.eqb]. destruct (truthy fp) eqn:Etf; [done|]. bools. exfalso.
      assert (Htn : truthy fp = true); [|by rewrite Htn in Etf].
      apply truthy_true. intros ->. vm_compute in En. injection En as -> ->. by apply Forall_inv in Ht. }
    rewrite E1. unfold no_dup_b. rewrite !bool_decide_eq_true_2 by done. cbn [negb orb].
    assert (Hlen : List.length receipt = List.length names) by by rewrite <- Hp, length_map.
    rewrite Hlen, Nat.eqb_refl. cbn [negb].
    assert (E2 : forallb (binding_revalidated matches receipt required) names = true).
    { apply forallb_forall. intros n Hin%list_elem_of_In. rewrite <- Hp in Hin.
      apply list_elem_of_fmap in Hin as (b & -> & Hb). unfold binding_revalidated.
      rewrite (binding_named_unique receipt b), (binding_named_unique required b);
        [|done|by rewrite Hreq|done|done]. rewrite !String.eqb_refl.
      rewrite Forall_forall in Hm. by rewrite Hm. }
    rewrite E2. cbn [truthy_opt from_option]. destruct (truthy fp) eqn:Etf; [|discriminate E1].
    cbn [negb]. by rewrite bool_decide_eq_true_2.
Qed.

(** ** Lemmas: recording a group *)

Lemma checked_names c g names :
  checkpointProviderEffectGroupNames c g = Ok names → names = receipt_names c (effect_group g).
Proof.
  unfold checkpointProviderEffectGroupNames, receipt_names. destruct (group_get _ _); [|by intros [= <-]].
  unfold throw_unless. destruct (_ && _); [|done]. by intros [= <-].
Qed.

Lemma valid_bindings_inv bs :
  assertValidProviderBindings bs = Ok tt →
  Forall (λ b, valid_binding b = true) bs ∧ NoDup (map b_name bs).
Proof.
  unfold assertValidProviderBindings, throw_unless, no_dup_b. destruct (_ && _) eqn:E; [|done]. bools.
  intros _. split; [|done]. apply Forall_forall. intros b Hb%list_elem_of_In.
  rewrite forallb_forall in H. by apply H.
Qed.

Lemma group_get_set g g' r gs :
  group_get (group_set g r gs) g' = if decide (g = g') then r else group_get gs g'.
Proof. by destruct g, g'. Qed.

Lemma effect_group_other g : effect_group g ≠ effect_group (other_group g).
Proof. by destruct g. Qed.

(** The names a fresh receipt is read back with. *)
Lemma fresh_names now_ bs c g :
  Forall (λ b, comma_free (b_name b) = true) bs →
  group_get (cp_effectGroups c) g = group_receipt now_ bs → receipt_names c g = map b_name bs.
Proof.
  intros Hc E. unfold receipt_names. rewrite E. destruct bs as [|b bs]; [done|].
  cbn [group_receipt fingerprint]. apply split_join; [done|]. by apply Forall_fmap.
Qed.

Lemma uniq_from_spec l : ∀ seen x, x ∈ uniq_from seen l ↔ x ∈ l ∧ x ∉ seen.
Proof.
  induction l as [|y l IH]; intros seen x; cbn [uniq_from].
  { split; [|by intros [? _]]. intros H. by apply not_elem_of_nil in H. }
  destruct (includes seen y) eqn:E.
  - bools. rewrite IH, elem_of_cons. split; intros [H1 H2]; (split; [|done]); [by right|].
    by destruct H1 as [->|H1].
  - assert (y ∉ seen) by (intros H%includes_spec; congruence).
    rewrite !elem_of_cons, IH, not_elem_of_cons. split.
    + intros [->|(? & ? & ?)]; [by split; [left|]|]. by split; [right|].
    + intros [[->|?] ?]; [by left|]. destruct (decide (x = y)) as [->|]; [by left|]. by right.
Qed.
Lemma uniq_spec l x : x ∈ uniq l ↔ x ∈ l.
Proof.
  unfold uniq. rewrite uniq_from_spec. split; [by intros [? _]|]. intros. split; [done|].
  apply not_elem_of_nil.
Qed.

Lemma filter_and {A} (p q : A → bool) l :
  List.filter p (List.filter q l) = List.filter (λ x, q x && p x) l.
Proof.
  induction l as [|x l IH]; [done|]. cbn [List.filter].
  destruct (q x); cbn [List.filter andb]; rewrite IH; done.
Qed.

Lemma filter_none {A} (p : A → bool) l : (∀ x, x ∈ l → p x = false) → List.filter p l = [].
Proof.
  intros H. induction l as [|x l IH]; [done|]. cbn [List.filter]. rewrite H by (by left).
  apply IH. intros y Hy. apply H. by right.
Qed.

Lemma filter_same {A} (p q : A → bool) l :
  (∀ x, x ∈ l → p x = q x) → List.filter p l = List.filter q l.
Proof. intros H. apply filter_ext_in. intros x Hx%list_elem_of_In. by apply H. Qed.

Lemma named_in_false names b : named_in names b = false ↔ b_name b ∉ names.
Proof. rewrite <- not_true_iff_false. by rewrite named_in_spec. Qed.

(** The registered bindings the update keeps: those outside the group and of other names. *)
Definition kept (previous : list string) (bs : list CheckpointProviderBinding)
    (b : CheckpointProviderBinding) : bool :=
  negb (named_in previous b) && negb (named_in (map b_name bs) b).

Lemma remaining_kept (previous other : list string) bs recorded :
  (∀ b, b ∈ bs → b_name b ∉ other) →
  List.filter (λ b, negb (named_in previous b)
    && negb (named_in (map b_name (List.filter (λ b, negb (named_in previous b)
         && negb (named_in other b) && named_in (map b_name bs) b) recorded)) b)) recorded
  = List.filter (kept previous bs) recorded.
Proof.
  intros Ho. apply filter_same. intros b Hb. unfold kept.
  destruct (named_in previous b) eqn:Ep; [done|]. cbn [negb andb]. f_equal.
  apply eq_true_iff_eq. rewrite !named_in_spec. split.
  - intros (b' & E & [_ H]%elem_filter)%list_elem_of_fmap. bools. rewrite E. by apply named_in_spec.
  - intros Hn. apply elem_names, elem_filter. split; [done|]. rewrite Ep. cbn [negb andb].
    apply andb_true_iff. split; [|by apply named_in_spec]. apply negb_true_iff, named_in_false.
    apply list_elem_of_fmap in Hn as (b' & -> & Hb'). by apply Ho.
Qed.

(** What one update of the registered bindings did to the two groups. *)
Record group_updated (c c' : OnboardCheckpoint) (g : ProviderEffectGroupName)
    (bs : list CheckpointProviderBinding) : Prop := {
  gu_own : owners c' g = bs;
  gu_other : owners c' (other_group g) = owners c (other_group g);
  gu_receipt : group_get (cp_effectGroups c') (effect_group (other_group g))
               = group_get (cp_effectGroups c) (effect_group (other_group g));
  gu_kept : registeredProviders (cp_bindings c')
            = List.filter (kept (receipt_names c (effect_group g)) bs)
                (registeredProviders (cp_bindings c)) ++ bs;
  gu_names : NoDup (map b_name (registeredProviders (cp_bindings c')));
  gu_valid : Forall (λ b, valid_binding b = true) (registeredProviders (cp_bindings c'));
  gu_envs : ∀ b, b ∈ registeredProviders (cp_bindings c') →
              b_credentialEnv b ∈ credentialEnvs (cp_bindings c');
  gu_backed : bs = [] ∧ group_get (cp_effectGroups c') (effect_group g) = None
              ∨ bs ≠ [] ∧ receipt_backed c' g;
}.

Lemma valid_truthy b : valid_binding b = true → truthy (b_name b) = true.
Proof. unfold valid_binding, trimmed. intros. bools. by apply truthy_true. Qed.

Lemma owners_appended names (p : CheckpointProviderBinding → bool) recorded bs :
  (∀ b, b ∈ recorded → named_in names b = true → p b = true) →
  (∀ b, b ∈ bs → b_name b ∉ names) →
  List.filter (named_in names) (List.filter p recorded ++ bs) = List.filter (named_in names) recorded.
Proof.
  intros Hp Hb. rewrite List.filter_app, filter_and, (filter_none _ bs), app_nil_r.
  - apply filter_same. intros b Hin. destruct (named_in names b) eqn:E; [by rewrite Hp|].
    by rewrite andb_false_r.
  - intros b Hin. apply named_in_false. by apply Hb.
Qed.

Lemma own_appended (p : CheckpointProviderBinding → bool) recorded bs :
  (∀ b, b ∈ recorded → p b = true → b_name b ∉ map b_name bs) →
  List.filter (named_in (map b_name bs)) (List.filter p recorded ++ bs) = bs.
Proof.
  intros Hp. rewrite List.filter_app, filter_none, (filter_all _ bs); [done| |].
  - apply Forall_forall. intros b Hb. by apply named_in_spec, elem_names.
  - intros b [Hin Hpb]%elem_filter. apply named_in_false. by apply Hp.
Qed.

Lemma recorded_group s g bs at_ s' :
  Forall (λ b, comma_free (b_name b) = true) bs →
  recordCheckpointProviderEffectGroup s g bs at_ = Ok s' →
  group_updated (baseCheckpoint s) (baseCheckpoint s') g bs.
Proof.
  intros Hc. unfold recordCheckpointProviderEffectGroup. intros H.
  set (c := baseCheckpoint s) in *. set (recorded := registeredProviders (cp_bindings c)) in *.
  destruct (assertValidProviderBindings bs) as [[]|] eqn:Hbs; [|done]. cbn [mbind result_bind] in H.
  destruct (assertValidProviderBindings recorded) as [[]|] eqn:Hr; [|done]. cbn [mbind result_bind] in H.
  destruct (checkpointProviderEffectGroupNames c g) as [prev|] eqn:Hp; [|done]. cbn [mbind result_bind] in H.
  destruct (checkpointProviderEffectGroupNames c (other_group g)) as [oth|] eqn:Ho; [|done].
  cbn [mbind result_bind] in H. apply checked_names in Hp, Ho.
  unfold throw_unless in H. destruct (no_dup_b (prev ++ oth)) eqn:Hnd; [|done]. cbn [mbind result_bind] in H.
  destruct (forallb _ (prev ++ oth)); [|done]. cbn [mbind result_bind] in H.
  destruct (existsb (named_in oth) bs) eqn:Hx; [done|]. cbn [negb mbind result_bind] in H.
  assert (Hoth : ∀ b, b ∈ bs → b_name b ∉ oth).
  { intros b Hb Hin. rewrite <- not_true_iff_false in Hx. apply Hx, existsb_exists.
    exists b. by split; [apply list_elem_of_In|apply named_in_spec]. }
  rewrite (remaining_kept prev oth bs recorded Hoth) in H.
  set (next := List.filter (kept prev bs) recorded ++ bs) in *.
  destruct (assertValidProviderBindings next) as [[]|] eqn:Hn; [|done]. cbn [mbind result_bind] in H.
  injection H as <-. apply valid_bindings_inv in Hn as [Hnv Hnn], Hbs as [Hbv Hbn].
  unfold no_dup_b in Hnd. bools. apply NoDup_app in Hnd as (_ & Hdis & _).
  match goal with |- group_updated _ ?x _ _ => set (c' := x) end.
  assert (Hreg : registeredProviders (cp_bindings c') = next) by done.
  assert (Hg : ∀ g', group_get (cp_effectGroups c') g' = if decide (effect_group g = g')
                     then group_receipt at_ bs else group_get (cp_effectGroups c) g')
    by (intros g'; apply group_get_set).
  assert (Hown : receipt_names c' (effect_group g) = map b_name bs)
    by (apply (fresh_names at_); [done|]; by rewrite Hg, decide_True).
  assert (Hoth' : group_get (cp_effectGroups c') (effect_group (other_group g))
                  = group_get (cp_effectGroups c) (effect_group (other_group g)))
    by (rewrite Hg, decide_False; [done|apply effect_group_other]).
  assert (Hgo : owners c' g = bs).
  { unfold owners. rewrite Hown, Hreg. apply own_appended. unfold kept. intros b _ Hk. bools.
    by apply named_in_false. }
  split; rewrite ?Hreg; try done.
  - assert (Hon : receipt_names c' (effect_group (other_group g)) = oth)
      by (unfold receipt_names in *; by rewrite Hoth').
    unfold owners. rewrite Hon, <- Ho, Hreg. apply owners_appended; [|done].
    intros b Hb Hbo%named_in_spec. unfold kept. apply andb_true_iff. split; apply negb_true_iff, named_in_false.
    + intros Hbp. by destruct (Hdis _ Hbp).
    + intros (b' & E & Hb')%list_elem_of_fmap. apply (Hoth b' Hb'). by rewrite <- E.
  - by rewrite <- Hp.
  - intros b Hb. apply uniq_spec, elem_of_app. right. by apply list_elem_of_fmap_2.
  - destruct bs as [|b0 bs']; [left|right]; (split; [done|]); [by rewrite Hg, decide_True|].
    set (bs := b0 :: bs') in *. split; [|split; [|split]].
    + rewrite Hg, decide_True by done. by eexists.
    + rewrite Hown. apply Forall_fmap. eapply Forall_impl; [exact Hbv|]. apply valid_truthy.
    + by rewrite Hown.
    + by rewrite Hgo, Hown.
Qed.

Lemma recorded_groups s ws ms at_ s' :
  Forall (λ b, comma_free (b_name b) = true) (ws ++ ms) →
  recordCheckpointProviderEffectGroups s ws ms at_ = Ok s' →
  owners (baseCheckpoint s') WebSearchProviders = ws ∧ owners (baseCheckpoint s') MessagingProviders = ms
  ∧ registeredProviders (cp_bindings (baseCheckpoint s')) = ws ++ ms.
Proof.
  unfold recordCheckpointProviderEffectGroups. intros [Hw Hm]%Forall_app.
  destruct (assertValidProviderBindings _) as [[]|] eqn:Hv; [|done]. cbn [mbind result_bind].
  apply valid_bindings_inv in Hv as [_ Hnd]. rewrite map_app in Hnd.
  apply NoDup_app in Hnd as (_ & Hdis & _). intros [= <-].
  match goal with |- owners ?x _ = _ ∧ _ => set (c' := x) end.
  assert (Hnw : receipt_names c' WebSearchProviderGroup = map b_name ws)
    by (by apply (fresh_names at_)).
  assert (Hnm : receipt_names c' MessagingProvidersGroup = map b_name ms)
    by (by apply (fresh_names at_)).
  unfold owners. cbn [effect_group]. rewrite Hnw, Hnm.
  change (registeredProviders (cp_bindings c')) with (ws ++ ms).
  rewrite !List.filter_app.
  assert (Hall : ∀ bs, List.filter (named_in (map b_name bs)) bs = bs).
  { intros bs. apply filter_all, Forall_forall. intros b Hb. by apply named_in_spec, elem_names. }
  rewrite !Hall, !filter_none; [by rewrite app_nil_r| |];
    intros b Hb; apply named_in_false; intros Hn; apply elem_names in Hb;
    first [exact (Hdis _ Hn Hb)|exact (Hdis _ Hb Hn)].
Qed.

(** ** Lemmas: what a recorder writes is read back *)

Lemma group_set_records at_ g r gs :
  (∀ g r, group_get gs g = Some r → parseEffectGroupRecord (effect_json r) = Some r) →
  isCanonicalIso at_ = true →
  from_option (λ r, completedAt r = at_ ∧ truthy (fingerprint r) = true) True r →
  ∀ g' r', group_get (group_set g r gs) g' = Some r' →
    parseEffectGroupRecord (effect_json r') = Some r'.
Proof.
  intros Hgs Hat Hr g' r'. rewrite group_get_set. case_decide as E; [|apply Hgs]. intros ->.
  destruct Hr as [<- Hf]. unfold parseEffectGroupRecord, effect_json. jget_simpl.
  rewrite (readCanonicalIsoTimestamp_str _ Hat), readNonEmpty_str by done. by destruct r'.
Qed.

Lemma valid_bindings_read envs bs :
  Forall (λ b, valid_binding b = true) bs →
  parseBindings (bindings_json (mkBindings envs bs)) = Some (mkBindings envs bs).
Proof.
  intros H. unfold parseBindings, bindings_json. jget_simpl. cbn [credentialEnvs registeredProviders].
  rewrite readStrictStringArray_jstrs. cbn [mbind option_bind].
  assert (Hp : parseProviderBindings (JArr (map binding_json bs)) = Some bs); [|by rewrite Hp].
  unfold parseProviderBindings. induction H as [|b bs Hb _ IH]; [done|]. cbn [map mapM].
  assert (Hb' : parseProviderBinding (binding_json b) = Some b).
  { unfold parseProviderBinding, binding_json. jget_simpl. unfold valid_binding, trimmed in Hb. bools.
    rewrite !readNonEmpty_str by by apply truthy_true. by destruct b. }
  by rewrite Hb', IH.
Qed.

Lemma receipt_fits now_ bs :
  Forall (λ b, valid_binding b = true) bs →
  from_option (λ r, completedAt r = now_ ∧ truthy (fingerprint r) = true) True (group_receipt now_ bs).
Proof.
  destruct 1 as [|b bs Hb _]; [done|]. cbn [group_receipt from_option completedAt fingerprint map].
  split; [done|]. apply valid_truthy in Hb. destruct bs as [|b' bs]; [done|].
  unfold js_join. cbn [String.concat]. destruct (b_name b) eqn:E; [discriminate Hb|]. done.
Qed.

(** ** Lemmas: every recorder *)

Inductive RecordOp : Type :=
| RecIdentity (name agent : string)
| RecEffect (group : CheckpointEffectGroupName) (fingerprint : string)
| RecWebSearch (config : option WebSearchConfig)
| RecMessaging (plan : option json)
| RecProfile (profile : option CheckpointResourceProfile)
| RecProviderGroups (webSearch messaging : list CheckpointProviderBinding)
| RecProviderGroup (group : ProviderEffectGroupName) (registered : list CheckpointProviderBinding).

Definition run_record (s : Session) (now_ : string) (op : RecordOp) : result checkpoint_error Session :=
  match op with
  | RecIdentity name agent => Ok (recordCheckpointSandboxIdentity s name agent now_)
  | RecEffect group fp => Ok (recordCheckpointEffectGroup s group fp now_)
  | RecWebSearch config => Ok (recordCheckpointWebSearch s config now_)
  | RecMessaging plan => Ok (recordCheckpointMessaging s plan now_)
  | RecProfile profile => Ok (recordCheckpointResourceProfile s profile now_)
  | RecProviderGroups ws ms => recordCheckpointProviderEffectGroups s ws ms now_
  | RecProviderGroup g bs => recordCheckpointProviderEffectGroup s g bs now_
  end.

(** An identity is a valid one and agrees with a replacement in progress; a
    fingerprint is not empty. *)
Definition record_fits (s : Session) (op : RecordOp) : Prop :=
  match op with
  | RecIdentity name agent =>
      truthy agent = true ∧ (String.length name ≤ NAME_MAX_LENGTH)%nat ∧ NAME_VALID_PATTERN name = true
      ∧ from_option (λ tx, tx_sandboxName tx = name) True (activeTransaction s)
  | RecEffect _ fp => truthy fp = true
  | _ => True
  end.

Lemma provider_group_shape s g bs now_ s' :
  recordCheckpointProviderEffectGroup s g bs now_ = Ok s' →
  ∃ envs next, Forall (λ b, valid_binding b = true) bs ∧ Forall (λ b, valid_binding b = true) next
  ∧ s' = record_checkpoint s now_ (λ c,
           c <| cp_effectGroups := group_set (effect_group g) (group_receipt now_ bs) (cp_effectGroups c) |>
             <| cp_bindings := mkBindings envs next |>).
Proof.
  unfold recordCheckpointProviderEffectGroup. intros H.
  destruct (assertValidProviderBindings bs) as [[]|] eqn:Hbs; [|done]. cbn [mbind result_bind] in H.
  repeat match type of H with
  | mbind _ (assertValidProviderBindings ?l) = Ok _ =>
      let E := fresh "Hn" in
      destruct (assertValidProviderBindings l) as [[]|] eqn:E; [|done]; cbn [mbind result_bind] in H
  | mbind _ ?e = Ok _ => destruct e; [|done]; cbn [mbind result_bind] in H
  end. injection H as <-. apply valid_bindings_inv in Hbs as [? _]. do 2 eexists. split; [done|].
  split; [|reflexivity]. by apply valid_bindings_inv in Hn0 as [? _].
Qed.

Lemma base_recorded s now_ f :
  baseCheckpoint (record_checkpoint s now_ f)
  = f (baseCheckpoint s <| cp_machineState := m_state (machine s) |> <| cp_updatedAt := now_ |>).
Proof. done. Qed.

Section WithHost.
Context {host : Host}.

(** Parts of a checkpoint with new provider groups and bindings. *)
Lemma parts_with_groups c gs bs :
  checkpoint_parts parseURL c →
  (∀ g r, group_get gs g = Some r → parseEffectGroupRecord (effect_json r) = Some r) →
  parseBindings (bindings_json bs) = Some bs →
  checkpoint_parts parseURL (c <| cp_effectGroups := gs |> <| cp_bindings := bs |>).
Proof. intros [] Hg Hb. split; try done. by apply records_groups. Qed.

Lemma selected_read {T} (value_json : T → json) parseValue v :
  parseValue (value_json v) = Some v →
  parseCheckpointDecision (decision_json value_json (Selected v)) parseValue = Some (Selected v).
Proof. intros H. unfold parseCheckpointDecision, decision_json. jget_simpl. by rewrite H. Qed.

Lemma identity_read name agent :
  truthy agent = true → (String.length name ≤ NAME_MAX_LENGTH)%nat → NAME_VALID_PATTERN name = true →
  parseSandboxIdentityValue (identity_json (mkIdentity name agent)) = Some (mkIdentity name agent).
Proof.
  intros Ha Hl Hp. unfold parseSandboxIdentityValue, identity_json. jget_simpl. cbn [id_name id_agent].
  by rewrite Ha, Hp, (proj2 (Nat.leb_le _ _) Hl).
Qed.

Lemma recorded_parts s now_ op s' :
  url_origin_law parseURL → isCanonicalIso now_ = true → session_ok s → record_fits s op →
  run_record s now_ op = Ok s' →
  ∃ c', s' = s <| checkpoint := Some c' |> ∧ checkpoint_parts parseURL c'
        ∧ cp_sandboxRecreate c' = activeTransaction s.
Proof.
  intros Hurl Hnow Hok Hfit H.
  pose proof (base_parts s (m_state (machine s)) now_ Hurl Hok Hnow) as Hb.
  set (b := baseCheckpoint s <| cp_machineState := m_state (machine s) |> <| cp_updatedAt := now_ |>) in *.
  assert (Hgr := groups_records _ _ (part_groups _ _ Hb)).
  assert (Hse : ∀ f, cp_sandboxRecreate (f b) = activeTransaction s → checkpoint_parts parseURL (f b) →
    s' = record_checkpoint s now_ f → ∃ c', s' = s <| checkpoint := Some c' |>
      ∧ checkpoint_parts parseURL c' ∧ cp_sandboxRecreate c' = activeTransaction s)
    by (intros f ? ? ->; by exists (f b)).
  destruct op as [name agent|g fp|cfg|plan|prof|ws ms|g bs]; cbn [run_record record_fits] in *.
  - destruct Hfit as (Ha & Hl & Hp & Htx). injection H as <-. eapply Hse; [|clear Hse|reflexivity]; [done|].
    assert (Ht : cp_sandboxRecreate b = activeTransaction s) by done. rewrite <- Ht in Htx.
    destruct Hb. split; try done.
    + by apply selected_read, identity_read.
    + rename part_matches into Hj. cbn -[b journal_matches]. destruct (cp_sandboxRecreate b) as [tx|]; [|done].
      cbn [from_option] in *. unfold journal_matches in *. destruct (cp_sandboxIdentity b); [done|done|].
      destruct (cp_gatewayAuthority b); [done|done|]. cbn [id_name].
      apply andb_true_iff in Hj as [[_ E1]%andb_true_iff E2].
      by rewrite Htx, String.eqb_refl, E1, E2.
  - injection H as <-. eapply Hse; [|clear Hse|reflexivity]; [done|].
    apply (parts_with_groups b (group_set g (Some (mkEffect now_ fp)) (cp_effectGroups b))
             (cp_bindings b)); [done| |by destruct Hb].
    by apply (group_set_records now_).
  - injection H as <-. eapply Hse; [|clear Hse|reflexivity]; [done|]. destruct Hb. split; try done.
    by destruct cfg as [[[]]|].
  - injection H as <-. eapply Hse; [|clear Hse|reflexivity]; [done|]. destruct Hb. split; try done.
    destruct plan; [|done]. by apply selected_read, channels_rt.
  - injection H as <-. eapply Hse; [|clear Hse|reflexivity]; [done|]. destruct Hb. split; try done.
    destruct prof; [|done]. by apply selected_read, profile_rt.
  - unfold recordCheckpointProviderEffectGroups in H.
    destruct (assertValidProviderBindings _) as [[]|] eqn:Hv; [|done]. injection H as <-.
    apply valid_bindings_inv in Hv as [Hv _]. pose proof Hv as Hv'. apply Forall_app in Hv' as [Hw Hm].
    eapply Hse; [|clear Hse|reflexivity]; [done|]. apply (parts_with_groups b
      (group_set WebSearchProviderGroup (group_receipt now_ ws)
         (group_set MessagingProvidersGroup (group_receipt now_ ms) (cp_effectGroups b)))
      (mkBindings (uniq (map b_credentialEnv (ws ++ ms))) (ws ++ ms))); [done| |].
    + apply (group_set_records now_); [|done|by apply receipt_fits].
      apply (group_set_records now_); [done|done|by apply receipt_fits].
    + by apply valid_bindings_read.
  - apply provider_group_shape in H as (envs & next & Hv & Hn & ->).
    eapply Hse; [|clear Hse|reflexivity]; [done|]. apply (parts_with_groups b
      (group_set (effect_group g) (group_receipt now_ bs) (cp_effectGroups b)) (mkBindings envs next));
      [done| |].
    + apply (group_set_records now_); [done|done|by apply receipt_fits].
    + by apply valid_bindings_read.
Qed.
End WithHost.

(** ** Properties *)

(** C24: the two provider groups are a map from groups to the bindings they
    registered.  Recording a group that returns sets the group's bindings and no
    other: the other group keeps its own, bindings neither owns are kept unless
    renamed over, names stay unique and every binding's credential stays listed.
    Until the next update, a resumed run skips the group exactly when what it
    requires is what was recorded and every binding still matches live, and its
    decision for the other group is what it was.  Recording both at once sets both.
    (Names with a comma are outside the encoding of a receipt.) *)
Theorem provider_ownership_map s at_ s' :
  (∀ g bs, Forall (λ b, comma_free (b_name b) = true) bs →
     recordCheckpointProviderEffectGroup s g bs at_ = Ok s' →
     let c := baseCheckpoint s in let c' := baseCheckpoint s' in
     owners c' g = bs ∧ owners c' (other_group g) = owners c (other_group g)
     ∧ registeredProviders (cp_bindings c')
       = List.filter (kept (receipt_names c (effect_group g)) bs) (registeredProviders (cp_bindings c)) ++ bs
     ∧ NoDup (map b_name (registeredProviders (cp_bindings c')))
     ∧ (∀ b, b ∈ registeredProviders (cp_bindings c') →
          b_credentialEnv b ∈ credentialEnvs (cp_bindings c'))
     ∧ ∀ matches required,
         let skipped c g := replay_skip (planEffectGroupReplay c (effect_group g)
           (observeProviderEffectFingerprint matches c (effect_group g) required)) in
         (skipped c' g = true ↔ bs ≠ [] ∧ required ≡ₚ bs ∧ Forall (λ b, matches b = true) bs)
         ∧ skipped c' (other_group g) = skipped c (other_group g))
  ∧ (∀ ws ms, Forall (λ b, comma_free (b_name b) = true) (ws ++ ms) →
       recordCheckpointProviderEffectGroups s ws ms at_ = Ok s' →
       owners (baseCheckpoint s') WebSearchProviders = ws
       ∧ owners (baseCheckpoint s') MessagingProviders = ms
       ∧ registeredProviders (cp_bindings (baseCheckpoint s')) = ws ++ ms).
Proof.
  split; [|intros ws ms; by apply recorded_groups]. intros g bs Hc H c c'.
  destruct (recorded_group s g bs at_ s' Hc H) as [Ho Hoo Hr Hk Hn _ He Hb].
  fold c c' in Ho, Hoo, Hr, Hk, Hn, He, Hb. split_and!; [done..|]. intros matches required skipped.
  split.
  - unfold skipped. rewrite replay_exact, Ho.
    destruct Hb as [[-> E]|[Hne Hb]]; [|by split; [intros (_ & ? & ?)|intros (_ & ? & ?)]].
    split; [|by intros [? _]]. intros [[[r Hs] _] _]. by rewrite E in Hs.
  - apply eq_true_iff_eq. unfold skipped. rewrite !replay_exact, Hoo. unfold receipt_backed, receipt_names.
    by rewrite Hr, Hoo.
Qed.

(** recording is well typed.  Every recorder that returns on a session that
    would be saved and loaded unchanged, given a canonical time and, for an
    identity, a valid name that agrees with a replacement in progress, leaves such a
    session: only the checkpoint changes, the replacement journal is kept, and the
    new checkpoint loads back as recorded. *)
Theorem recording_keeps_session {host : Host} s now_ op s' :
  url_origin_law parseURL → isCanonicalIso now_ = true → session_ok s → record_fits s op →
  run_record s now_ op = Ok s' →
  session_ok s' ∧ (mem_stable s → mem_stable s')
  ∧ activeTransaction s' = activeTransaction s
  ∧ ∃ c', s' = s <| checkpoint := Some c' |> ∧ inspectCheckpoint parseURL (serializeCheckpoint c') = Loaded c'.
Proof.
  intros Hurl Hnow Hok Hfit H.
  destruct (recorded_parts s now_ op s' Hurl Hnow Hok Hfit H) as (c' & -> & Hp & Ht).
  split; [by apply with_checkpoint_ok|]. split; [by apply with_checkpoint_stable|]. split; [done|].
  exists c'. split; [done|]. by apply serialized_loads.
Qed.

(** ** On a concrete session *)

Definition sample_bindings : list CheckpointProviderBinding :=
  [mkBinding "box-slack" "generic" "SLACK_TOKEN"; mkBinding "box-telegram" "generic" "TELEGRAM_TOKEN"].
Definition recorded_session : Session := Eval vm_compute in
  match recordCheckpointProviderEffectGroup selected_session MessagingProviders sample_bindings
          "2026-01-01T00:00:00.000Z" with
  | Ok s => s
  | Throw _ => sample_session
  end.

Lemma provider_ownership_map_witness :
  owners (baseCheckpoint recorded_session) MessagingProviders = sample_bindings
  ∧ replay_skip (planEffectGroupReplay (baseCheckpoint recorded_session) MessagingProvidersGroup
      (observeProviderEffectFingerprint (λ _, true) (baseCheckpoint recorded_session)
         MessagingProvidersGroup (rev sample_bindings))) = true.
Proof.
  destruct (provider_ownership_map selected_session "2026-01-01T00:00:00.000Z" recorded_session)
    as [H _].
  destruct (H MessagingProviders sample_bindings) as (Ho & _ & _ & _ & _ & Hr);
    [repeat constructor|vm_compute; reflexivity|].
  split; [exact Ho|]. apply (Hr (λ _, true) (rev sample_bindings)).
  split; [discriminate|]. split; [apply perm_swap|]. repeat constructor.
Defined.

Lemma recording_keeps_session_witness :
  match run_record selected_session "2026-01-01T00:00:00.000Z"
          (RecProviderGroup MessagingProviders sample_bindings) with
  | Ok s' => session_ok (host := sample_host) s'
  | Throw _ => False
  end.
Proof.
  destruct (run_record selected_session _ _) as [s'|e] eqn:E; [|vm_compute in E; discriminate E].
  apply (recording_keeps_session (host := sample_host) selected_session "2026-01-01T00:00:00.000Z"
    (RecProviderGroup MessagingProviders sample_bindings) s').
  - exact one_url_law.
  - vm_compute. reflexivity.
  - exact selected_ok.
  - exact I.
  - exact E.
Defined.
