(* ===== verification/WatcherLease.v ===== *)
(** * The durable lease on a gateway watcher

    src/lib/onboard/managed-bootstrap/podman-watcher-lease.ts: before a Podman
    replacement may run, the controller takes a durable lease, stops the one watcher
    of the gateway, and proves it stopped; it releases the lease only after the same
    owner is proved healthy again, and recovers a lease a crash left behind.

    The controller owns no state: everything it knows comes from its injected
    dependencies (the store, the probes, the lifecycle owner, the clock).  A function
    of the controller is therefore a program that calls dependencies ([Prog]); an
    environment answers each call, or throws, as it likes at every point of the
    history, and the theorems hold for every environment. *)

From S2P Require Import Prelude Programs.

(** ** Data *)

Definition DEFAULT_RESUME_TIMEOUT_MS : Z := 30000.
Definition DEFAULT_RESUME_POLL_INTERVAL_MS : Z := 250.
Definition MAX_OPAQUE_IDENTITY_LENGTH : nat := 4096.
Definition PODMAN_WATCHER_LEASE_SCHEMA_VERSION : Z := 2.

Inductive PodmanGatewayWatcherOwnerKind : Type := ManagedService | StandaloneOwner.
#[export] Instance owner_kind_eq_dec : EqDecision PodmanGatewayWatcherOwnerKind.
Proof. solve_decision. Defined.
Inductive PodmanGatewayWatcherLeasePhase : Type := Acquiring | Stopped.
#[export] Instance lease_phase_eq_dec : EqDecision PodmanGatewayWatcherLeasePhase.
Proof. solve_decision. Defined.

Record PodmanGatewayWatcherSnapshot := mkSnapshot {
  gatewayName : string;
  gatewayPort : Z;
  launchIdentity : string;
  ownerIdentity : string;
  ownerKind : PodmanGatewayWatcherOwnerKind;
  pid : Z;
  processStartIdentity : string;
}.
#[export] Instance snapshot_eq_dec : EqDecision PodmanGatewayWatcherSnapshot.
Proof. solve_decision. Defined.

Record PodmanGatewayWatcherLeaseHolder := mkHolder {
  h_pid : Z;
  h_processStartIdentity : string;
}.
#[export] Instance holder_eq_dec : EqDecision PodmanGatewayWatcherLeaseHolder.
Proof. solve_decision. Defined.

(** [{ ...snapshot, schemaVersion: 2, holder, leaseId, phase }]. *)
Record PodmanGatewayWatcherLeaseRecord := mkLease {
  l_snapshot : PodmanGatewayWatcherSnapshot;
  l_holder : PodmanGatewayWatcherLeaseHolder;
  leaseId : string;
  l_phase : PodmanGatewayWatcherLeasePhase;
}.

(** What a dependency hands over before it is checked: numbers may be anything,
    kinds and phases are strings, and an object may be missing ([None]). *)
Record RawSnapshot := mkRaw {
  r_gatewayName : string;
  r_gatewayPort : jsnum;
  r_launchIdentity : string;
  r_ownerIdentity : string;
  r_ownerKind : string;
  r_pid : jsnum;
  r_processStartIdentity : string;
}.
Record RawHolder := mkRawHolder { rh_pid : jsnum; rh_processStartIdentity : string }.
Record RawLease := mkRawLease {
  rl_snapshot : RawSnapshot;
  rl_schemaVersion : jsnum;
  rl_holder : option RawHolder;
  rl_leaseId : string;
  rl_phase : string;
}.

Inductive lease_message : Type :=
| UnsafeIdentity (field : string) | SnapshotNotObject | InvalidGatewayName | InvalidGatewayPort
| InvalidProcessId | UnsupportedOwner | DifferentTarget | HolderInvalid | LeaseInvalid
| EnumerationNotArray | NotExclusive | ChangedBeforeCutover | UnhealthyBeforeCutover
| StillAlive | OwnerNotStopped | WatcherAppeared | TimeoutNotPositive | PollNegative
| ClockUnavailable | MultipleAppeared | ResumedOther | MultipleExist | NoExactProof
| NeitherStoppedNorServing | NotResumed (startFailed : bool) | OwnedByLiveProcess
| LeaseIdInvalid | PersistUnrecovered | AlreadyReleased | LeaseChanged | LeaseChangedBeforeRelease.

(** [DepThrew]: an exception of a dependency, not of the controller. *)
Inductive lease_error : Type :=
| DepThrew (message : string)
| LeaseError (message : lease_message) (recovery : bool)
| StopFailed (cause : lease_error) (recovery : bool)
| PersistFailedRestored (cause : lease_error).

(** [error.recoveryRequired]. *)
Definition recoveryRequired (e : lease_error) : bool :=
  match e with
  | LeaseError _ r | StopFailed _ r => r
  | DepThrew _ | PersistFailedRestored _ => false
  end.

(** ** Normalisation *)

Definition lease_fail {A} (m : lease_message) : result lease_error A := Throw (LeaseError m false).
Definition lease_unless (b : bool) (m : lease_message) : result lease_error unit :=
  throw_unless b (LeaseError m false).

Definition CONTROL_CHARACTER (c : ascii) : bool := in_range 0 31 c || in_range 127 159 c.

Definition safeOpaqueIdentity (value field : string) : result lease_error string :=
  lease_unless (truthy value && (String.length value <=? MAX_OPAQUE_IDENTITY_LENGTH)%nat
                && (js_trim value =s value) && negb (existsb CONTROL_CHARACTER (chars value)))
    (UnsafeIdentity field);;
  Ok value.

Definition SAFE_GATEWAY_NAME (s : string) : bool :=
  match chars s with
  | c :: l => is_alnum c && forallb (λ c, is_alnum c || one_of "_.-" c) l
  | [] => false
  end.

Definition lower_hex_run (n : nat) (l : list ascii) : bool :=
  (List.length l =? n)%nat && forallb is_lower_hex l.
Definition SAFE_LEASE_ID (s : string) : bool :=
  match map chars (js_split "-" s) with
  | [a; b; v :: c; w :: d; e] =>
      lower_hex_run 8 a && lower_hex_run 4 b && Ascii.eqb v "4" && lower_hex_run 3 c
      && one_of "89ab" w && lower_hex_run 3 d && lower_hex_run 12 e
  | _ => false
  end.

(** [Number.isSafeInteger(n)] with its value. *)
Definition safe_integer (n : jsnum) : option Z :=
  match n with
  | NInt z => if (Z.abs z <=? MAX_SAFE_INTEGER)%Z then Some z else None
  | _ => None
  end.
Definition port_number (n : jsnum) : option Z :=
  z ← safe_integer n; if ((1 <=? z) && (z <=? 65535))%Z then Some z else None.
Definition process_id (n : jsnum) : option Z :=
  z ← safe_integer n; if (0 <? z)%Z then Some z else None.

Definition owner_kind (s : string) : option PodmanGatewayWatcherOwnerKind :=
  if s =s "managed-service" then Some ManagedService
  else if s =s "standalone" then Some StandaloneOwner else None.

Definition normalizeSnapshot (value : option RawSnapshot) (expectedTarget : option (string * Z))
    : result lease_error PodmanGatewayWatcherSnapshot :=
  v ← of_option (LeaseError SnapshotNotObject false) value;
  lease_unless (SAFE_GATEWAY_NAME (r_gatewayName v)) InvalidGatewayName;;
  port ← of_option (LeaseError InvalidGatewayPort false) (port_number (r_gatewayPort v));
  pid ← of_option (LeaseError InvalidProcessId false) (process_id (r_pid v));
  kind ← of_option (LeaseError UnsupportedOwner false) (owner_kind (r_ownerKind v));
  lease_unless (from_option (λ t, (r_gatewayName v =s t.1) && (port =? t.2)%Z) true expectedTarget)
    DifferentTarget;;
  launch ← safeOpaqueIdentity (r_launchIdentity v) "launch identity";
  owner ← safeOpaqueIdentity (r_ownerIdentity v) "owner identity";
  start ← safeOpaqueIdentity (r_processStartIdentity v) "process-start identity";
  Ok (mkSnapshot (r_gatewayName v) port launch owner kind pid start).

Definition normalizeHolder (value : option RawHolder)
    : result lease_error PodmanGatewayWatcherLeaseHolder :=
  v ← of_option (LeaseError HolderInvalid true) value;
  pid ← of_option (LeaseError HolderInvalid true) (process_id (rh_pid v));
  start ← safeOpaqueIdentity (rh_processStartIdentity v) "lease-holder process-start identity";
  Ok (mkHolder pid start).

Definition lease_phase (s : string) : option PodmanGatewayWatcherLeasePhase :=
  if s =s "acquiring" then Some Acquiring else if s =s "stopped" then Some Stopped else None.

Definition normalizeRecord (value : RawLease) : result lease_error PodmanGatewayWatcherLeaseRecord :=
  throw_unless (bool_decide (rl_schemaVersion value = NInt PODMAN_WATCHER_LEASE_SCHEMA_VERSION)
                && SAFE_LEASE_ID (rl_leaseId value)) (LeaseError LeaseInvalid true);;
  phase ← of_option (LeaseError LeaseInvalid true) (lease_phase (rl_phase value));
  snapshot ← normalizeSnapshot (Some (rl_snapshot value)) None;
  holder ← normalizeHolder (rl_holder value);
  Ok (mkLease snapshot holder (rl_leaseId value) phase).

Definition sameLaunchOwner (l r : PodmanGatewayWatcherSnapshot) : bool :=
  (gatewayName l =s gatewayName r) && (gatewayPort l =? gatewayPort r)%Z
  && bool_decide (ownerKind l = ownerKind r) && (ownerIdentity l =s ownerIdentity r)
  && (launchIdentity l =s launchIdentity r).
Definition sameProcessInstance (l r : PodmanGatewayWatcherSnapshot) : bool :=
  (pid l =? pid r)%Z && (processStartIdentity l =s processStartIdentity r) && sameLaunchOwner l r.
Definition sameLease (l r : PodmanGatewayWatcherLeaseRecord) : bool :=
  (leaseId l =s leaseId r) && (h_pid (l_holder l) =? h_pid (l_holder r))%Z
  && (h_processStartIdentity (l_holder l) =s h_processStartIdentity (l_holder r))
  && sameProcessInstance (l_snapshot l) (l_snapshot r).

(** ** Calls *)

(** The members of [PodmanManagedGatewayWatcherControllerDeps], with their arguments. *)
Inductive Dep : Type :=
| StoreRead
| StoreAcquire (record : PodmanGatewayWatcherLeaseRecord)
| StoreAdvance (expectedLeaseId : string) (record : PodmanGatewayWatcherLeaseRecord)
| StoreClear (expectedLeaseId : string)
| CaptureCurrent
| ListTargetWatchers (target : string * Z)
| IsProcessInstanceAlive (snapshot : PodmanGatewayWatcherSnapshot)
| CaptureLeaseHolder
| IsLeaseHolderAlive (holder : PodmanGatewayWatcherLeaseHolder)
| IsOwnerStopped (snapshot : PodmanGatewayWatcherSnapshot)
| StopExactOwner (snapshot : PodmanGatewayWatcherSnapshot)
| ResumeSameOwner (snapshot : PodmanGatewayWatcherSnapshot)
| IsHealthy (snapshot : PodmanGatewayWatcherSnapshot)
| CreateLeaseId
| Now
| Sleep (milliseconds : Z).

(** What each answers: a list of watchers is [None] when it is no array, a clock
    reading is [None] when it is not finite. *)
Definition answer (d : Dep) : Type :=
  match d with
  | StoreRead => option RawLease
  | CaptureCurrent => option RawSnapshot
  | ListTargetWatchers _ => option (list (option RawSnapshot))
  | CaptureLeaseHolder => option RawHolder
  | IsProcessInstanceAlive _ | IsLeaseHolderAlive _ | IsOwnerStopped _ | IsHealthy _ => bool
  | CreateLeaseId => string
  | Now => option Z
  | StoreAcquire _ | StoreAdvance _ _ | StoreClear _ | StopExactOwner _ | ResumeSameOwner _
  | Sleep _ => unit
  end.

(** The controller's functions call their dependencies, which return or throw a message. *)
Notation outcome := (outcome_of answer string).
Notation event := (event_of answer string).
Notation Prog := (ProgOf answer string lease_error).
Notation Environment := (EnvironmentOf answer string).
Notation Ev := (@Programs.Ev Dep answer string).

Definition call (d : Dep) : Prog (answer d) :=
  Call d (λ o, Return (match o with Ok a => Ok a | Throw m => Throw (DepThrew m) end)).
Definition raise {A} (m : lease_message) (recovery : bool) : Prog A :=
  Return (Throw (LeaseError m recovery)).
Definition require (b : bool) (m : lease_message) (recovery : bool) : Prog unit :=
  if b then mret tt else raise m recovery.

(** ** Probes *)

Definition lift_result {A} (r : result lease_error A) : Prog A := Return r.

Definition readTargetWatchers (receipt : PodmanGatewayWatcherSnapshot)
    : Prog (list PodmanGatewayWatcherSnapshot) :=
  let target := (gatewayName receipt, gatewayPort receipt) in
  watchers ← call (ListTargetWatchers target);
  match watchers with
  | None => raise EnumerationNotArray false
  | Some l => lift_result
      ((fix go l := match l with
                    | [] => Ok []
                    | x :: l => w ← normalizeSnapshot x (Some target); ws ← go l; Ok (w :: ws)
                    end) l)
  end.

Definition requireExclusiveCurrent (receipt : PodmanGatewayWatcherSnapshot) : Prog unit :=
  watchers ← readTargetWatchers receipt;
  require (match watchers with [w] => sameProcessInstance receipt w | _ => false end)
    NotExclusive false;;
  alive ← call (IsProcessInstanceAlive receipt);
  stopped ← (if alive : bool then call (IsOwnerStopped receipt) else mret true);
  require (negb stopped) ChangedBeforeCutover false;;
  healthy ← call (IsHealthy receipt);
  require healthy UnhealthyBeforeCutover false.

Definition assertStopped (receipt : PodmanGatewayWatcherSnapshot) : Prog unit :=
  alive ← call (IsProcessInstanceAlive receipt);
  require (negb alive) StillAlive true;;
  stopped ← call (IsOwnerStopped receipt);
  require stopped OwnerNotStopped true;;
  watchers ← readTargetWatchers receipt;
  require (match watchers with [] => true | _ => false end) WatcherAppeared true.

(** ** Waiting for the resumed owner *)

(** [deps.resumeTimeoutMs] and [deps.resumePollIntervalMs]: whole milliseconds, [None]
    inside when the number is not finite. *)
Record WaitConfig := mkWait {
  resumeTimeoutMs : option (option Z);
  resumePollIntervalMs : option (option Z);
}.

Record WaitOptions := mkWaitOptions {
  deadlineMs : Z;
  maxAttempts : nat;
  pollIntervalMs : Z;
}.

(** [Math.ceil(a / b)] for [b > 0]. *)
Definition ceil_div (a b : Z) : Z := (- ((- a) / b))%Z.

Definition readinessWaitOptions (cfg : WaitConfig) : Prog WaitOptions :=
  let timeoutMs := default (Some DEFAULT_RESUME_TIMEOUT_MS) (resumeTimeoutMs cfg) in
  let pollIntervalMs := default (Some DEFAULT_RESUME_POLL_INTERVAL_MS) (resumePollIntervalMs cfg) in
  match timeoutMs with
  | Some timeout =>
      require (0 <? timeout)%Z TimeoutNotPositive false;;
      match pollIntervalMs with
      | Some poll =>
          require (0 <=? poll)%Z PollNegative false;;
          startedAt ← call Now;
          match startedAt with
          | Some started =>
              mret (mkWaitOptions (started + timeout)
                      (Z.to_nat (Z.max 1 (ceil_div timeout (Z.max 1 poll) + 1))) poll)
          | None => raise ClockUnavailable false
          end
      | None => raise PollNegative false
      end
  | None => raise TimeoutNotPositive false
  end.

(** The loop of [waitForExactHealthy], with [left] attempts left; the condition gives
    the watcher it left in [resumed]. *)
Fixpoint waitForExactHealthy {X} (condition : Prog (option X)) (options : WaitOptions) (left : nat)
    : Prog (option X) :=
  match left with
  | O => mret None
  | Datatypes.S left' =>
      now_ ← call Now;
      match now_ with
      | Some now_ =>
          if (deadlineMs options <=? now_)%Z then mret None
          else
            held ← condition;
            match held with
            | Some x => mret (Some x)
            | None =>
                if (left' =? 0)%nat then mret None
                else
                  now_ ← call Now;
                  match (λ n, deadlineMs options - n)%Z <$> now_ with
                  | Some remaining =>
                      if (remaining <=? 0)%Z then mret None
                      else call (Sleep (Z.min (pollIntervalMs options) remaining));;
                           waitForExactHealthy condition options left'
                  | None => mret None
                  end
            end
      | None => mret None
      end
  end.

Definition exactHealthyReplacement (receipt : PodmanGatewayWatcherSnapshot)
    : Prog (option PodmanGatewayWatcherSnapshot) :=
  alive ← call (IsProcessInstanceAlive receipt);
  stopped ← (if alive : bool then mret true else call (IsOwnerStopped receipt));
  if stopped : bool then mret None
  else
    watchers ← readTargetWatchers receipt;
    match watchers with
    | [] => mret None
    | [resumed] =>
        require (sameLaunchOwner receipt resumed) ResumedOther true;;
        alive ← call (IsProcessInstanceAlive resumed);
        healthy ← (if alive : bool then call (IsHealthy resumed) else mret false);
        mret (if healthy : bool then Some resumed else None)
    | _ => raise MultipleAppeared true
    end.

Definition resumeAndProve (cfg : WaitConfig) (receipt : PodmanGatewayWatcherSnapshot) : Prog unit :=
  existing ← readTargetWatchers receipt;
  match existing with
  | [] =>
      stopped ← call (IsOwnerStopped receipt);
      require stopped NeitherStoppedNorServing true;;
      startFailed ← prog_catch (call (ResumeSameOwner receipt);; mret false) (λ _, mret true);
      options ← readinessWaitOptions cfg;
      resumed ← waitForExactHealthy (exactHealthyReplacement receipt) options (maxAttempts options);
      require (bool_decide (is_Some resumed)) (NotResumed startFailed) true
  | [current] =>
      require (sameLaunchOwner receipt current) NoExactProof true;;
      stopped ← call (IsOwnerStopped receipt);
      require (negb stopped) NoExactProof true;;
      alive ← call (IsProcessInstanceAlive current);
      require alive NoExactProof true;;
      healthy ← call (IsHealthy current);
      require healthy NoExactProof true
  | _ => raise MultipleExist true
  end.

(** ** The controller *)

Definition readLease : Prog (option PodmanGatewayWatcherLeaseRecord) :=
  value ← call StoreRead;
  match value with
  | None => mret None
  | Some v => r ← lift_result (normalizeRecord v); mret (Some r)
  end.

Definition recoverUnfinishedLease (cfg : WaitConfig) : Prog unit :=
  record ← readLease;
  match record with
  | None => mret tt
  | Some r =>
      alive ← call (IsLeaseHolderAlive (l_holder r));
      require (negb alive) OwnedByLiveProcess true;;
      resumeAndProve cfg (l_snapshot r);;
      call (StoreClear (leaseId r))
  end.

(** The lease handed to the caller: the stopped record and the closure variable. *)
Record PodmanGatewayWatcherLease := mkHeld {
  held_record : PodmanGatewayWatcherLeaseRecord;
  released : bool;
}.

(** What both handlers do with a failure: restore the watcher and clear the lease. *)
Definition restore_or (cfg : WaitConfig) (snapshot : PodmanGatewayWatcherSnapshot) (id : string)
    (unrecovered restored : lease_error) {A} : Prog A :=
  prog_catch (resumeAndProve cfg snapshot;; call (StoreClear id)) (λ _, Return (Throw unrecovered));;
  Return (Throw restored).

Definition stop_and_prove (cfg : WaitConfig) (acquiring : PodmanGatewayWatcherLeaseRecord) : Prog unit :=
  let captured := l_snapshot acquiring in
  prog_catch (call (StopExactOwner captured);; assertStopped captured)
    (λ error, restore_or cfg captured (leaseId acquiring) (StopFailed error true) (StopFailed error false)).

Definition persist_stopped (cfg : WaitConfig) (stopped : PodmanGatewayWatcherLeaseRecord) : Prog unit :=
  prog_catch (call (StoreAdvance (leaseId stopped) stopped))
    (λ error, restore_or cfg (l_snapshot stopped) (leaseId stopped)
                (LeaseError PersistUnrecovered true) (PersistFailedRestored error)).

Definition quiesceAndProve (cfg : WaitConfig) : Prog PodmanGatewayWatcherLease :=
  recoverUnfinishedLease cfg;;
  raw ← call CaptureCurrent;
  captured ← lift_result (normalizeSnapshot raw None);
  requireExclusiveCurrent captured;;
  id ← call CreateLeaseId;
  require (SAFE_LEASE_ID id) LeaseIdInvalid false;;
  rawHolder ← call CaptureLeaseHolder;
  holder ← lift_result (normalizeHolder rawHolder);
  let acquiring := mkLease captured holder id Acquiring in
  call (StoreAcquire acquiring);;
  stop_and_prove cfg acquiring;;
  let stopped := mkLease captured holder id Stopped in
  persist_stopped cfg stopped;;
  mret (mkHeld stopped false).

Definition assertStillStopped (lease : PodmanGatewayWatcherLease) : Prog unit :=
  require (negb (released lease)) AlreadyReleased false;;
  durable ← readLease;
  require (match durable with
           | Some d => sameLease (held_record lease) d && bool_decide (l_phase d = Stopped)
           | None => false
           end) LeaseChanged true;;
  assertStopped (l_snapshot (held_record lease)).

Definition lease_resumeAndProve (cfg : WaitConfig) (lease : PodmanGatewayWatcherLease)
    : Prog PodmanGatewayWatcherLease :=
  if released lease then mret lease
  else
    durable ← readLease;
    require (match durable with Some d => sameLease (held_record lease) d | None => false end)
      LeaseChangedBeforeRelease true;;
    resumeAndProve cfg (l_snapshot (held_record lease));;
    call (StoreClear (leaseId (held_record lease)));;
    mret (mkHeld (held_record lease) true).

(** ** The protocol on a history *)

(** Calls that change nothing outside the controller. *)
Definition is_probe (d : Dep) : bool :=
  match d with
  | StoreAcquire _ | StoreAdvance _ _ | StoreClear _ | StopExactOwner _ | ResumeSameOwner _ => false
  | _ => true
  end.

Definition target_of (s : PodmanGatewayWatcherSnapshot) : string * Z := (gatewayName s, gatewayPort s).

(** [raw] was listed for the target and is [w]. *)
Definition lists_as (s w : PodmanGatewayWatcherSnapshot) (raw : option RawSnapshot) : Prop :=
  normalizeSnapshot raw (Some (target_of s)) = Ok w.

(** Five consecutive answers, or four: one watcher of the owner of [s] is alive and
    healthy and the owner is not stopped. *)
Inductive proved_healthy (s : PodmanGatewayWatcherSnapshot) : list event → Prop :=
| proved_existing w raw h :
    sameLaunchOwner s w = true → lists_as s w raw →
    proved_healthy s
      (Ev (IsHealthy w) (Ok true) :: Ev (IsProcessInstanceAlive w) (Ok true)
       :: Ev (IsOwnerStopped s) (Ok false) :: Ev (ListTargetWatchers (target_of s)) (Ok (Some [raw])) :: h)
| proved_resumed w raw h :
    sameLaunchOwner s w = true → lists_as s w raw →
    proved_healthy s
      (Ev (IsHealthy w) (Ok true) :: Ev (IsProcessInstanceAlive w) (Ok true)
       :: Ev (ListTargetWatchers (target_of s)) (Ok (Some [raw])) :: Ev (IsOwnerStopped s) (Ok false)
       :: Ev (IsProcessInstanceAlive s) (Ok false) :: h).

(** Three consecutive answers: the captured process and its owner are stopped, and no
    watcher serves the target. *)
Definition proved_stopped (s : PodmanGatewayWatcherSnapshot) (h : list event) : list event :=
  Ev (ListTargetWatchers (target_of s)) (Ok (Some [])) :: Ev (IsOwnerStopped s) (Ok true)
  :: Ev (IsProcessInstanceAlive s) (Ok false) :: h.

(** Four consecutive answers: the captured process is the only watcher, runs and is healthy. *)
Definition proved_exclusive (s : PodmanGatewayWatcherSnapshot) (raw : option RawSnapshot)
    (h : list event) : list event :=
  Ev (IsHealthy s) (Ok true) :: Ev (IsOwnerStopped s) (Ok false)
  :: Ev (IsProcessInstanceAlive s) (Ok true)
  :: Ev (ListTargetWatchers (target_of s)) (Ok (Some [raw])) :: h.

Definition at_phase (p : PodmanGatewayWatcherLeasePhase) (r : PodmanGatewayWatcherLeaseRecord)
    : PodmanGatewayWatcherLeaseRecord := mkLease (l_snapshot r) (l_holder r) (leaseId r) p.

(** The history gives authority over the lease [id] on [s]: it was acquired, or read
    back when its holder was no longer alive. *)
Inductive authority (h : list event) (id : string) (s : PodmanGatewayWatcherSnapshot) : Prop :=
| authority_acquired r :
    Ev (StoreAcquire r) (Ok tt) ∈ h → leaseId r = id → l_snapshot r = s → authority h id s
| authority_orphan raw r :
    Ev StoreRead (Ok (Some raw)) ∈ h → normalizeRecord raw = Ok r →
    Ev (IsLeaseHolderAlive (l_holder r)) (Ok false) ∈ h → leaseId r = id → l_snapshot r = s →
    authority h id s.

(** When a call may be issued after a history. *)
Inductive allowed : Dep → list event → Prop :=
| allow_probe d h : is_probe d = true → allowed d h
| allow_acquire r raw w rawHolder h :
    l_phase r = Acquiring → SAFE_LEASE_ID (leaseId r) = true →
    normalizeHolder rawHolder = Ok (l_holder r) →
    lists_as (l_snapshot r) w raw → sameProcessInstance (l_snapshot r) w = true →
    allowed (StoreAcquire r)
      (Ev CaptureLeaseHolder (Ok rawHolder) :: Ev CreateLeaseId (Ok (leaseId r))
       :: proved_exclusive (l_snapshot r) raw h)
| allow_stop r h :
    allowed (StopExactOwner (l_snapshot r)) (Ev (StoreAcquire r) (Ok tt) :: h)
| allow_advance r h :
    l_phase r = Stopped →
    allowed (StoreAdvance (leaseId r) r)
      (proved_stopped (l_snapshot r)
         (Ev (StopExactOwner (l_snapshot r)) (Ok tt) :: Ev (StoreAcquire (at_phase Acquiring r)) (Ok tt) :: h))
| allow_resume s id h :
    authority h id s →
    allowed (ResumeSameOwner s)
      (Ev (IsOwnerStopped s) (Ok true) :: Ev (ListTargetWatchers (target_of s)) (Ok (Some [])) :: h)
| allow_clear s id h : authority h id s → proved_healthy s h → allowed (StoreClear id) h.

Inductive protocol : list event → Prop :=
| protocol_nil : protocol []
| protocol_cons d o h : allowed d h → protocol h → protocol (Ev d o :: h).

(** ** Programs against every environment *)

Lemma always_call d h Q :
  (∀ a, Q (Ev d (Ok a) :: h) (Ok a)) → (∀ m, Q (Ev d (Throw m) :: h) (Throw (DepThrew m))) →
  always (call d) h Q.
Proof. intros Hok Hth [a|m]; cbn; [apply Hok|apply Hth]. Qed.

Lemma always_require b m recovery h Q :
  (b = true → Q h (Ok tt)) → (b = false → Q h (Throw (LeaseError m recovery))) →
  always (require b m recovery) h Q.
Proof. destruct b; cbn; eauto. Qed.

(** One step of a program: a bind, a call, a check or a return. *)
Ltac run_step :=
  lazymatch goal with
  | |- always (mbind _ _) _ _ => apply always_bind
  | |- always (prog_catch _ _) _ _ => apply always_catch
  | |- always (call _) _ _ => apply always_call; [intros ?|intros ?]
  | |- always (require _ _ _) _ _ => apply always_require; intros ?
  | |- always (if _ then _ else _) _ _ => case_match
  | |- always (mret _) _ _ => cbn [always mret Prog_ret]
  | |- always (raise _ _) _ _ => cbn [always raise]
  | |- always (Return _) _ _ => cbn [always]
  end.

(** ** Lemmas: histories *)

(** Neither the store nor the owner's process was changed, except by resuming it. *)
Definition calm (e : event) : bool :=
  match e with
  | Programs.Ev d _ => match d with
              | StoreAcquire _ | StoreAdvance _ _ | StoreClear _ | StopExactOwner _ => false
              | _ => true
              end
  end.

(** [h] continues [h0] calmly, within the protocol. *)
Record follows (h0 h : list event) : Prop := {
  fo_protocol : protocol h;
  fo_calm : ∃ tr, h = tr ++ h0 ∧ Forall (λ e, calm e = true) tr;
}.

Lemma follows_refl h : protocol h → follows h h.
Proof. intros Hp. split; [done|]. by exists []. Qed.

Lemma follows_cons h0 h d o : follows h0 h → allowed d h → calm (Ev d o) = true → follows h0 (Ev d o :: h).
Proof.
  intros [Hp (tr & -> & Ht)] Ha Hc. split; [by constructor|]. exists (Ev d o :: tr). by split; [|constructor].
Qed.

Lemma follows_probe h0 h d o : follows h0 h → is_probe d = true → follows h0 (Ev d o :: h).
Proof. intros Hf Hd. apply follows_cons; [done|by constructor|]. by destruct d. Qed.

Lemma follows_trans h0 h1 h2 : follows h0 h1 → follows h1 h2 → follows h0 h2.
Proof.
  intros [_ (t1 & -> & H1)] [Hp (t2 & -> & H2)]. split; [done|]. exists (t2 ++ t1).
  rewrite app_assoc. split; [done|]. by apply Forall_app.
Qed.

Lemma authority_app tr h id s : authority h id s → authority (tr ++ h) id s.
Proof.
  intros [r H E1 E2|raw r H Hn Ha E1 E2];
    [eapply authority_acquired|eapply authority_orphan]; rewrite ?elem_of_app; eauto.
Qed.

Lemma follows_authority h0 h id s : follows h0 h → authority h0 id s → authority h id s.
Proof. intros [_ (tr & -> & _)]. apply authority_app. Qed.

Ltac probe := solve [repeat (apply follows_probe; [|reflexivity]); assumption].

(** ** Lemmas: the parts of the controller *)

Lemma always_watchers s h Q :
  (∀ raws ws, Forall2 (lists_as s) ws raws →
     Q (Ev (ListTargetWatchers (target_of s)) (Ok (Some raws)) :: h) (Ok ws)) →
  (∀ o e, Q (Ev (ListTargetWatchers (target_of s)) o :: h) (Throw e)) →
  always (readTargetWatchers s) h Q.
Proof.
  intros Hok Hth. unfold readTargetWatchers, lift_result. fold (target_of s). run_step. run_step; [|apply Hth].
  destruct a as [raws|]; [|apply Hth]. cbn [always].
  match goal with |- Q _ (?g raws) => set (go := g) end.
  assert (H : ∀ l, match go l with Ok ws => Forall2 (lists_as s) ws l | Throw _ => True end).
  { induction l as [|x l IH]; [constructor|]. cbn. unfold lists_as at 1.
    destruct (normalizeSnapshot x _) as [w|] eqn:Ew; [|done]. cbn [mbind result_bind].
    destruct (go l) as [ws|]; [|done]. cbn [mbind result_bind]. by constructor. }
  specialize (H raws). destruct (go raws); [by apply Hok|apply Hth].
Qed.

Lemma watchers_none s raws : Forall2 (lists_as s) [] raws → raws = [].
Proof. apply Forall2_nil_inv_l. Qed.
Lemma watchers_one s w raws : Forall2 (lists_as s) [w] raws → ∃ raw, raws = [raw] ∧ lists_as s w raw.
Proof. intros (raw & l & H & Hl & ->)%Forall2_cons_inv_l. apply Forall2_nil_inv_l in Hl as ->. eauto. Qed.

Lemma always_exclusive s h0 h :
  follows h0 h → always (requireExclusiveCurrent s) h (λ h' r,
    follows h0 h' ∧ (r = Ok tt → ∃ raw w, lists_as s w raw ∧ sameProcessInstance s w = true
                                        ∧ h' = proved_exclusive s raw h)).
Proof.
  intros Hf. unfold requireExclusiveCurrent. run_step. apply always_watchers; [|by split; [probe|]].
  intros raws ws Hws. run_step. run_step; [|by split; [probe|]]. destruct ws as [|w []]; try done.
  apply watchers_one in Hws as (raw & -> & Hw). run_step. run_step; [|by split; [probe|]].
  run_step. destruct a.
  - run_step; [|by split; [probe|]]. run_step. run_step; [|by split; [probe|]].
    destruct a; [done|]. run_step. run_step; [|by split; [probe|]]. run_step; [|by split; [probe|]].
    split; [probe|]. intros _. subst. by exists raw, w.
  - cbn [always mret Prog_ret]. run_step. run_step; [done|]. by split; [probe|].
Qed.

Lemma always_stopped s h0 h :
  follows h0 h → always (assertStopped s) h (λ h' r,
    follows h0 h' ∧ (r = Ok tt → h' = proved_stopped s h)).
Proof.
  intros Hf. unfold assertStopped. run_step. run_step; [|by split; [probe|]]. run_step.
  run_step; [|by split; [probe|]]. destruct a; [done|]. run_step. run_step; [|by split; [probe|]].
  run_step. run_step; [|by split; [probe|]]. subst. run_step.
  apply always_watchers; [|by split; [probe|]]. intros raws ws Hws.
  run_step; [|by split; [probe|]]. destruct ws; [|done]. apply watchers_none in Hws as ->.
  split; [probe|done].
Qed.

Lemma always_replacement s h0 h :
  follows h0 h → always (exactHealthyReplacement s) h (λ h' r,
    follows h0 h' ∧ ∀ w, r = Ok (Some w) → proved_healthy s h').
Proof.
  intros Hf. unfold exactHealthyReplacement. run_step. run_step; [|by split; [probe|]]. run_step.
  destruct a; [by split; [probe|]|]. run_step; [|by split; [probe|]].
  destruct a; [by split; [probe|]|]. run_step. apply always_watchers; [|by split; [probe|]].
  intros raws ws Hws. destruct ws as [|w [|]]; [by split; [probe|]| |by split; [probe|]].
  apply watchers_one in Hws as (raw & -> & Hw). run_step. run_step; [|by split; [probe|]].
  run_step. run_step; [|by split; [probe|]]. run_step. destruct a; [|by split; [probe|]].
  run_step; [|by split; [probe|]]. destruct a; [|by split; [probe|]].
  split; [probe|]. intros ? _. by econstructor.
Qed.

Lemma always_wait {X} (condition : Prog (option X)) options left h0 h (P : list event → Prop) :
  (∀ h, follows h0 h → always condition h (λ h' r, follows h0 h' ∧ ∀ x, r = Ok (Some x) → P h')) →
  follows h0 h →
  always (waitForExactHealthy condition options left) h
    (λ h' r, follows h0 h' ∧ ∀ x, r = Ok (Some x) → P h').
Proof.
  intros Hc. revert h. induction left as [|left IH]; intros h Hf; [done|]. cbn [waitForExactHealthy].
  run_step. run_step; [|by split; [probe|]]. destruct a as [now_|]; [|by split; [probe|]].
  run_step; [by split; [probe|]|]. run_step. eapply always_mono; [|apply Hc; probe].
  intros h' [[x|]|e] [Hf' Hx]; [by split|..|by split]. clear Hf.
  run_step; [by split|]. run_step. run_step; [|by split; [probe|]].
  destruct a as [n|]; [|by split; [probe|]]. cbn [fmap option_fmap option_map].
  run_step; [by split; [probe|]|]. run_step. run_step; [|by split; [probe|]]. apply IH. probe.
Qed.

Lemma always_options cfg h0 h :
  follows h0 h → always (readinessWaitOptions cfg) h (λ h' _, follows h0 h').
Proof.
  intros Hf. unfold readinessWaitOptions. destruct (default _ (resumeTimeoutMs cfg)) as [t|]; [|done].
  run_step. run_step; [|done]. destruct (default _ (resumePollIntervalMs cfg)) as [p|]; [|done].
  run_step. run_step; [|done]. run_step. run_step; [|probe]. destruct a; [|probe]. cbn. probe.
Qed.

Lemma resume_spec cfg s id h0 h :
  follows h0 h → authority h id s → always (resumeAndProve cfg s) h (λ h' r,
    follows h0 h' ∧ (r = Ok tt → proved_healthy s h')).
Proof.
  intros Hf Hau. unfold resumeAndProve. run_step. apply always_watchers; [|by split; [probe|]].
  intros raws ws Hws. destruct ws as [|w [|]]; [| |by split; [probe|]].
  - apply watchers_none in Hws as ->. run_step. run_step; [|by split; [probe|]].
    run_step. run_step; [|by split; [probe|]]. subst.
    lazymatch goal with |- always _ ?x _ => set (h1 := x) end.
    assert (H1 : ∀ o, follows h0 (Ev (ResumeSameOwner s) o :: h1)).
    { intros o. apply follows_cons; [unfold h1; probe| |done]. by eapply allow_resume. }
    clearbody h1. run_step. run_step. run_step. run_step; cbn [always mret Prog_ret];
      (run_step; eapply always_mono; [|by apply (always_options cfg h0)];
       intros h2 [opts|e] H2; [|by split]; run_step;
       eapply always_mono; [|apply (always_wait _ opts _ h0 h2 (proved_healthy s)); [|done];
                             intros h3 H3; by apply always_replacement];
       intros h3 [[x|]|e] [H3 Hx]; [..|by split]; run_step; split; [done|intros _; eauto|done..]).
  - apply watchers_one in Hws as (raw & -> & Hw). run_step. run_step; [|by split; [probe|]].
    run_step. run_step; [|by split; [probe|]]. run_step. run_step; [|by split; [probe|]].
    destruct a; [done|]. run_step. run_step; [|by split; [probe|]]. run_step. run_step; [|by split; [probe|]].
    subst. run_step. run_step; [|by split; [probe|]]. run_step; [|by split; [probe|]]. subst.
    split; [probe|]. intros _. by econstructor.
Qed.

(** ** Lemmas: taking and releasing the lease *)

Definition is_stop (e : event) : bool :=
  match e with Programs.Ev (StopExactOwner _) _ => true | _ => false end.
(** The store cleared a lease. *)
Definition is_release (e : event) : bool :=
  match e with Programs.Ev (StoreClear _) (Ok _) => true | _ => false end.

Lemma calm_events tr : Forall (λ e, calm e = true) tr →
  Forall (λ e, is_stop e = false) tr ∧ Forall (λ e, is_release e = false) tr.
Proof.
  intros H. split; (eapply Forall_impl; [exact H|]); intros [d o]; by destruct d.
Qed.

(** After [h0] the flag of the error says whether the lease was given back. *)
Definition failed_since (h0 h : list event) (e : lease_error) : Prop :=
  protocol h ∧ ∃ tr, h = tr ++ h0
  ∧ if recoveryRequired e then Forall (λ e, is_release e = false) tr
    else ∃ id h1, h = Ev (StoreClear id) (Ok tt) :: h1.

Lemma failed_cons h0 h d o e :
  is_release (Ev d o) = false → failed_since (Ev d o :: h0) h e → failed_since h0 h e.
Proof.
  intros Hrel [Hp (tr & -> & Ht)]. split; [done|]. exists (tr ++ [Ev d o]).
  split; [by rewrite <- app_assoc|]. destruct (recoveryRequired e); [|done].
  apply Forall_app. split; [done|]. by repeat constructor.
Qed.

Lemma restore_spec {A} cfg s id unrecovered restored h0 h :
  recoveryRequired unrecovered = true → recoveryRequired restored = false →
  follows h0 h → authority h0 id s →
  always (restore_or cfg s id unrecovered restored (A := A)) h
    (λ h' r, match r with Ok _ => False | Throw e => failed_since h0 h' e end).
Proof.
  intros Hu Hr Hf Hau. unfold restore_or. run_step. run_step. run_step.
  eapply always_mono; [|apply (resume_spec cfg s id h0); [done|by eapply follows_authority]].
  intros h1 [[]|e] [H1 Hh].
  - assert (Ha : allowed (StoreClear id) h1)
      by (eapply allow_clear; [by eapply follows_authority|by apply Hh]).
    destruct H1 as [Hp (tr & -> & Hc)]. run_step; cbn [always]; (split; [by constructor|]).
    + exists (Ev (StoreClear id) (Ok a) :: tr). split; [done|]. rewrite Hr. destruct a. eauto.
    + exists (Ev (StoreClear id) (Throw m) :: tr). split; [done|]. rewrite Hu.
      constructor; [done|]. by apply calm_events.
  - cbn [always]. destruct H1 as [Hp (tr & -> & Hc)]. split; [done|]. exists tr. split; [done|].
    rewrite Hu. by apply calm_events.
Qed.

Lemma stop_spec cfg r h :
  let h0 := Ev (StoreAcquire r) (Ok tt) :: h in
  protocol h0 →
  always (stop_and_prove cfg r) h0 (λ h' res,
    match res with
    | Ok _ => protocol h'
              ∧ h' = proved_stopped (l_snapshot r) (Ev (StopExactOwner (l_snapshot r)) (Ok tt) :: h0)
    | Throw e => failed_since h0 h' e
    end).
Proof.
  intros h0 Hp. unfold stop_and_prove. run_step. run_step.
  assert (Hs : ∀ o, let h1 := Ev (StopExactOwner (l_snapshot r)) o :: h0 in
    protocol h1 ∧ authority h1 (leaseId r) (l_snapshot r)).
  { intros o h1. split; [constructor; [apply allow_stop|done]|]. eapply authority_acquired; [|done..]. right. left. }
  assert (Hfail : ∀ o e h1, follows (Ev (StopExactOwner (l_snapshot r)) o :: h0) h1 →
    always (restore_or cfg (l_snapshot r) (leaseId r) (StopFailed e true) (StopFailed e false) (A := ())) h1
      (λ h' res, match res with
         | Ok _ => protocol h' ∧ h' = proved_stopped (l_snapshot r)
                     (Ev (StopExactOwner (l_snapshot r)) (Ok tt) :: h0)
         | Throw e => failed_since h0 h' e end)).
  { intros o e h1 Hf. eapply always_mono; [|eapply restore_spec; [done|done|exact Hf|by apply Hs]].
    intros h' [|e'] H; [done|]. eapply failed_cons; [|exact H]. done. }
  run_step.
  - destruct a. eapply always_mono; [|eapply always_stopped; by apply follows_refl, Hs].
    intros h' [[]|e] [Hf Hh]; [|by eapply Hfail]. specialize (Hh eq_refl). split; [by destruct Hf|done].
  - eapply Hfail. by apply follows_refl, Hs.
Qed.

Lemma persist_spec cfg r h :
  let ha := Ev (StoreAcquire (at_phase Acquiring r)) (Ok tt) :: h in
  let h0 := proved_stopped (l_snapshot r) (Ev (StopExactOwner (l_snapshot r)) (Ok tt) :: ha) in
  l_phase r = Stopped → protocol h0 →
  always (persist_stopped cfg r) h0 (λ h' res,
    match res with
    | Ok _ => protocol h' ∧ h' = Ev (StoreAdvance (leaseId r) r) (Ok tt) :: h0
    | Throw e => failed_since ha h' e
    end).
Proof.
  intros ha h0 Hph Hp. unfold persist_stopped. run_step.
  assert (Hs : ∀ o, protocol (Ev (StoreAdvance (leaseId r) r) o :: h0))
    by (intros o; constructor; [by apply allow_advance|done]).
  run_step; [destruct a; by split|].
  eapply always_mono; [|eapply (restore_spec _ _ _ _ _ (Ev (StoreAdvance (leaseId r) r) (Throw m) :: h0));
    [done|done|by apply follows_refl|]].
  - intros h' [|e'] H; [done|]. unfold h0, proved_stopped in H.
    do 5 (apply failed_cons in H; [|done]). exact H.
  - apply (authority_acquired _ _ _ (at_phase Acquiring r)); [|done|done]. do 5 right. left.
Qed.

Lemma lease_read_spec h0 h Q :
  follows h0 h →
  (∀ h', follows h0 h' → Q h' (Ok None)) →
  (∀ h' e, follows h0 h' → Q h' (Throw e)) →
  (∀ h' raw r, follows h0 h' → Ev StoreRead (Ok (Some raw)) ∈ h' → normalizeRecord raw = Ok r →
     Q h' (Ok (Some r))) →
  always readLease h Q.
Proof.
  intros Hf Hn Ht Hr. unfold readLease. run_step. run_step; [|apply Ht; probe].
  destruct a as [raw|]; [|apply Hn; probe]. unfold lift_result. run_step. run_step.
  destruct (normalizeRecord raw) as [r|e] eqn:E; [|apply Ht; probe]. cbn [always mret Prog_ret].
  eapply Hr; [probe|by left|done].
Qed.

(** [h] continues [h0] within the protocol without stopping anything. *)
Record goes_on (h0 h : list event) : Prop := {
  go_protocol : protocol h;
  go_unstopped : ∃ tr, h = tr ++ h0 ∧ Forall (λ e, is_stop e = false) tr;
}.

Lemma follows_goes_on h0 h : follows h0 h → goes_on h0 h.
Proof. intros [Hp (tr & -> & [Hc _]%calm_events)]. split; [done|]. by exists tr. Qed.
Lemma goes_on_cons h0 h d o :
  goes_on h0 h → allowed d h → is_stop (Ev d o) = false → goes_on h0 (Ev d o :: h).
Proof.
  intros [Hp (tr & -> & Hc)] Ha Hs. split; [by constructor|]. exists (Ev d o :: tr). by split; [|constructor].
Qed.
Lemma goes_on_trans h0 h1 h2 : goes_on h0 h1 → goes_on h1 h2 → goes_on h0 h2.
Proof.
  intros [_ (t1 & -> & H1)] [Hp (t2 & -> & H2)]. split; [done|]. exists (t2 ++ t1).
  rewrite app_assoc. split; [done|]. by apply Forall_app.
Qed.

Lemma recover_spec cfg h : protocol h → always (recoverUnfinishedLease cfg) h (λ h' _, goes_on h h').
Proof.
  intros Hp. unfold recoverUnfinishedLease. run_step.
  apply (lease_read_spec h); [by apply follows_refl|intros h1 H1; by apply follows_goes_on
                             |intros h1 e H1; by apply follows_goes_on|].
  intros h1 raw r H1 Hin Hr. run_step. run_step; [|apply follows_goes_on; probe].
  run_step. run_step; [|apply follows_goes_on; probe]. destruct a; [done|]. run_step.
  assert (H2 : follows h (Ev (IsLeaseHolderAlive (l_holder r)) (Ok false) :: h1)) by probe.
  assert (Hau : authority (Ev (IsLeaseHolderAlive (l_holder r)) (Ok false) :: h1) (leaseId r) (l_snapshot r))
    by (eapply authority_orphan; [by right|done|by left|done|done]).
  eapply always_mono; [|eapply (resume_spec cfg); [|exact Hau]; apply follows_refl; by destruct H2].
  intros h3 [[]|e] [H3 Hh]; [|apply follows_goes_on; by eapply follows_trans].
  assert (Ha : allowed (StoreClear (leaseId r)) h3)
    by (eapply allow_clear; [by eapply follows_authority|by apply Hh]).
  assert (H4 : goes_on h h3) by (apply follows_goes_on; by eapply follows_trans).
  run_step; by apply goes_on_cons.
Qed.

(** The lease was acquired in this history. *)
Definition acquired (h : list event) (l : PodmanGatewayWatcherLease) : Prop :=
  Ev (StoreAcquire (at_phase Acquiring (held_record l))) (Ok tt) ∈ h.

Lemma release_spec cfg l h :
  protocol h → acquired h l → always (lease_resumeAndProve cfg l) h (λ h' r,
    goes_on h h' ∧ ∀ l', r = Ok l' → held_record l' = held_record l).
Proof.
  intros Hp Hacq. unfold lease_resumeAndProve. run_step.
  { run_step. split; [by apply follows_goes_on, follows_refl|]. by intros l' [= <-]. }
  run_step. apply (lease_read_spec h); [by apply follows_refl| | |].
  { intros h1 H1. run_step. run_step; [done|]. by split; [apply follows_goes_on|]. }
  { intros h1 e H1. by split; [apply follows_goes_on|]. }
  intros h1 raw r H1 _ _. run_step. run_step; [|by split; [apply follows_goes_on|]]. run_step.
  assert (Hau : authority h (leaseId (held_record l)) (l_snapshot (held_record l)))
    by by eapply authority_acquired.
  eapply always_mono; [|eapply (resume_spec cfg); [exact H1|by eapply follows_authority]].
  intros h3 [[]|e] [H3 Hh]; [|by split; [apply follows_goes_on|]]. run_step.
  assert (Hcl : ∀ o, goes_on h (Ev (StoreClear (leaseId (held_record l))) o :: h3)).
  { intros o. apply goes_on_cons; [by apply follows_goes_on| |done].
    eapply allow_clear; [by eapply follows_authority|by apply Hh]. }
  run_step; [|done]. split; [done|]. by intros l' [= <-].
Qed.

Lemma assert_spec l h : protocol h → always (assertStillStopped l) h (λ h' r, goes_on h h').
Proof.
  intros Hp. apply (always_mono _ _ (λ h' r, follows h h')); [intros ? ?; apply follows_goes_on|].
  unfold assertStillStopped. run_step. run_step; [|by apply follows_refl]. run_step.
  apply (lease_read_spec h); [by apply follows_refl| |done|].
  { intros h1 H1. run_step. by run_step. }
  intros h1 raw r H1 _ _. run_step. run_step; [|done].
  eapply always_mono; [|by apply (always_stopped _ h)]. by intros h2 r2 [? _].
Qed.

(** How an attempt to quiesce ends: with a lease, after a stop proved and recorded
    under it; or before anything was stopped; or having tried to give it back, as the
    flag of the error says. *)
Definition quiesced (h h' : list event) (r : result lease_error PodmanGatewayWatcherLease) : Prop :=
  match r with
  | Ok l => released l = false ∧ l_phase (held_record l) = Stopped ∧ ∃ h1,
      let s := l_snapshot (held_record l) in
      h' = Ev (StoreAdvance (leaseId (held_record l)) (held_record l)) (Ok tt)
           :: proved_stopped s (Ev (StopExactOwner s) (Ok tt)
                :: Ev (StoreAcquire (at_phase Acquiring (held_record l))) (Ok tt) :: h1)
  | Throw e => goes_on h h' ∨ ∃ r h1, failed_since (Ev (StoreAcquire r) (Ok tt) :: h1) h' e
  end.

Lemma goes_on_follows h h1 h2 : goes_on h h1 → follows h1 h2 → goes_on h h2.
Proof. intros H1 H2. eapply goes_on_trans; [done|by apply follows_goes_on]. Qed.

Lemma quiesce_spec cfg h :
  protocol h → always (quiesceAndProve cfg) h (λ h' r, protocol h' ∧ quiesced h h' r).
Proof.
  intros Hp. unfold quiesceAndProve.
  assert (Hstop : ∀ h' e, goes_on h h' →
    protocol h' ∧ quiesced h h' (@Throw lease_error PodmanGatewayWatcherLease e)).
  { intros h' e H. split; [by destruct H|]. by left. }
  run_step. eapply always_mono; [|by apply recover_spec]. intros h1 [[]|e] H1; [|by apply Hstop].
  assert (F1 : follows h1 h1) by (apply follows_refl; by destruct H1).
  run_step. run_step; [|by apply Hstop; eapply goes_on_follows; [done|probe]]. run_step.
  unfold lift_result. run_step. destruct (normalizeSnapshot a None) as [captured|e] eqn:Ec;
    [|by apply Hstop; eapply goes_on_follows; [done|probe]].
  assert (F2 : follows h1 (Ev CaptureCurrent (Ok a) :: h1)) by probe. generalize dependent (Ev CaptureCurrent (Ok a) :: h1).
  intros h2 F2. run_step. eapply always_mono; [|by apply (always_exclusive captured h1)].
  intros h3 [[]|e] [F3 Hx]; [|by apply Hstop; eapply goes_on_follows].
  destruct (Hx eq_refl) as (raw & w & Hw & Hsame & Eh). clear Hx F2.
  run_step. run_step; [|by apply Hstop; eapply goes_on_follows; [done|probe]]. rename a0 into id.
  run_step. run_step; [|by apply Hstop; eapply goes_on_follows; [done|probe]].
  run_step. run_step; [|by apply Hstop; eapply goes_on_follows; [done|probe]]. rename a0 into rawHolder.
  run_step. run_step. destruct (normalizeHolder rawHolder) as [holder|e] eqn:Eho;
    [|by apply Hstop; eapply goes_on_follows; [done|probe]].
  set (acq := mkLease captured holder id Acquiring).
  set (h4 := Ev CaptureLeaseHolder (Ok rawHolder) :: Ev CreateLeaseId (Ok id) :: h3).
  assert (F4 : follows h1 h4) by (unfold h4; probe).
  assert (Hacq : allowed (StoreAcquire acq) h4).
  { unfold h4. rewrite Eh. by apply (allow_acquire acq raw w rawHolder). }
  assert (Hp4 : ∀ o, protocol (Ev (StoreAcquire acq) o :: h4)) by (intros o; constructor; [done|by destruct F4]).
  run_step. run_step; [|apply Hstop; apply goes_on_cons; [by eapply goes_on_follows|done|done]].
  destruct a0. run_step. eapply always_mono; [|apply (stop_spec cfg acq h4), Hp4].
  intros h5 [[]|e] H5; [|split; [by destruct H5|right; eauto]].
  destruct H5 as [Hp5 ->]. set (stopped := mkLease captured holder id Stopped). run_step.
  eapply always_mono; [|by apply (persist_spec cfg stopped h4)].
  intros h6 [[]|e] H6; [|split; [by destruct H6|right; eauto]].
  destruct H6 as [Hp6 ->]. run_step. split; [done|]. cbn [quiesced released held_record l_phase].
  split; [done|]. split; [done|]. by exists h4.
Qed.

(** ** Lemmas: the bounded wait *)

Definition sleep_ms (e : event) : Z := match e with Programs.Ev (Sleep ms) _ => ms | _ => 0 end.
Fixpoint slept (tr : list event) : Z :=
  match tr with [] => 0 | e :: tr => sleep_ms e + slept tr end.

(** At most [n] calls since [h0], sleeping between 0 and [t] milliseconds. *)
Definition within (h0 h : list event) (n : nat) (t : Z) : Prop :=
  ∃ tr, h = tr ++ h0 ∧ (List.length tr ≤ n)%nat ∧ (0 ≤ slept tr ≤ t)%Z.

Lemma within_refl h : within h h 0 0.
Proof. by exists []. Qed.
Lemma within_cons h0 h n t d o :
  (0 ≤ sleep_ms (Ev d o))%Z → within h0 h n t →
  within h0 (Ev d o :: h) (Datatypes.S n) (t + sleep_ms (Ev d o)).
Proof.
  intros Hs (tr & -> & Hn & Ht). exists (Ev d o :: tr). split; [done|]. cbn [List.length slept]. lia.
Qed.
Lemma within_mono h0 h n t n' t' : within h0 h n t → (n ≤ n')%nat → (t ≤ t')%Z → within h0 h n' t'.
Proof. intros (tr & -> & Hn & Ht) ? ?. exists tr. split; [done|]. lia. Qed.
Lemma within_trans h0 h1 h2 n1 t1 n2 t2 :
  within h0 h1 n1 t1 → within h1 h2 n2 t2 → within h0 h2 (n1 + n2) (t1 + t2).
Proof.
  intros (tr1 & -> & N1 & T1) (tr2 & -> & N2 & T2). exists (tr2 ++ tr1). rewrite app_assoc.
  split; [done|]. rewrite length_app. assert (H : slept (tr2 ++ tr1) = (slept tr2 + slept tr1)%Z).
  { clear. induction tr2 as [|e tr2 IH]; [done|]. cbn [app slept]. rewrite IH. lia. }
  rewrite H. lia.
Qed.

(** A few calls, none of which sleeps. *)
Ltac spent :=
  solve [eapply within_mono; [repeat (apply within_cons; [cbn; lia|]); apply within_refl
                             |cbn; lia|cbn; lia]].

Lemma replacement_within s h :
  always (exactHealthyReplacement s) h (λ h' _, within h h' 5 0).
Proof.
  unfold exactHealthyReplacement. run_step. run_step; [|spent]. run_step. destruct a; [run_step; spent|].
  run_step; [|spent]. destruct a; [run_step; spent|]. run_step. apply always_watchers; [|intros; spent].
  intros raws ws _. destruct ws as [|w [|]]; [run_step; spent| |run_step; spent].
  run_step. run_step; [|spent]. run_step. run_step; [|spent]. run_step. destruct a; [|repeat run_step; spent].
  run_step; [|spent]. run_step. spent.
Qed.

Lemma wait_within {X} (condition : Prog (option X)) options left h :
  (0 ≤ pollIntervalMs options)%Z → (∀ h, always condition h (λ h' _, within h h' 5 0)) →
  always (waitForExactHealthy condition options left) h (λ h' _,
    within h h' (8 * left) (Z.of_nat (left - 1) * pollIntervalMs options)).
Proof.
  intros Hp Hc. revert h. induction left as [|left IH]; intros h; [apply within_refl|].
  cbn [waitForExactHealthy].
  assert (Hq : ∀ h', within h h' 8 0 → within h h' (8 * Datatypes.S left)
                 (Z.of_nat (Datatypes.S left - 1) * pollIntervalMs options)).
  { intros h' H. eapply within_mono; [exact H|lia|nia]. }
  run_step. run_step; [|apply Hq; spent]. destruct a as [n|]; [|run_step; apply Hq; spent].
  run_step; [run_step; apply Hq; spent|]. run_step. eapply always_mono; [|apply Hc]. intros h1 r H1.
  assert (H1' : within h h1 6 0).
  { assert (H0 : within h (Ev Now (Ok (Some n)) :: h) 1 0) by spent.
    eapply within_mono; [eapply within_trans; [exact H0|exact H1]|lia|lia]. }
  assert (Hout : ∀ h2 n, within h1 h2 n 0 → (n ≤ 2)%nat → within h h2 (8 * Datatypes.S left)
                   (Z.of_nat (Datatypes.S left - 1) * pollIntervalMs options)).
  { intros h2 m H2 Hm. apply Hq. eapply within_mono; [by eapply within_trans|lia|lia]. }
  destruct r as [[x|]|e]; [cbn [always mret Prog_ret]; apply (Hout _ 0); [apply within_refl|lia]| |apply (Hout _ 0); [apply within_refl|lia]].
  destruct (left =? 0)%nat eqn:El; [cbn [always mret Prog_ret]; apply (Hout _ 0); [apply within_refl|lia]|]. apply Nat.eqb_neq in El.
  run_step. run_step; [|apply (Hout _ 1); [spent|lia]].
  destruct a as [n'|]; [|cbn; apply (Hout _ 1); [spent|lia]]. cbn [fmap option_fmap option_map].
  destruct (deadlineMs options - n' <=? 0)%Z eqn:Er; [cbn [always mret Prog_ret]; apply (Hout _ 1); [spent|lia]|]. bools.
  set (ms := Z.min (pollIntervalMs options) (deadlineMs options - n')).
  assert (H2 : ∀ o, within h (Ev (Sleep ms) o :: Ev Now (Ok (Some n')) :: h1) 8 ms).
  { intros o. eapply within_mono; [eapply within_trans; [exact H1'|]; apply within_cons; [cbn; lia|]; apply within_cons;
      [cbn; lia|]; apply within_refl|cbn; lia|cbn; lia]. }
  run_step. run_step.
  - eapply always_mono; [|apply IH]. cbv beta. intros h3 r3 H3.
    eapply within_mono; [eapply within_trans; [apply (H2 (Ok a))|exact H3]|lia|].
    replace (Datatypes.S left - 1)%nat with (Datatypes.S (left - 1)) by lia. nia.
  - eapply within_mono; [apply (H2 (Throw m))|lia|].
    replace (Datatypes.S left - 1)%nat with (Datatypes.S (left - 1)) by lia. nia.
Qed.

(** The timeout and the interval of a wait that the configuration allows. *)
Definition wait_limits (cfg : WaitConfig) : option (Z * Z) :=
  t ← default (Some DEFAULT_RESUME_TIMEOUT_MS) (resumeTimeoutMs cfg);
  p ← default (Some DEFAULT_RESUME_POLL_INTERVAL_MS) (resumePollIntervalMs cfg);
  if (0 <? t)%Z && (0 <=? p)%Z then Some (t, p) else None.

Lemma ceil_div_spec a b : (0 < b)%Z → (a ≤ b * ceil_div a b < a + b)%Z.
Proof.
  intros Hb. unfold ceil_div. pose proof (Z.mul_div_le (- a) b Hb).
  pose proof (Z.mul_succ_div_gt (- a) b Hb). nia.
Qed.

Lemma options_within cfg h :
  always (readinessWaitOptions cfg) h (λ h' r, within h h' 1 0
    ∧ ∀ opts, r = Ok opts → ∃ t p, wait_limits cfg = Some (t, p) ∧ (0 < t)%Z ∧ (0 ≤ p)%Z
        ∧ pollIntervalMs opts = p ∧ maxAttempts opts = Z.to_nat (Z.max 1 (ceil_div t (Z.max 1 p) + 1))).
Proof.
  unfold readinessWaitOptions, wait_limits.
  destruct (default _ (resumeTimeoutMs cfg)) as [t|]; [|by split; [spent|]]. run_step.
  run_step; [|by split; [spent|]].
  destruct (default _ (resumePollIntervalMs cfg)) as [p|]; [|by split; [spent|]]. run_step.
  run_step; [|by split; [spent|]]. run_step. run_step; [|by split; [spent|]].
  destruct a as [n|]; [|by split; [spent|]]. cbn [always mret Prog_ret]. split; [spent|].
  intros opts [= <-]. exists t, p. cbn [mbind option_bind pollIntervalMs maxAttempts].
  rewrite H, H0. cbn [andb]. by bools.
Qed.

Definition call_bound (cfg : WaitConfig) : nat :=
  match wait_limits cfg with
  | Some (t, p) => 4 + 8 * Z.to_nat (ceil_div t (Z.max 1 p) + 1)
  | None => 4
  end.
Definition sleep_bound (cfg : WaitConfig) : Z :=
  match wait_limits cfg with
  | Some (t, p) => p * ceil_div t (Z.max 1 p)
  | None => 0
  end.

Lemma limits_valid cfg t p : wait_limits cfg = Some (t, p) → (0 < t)%Z ∧ (0 ≤ p)%Z.
Proof. unfold wait_limits. intros H. opt_inv H. by bools. Qed.

Lemma sleep_bound_nonneg cfg : (0 ≤ sleep_bound cfg)%Z.
Proof.
  unfold sleep_bound. destruct (wait_limits cfg) as [[t p]|] eqn:E; [|lia].
  apply limits_valid in E as [Ht Hp]. pose proof (ceil_div_spec t (Z.max 1 p)). nia.
Qed.

Lemma resume_within cfg s h :
  always (resumeAndProve cfg s) h (λ h' _, within h h' (call_bound cfg) (sleep_bound cfg)).
Proof.
  pose proof (sleep_bound_nonneg cfg) as Hnn.
  assert (Hq : ∀ h' n, within h h' n 0 → (n ≤ 4)%nat → within h h' (call_bound cfg) (sleep_bound cfg)).
  { intros h' n H Hn. eapply within_mono; [exact H|unfold call_bound; destruct (wait_limits cfg) as [[]|]; lia|lia]. }
  unfold resumeAndProve. run_step. apply always_watchers; [|intros; apply (Hq _ 1); [spent|lia]].
  intros raws ws _. destruct ws as [|w [|]]; [| |cbn; apply (Hq _ 1); [spent|lia]].
  - run_step. run_step; [|apply (Hq _ 2); [spent|lia]]. run_step. run_step; [|apply (Hq _ 2); [spent|lia]].
    lazymatch goal with |- always _ ?x _ => set (h1 := x) end.
    assert (H1 : ∀ o, within h (Ev (ResumeSameOwner s) o :: h1) 3 0) by (intros o; unfold h1; spent).
    clearbody h1. run_step. run_step. run_step.
    assert (Hrest : ∀ h2 (flag : bool), within h h2 3 0 →
      always (options ← readinessWaitOptions cfg;
              resumed ← waitForExactHealthy (exactHealthyReplacement s) options (maxAttempts options);
              require (bool_decide (is_Some resumed)) (NotResumed flag) true) h2
        (λ h' _, within h h' (call_bound cfg) (sleep_bound cfg))).
    { intros h2 flag H2. run_step. eapply always_mono; [|apply options_within].
      intros h3 [opts|e] [H3 Ho]; [|apply (Hq _ 4); [eapply within_mono; [eapply within_trans; [exact H2|exact H3]|lia|lia]|lia]].
      destruct (Ho opts eq_refl) as (t & p & El & Ht & Hp & Ep & Em). run_step.
      eapply always_mono; [|apply (wait_within _ opts); [lia|apply replacement_within]].
      intros h4 r H4. pose proof (ceil_div_spec t (Z.max 1 p) ltac:(lia)) as Hc.
      assert (Hfin : within h h4 (call_bound cfg) (sleep_bound cfg)).
      { eapply within_mono; [eapply within_trans; [eapply within_trans; [exact H2|exact H3]|exact H4]|..];
          unfold call_bound, sleep_bound; rewrite El, Em, ?Ep; nia. }
      destruct r as [x|e]; [run_step; done|done]. }
    run_step; [|by apply Hrest]. cbn [always mret Prog_ret]. by apply Hrest.
  - run_step. run_step; [|apply (Hq _ 1); [spent|lia]]. run_step. run_step; [|apply (Hq _ 2); [spent|lia]].
    run_step. run_step; [|apply (Hq _ 2); [spent|lia]]. run_step. run_step; [|apply (Hq _ 3); [spent|lia]].
    run_step. run_step; [|apply (Hq _ 3); [spent|lia]]. run_step.
    run_step; [|apply (Hq _ 4); [spent|lia]]. run_step; (apply (Hq _ 4); [spent|lia]).
Qed.

(** ** A controller at work *)

Inductive ControllerOp : Type := OpRecover | OpQuiesce | OpAssert | OpRelease.

(** The caller keeps the last lease it was given. *)
Definition controller_step (env : Environment) (cfg : WaitConfig) (op : ControllerOp)
    (st : option PodmanGatewayWatcherLease * list event)
    : option PodmanGatewayWatcherLease * list event :=
  let '(held, h) := st in
  let keep r := match r with Ok l => Some l | Throw _ => held end in
  match op, held with
  | OpRecover, _ => (held, (play env (recoverUnfinishedLease cfg) h).2)
  | OpQuiesce, _ => prod_map keep id (play env (quiesceAndProve cfg) h)
  | OpAssert, Some l => (held, (play env (assertStillStopped l) h).2)
  | OpRelease, Some l => prod_map keep id (play env (lease_resumeAndProve cfg l) h)
  | _, None => st
  end.

Definition controller_inv (st : option PodmanGatewayWatcherLease * list event) : Prop :=
  protocol st.2 ∧ from_option (acquired st.2) True st.1.

Lemma acquired_play {A} env (p : Prog A) h (held : option PodmanGatewayWatcherLease) :
  from_option (acquired h) True held → from_option (acquired (play env p h).2) True held.
Proof.
  destruct (play_extends env p h) as [tr ->]. destruct held as [l|]; [|done]. cbn [from_option].
  unfold acquired. rewrite elem_of_app. by right.
Qed.

Lemma quiesced_acquired h h' l : quiesced h h' (Ok l) → acquired h' l.
Proof. intros (_ & _ & h1 & ->). unfold acquired, proved_stopped. do 5 right. left. Qed.

Lemma controller_step_inv env cfg op st : controller_inv st → controller_inv (controller_step env cfg op st).
Proof.
  destruct st as [held h]. intros [Hp Hh]. cbn [fst snd] in Hp, Hh.
  destruct op; cbn [controller_step].
  - pose proof (always_play env _ _ _ (recover_spec cfg h Hp)) as [H _]. split; [done|].
    by apply acquired_play.
  - pose proof (always_play env _ _ _ (quiesce_spec cfg h Hp)) as [H Hq].
    pose proof (acquired_play env (quiesceAndProve cfg) h held Hh) as Hk.
    destruct (play env (quiesceAndProve cfg) h) as [[l|e] h']; split; try done.
    cbn. by eapply quiesced_acquired.
  - destruct held as [l|]; [|by split]. pose proof (always_play env _ _ _ (assert_spec l h Hp)) as [H _].
    split; [done|]. cbn [fst snd]. by apply (acquired_play env _ h (Some l)).
  - destruct held as [l|]; [|by split].
    pose proof (always_play env _ _ _ (release_spec cfg l h Hp Hh)) as [[H _] Hl].
    pose proof (acquired_play env (lease_resumeAndProve cfg l) h (Some l) Hh) as Hk.
    destruct (play env (lease_resumeAndProve cfg l) h) as [[l'|e] h']; split; try done.
    cbn in *. unfold acquired in *. by rewrite (Hl l').
Qed.

(** ** Properties *)

(** C4: the lease protocol holds against every environment.  Whatever the store,
    the probes and the owners answer or throw, in every history a controller
    leaves: a lease is acquired only for a process just proved to be the one
    healthy watcher; the owner is asked to stop only right after its lease was
    acquired; the lease is marked stopped only when process, owner and listener are
    proved stopped; an owner is resumed, and a lease cleared, only with authority
    over it (acquired here, or read back with its holder dead), the first when
    nothing serves the target, the second right after the same owner is proved
    healthy.  An attempt to quiesce ends with such a lease, or with nothing stopped,
    or its error says exactly whether the lease it took was given back. *)
Theorem watcher_lease_protocol env cfg ops :
  let st := foldl (λ st op, controller_step env cfg op st) (None, []) ops in
  protocol st.2
  ∧ let '(r, h') := play env (quiesceAndProve cfg) st.2 in protocol h' ∧ quiesced st.2 h' r.
Proof.
  intros st.
  assert (Hi : controller_inv st).
  { unfold st. assert (H0 : controller_inv (None, [])) by (split; [constructor|done]).
    revert H0. generalize (@None PodmanGatewayWatcherLease, @nil event). clear st.
    induction ops as [|op ops IH]; intros st H0; [done|]. cbn [foldl]. by apply IH, controller_step_inv. }
  destruct Hi as [Hp _]. split; [done|].
  pose proof (always_play env _ _ _ (quiesce_spec cfg st.2 Hp)) as H.
  by destruct (play env (quiesceAndProve cfg) st.2).
Qed.

(** C40: waiting for a resumed owner is bounded by the configuration alone.  With a
    timeout [t] and an interval [p] the code accepts, resuming issues at most
    [4 + 8 * (ceil(t / max(1, p)) + 1)] calls and sleeps less than [t + max(1, p)]
    milliseconds in all, even if the clock never advances; with an invalid
    configuration it never sleeps. *)
Theorem resume_wait_bounded env cfg s h :
  ∃ tr, (play env (resumeAndProve cfg s) h).2 = tr ++ h
  ∧ match wait_limits cfg with
    | Some (t, p) => (List.length tr ≤ 4 + 8 * Z.to_nat (ceil_div t (Z.max 1 p) + 1))%nat
                     ∧ (0 ≤ slept tr < t + Z.max 1 p)%Z
    | None => (List.length tr ≤ 4)%nat ∧ slept tr = 0%Z
    end.
Proof.
  pose proof (always_play env _ _ _ (resume_within cfg s h)) as (tr & E & Hn & Hs).
  exists tr. split; [done|]. unfold call_bound, sleep_bound in *.
  destruct (wait_limits cfg) as [[t p]|] eqn:El; [|lia]. split; [done|].
  apply limits_valid in El as [Ht Hp]. pose proof (ceil_div_spec t (Z.max 1 p) ltac:(lia)). nia.
Qed.

(** ** One host *)

Definition sample_raw (instance : Z) : RawSnapshot :=
  mkRaw "nemoclaw" (NInt 8080) "unit:nemoclaw" "systemd:user" "managed-service" (NInt (100 + instance))
    "boot-1".
Definition sample_lease_id : string := "01234567-89ab-4def-8123-456789abcdef".

(** How often the owner was stopped and resumed. *)
Definition starts (h : list event) : Z :=
  Z.of_nat (List.length (List.filter (λ e, match e with Programs.Ev (ResumeSameOwner _) (Ok _) => true | _ => false end) h)).
Definition stops (h : list event) : Z := Z.of_nat (List.length (List.filter is_stop h)).
Definition last_lease (h : list event) : option RawLease :=
  (fix go h := match h with
     | [] => None
     | Programs.Ev (StoreAcquire r) (Ok _) :: _ | Programs.Ev (StoreAdvance _ r) (Ok _) :: _ =>
         Some (mkRawLease (sample_raw (pid (l_snapshot r) - 100)) (NInt 2)
                 (Some (mkRawHolder (NInt (h_pid (l_holder r))) (h_processStartIdentity (l_holder r))))
                 (leaseId r) (match l_phase r with Acquiring => "acquiring" | Stopped => "stopped" end))
     | Programs.Ev (StoreClear _) (Ok _) :: _ => None
     | _ :: h => go h
     end) h.

(** A service manager that stops and starts the watcher as it is told, and a clock
    that never advances. *)
Definition sample_environment : Environment := λ h d,
  let up := (stops h <=? starts h)%Z in
  match d return outcome d with
  | StoreRead => Ok (last_lease h)
  | StoreAcquire _ => Ok tt
  | StoreAdvance _ _ => Ok tt
  | StoreClear _ => Ok tt
  | CaptureCurrent => Ok (Some (sample_raw (starts h)))
  | ListTargetWatchers _ => Ok (Some (if up then [Some (sample_raw (starts h))] else []))
  | IsProcessInstanceAlive s => Ok (up && (pid s =? 100 + starts h)%Z)
  | CaptureLeaseHolder => Ok (Some (mkRawHolder (NInt 7) "boot-1"))
  | IsLeaseHolderAlive _ => Ok false
  | IsOwnerStopped _ => Ok (negb up)
  | StopExactOwner _ => Ok tt
  | ResumeSameOwner _ => Ok tt
  | IsHealthy _ => Ok true
  | CreateLeaseId => Ok sample_lease_id
  | Now => Ok (Some 0%Z)
  | Sleep _ => Ok tt
  end.
Definition default_wait : WaitConfig := mkWait None None.

(** A full cycle: taken, asserted, released, and nothing left in the store. *)
Lemma sample_cycle :
  let st := foldl (λ st op, controller_step sample_environment default_wait op st) (None, [])
              [OpRecover; OpQuiesce; OpAssert; OpRelease] in
  released <$> st.1 = Some true ∧ last_lease st.2 = None ∧ starts st.2 = 1%Z ∧ stops st.2 = 1%Z.
Proof. vm_compute. split_and!; reflexivity. Qed.

(** An owner that never comes back is given up after 121 attempts and 30 s of sleep. *)
Lemma sample_give_up :
  let stuck : Environment := λ h d,
    match d return outcome d with
    | ListTargetWatchers _ => Ok (Some [])
    | IsOwnerStopped _ => Ok true
    | d => sample_environment h d
    end in
  let s := mkSnapshot "nemoclaw" 8080 "unit:nemoclaw" "systemd:user" ManagedService 100 "boot-1" in
  let '(r, h) := play stuck (resumeAndProve default_wait s) [] in
  r = Throw (LeaseError (NotResumed false) true) ∧ slept h = 30000%Z.
Proof. vm_compute. split; reflexivity. Qed.
