(* ===== verification/Registry.v ===== *)
(** * The sandbox registry

    src/lib/state/registry-reversible-removal.ts (the default pointer with its
    revision, removal with a receipt and restoration), registry-normalization.ts
    (baseline exclusions and their transition), extra-providers.ts and the operations
    of src/lib/state/registry.ts over the registry file, with the repair of the
    default pointer that persistence.ts performs on every save.

    The registry of the model is the one a load returns; every operation below runs
    under the registry lock, so operations are atomic steps.  A save puts every row into
    the form of the file: its baseline exclusions and their transition are normalised,
    which throws on a malformed one, and markers of a display are dropped.  The parts of a
    row that have modules of their own (messaging, workload, serving profile and MCP, in
    [e_rest], and the custom policies) are taken as they are: their clones are not
    modelled. *)

From S2P Require Import Prelude Json Choices Time Checkpoint.

(** ** Data (registry/types.ts) *)

Record CustomPolicyEntry := mkPolicy {
  p_name : string;
  p_appliedAt : option string;
  p_rest : list (string * json);
}.

(** A version 1 entry; [x_appliedAgentVersion] is null or a string when present. *)
Record BaselineExclusionEntry := mkExclusion {
  x_agent : string;
  x_key : string;
  x_digest : string;
  x_acknowledgedAt : option string;
  x_appliedAgentVersion : option (option string);
}.
#[export] Instance exclusion_eq_dec : EqDecision BaselineExclusionEntry.
Proof. solve_decision. Defined.

Inductive BaselineExclusionTransitionOperation : Type := Exclude | RestoreBaseline.
#[export] Instance operation_eq_dec : EqDecision BaselineExclusionTransitionOperation.
Proof. solve_decision. Defined.

Record BaselineExclusionTransition := mkTransition {
  t_id : string;
  t_operation : BaselineExclusionTransitionOperation;
  t_exclusion : BaselineExclusionEntry;
  t_targetLiveDigest : option string;
  t_startedAt : string;
}.

(** A row: the properties the registry itself reads, and the others. *)
Record RegistryRow := mkRow {
  e_name : string;
  pendingRouteReservation : bool;
  reservationSessionId : option string;
  createdAt : option string;
  customPolicies : option (list CustomPolicyEntry);
  baselineExclusions : option (list BaselineExclusionEntry);
  baselineExclusionTransition : option BaselineExclusionTransition;
  e_rest : list (string * json);
}.
#[export] Instance eta_row : Eta RegistryRow := λ r,
  mkRow (e_name r) (pendingRouteReservation r) (reservationSessionId r) (createdAt r)
    (customPolicies r) (baselineExclusions r) (baselineExclusionTransition r) (e_rest r).

(** [sandboxes] in insertion order (row names are not array indices). *)
Record SandboxRegistry := mkRegistry {
  sandboxes : list (string * RegistryRow);
  defaultSandbox : option string;
  defaultSelectionRevision : json;
  extraProviders : option (list string);
}.
#[export] Instance eta_registry : Eta SandboxRegistry := λ r,
  mkRegistry (sandboxes r) (defaultSandbox r) (defaultSelectionRevision r) (extraProviders r).

Inductive registry_error : Type :=
| RevisionInvalid | RevisionExhausted
| MalformedExclusion | InvalidExclusion | InvalidAgentVersion (key : string)
| MalformedTransition | IncompleteTransition | InvalidTransitionSource | InvalidLiveTarget (key : string).

(** ** Extra providers (extra-providers.ts) *)

Definition EXTRA_PROVIDER_NAME_PATTERN (s : string) : bool :=
  match chars s with
  | c :: l => is_alpha c && forallb (λ c, is_alnum c || one_of "._-" c) l && (List.length l <=? 127)%nat
  | [] => false
  end.

Definition none_if_empty {A} (l : list A) : option (list A) :=
  match l with [] => None | _ => Some l end.

Definition normalizeExtraProviders (input : option (list string)) : option (list string) :=
  l ← input; none_if_empty (sort_strings (distinct (List.filter EXTRA_PROVIDER_NAME_PATTERN l))).

Definition applyAddExtraProvider (name : string) (r : SandboxRegistry) : SandboxRegistry * bool :=
  let existing := default [] (extraProviders r) in
  if negb (EXTRA_PROVIDER_NAME_PATTERN name) || includes existing name then (r, false)
  else (r <| extraProviders := Some (sort_strings (distinct existing ++ [name])) |>, true).

Definition applyRemoveExtraProvider (name : string) (r : SandboxRegistry) : SandboxRegistry * bool :=
  let existing := default [] (extraProviders r) in
  if negb (includes existing name) then (r, false)
  else (r <| extraProviders :=
            none_if_empty (sort_strings (List.filter (λ x, negb (x =s name)) (distinct existing))) |>, true).

(** ** Baseline exclusions (registry-normalization.ts) *)

Definition BASELINE_TRANSITION_KEY_PATTERN (s : string) : bool :=
  match chars s with
  | c :: l => is_alnum c && forallb (λ c, is_alnum c || one_of "_.-" c) l && (List.length l <=? 127)%nat
  | [] => false
  end.

(** [typeof v === "string" ? v.trim() : ""]. *)
Definition trimmed_or_empty (v : json) : string :=
  match v with JStr s => js_trim s | _ => "" end.

Definition normalizeBaselineExclusionEntry (item : json) : result registry_error BaselineExclusionEntry :=
  match item with
  | JObj o =>
      let agent := trimmed_or_empty (jget o "agent") in
      let key := trimmed_or_empty (jget o "key") in
      let digest := trimmed_or_empty (jget o "digest") in
      throw_unless (bool_decide (jget o "version" = JNum (NInt 1)) && BASELINE_TRANSITION_KEY_PATTERN agent
                    && BASELINE_TRANSITION_KEY_PATTERN key && SHA256_PATTERN digest) InvalidExclusion;;
      acknowledgedAt ← (match jget o "acknowledgedAt" with
        | JUndef => Ok None
        | JStr s => throw_unless (isCanonicalIso (js_trim s)) InvalidExclusion;; Ok (Some (js_trim s))
        | _ => Throw InvalidExclusion
        end);
      version ← (match jget o "appliedAgentVersion" with
        | JUndef => Ok None
        | JNull => Ok (Some None)
        | JStr s => Ok (Some (Some s))
        | _ => Throw (InvalidAgentVersion key)
        end);
      Ok (mkExclusion agent key digest acknowledgedAt version)
  | _ => Throw MalformedExclusion
  end.

(** The map by key keeps the place of the first entry and the value of the last. *)
Definition normalizeBaselineExclusions (value : json)
    : result registry_error (option (list BaselineExclusionEntry)) :=
  match value with
  | JUndef => Ok None
  | JArr l =>
      (λ byKey : list (string * BaselineExclusionEntry), none_if_empty (map snd byKey)) <$>
        fold_left (λ acc item,
          byKey ← acc; e ← normalizeBaselineExclusionEntry item; Ok (put byKey (x_key e) e)) l (Ok [])
  | _ => Throw MalformedExclusion
  end.

Definition operation_of (v : json) : option BaselineExclusionTransitionOperation :=
  match v with
  | JStr s => if s =s "exclude" then Some Exclude else if s =s "restore" then Some RestoreBaseline else None
  | _ => None
  end.

Definition normalizeBaselineExclusionTransition (value : json)
    : result registry_error (option BaselineExclusionTransition) :=
  match value with
  | JUndef => Ok None
  | JObj o =>
      let id := trimmed_or_empty (jget o "id") in
      let startedAt := trimmed_or_empty (jget o "startedAt") in
      throw_unless (UUID_PATTERN id) IncompleteTransition;;
      operation ← of_option IncompleteTransition (operation_of (jget o "operation"));
      throw_unless (isCanonicalIso startedAt) IncompleteTransition;;
      exclusion ← normalizeBaselineExclusionEntry (jget o "exclusion");
      throw_unless (BASELINE_TRANSITION_KEY_PATTERN (x_key exclusion) && SHA256_PATTERN (x_digest exclusion)
                    && from_option isCanonicalIso true (x_acknowledgedAt exclusion)) InvalidTransitionSource;;
      let target := match jget o "targetLiveDigest" with JNull => None | v => Some (trimmed_or_empty v) end in
      throw_unless (match operation with
                    | Exclude => bool_decide (target = None)
                    | RestoreBaseline => from_option SHA256_PATTERN false target
                    end) (InvalidLiveTarget (x_key exclusion));;
      Ok (Some (mkTransition id operation exclusion target startedAt))
  | _ => Throw MalformedTransition
  end.

Definition exclusion_json (x : BaselineExclusionEntry) : json :=
  JObj ([("version", JNum (NInt 1)); ("agent", JStr (x_agent x)); ("key", JStr (x_key x));
         ("digest", JStr (x_digest x))]
        ++ (match x_acknowledgedAt x with Some a => [("acknowledgedAt", JStr a)] | None => [] end)
        ++ (match x_appliedAgentVersion x with Some v => [("appliedAgentVersion", jopt v)] | None => [] end)).
Definition transition_json (t : BaselineExclusionTransition) : json :=
  JObj [("id", JStr (t_id t));
        ("operation", JStr (match t_operation t with Exclude => "exclude" | RestoreBaseline => "restore" end));
        ("exclusion", exclusion_json (t_exclusion t)); ("targetLiveDigest", jopt (t_targetLiveDigest t));
        ("startedAt", JStr (t_startedAt t))].

(** ** A row in the file (registry/persistence.ts)

    The markers of a display and the old hashes never reach the file, and the port of no
    dashboard is null. *)
Definition durable (rest : list (string * json)) : list (string * json) :=
  let rest := remove (remove (remove rest "recoveredFromGateway") "livePhase") "providerCredentialHashes" in
  match jget rest "dashboardPort" with
  | JNum (NInt 0) => put rest "dashboardPort" JNull
  | _ => rest
  end.

Definition exclusions_json (exclusions : option (list BaselineExclusionEntry)) : json :=
  match exclusions with Some l => JArr (map exclusion_json l) | None => JUndef end.
Definition staged_json (transition : option BaselineExclusionTransition) : json :=
  match transition with Some t => transition_json t | None => JUndef end.

Definition serializeSandboxEntryForDisk (entry : RegistryRow) : result registry_error RegistryRow :=
  baselineExclusions ← normalizeBaselineExclusions (exclusions_json (baselineExclusions entry));
  transition ← normalizeBaselineExclusionTransition (staged_json (baselineExclusionTransition entry));
  Ok (mkRow (e_name entry) (pendingRouteReservation entry) (reservationSessionId entry) (createdAt entry)
        (customPolicies entry) baselineExclusions transition (durable (e_rest entry))).

Fixpoint serialize_rows (rows : list (string * RegistryRow)) : result registry_error (list (string * RegistryRow)) :=
  match rows with
  | [] => Ok []
  | (name, entry) :: rows' =>
      e ← serializeSandboxEntryForDisk entry; es ← serialize_rows rows'; Ok ((name, e) :: es)
  end.

(** ** The default pointer (registry-reversible-removal.ts) *)

Definition normalizeDefaultSelectionRevision (revision : json) : result registry_error Z :=
  match revision with
  | JUndef => Ok 0%Z
  | JNum (NInt z) =>
      throw_unless ((Z.abs z <=? MAX_SAFE_INTEGER) && (0 <=? z))%Z RevisionInvalid;; Ok z
  | _ => Throw RevisionInvalid
  end.

Definition incrementDefaultSelectionRevision (revision : json) : result registry_error Z :=
  current ← normalizeDefaultSelectionRevision revision;
  throw_unless (negb (current =? MAX_SAFE_INTEGER)%Z) RevisionExhausted;;
  Ok (current + 1)%Z.

Definition with_default (r : SandboxRegistry) (d : option string) (revision : Z) : SandboxRegistry :=
  r <| defaultSandbox := d |> <| defaultSelectionRevision := JNum (NInt revision) |>.

Section WithPrototype.
(** [Object.prototype[name]], which a plain object inherits, seen as a row. *)
Context (inherited : string → option RegistryRow).

(** [registry.sandboxes[name]]. *)
Definition row_at (rows : list (string * RegistryRow)) (name : string) : option RegistryRow :=
  match own rows name with Some e => Some e | None => inherited name end.
Definition present (rows : list (string * RegistryRow)) (name : string) : bool :=
  bool_decide (is_Some (row_at rows name)).

Definition claimInitialDefaultInRegistry (r : SandboxRegistry) (name : string)
    : result registry_error SandboxRegistry :=
  if truthy_opt (defaultSandbox r) then Ok r
  else revision ← incrementDefaultSelectionRevision (defaultSelectionRevision r);
       Ok (with_default r (Some name) revision).

Definition setDefaultInRegistry (r : SandboxRegistry) (name : string)
    : result registry_error (option SandboxRegistry) :=
  if present (sandboxes r) name then
    revision ← incrementDefaultSelectionRevision (defaultSelectionRevision r);
    Ok (Some (with_default r (Some name) revision))
  else Ok None.

Definition clearRegistry (r : SandboxRegistry) : result registry_error SandboxRegistry :=
  revision ← (match defaultSandbox r with
              | None => normalizeDefaultSelectionRevision (defaultSelectionRevision r)
              | Some _ => incrementDefaultSelectionRevision (defaultSelectionRevision r)
              end);
  Ok (mkRegistry [] None (JNum (NInt revision)) None).

Record RegistryDefaultTransition := mkDefaultTransition {
  dt_from : option string;
  dt_to : string;
  dt_expectedRevision : Z;
}.

Definition restoreSandboxEntryInRegistry (r : SandboxRegistry) (entry : RegistryRow)
    (transition : option RegistryDefaultTransition) : result registry_error SandboxRegistry :=
  let rows := put (sandboxes r) (e_name entry) entry in
  match transition with
  | None => Ok (r <| sandboxes := rows |>)
  | Some t =>
      if negb (bool_decide (defaultSandbox r = dt_from t)) then Ok (r <| sandboxes := rows |>)
      else
        current ← normalizeDefaultSelectionRevision (defaultSelectionRevision r);
        if negb (current =? dt_expectedRevision t)%Z || negb (present rows (dt_to t))
        then Ok (r <| sandboxes := rows |>)
        else
          revision ← incrementDefaultSelectionRevision (defaultSelectionRevision r);
          Ok (with_default (r <| sandboxes := rows |>) (Some (dt_to t)) revision)
  end.

Record RegistryRemovalReceipt := mkReceipt {
  rc_entry : RegistryRow;
  wasDefault : bool;
  fallbackDefault : option string;
  postRemovalDefaultSelectionRevision : Z;
}.

(** [Object.keys(sandboxes)[0] || null]. *)
Definition first_key (rows : list (string * RegistryRow)) : option string :=
  match rows with (k, _) :: _ => if truthy k then Some k else None | [] => None end.

Definition removeSandboxFromRegistry (r : SandboxRegistry) (name : string)
    : result registry_error (SandboxRegistry * option RegistryRemovalReceipt) :=
  match row_at (sandboxes r) name with
  | None => Ok (r, None)
  | Some entry =>
      let rows := remove (sandboxes r) name in
      let fallback := first_key rows in
      let was := bool_decide (defaultSandbox r = Some name) in
      revision ← (if was then incrementDefaultSelectionRevision (defaultSelectionRevision r)
                  else normalizeDefaultSelectionRevision (defaultSelectionRevision r));
      Ok (with_default (r <| sandboxes := rows |>) (if was then fallback else defaultSandbox r) revision,
          Some (mkReceipt entry was fallback revision))
  end.

Definition restoreSandboxIfMissingInRegistry (r : SandboxRegistry) (receipt : RegistryRemovalReceipt)
    : result registry_error (SandboxRegistry * bool) :=
  let entry := rc_entry receipt in
  if present (sandboxes r) (e_name entry) then Ok (r, false)
  else
    let rows := put (sandboxes r) (e_name entry) entry in
    let currentDefaultIsValid :=
      match defaultSandbox r with Some d => present rows d | None => false end in
    current ← normalizeDefaultSelectionRevision (defaultSelectionRevision r);
    let shouldReclaim := wasDefault receipt
      && bool_decide (defaultSandbox r = fallbackDefault receipt)
      && (current =? postRemovalDefaultSelectionRevision receipt)%Z in
    let d := if shouldReclaim then Some (e_name entry)
             else if currentDefaultIsValid then defaultSandbox r else Some (e_name entry) in
    revision ← (if bool_decide (d = defaultSandbox r) then Ok current
                else incrementDefaultSelectionRevision (defaultSelectionRevision r));
    Ok (with_default (r <| sandboxes := rows |>) d revision, true).

(** registry-normalization.ts: own rows only. *)
Definition retainedDefaultSandbox (d : option string) (rows : list (string * RegistryRow))
    : option string :=
  name ← d; entry ← own rows name; if pendingRouteReservation entry then None else Some name.

(** [save] of persistence.ts: the registry of [serializeRegistryForDisk]. *)
Definition save (r : SandboxRegistry) : result registry_error SandboxRegistry :=
  rows ← serialize_rows (sandboxes r);
  let d := retainedDefaultSandbox (defaultSandbox r) rows in
  current ← normalizeDefaultSelectionRevision (defaultSelectionRevision r);
  revision ← (if bool_decide (d = defaultSandbox r) then Ok current
              else incrementDefaultSelectionRevision (JNum (NInt current)));
  Ok (with_default (r <| sandboxes := rows |> <| extraProviders := normalizeExtraProviders (extraProviders r) |>) d revision).

(** ** Operations over the file (registry.ts)

    An operation takes the registry in the file and gives what it returns with the
    registry in the file afterwards; one that throws leaves the file. *)

Definition RegistryOperation (A : Type) : Type := SandboxRegistry → result registry_error (A * SandboxRegistry).

Definition saved {A} (a : A) (r : SandboxRegistry) : result registry_error (A * SandboxRegistry) :=
  r ← save r; Ok (a, r).

Definition getSandbox (name : string) (data : SandboxRegistry) : option RegistryRow :=
  row_at (sandboxes data) name.

Definition getDefault (data : SandboxRegistry) : option string :=
  let first := match List.filter (λ kv, negb (pendingRouteReservation kv.2)) (sandboxes data) with
               | (_, e) :: _ => if truthy (e_name e) then Some (e_name e) else None
               | [] => None
               end in
  match defaultSandbox data with
  | Some d =>
      match row_at (sandboxes data) d with
      | Some e => if truthy d && negb (pendingRouteReservation e) then Some d else first
      | None => first
      end
  | None => first
  end.

(** [row]: the row [registerSandbox] builds from its argument. *)
Definition registerSandbox (row : RegistryRow) : RegistryOperation unit := λ data,
  let d := match retainedDefaultSandbox (defaultSandbox data) (sandboxes data) with
           | None => None | Some _ => defaultSandbox data end in
  r ← claimInitialDefaultInRegistry
        (data <| defaultSandbox := d |> <| sandboxes := put (sandboxes data) (e_name row) row |>) (e_name row);
  saved tt r.

(** [route]: the normalised selection and the gateway of the reservation.  Spreading an
    inherited function gives no properties, and a row without a name is not read back. *)
Definition reserveSandboxInferenceRoute (name : string) (session : option string)
    (route : list (string * json)) : RegistryOperation bool := λ data,
  let reserved base := data <| sandboxes := put (sandboxes data) name
    (base <| pendingRouteReservation := true |>
          <| reservationSessionId := (match session with
               | Some s => Some s | None => reservationSessionId base end) |>
          <| e_rest := fold_left (λ o kv, put o kv.1 kv.2) route (e_rest base) |>) |> in
  match own (sandboxes data) name, inherited name with
  | Some existing, _ => saved true (reserved existing)
  | None, Some _ => saved true data
  | None, None => saved true (reserved (mkRow name true None None None None None []))
  end.

Definition isRouteOnlySandboxReservation (entry : RegistryRow) : bool :=
  pendingRouteReservation entry && bool_decide (createdAt entry = None).

Definition isPendingReservationForSession (entry : option RegistryRow) (sessionId : option string) : bool :=
  match entry with
  | Some e => pendingRouteReservation e && truthy_opt sessionId
              && bool_decide (reservationSessionId e = sessionId)
  | None => false
  end.

(** [Partial<SandboxEntry>]: [Some] for each property the object has. *)
Record RowUpdates := mkRowUpdates {
  u_name : option string;
  u_pending : option bool;
  u_reservationSessionId : option (option string);
  u_createdAt : option (option string);
  u_customPolicies : option (option (list CustomPolicyEntry));
  u_baselineExclusions : option (option (list BaselineExclusionEntry));
  u_baselineExclusionTransition : option (option BaselineExclusionTransition);
  u_rest : list (string * json);
}.
Definition assign (row : RegistryRow) (u : RowUpdates) : RegistryRow :=
  mkRow (default (e_name row) (u_name u)) (default (pendingRouteReservation row) (u_pending u))
    (default (reservationSessionId row) (u_reservationSessionId u))
    (default (createdAt row) (u_createdAt u)) (default (customPolicies row) (u_customPolicies u))
    (default (baselineExclusions row) (u_baselineExclusions u))
    (default (baselineExclusionTransition row) (u_baselineExclusionTransition u))
    (fold_left (λ o kv, put o kv.1 kv.2) (u_rest u) (e_rest row)).

(** The row of [name] changed in place: nothing is written for an absent row, for
    [f] giving [None], nor into an inherited one. *)
Definition change_row (name : string) (f : RegistryRow → result registry_error (option RegistryRow))
    : RegistryOperation bool := λ data,
  match row_at (sandboxes data) name with
  | None => Ok (false, data)
  | Some row =>
      changed ← f row;
      match changed with
      | None => Ok (false, data)
      | Some row' =>
          match own (sandboxes data) name with
          | Some _ => saved true (data <| sandboxes := put (sandboxes data) name row' |>)
          | None => saved true data
          end
      end
  end.

Definition updateSandbox (name : string) (updates : RowUpdates) : RegistryOperation bool :=
  change_row name (λ row,
    if from_option (λ n, negb (n =s name)) false (u_name updates) then Ok None
    else Ok (Some (assign row updates))).

Definition removeSandboxWithReceipt (name : string) : RegistryOperation (option RegistryRemovalReceipt) :=
  λ data,
  removed ← removeSandboxFromRegistry data name;
  match removed.2 with
  | None => Ok (None, data)
  | Some receipt => saved (Some receipt) removed.1
  end.

Definition restoreSandboxEntry (entry : RegistryRow) (transition : option RegistryDefaultTransition)
    : RegistryOperation unit := λ data,
  r ← restoreSandboxEntryInRegistry data entry transition; saved tt r.

Definition restoreSandboxEntryIfMissing (receipt : RegistryRemovalReceipt) : RegistryOperation bool :=
  λ data,
  restored ← restoreSandboxIfMissingInRegistry data receipt;
  if restored.2 : bool then saved true restored.1 else Ok (false, data).

Definition setDefault (name : string) : RegistryOperation bool := λ data,
  if from_option pendingRouteReservation false (row_at (sandboxes data) name) then Ok (false, data)
  else
    r ← setDefaultInRegistry data name;
    match r with None => Ok (false, data) | Some r => saved true r end.

Definition clearAll : RegistryOperation unit := λ data, r ← clearRegistry data; saved tt r.

Definition addExtraProvider (name : string) : RegistryOperation bool := λ data,
  if negb (EXTRA_PROVIDER_NAME_PATTERN name) then Ok (false, data)
  else let '(r, added) := applyAddExtraProvider name data in
       if added : bool then saved true r else Ok (false, data).
Definition removeExtraProvider (name : string) : RegistryOperation bool := λ data,
  let '(r, removed) := applyRemoveExtraProvider name data in
  if removed : bool then saved true r else Ok (false, data).

Definition addCustomPolicy (name : string) (entry : CustomPolicyEntry) (now_ : string)
    : RegistryOperation bool :=
  change_row name (λ row,
    let kept := List.filter (λ p, negb (p_name p =s p_name entry)) (default [] (customPolicies row)) in
    let entry := mkPolicy (p_name entry) (Some (default now_ (p_appliedAt entry))) (p_rest entry) in
    Ok (Some (row <| customPolicies := Some (kept ++ [entry]) |>))).

Definition removeCustomPolicyByName (name presetName : string) : RegistryOperation bool :=
  change_row name (λ row,
    let list := default [] (customPolicies row) in
    let next := List.filter (λ p, negb (p_name p =s presetName)) list in
    if (List.length next =? List.length list)%nat then Ok None
    else Ok (Some (row <| customPolicies := none_if_empty next |>))).

(** ** Baseline exclusions of a row (registry.ts) *)

Definition without_key (key : string) (l : list BaselineExclusionEntry) : list BaselineExclusionEntry :=
  List.filter (λ e, negb (x_key e =s key)) l.
Definition acknowledged (now_ : string) (e : BaselineExclusionEntry) : BaselineExclusionEntry :=
  mkExclusion (x_agent e) (x_key e) (x_digest e) (Some (default now_ (x_acknowledgedAt e)))
    (x_appliedAgentVersion e).

Definition exclusions (row : RegistryRow) : list BaselineExclusionEntry :=
  default [] (baselineExclusions row).

Definition add_exclusion (entry : BaselineExclusionEntry) (now_ : string) (row : RegistryRow)
    : result registry_error (option RegistryRow) :=
  match baselineExclusionTransition row with
  | Some _ => Ok None
  | None => Ok (Some (row <| baselineExclusions :=
              Some (without_key (x_key entry) (exclusions row) ++ [acknowledged now_ entry]) |>))
  end.
Definition addBaselineExclusion (name : string) (entry : BaselineExclusionEntry) (now_ : string)
    : RegistryOperation bool := change_row name (add_exclusion entry now_).

Definition remove_exclusion (key : string) (row : RegistryRow)
    : result registry_error (option RegistryRow) :=
  match baselineExclusionTransition row with
  | Some _ => Ok None
  | None =>
      let next := without_key key (exclusions row) in
      if (List.length next =? List.length (exclusions row))%nat then Ok None
      else Ok (Some (row <| baselineExclusions := none_if_empty next |>))
  end.
Definition removeBaselineExclusion (name key : string) : RegistryOperation bool :=
  change_row name (remove_exclusion key).

Definition begin_transition (t : BaselineExclusionTransition) (row : RegistryRow)
    : result registry_error (option RegistryRow) :=
  match baselineExclusionTransition row with
  | Some _ => Ok None
  | None => n ← normalizeBaselineExclusionTransition (transition_json t);
            Ok (Some (row <| baselineExclusionTransition := n |>))
  end.
Definition beginBaselineExclusionTransition (name : string) (t : BaselineExclusionTransition)
    : RegistryOperation bool := change_row name (begin_transition t).

Definition commit_transition (id now_ : string) (row : RegistryRow)
    : result registry_error (option RegistryRow) :=
  match baselineExclusionTransition row with
  | None => Ok None
  | Some t =>
      if negb (t_id t =s id) then Ok None
      else
        let x := t_exclusion t in
        match t_operation t with
        | Exclude =>
            Ok (Some (row <| baselineExclusions :=
                        Some (without_key (x_key x) (exclusions row) ++ [acknowledged now_ x]) |>
                          <| baselineExclusionTransition := None |>))
        | RestoreBaseline =>
            match List.find (λ e, x_key e =s x_key x) (exclusions row) with
            | Some committed =>
                if bool_decide (committed = x)
                then Ok (Some (row <| baselineExclusions :=
                            none_if_empty (without_key (x_key x) (exclusions row)) |>
                              <| baselineExclusionTransition := None |>))
                else Ok None
            | None => Ok None
            end
        end
  end.
Definition commitBaselineExclusionTransition (name id now_ : string) : RegistryOperation bool :=
  change_row name (commit_transition id now_).

Definition clear_transition (id : string) (row : RegistryRow) : result registry_error (option RegistryRow) :=
  if bool_decide (t_id <$> baselineExclusionTransition row = Some id)
  then Ok (Some (row <| baselineExclusionTransition := None |>)) else Ok None.
Definition clearBaselineExclusionTransition (name id : string) : RegistryOperation bool :=
  change_row name (clear_transition id).
End WithPrototype.

(** ** Lemmas: a save has nothing more to do on what it wrote *)

Lemma entry_norm_rt v e : normalizeBaselineExclusionEntry v = Ok e →
  normalizeBaselineExclusionEntry (exclusion_json e) = Ok e.
Proof.
  destruct v as [| | | | | |o]; try done. unfold normalizeBaselineExclusionEntry at 1.
  intros (u & Hu%throw_unless_ok & (a & Ha & (v & Hv & [= <-])%result_bind_ok)%result_bind_ok)%result_bind_ok.
  apply andb_true_iff in Hu as [[[_ Hagent]%andb_true_iff Hkey]%andb_true_iff Hdigest].
  set (agent := trimmed_or_empty (jget o "agent")) in *. set (key := trimmed_or_empty (jget o "key")) in *.
  set (digest := trimmed_or_empty (jget o "digest")) in *.
  assert (Ht : ∀ j, js_trim (trimmed_or_empty j) = trimmed_or_empty j) by (intros []; [done..|apply js_trim_idem|done|done]).
  assert (Hack : from_option (λ t, js_trim t = t ∧ isCanonicalIso t = true) True a).
  { destruct (jget o "acknowledgedAt"); try done; [by injection Ha as <-|].
    destruct (isCanonicalIso (js_trim s)) eqn:E; [|done]. injection Ha as <-. split; [apply js_trim_idem|done]. }
  unfold exclusion_json, normalizeBaselineExclusionEntry. cbn [x_agent x_key x_digest x_acknowledgedAt x_appliedAgentVersion].
  destruct a as [a|], v as [[v|]|]; cbn [app jopt]; jget_simpl; cbn [trimmed_or_empty];
    rewrite ?(Ht (jget o "agent") : js_trim agent = agent), ?(Ht (jget o "key") : js_trim key = key),
      ?(Ht (jget o "digest") : js_trim digest = digest), Hagent, Hkey, Hdigest, bool_decide_eq_true_2 by done;
    cbn [andb throw_unless mbind result_bind]; try done; destruct Hack as [-> ->]; done.
Qed.

(** Exclusions as a save writes them. *)
Definition fixed_entry (e : BaselineExclusionEntry) : Prop := normalizeBaselineExclusionEntry (exclusion_json e) = Ok e.
Definition good_exclusions (l : list BaselineExclusionEntry) : Prop := NoDup (x_key <$> l) ∧ Forall fixed_entry l.
Definition keyed (l : list BaselineExclusionEntry) : list (string * BaselineExclusionEntry) := map (λ e, (x_key e, e)) l.

Notation collect := (fold_left (λ (acc : result registry_error (list (string * BaselineExclusionEntry))) item,
  byKey ← acc; e ← normalizeBaselineExclusionEntry item; Ok (put byKey (x_key e) e))).

Lemma put_new {A} (o : list (string * A)) k v : k ∉ o.*1 → put o k v = o ++ [(k, v)].
Proof.
  induction o as [|[k' v'] o IH]; [done|]. cbn. intros [Hne Hn]%not_elem_of_cons.
  destruct (String.eqb_spec k' k) as [->|_]; [done|]. by rewrite IH.
Qed.

Lemma put_not_nil {A} (o : list (string * A)) k v : put o k v ≠ [].
Proof. destruct o as [|[k' v'] o]; cbn; [done|]. by destruct (k' =s k). Qed.

Lemma keyed_keys l : (keyed l).*1 = x_key <$> l.
Proof. induction l as [|e l IH]; [done|]. cbn. by rewrite <- IH. Qed.

Lemma collect_fixed l acc : NoDup (acc.*1 ++ (x_key <$> l)) → Forall fixed_entry l →
  collect (map exclusion_json l) (Ok acc) = Ok (acc ++ keyed l).
Proof.
  revert acc. induction l as [|e l IH]; intros acc Hn Hf; [cbn; by rewrite app_nil_r|].
  apply Forall_cons in Hf as [He Hf]. cbn [map fold_left mbind result_bind]. rewrite He. cbn [mbind result_bind].
  cbn [fmap list_fmap] in Hn. rewrite put_new, IH; [by rewrite <- (assoc_L (++))| |done|].
  - rewrite fmap_app, <- (assoc_L (++)). exact Hn.
  - apply NoDup_app in Hn as (_ & Hd & _). intros Hin. apply (Hd _ Hin). by left.
Qed.

Lemma good_normal l : l ≠ [] → good_exclusions l → normalizeBaselineExclusions (JArr (map exclusion_json l)) = Ok (Some l).
Proof.
  intros Hne [Hn Hf]. cbn [normalizeBaselineExclusions]. rewrite (collect_fixed l []) by done. cbn [app].
  assert (E : map snd (keyed l) = l) by (unfold keyed; rewrite map_map; apply map_id).
  cbn. rewrite E. by destruct l.
Qed.

(** What is collected: entries by their key. *)
Definition collected (byKey : list (string * BaselineExclusionEntry)) : Prop :=
  ∃ l, byKey = keyed l ∧ good_exclusions l.

Lemma put_keyed l e : good_exclusions l → fixed_entry e → collected (put (keyed l) (x_key e) e).
Proof.
  intros [Hn Hf] He. induction l as [|x l IH]; cbn [keyed map put].
  - exists [e]. split; [done|]. split; [apply NoDup_singleton|by constructor].
  - cbn [fmap list_fmap] in Hn. apply NoDup_cons in Hn as [Hx Hn]. apply Forall_cons in Hf as [Hfx Hf].
    destruct (String.eqb_spec (x_key x) (x_key e)) as [E|Hne].
    + exists (e :: l). split; [done|]. split; [cbn; rewrite <- E; by constructor|by constructor].
    + destruct (IH Hn Hf) as (l' & El & [Hn' Hf']). fold (keyed l). rewrite El. exists (x :: l'). split; [done|].
      split; [|by constructor]. cbn. constructor; [|done]. rewrite <- keyed_keys, <- El. intros Hin. apply Hx.
      rewrite <- keyed_keys. clear -Hin Hne. revert Hin. induction (keyed l) as [|[k v] o IHo]; cbn.
      * intros ?%list_elem_of_singleton. by destruct Hne.
      * destruct (String.eqb_spec k (x_key e)) as [->|Hk]; cbn; rewrite !elem_of_cons; naive_solver.
Qed.

Lemma collect_good items acc byKey : collected acc → collect items (Ok acc) = Ok byKey → collected byKey.
Proof.
  revert acc. induction items as [|item items IH]; intros acc Ha; cbn [fold_left]; [by intros [= <-]|].
  cbn [mbind result_bind]. destruct (normalizeBaselineExclusionEntry item) as [e|err] eqn:E; cbn [mbind result_bind].
  - apply IH. destruct Ha as (l & -> & Hl). apply put_keyed; [exact Hl|exact (entry_norm_rt item e E)].
  - intros H. exfalso. revert H. clear. induction items; [done|exact IHitems].
Qed.

Lemma exclusions_good v l : normalizeBaselineExclusions v = Ok (Some l) → l ≠ [] ∧ good_exclusions l.
Proof.
  destruct v as [| | | | |items|]; try done. cbn [normalizeBaselineExclusions].
  destruct (collect items (Ok [])) as [byKey|] eqn:E; [|done]. cbn. intros [= H].
  apply collect_good in E as (l' & -> & Hl); [|by exists []; split; [|split; constructor]].
  assert (E : map snd (keyed l') = l') by (unfold keyed; rewrite map_map; apply map_id).
  rewrite E in H. destruct l'; [done|]. by injection H as <-.
Qed.

Lemma transition_norm_rt v t : normalizeBaselineExclusionTransition v = Ok (Some t) →
  normalizeBaselineExclusionTransition (transition_json t) = Ok (Some t).
Proof.
  destruct v as [| | | | | |o]; try done. unfold normalizeBaselineExclusionTransition at 1.
  intros (u1 & Hid%throw_unless_ok & H)%result_bind_ok. apply result_bind_ok in H as (op & Hop%of_option_ok & H).
  apply result_bind_ok in H as (u2 & Hat%throw_unless_ok & H). apply result_bind_ok in H as (x & Hx & H).
  apply result_bind_ok in H as (u3 & Hsrc%throw_unless_ok & H). apply result_bind_ok in H as (u4 & Hlive%throw_unless_ok & H).
  injection H as <-. apply entry_norm_rt in Hx.
  assert (Ht : ∀ j, js_trim (trimmed_or_empty j) = trimmed_or_empty j) by (intros []; [done..|apply js_trim_idem|done|done]).
  assert (Ho : operation_of (JStr (match op with Exclude => "exclude" | RestoreBaseline => "restore" end)) = Some op) by by destruct op.
  unfold transition_json, normalizeBaselineExclusionTransition.
  cbn [t_id t_operation t_exclusion t_targetLiveDigest t_startedAt]. jget_simpl.
  cbn [trimmed_or_empty]. rewrite !Ht, Hid, Ho, Hat, Hx. cbn [throw_unless of_option mbind result_bind].
  rewrite Hsrc. cbn [throw_unless mbind result_bind].
  destruct (jget o "targetLiveDigest"); cbn [jopt trimmed_or_empty] in *; rewrite ?js_trim_idem;
    try change (js_trim "") with ""; destruct op; cbn -[SHA256_PATTERN js_trim] in Hlive |- *; try done; by rewrite js_trim_idem, Hlive.
Qed.

Lemma remove_absent {A} (o : list (string * A)) k : own o k = None → remove o k = o.
Proof.
  unfold remove. induction o as [|[k' v] o IH]; [done|]. cbn. destruct (k' =s k); [done|]. cbn. intros H. by rewrite IH.
Qed.
Lemma remove_put {A} (o : list (string * A)) k v j : j ≠ k → remove (put o k v) j = put (remove o j) k v.
Proof.
  intros Hne. unfold remove. induction o as [|[k' v'] o IH]; cbn.
  - destruct (String.eqb_spec k j); [congruence|done].
  - destruct (String.eqb_spec k' k) as [->|Hk]; cbn.
    + destruct (String.eqb_spec k j); [congruence|]. cbn. by rewrite String.eqb_refl.
    + destruct (String.eqb_spec k' j) as [->|Hj]; cbn; [done|]. apply String.eqb_neq in Hk as ->. congruence.
Qed.

Lemma durable_idem rest : durable (durable rest) = durable rest.
Proof.
  unfold durable at 2 3. set (o := remove (remove (remove rest "recoveredFromGateway") "livePhase") "providerCredentialHashes").
  assert (Ho : remove (remove (remove o "recoveredFromGateway") "livePhase") "providerCredentialHashes" = o).
  { assert (Hn : ∀ k, k ∈ ["recoveredFromGateway"; "livePhase"; "providerCredentialHashes"] → own o k = None).
    { intros k Hk. unfold o. rewrite !own_remove. repeat (apply elem_of_cons in Hk as [->|Hk]; [done|]). by apply elem_of_nil in Hk. }
    rewrite !(remove_absent o); [done|apply Hn; repeat constructor..]. }
  assert (Hkeep : match jget o "dashboardPort" with JNum (NInt 0) => False | _ => True end → durable o = o).
  { unfold durable. rewrite Ho. by destruct (jget o "dashboardPort") as [| | |[[| |]| |]| | |]. }
  assert (Hnull : durable (put o "dashboardPort" JNull) = put o "dashboardPort" JNull).
  { unfold durable. rewrite !remove_put, Ho by done. rewrite jget_own, own_put, decide_True by done. done. }
  destruct (jget o "dashboardPort") as [| | |[[| |]| |]| | |]; first [by apply Hkeep|exact Hnull].
Qed.

Lemma normal_exclusions_idem v l : normalizeBaselineExclusions v = Ok l → normalizeBaselineExclusions (exclusions_json l) = Ok l.
Proof. destruct l as [l|]; [|done]. intros [Hne Hl]%exclusions_good. by apply good_normal. Qed.

Lemma normal_transition_idem v t : normalizeBaselineExclusionTransition v = Ok t →
  normalizeBaselineExclusionTransition (staged_json t) = Ok t.
Proof. destruct t as [t|]; [|done]. apply transition_norm_rt. Qed.

(** A row as it is in the file. *)
Definition fixed_row (e : RegistryRow) : Prop := serializeSandboxEntryForDisk e = Ok e.

Lemma serialized_fixed e e' : serializeSandboxEntryForDisk e = Ok e' →
  fixed_row e' ∧ pendingRouteReservation e' = pendingRouteReservation e ∧ e_name e' = e_name e.
Proof.
  unfold serializeSandboxEntryForDisk at 1. intros (l & Hl & (t & Ht & [= <-])%result_bind_ok)%result_bind_ok.
  split_and!; [|done..]. unfold fixed_row, serializeSandboxEntryForDisk. cbn.
  rewrite (normal_exclusions_idem _ _ Hl). cbn. rewrite (normal_transition_idem _ _ Ht). cbn. by rewrite durable_idem.
Qed.

Definition written (r : SandboxRegistry) : Prop := Forall (λ kv, fixed_row kv.2) (sandboxes r).

Lemma rows_fixed rows : Forall (λ kv, fixed_row kv.2) rows → serialize_rows rows = Ok rows.
Proof. induction 1 as [|[k e] rows He _ IH]; [done|]. cbn in *. rewrite He. cbn. by rewrite IH. Qed.

Lemma rows_written rows rows' : serialize_rows rows = Ok rows' → Forall (λ kv, fixed_row kv.2) rows'.
Proof.
  revert rows'. induction rows as [|[k e] rows IH]; intros rows'; cbn [serialize_rows]; [by intros [= <-]|].
  intros (e' & He & (es & Hes & [= <-])%result_bind_ok)%result_bind_ok. constructor; [|by apply IH].
  by apply serialized_fixed in He as [? _].
Qed.

Lemma put_fixed rows name e : Forall (λ kv, fixed_row kv.2) rows → fixed_row e → Forall (λ kv, fixed_row kv.2) (put rows name e).
Proof.
  intros Hr He. induction Hr as [|[k x] rows Hx Hr IH]; cbn [put]; [by constructor|].
  destruct (k =s name); by constructor.
Qed.

Lemma own_fixed rows name e : Forall (λ kv : string * RegistryRow, fixed_row kv.2) rows → own rows name = Some e → fixed_row e.
Proof.
  induction 1 as [|[k x] rows Hx _ IH]; [done|]. cbn. destruct (k =s name); [by intros [= <-]|done].
Qed.

(** ** Lemmas: the revision counts the moves of the default pointer *)

Definition revision (r : SandboxRegistry) : option Z :=
  match normalizeDefaultSelectionRevision (defaultSelectionRevision r) with Ok z => Some z | Throw _ => None end.

Lemma normalize_inv j z :
  normalizeDefaultSelectionRevision j = Ok z → (0 ≤ z ≤ MAX_SAFE_INTEGER)%Z.
Proof.
  destruct j as [| | |n| | |]; try done; [by intros [= <-]|]. destruct n; try done.
  cbn. unfold throw_unless. destruct (_ && _) eqn:E; [|done]. intros [= <-]. bools. lia.
Qed.

Lemma normalize_int z :
  (0 ≤ z ≤ MAX_SAFE_INTEGER)%Z → normalizeDefaultSelectionRevision (JNum (NInt z)) = Ok z.
Proof.
  intros Hz. cbn. unfold throw_unless. rewrite (proj2 (Z.leb_le _ _)), (proj2 (Z.leb_le _ _)) by lia. done.
Qed.

Lemma increment_inv j z :
  incrementDefaultSelectionRevision j = Ok z → ∃ z0, normalizeDefaultSelectionRevision j = Ok z0
    ∧ z = (z0 + 1)%Z ∧ (0 ≤ z ≤ MAX_SAFE_INTEGER)%Z.
Proof.
  unfold incrementDefaultSelectionRevision. destruct (normalizeDefaultSelectionRevision j) as [z0|] eqn:E; [|done].
  cbn [mbind result_bind]. unfold throw_unless. destruct (negb _) eqn:En; [|done]. intros [= <-].
  exists z0. apply normalize_inv in E. bools. unfold MAX_SAFE_INTEGER in *. split_and!; [done|done|lia|lia].
Qed.

(** The pointer moved only if the revision grew. *)
Definition advances (r r' : SandboxRegistry) : Prop :=
  ∃ z z', revision r = Some z ∧ revision r' = Some z' ∧ (z ≤ z')%Z
          ∧ (z = z' → defaultSandbox r' = defaultSandbox r).

Lemma advances_refl r z : revision r = Some z → advances r r.
Proof. intros H. exists z, z. split_and!; [done..|lia|done]. Qed.
Lemma advances_trans r1 r2 r3 : advances r1 r2 → advances r2 r3 → advances r1 r3.
Proof.
  intros (z1 & z2 & H1 & H2 & H3 & H4) (z2' & z3 & H5 & H6 & H7 & H8). rewrite H2 in H5.
  injection H5 as <-. exists z1, z3. split_and!; [done..|lia|]. intros E. rewrite H8, H4; [done|lia..].
Qed.
Lemma advances_rows r r' :
  defaultSelectionRevision r' = defaultSelectionRevision r → defaultSandbox r' = defaultSandbox r →
  is_Some (revision r) → advances r r'.
Proof.
  intros Hr Hd [z Hz]. exists z, z. unfold revision in *. rewrite Hr. split_and!; [done..|lia|done].
Qed.

Lemma revision_with_default r d z : (0 ≤ z ≤ MAX_SAFE_INTEGER)%Z → revision (with_default r d z) = Some z.
Proof.
  intros H. unfold revision. change (defaultSelectionRevision (with_default r d z)) with (JNum (NInt z)).
  by rewrite normalize_int.
Qed.

(** The pointer names a row that may be the default. *)
Definition retained (r : SandboxRegistry) : Prop :=
  retainedDefaultSandbox (defaultSandbox r) (sandboxes r) = defaultSandbox r.

Lemma retained_idem d rows :
  retainedDefaultSandbox (retainedDefaultSandbox d rows) rows = retainedDefaultSandbox d rows.
Proof.
  unfold retainedDefaultSandbox. destruct d as [name|]; [|done]. cbn [mbind option_bind].
  destruct (own rows name) as [e|] eqn:E; [|done]. cbn [mbind option_bind].
  destruct (pendingRouteReservation e) eqn:Ep; [done|]. cbn [mbind option_bind]. rewrite E. cbn. by rewrite Ep.
Qed.

Lemma save_spec r r' :
  save r = Ok r' →
  written r' ∧ retained r' ∧ advances r r'
  ∧ defaultSandbox r' = retainedDefaultSandbox (defaultSandbox r) (sandboxes r').
Proof.
  unfold save, retained. intros (rows & Hrows%rows_written & H)%result_bind_ok. revert H.
  destruct (normalizeDefaultSelectionRevision _) as [z|] eqn:Ez; [|done].
  cbn [mbind result_bind]. pose proof (normalize_inv _ _ Ez) as Hz.
  destruct (bool_decide _) eqn:Ed; bools; cbn [mbind result_bind].
  - intros [= <-]. split_and!; [exact Hrows|exact (retained_idem _ _)| |done]. exists z, z.
    split_and!; [unfold revision; by rewrite Ez|by apply revision_with_default|lia|done].
  - destruct (incrementDefaultSelectionRevision _) as [z'|] eqn:Ei; [|done]. cbn [mbind result_bind].
    apply increment_inv in Ei as (z0 & E0 & -> & Hz'). rewrite (normalize_int z Hz) in E0. injection E0 as <-.
    intros [= <-]. split_and!; [exact Hrows|exact (retained_idem _ _)| |done]. exists z, (z + 1)%Z.
    split_and!; [unfold revision; by rewrite Ez|by apply revision_with_default|lia|lia].
Qed.

(** What an operation may do to the file. *)
Definition file_step (r r' : SandboxRegistry) : Prop := r' = r ∨ (retained r' ∧ advances r r' ∧ written r').

Lemma saved_step {A} (a a' : A) r r0 r' :
  advances r r0 → saved a r0 = Ok (a', r') → file_step r r'.
Proof.
  intros Ha. unfold saved. destruct (save r0) as [r1|] eqn:E; [|done]. cbn [mbind result_bind].
  intros [= _ <-]. apply save_spec in E as (Hw & Hr & Hs & _). right. split_and!; [done|by eapply advances_trans|done].
Qed.

(** An increment moves on from any state with the same revision. *)
Lemma increment_advances r r0 d z :
  defaultSelectionRevision r0 = defaultSelectionRevision r →
  incrementDefaultSelectionRevision (defaultSelectionRevision r0) = Ok z → advances r (with_default r0 d z).
Proof.
  intros Hr H. apply increment_inv in H as (z0 & E0 & -> & Hz). exists z0, (z0 + 1)%Z. unfold revision at 1.
  rewrite <- Hr, E0. split_and!; [done|by apply revision_with_default|lia|lia].
Qed.

Lemma normalize_advances r r0 z :
  defaultSelectionRevision r0 = defaultSelectionRevision r →
  normalizeDefaultSelectionRevision (defaultSelectionRevision r0) = Ok z →
  advances r (with_default r0 (defaultSandbox r) z).
Proof.
  intros Hr H. exists z, z. unfold revision at 1. rewrite <- Hr, H. pose proof (normalize_inv _ _ H).
  split_and!; [done|by apply revision_with_default|lia|done].
Qed.

(** ** Operations as steps *)

Inductive RegistryOp : Type :=
| OpRegister (row : RegistryRow)
| OpReserve (name : string) (session : option string) (route : list (string * json))
| OpUpdate (name : string) (updates : RowUpdates)
| OpRemove (name : string)
| OpRestore (entry : RegistryRow) (transition : option RegistryDefaultTransition)
| OpRestoreIfMissing (receipt : RegistryRemovalReceipt)
| OpSetDefault (name : string)
| OpClearAll
| OpAddProvider (name : string) | OpRemoveProvider (name : string)
| OpAddPolicy (name : string) (entry : CustomPolicyEntry) (now_ : string)
| OpRemovePolicy (name presetName : string)
| OpAddExclusion (name : string) (entry : BaselineExclusionEntry) (now_ : string)
| OpRemoveExclusion (name key : string)
| OpBegin (name : string) (t : BaselineExclusionTransition)
| OpCommit (name id now_ : string)
| OpClearTransition (name id : string).

Section Steps.
Context (inherited : string → option RegistryRow).

(** An operation that throws leaves the file. *)
Definition after {A} (op : RegistryOperation A) (r : SandboxRegistry) : SandboxRegistry :=
  match op r with Ok (_, r') => r' | Throw _ => r end.

Definition run_registry_op (op : RegistryOp) : SandboxRegistry → SandboxRegistry :=
  match op with
  | OpRegister row => after (registerSandbox row)
  | OpReserve name session route => after (reserveSandboxInferenceRoute inherited name session route)
  | OpUpdate name u => after (updateSandbox inherited name u)
  | OpRemove name => after (removeSandboxWithReceipt inherited name)
  | OpRestore entry t => after (restoreSandboxEntry inherited entry t)
  | OpRestoreIfMissing rc => after (restoreSandboxEntryIfMissing inherited rc)
  | OpSetDefault name => after (setDefault inherited name)
  | OpClearAll => after clearAll
  | OpAddProvider name => after (addExtraProvider name)
  | OpRemoveProvider name => after (removeExtraProvider name)
  | OpAddPolicy name e now_ => after (addCustomPolicy inherited name e now_)
  | OpRemovePolicy name p => after (removeCustomPolicyByName inherited name p)
  | OpAddExclusion name e now_ => after (addBaselineExclusion inherited name e now_)
  | OpRemoveExclusion name k => after (removeBaselineExclusion inherited name k)
  | OpBegin name t => after (beginBaselineExclusionTransition inherited name t)
  | OpCommit name id now_ => after (commitBaselineExclusionTransition inherited name id now_)
  | OpClearTransition name id => after (clearBaselineExclusionTransition inherited name id)
  end.

Lemma after_step {A} (op : RegistryOperation A) r :
  (∀ a r', op r = Ok (a, r') → file_step r r') → file_step r (after op r).
Proof. intros H. unfold after. destruct (op r) as [[a r']|]; [by eapply H|by left]. Qed.

Lemma change_row_step name f r a r' :
  is_Some (revision r) → change_row inherited name f r = Ok (a, r') → file_step r r'.
Proof.
  intros Hr. unfold change_row. destruct (row_at _ _ _) as [row|]; [|intros [= _ <-]; by left].
  destruct (f row) as [[row'|]|]; [| |done]; cbn [mbind result_bind]; [|intros [= _ <-]; by left].
  destruct (own _ name); intros H; (eapply saved_step; [|exact H]); by apply advances_rows.
Qed.

Lemma register_step row r a r' :
  is_Some (revision r) → registerSandbox row r = Ok (a, r') → file_step r r'.
Proof.
  intros Hr. unfold registerSandbox, claimInitialDefaultInRegistry.
  match goal with |- context [truthy_opt (defaultSandbox ?x)] => set (r0 := x) end.
  assert (Er : defaultSelectionRevision r0 = defaultSelectionRevision r) by done.
  destruct (truthy_opt (defaultSandbox r0)) eqn:Et.
  - cbn [mbind result_bind]. intros H. eapply saved_step; [|exact H]. apply advances_rows; [done| |done].
    unfold r0 in *. cbn in *. by destruct (retainedDefaultSandbox _ _).
  - destruct (incrementDefaultSelectionRevision _) as [z|] eqn:Ei; [|done]. cbn [mbind result_bind].
    intros H. eapply saved_step; [|exact H]. by apply increment_advances.
Qed.

Lemma remove_step name r a r' :
  is_Some (revision r) → removeSandboxWithReceipt inherited name r = Ok (a, r') → file_step r r'.
Proof.
  intros Hr. unfold removeSandboxWithReceipt, removeSandboxFromRegistry.
  destruct (row_at _ _ _) as [e|]; [|cbn; intros [= _ <-]; by left].
  destruct (bool_decide _) eqn:Ed; bools.
  - destruct (incrementDefaultSelectionRevision _) as [z|] eqn:Ei; [|done]. cbn [mbind result_bind snd fst].
    intros H. eapply saved_step; [|exact H]. by apply increment_advances.
  - destruct (normalizeDefaultSelectionRevision _) as [z|] eqn:Ei; [|done]. cbn [mbind result_bind snd fst].
    intros H. eapply saved_step; [|exact H]. by apply (normalize_advances r (r <| sandboxes := remove (sandboxes r) name |>)).
Qed.

Lemma restore_step entry t r a r' :
  is_Some (revision r) → restoreSandboxEntry inherited entry t r = Ok (a, r') → file_step r r'.
Proof.
  intros Hr. unfold restoreSandboxEntry, restoreSandboxEntryInRegistry.
  assert (Hk : ∀ (a' : unit) r1, saved a' (r <| sandboxes := put (sandboxes r) (e_name entry) entry |>) = Ok (a, r1) →
    file_step r r1) by (intros a' r1 H; eapply saved_step; [|exact H]; by apply advances_rows).
  destruct t as [t|]; [|cbn [mbind result_bind]; apply Hk].
  destruct (negb (bool_decide _)); [cbn [mbind result_bind]; apply Hk|].
  destruct (normalizeDefaultSelectionRevision _) as [z|] eqn:En; [|done]. cbn [mbind result_bind].
  destruct (_ || _); [cbn [mbind result_bind]; apply Hk|].
  destruct (incrementDefaultSelectionRevision _) as [z'|] eqn:Ei; [|done]. cbn [mbind result_bind].
  intros H. eapply saved_step; [|exact H]. by apply increment_advances.
Qed.

Lemma restore_missing_step rc r a r' :
  is_Some (revision r) → restoreSandboxEntryIfMissing inherited rc r = Ok (a, r') → file_step r r'.
Proof.
  intros Hr. unfold restoreSandboxEntryIfMissing, restoreSandboxIfMissingInRegistry.
  destruct (present _ _ _); [cbn; intros [= _ <-]; by left|].
  destruct (normalizeDefaultSelectionRevision _) as [z|] eqn:En; [|done]. cbn [mbind result_bind].
  match goal with |- context [bool_decide (?x = defaultSandbox r)] => set (d := x) end.
  destruct (bool_decide (d = defaultSandbox r)) eqn:Ed; bools; cbn [mbind result_bind fst snd].
  - intros H. eapply saved_step; [|exact H]. rewrite Ed.
    by apply (normalize_advances r (r <| sandboxes := put (sandboxes r) (e_name (rc_entry rc)) (rc_entry rc) |>)).
  - destruct (incrementDefaultSelectionRevision _) as [z'|] eqn:Ei; [|done]. cbn [mbind result_bind fst snd].
    intros H. eapply saved_step; [|exact H]. by apply increment_advances.
Qed.

Lemma set_default_step name r a r' :
  is_Some (revision r) → setDefault inherited name r = Ok (a, r') → file_step r r'.
Proof.
  intros Hr. unfold setDefault, setDefaultInRegistry.
  destruct (from_option _ _ _); [intros [= _ <-]; by left|].
  destruct (present _ _ _); [|cbn; intros [= _ <-]; by left].
  destruct (incrementDefaultSelectionRevision _) as [z|] eqn:Ei; [|done]. cbn [mbind result_bind].
  intros H. eapply saved_step; [|exact H]. by apply increment_advances.
Qed.

Lemma clear_step r a r' : is_Some (revision r) → clearAll r = Ok (a, r') → file_step r r'.
Proof.
  intros Hr. unfold clearAll, clearRegistry. destruct (defaultSandbox r) as [d|] eqn:Ed.
  - destruct (incrementDefaultSelectionRevision _) as [z|] eqn:Ei; [|done]. cbn [mbind result_bind].
    intros H. eapply saved_step; [|exact H].
    by apply (increment_advances r (mkRegistry [] None (defaultSelectionRevision r) None)).
  - destruct (normalizeDefaultSelectionRevision _) as [z|] eqn:Ei; [|done]. cbn [mbind result_bind].
    intros H. eapply saved_step; [|exact H].
    pose proof (normalize_advances r (mkRegistry [] None (defaultSelectionRevision r) None) z eq_refl Ei) as Hn.
    by rewrite Ed in Hn.
Qed.

Lemma op_step op r : is_Some (revision r) → file_step r (run_registry_op op r).
Proof.
  intros Hr. destruct op; cbn [run_registry_op]; apply after_step; intros a r';
    try (by apply change_row_step).
  - by apply register_step.
  - unfold reserveSandboxInferenceRoute. destruct (own _ name), (inherited name); intros H;
      (eapply saved_step; [|exact H]); by apply advances_rows.
  - by apply remove_step.
  - by apply restore_step.
  - by apply restore_missing_step.
  - by apply set_default_step.
  - by apply clear_step.
  - unfold addExtraProvider, applyAddExtraProvider. destruct (negb _); [intros [= _ <-]; by left|].
    cbn [orb]. destruct (includes _ _); [intros [= _ <-]; by left|].
    intros H. eapply saved_step; [|exact H]. by apply advances_rows.
  - unfold removeExtraProvider, applyRemoveExtraProvider. destruct (negb _); [intros [= _ <-]; by left|].
    intros H. eapply saved_step; [|exact H]. by apply advances_rows.
Qed.
End Steps.

(** ** Removal and restoration *)

Lemma serialize_put rows name e : Forall (λ kv, fixed_row kv.2) rows →
  serialize_rows (put rows name e) = (e' ← serializeSandboxEntryForDisk e; Ok (put rows name e')).
Proof.
  induction 1 as [|[k x] rows Hx Hr IH]; [done|]. cbn [put]. cbn in Hx. destruct (k =s name).
  - cbn [serialize_rows]. by rewrite (rows_fixed rows Hr).
  - cbn [serialize_rows]. rewrite Hx. cbn [mbind result_bind]. rewrite IH. by destruct (serializeSandboxEntryForDisk e).
Qed.

Lemma save_serialized r rows z :
  serialize_rows (sandboxes r) = Ok rows → revision r = Some z →
  retainedDefaultSandbox (defaultSandbox r) rows = defaultSandbox r →
  save r = Ok (with_default (r <| sandboxes := rows |> <| extraProviders := normalizeExtraProviders (extraProviders r) |>)
                 (defaultSandbox r) z).
Proof.
  intros Hs Hz Hr. unfold save, revision in *. rewrite Hs. cbn [mbind result_bind]. rewrite Hr.
  destruct (normalizeDefaultSelectionRevision _); [|done]. injection Hz as ->. cbn [mbind result_bind].
  by rewrite bool_decide_eq_true_2.
Qed.

Lemma ops_step inherited ops r :
  is_Some (revision r) → retained r → written r →
  let r' := fold_left (λ r op, run_registry_op inherited op r) ops r in retained r' ∧ advances r r' ∧ written r'.
Proof.
  revert r. induction ops as [|op ops IH]; intros r Hz Hr Hw; cbn [fold_left].
  - destruct Hz as [z Hz]. split_and!; [done|by apply (advances_refl _ z)|done].
  - destruct (op_step inherited op r Hz) as [E|(Hr' & Ha & Hw')]; [rewrite E; by apply IH|].
    destruct (IH (run_registry_op inherited op r)) as (Hr2 & Ha2 & Hw2); [destruct Ha as (? & z & _ & H & _); by exists z|done..|].
    split_and!; [done|by eapply advances_trans|done].
Qed.

Lemma retained_some d rows e :
  own rows d = Some e → pendingRouteReservation e = false → retainedDefaultSandbox (Some d) rows = Some d.
Proof. intros H Hp. unfold retainedDefaultSandbox. cbn. rewrite H. cbn. by rewrite Hp. Qed.
Lemma retained_inv d rows :
  retainedDefaultSandbox (Some d) rows = Some d →
  ∃ e, own rows d = Some e ∧ pendingRouteReservation e = false.
Proof.
  unfold retainedDefaultSandbox. cbn. destruct (own rows d) as [e|]; [|done]. cbn.
  destruct (pendingRouteReservation e) eqn:E; [done|]. intros _. by exists e.
Qed.

Lemma save_pointer r r' :
  save r = Ok r' → revision r' = revision r ∨ defaultSandbox r' = None.
Proof.
  unfold save. intros (rows & _ & H)%result_bind_ok. revert H.
  destruct (normalizeDefaultSelectionRevision _) as [z|] eqn:Ez; [|done]. cbn [mbind result_bind].
  destruct (bool_decide _) eqn:Ed; bools; cbn [mbind result_bind].
  - intros [= <-]. left. rewrite revision_with_default by by eapply normalize_inv. unfold revision. by rewrite Ez.
  - intros (z' & _ & [= <-])%result_bind_ok. right. revert Ed. cbn [defaultSandbox with_default]. unfold retainedDefaultSandbox.
    destruct (defaultSandbox r) as [d|]; [|done]. cbn [mbind option_bind].
    destruct (own _ d) as [e|]; [|done]. cbn [mbind option_bind]. by destruct (pendingRouteReservation e).
Qed.

(** What a removal leaves: the receipt, and the saved pointer with its revision. *)
Lemma remove_spec inherited name e r receipt r1 :
  own (sandboxes r) name = Some e → removeSandboxWithReceipt inherited name r = Ok (Some receipt, r1) →
  rc_entry receipt = e ∧ wasDefault receipt = bool_decide (defaultSandbox r = Some name) ∧ retained r1 ∧ written r1
  ∧ ∃ z1, revision r1 = Some z1 ∧ (postRemovalDefaultSelectionRevision receipt ≤ z1)%Z
    ∧ (wasDefault receipt = true →
         defaultSandbox r1 = (if (z1 =? postRemovalDefaultSelectionRevision receipt)%Z
                              then fallbackDefault receipt else None)).
Proof.
  intros Ho. unfold removeSandboxWithReceipt, removeSandboxFromRegistry, row_at. rewrite Ho.
  set (was := bool_decide (defaultSandbox r = Some name)).
  destruct (if was then incrementDefaultSelectionRevision _ else _) as [z|] eqn:Ez; [|done]. cbn [mbind result_bind fst snd]. unfold saved.
  match goal with |- context [save ?x] => set (r0 := x) end. destruct (save r0) as [r1'|] eqn:Es; [|done].
  cbn [mbind result_bind]. intros [= <- <-].
  assert (revision r0 = Some z) as H0.
  { apply revision_with_default. destruct was; [by apply increment_inv in Ez as (? & _ & _ & ?)|by apply normalize_inv in Ez]. }
  pose proof (save_pointer _ _ Es) as Hp. apply save_spec in Es as (Hwr & Hr & (z0 & z1 & H0' & H1 & Hle & Heq) & Hd).
  rewrite H0 in H0'. injection H0' as <-. split_and!; [done..|]. exists z1. split_and!; [done..|].
  cbn [wasDefault fallbackDefault postRemovalDefaultSelectionRevision]. intros Hw.
  destruct (Z.eqb_spec z1 z) as [->|Hne].
  - rewrite (Heq eq_refl). unfold r0. by rewrite Hw.
  - destruct Hp as [Hp|Hp]; [|done]. rewrite H1, H0 in Hp. by injection Hp.
Qed.

(** The pointer a restoration leaves. *)
Definition restored_default (name : string) (rc : RegistryRemovalReceipt) (z : Z) (r : SandboxRegistry)
    : option string :=
  if wasDefault rc && bool_decide (defaultSandbox r = fallbackDefault rc)
     && (z =? postRemovalDefaultSelectionRevision rc)%Z
  then Some name else Some (default name (defaultSandbox r)).

Lemma restore_missing_spec inherited name rc r z :
  revision r = Some z → retained r → own (sandboxes r) name = None → inherited name = None →
  e_name (rc_entry rc) = name → pendingRouteReservation (rc_entry rc) = false → written r →
  let d := restored_default name rc z r in
  let put_back z := e ← serializeSandboxEntryForDisk (rc_entry rc);
    Ok (true, with_default (r <| sandboxes := put (sandboxes r) name e |>
                              <| extraProviders := normalizeExtraProviders (extraProviders r) |>) d z) in
  restoreSandboxEntryIfMissing inherited rc r =
    if bool_decide (d = defaultSandbox r) then put_back z
    else if (z =? MAX_SAFE_INTEGER)%Z then Throw RevisionExhausted else put_back (z + 1)%Z.
Proof.
  intros Hz Hr Ho Hi Hn Hp Hwr d put_back.
  assert (Hvalid : ∀ x d0, pendingRouteReservation x = false → defaultSandbox r = Some d0 →
    ∃ e, own (put (sandboxes r) name x) d0 = Some e ∧ pendingRouteReservation e = false).
  { intros x d0 Hx E. pose proof Hr as Hr'. unfold retained in Hr'. rewrite E in Hr'.
    apply retained_inv in Hr' as (e0 & He & Hpe). exists e0. split; [|done]. rewrite own_put.
    case_decide; [subst; congruence|done]. }
  assert (Hd : ∀ x, pendingRouteReservation x = false → retainedDefaultSandbox d (put (sandboxes r) name x) = d).
  { intros x Hx. assert (Hrow : own (put (sandboxes r) name x) name = Some x) by (by rewrite own_put, decide_True).
    unfold d, restored_default. destruct (_ && _); [by eapply retained_some|].
    destruct (defaultSandbox r) as [d0|]; cbn [default]; [|by eapply retained_some].
    destruct (Hvalid x d0 Hx eq_refl) as (e0 & ? & ?). by eapply retained_some. }
  unfold restoreSandboxEntryIfMissing, restoreSandboxIfMissingInRegistry, present at 1, row_at. rewrite Hn, Ho, Hi.
  rewrite bool_decide_eq_false_2 by (by intros []). pose proof Hz as Hz'. unfold revision in Hz'.
  destruct (normalizeDefaultSelectionRevision _) as [z0|] eqn:En; [|done]. injection Hz' as ->. cbn [mbind result_bind].
  match goal with |- context [bool_decide (?x = defaultSandbox r)] => assert (x = d) as -> end.
  { unfold d, restored_default. destruct (_ && _); [done|].
    destruct (defaultSandbox r) as [d0|] eqn:E; [|done]. destruct (Hvalid (rc_entry rc) d0 Hp eq_refl) as (e0 & H & _).
    unfold present, row_at. rewrite H. by rewrite bool_decide_eq_true_2. }
  pose proof (normalize_inv _ _ En) as Hb.
  assert (Hs : ∀ z, (0 ≤ z ≤ MAX_SAFE_INTEGER)%Z →
    saved true (with_default (r <| sandboxes := put (sandboxes r) name (rc_entry rc) |>) d z) = put_back z).
  { intros z1 Hz1. unfold saved, put_back. pose proof (serialize_put _ name (rc_entry rc) Hwr) as Hser.
    destruct (serializeSandboxEntryForDisk (rc_entry rc)) as [x|err] eqn:Ex; cbn [mbind result_bind] in Hser |- *.
    - destruct (serialized_fixed _ _ Ex) as (_ & Hpx & _). rewrite Hp in Hpx.
      rewrite (save_serialized _ (put (sandboxes r) name x) z1); [done|exact Hser|by apply revision_with_default|by apply Hd].
    - unfold save.
      match goal with |- context [serialize_rows ?rows] => change rows with (put (sandboxes r) name (rc_entry rc)) end.
      by rewrite Hser. }
  destruct (bool_decide (d = defaultSandbox r)) eqn:Ed; cbn [mbind result_bind fst snd]; [by apply Hs|].
  unfold incrementDefaultSelectionRevision. rewrite En. cbn [mbind result_bind]. unfold throw_unless.
  destruct (Z.eqb_spec z MAX_SAFE_INTEGER); cbn [negb mbind result_bind fst snd]; [done|]. apply Hs. lia.
Qed.

(** C13: Removing a sandbox and restoring it from the receipt, with any registry operations
    in between.  A row registered meanwhile under the name wins and nothing is written.
    Otherwise the removed row is back exactly, in the form in which a save writes it, every
    other row is as it was, and the default pointer goes back to the sandbox when it was the
    default and no operation moved the pointer since the removal; a pointer another operation
    set is kept, and an empty one goes to the restored sandbox.  The only failures are a
    revision counter at its bound and a row that no save would write. *)
Theorem default_restored_by_revision inherited name e ops r receipt r1 :
  is_Some (revision r) → own (sandboxes r) name = Some e → e_name e = name →
  pendingRouteReservation e = false → inherited name = None →
  removeSandboxWithReceipt inherited name r = Ok (Some receipt, r1) →
  let r2 := fold_left (λ r op, run_registry_op inherited op r) ops r1 in
  match restoreSandboxEntryIfMissing inherited receipt r2 with
  | Throw err =>
      err = RevisionExhausted ∧ revision r2 = Some MAX_SAFE_INTEGER ∨ serializeSandboxEntryForDisk e = Throw err
  | Ok (restored, r3) =>
      match own (sandboxes r2) name with
      | Some _ => restored = false ∧ r3 = r2
      | None =>
          restored = true
          ∧ (∃ e', serializeSandboxEntryForDisk e = Ok e'
               ∧ ∀ k, own (sandboxes r3) k = if decide (name = k) then Some e' else own (sandboxes r2) k)
          ∧ defaultSandbox r3 =
              if decide (defaultSandbox r = Some name ∧ revision r2 = revision r1) then Some name
              else Some (default name (defaultSandbox r2))
      end
  end.
Proof.
  intros Hz Ho Hn Hp Hi Hrm r2. destruct (remove_spec _ _ _ _ _ _ Ho Hrm) as (He & Hw & Hr1 & Hwr1 & z1 & Hz1 & Hle & Hd1).
  destruct (ops_step inherited ops r1) as (Hr2 & (z1' & z2 & E1 & Hz2 & Hle2 & Heq) & Hwr2); [by exists z1|done..|].
  fold r2 in Hr2, Hz2, Heq. rewrite Hz1 in E1. injection E1 as <-.
  destruct (own (sandboxes r2) name) as [e'|] eqn:Eo.
  { unfold restoreSandboxEntryIfMissing, restoreSandboxIfMissingInRegistry, present, row_at. rewrite He, Hn, Eo.
    by rewrite bool_decide_eq_true_2. }
  rewrite (restore_missing_spec inherited name receipt r2 z2) by (rewrite ?He; done).
  assert (Hd : restored_default name receipt z2 r2 =
      if decide (defaultSandbox r = Some name ∧ revision r2 = revision r1) then Some name
      else Some (default name (defaultSandbox r2))).
  { unfold restored_default. rewrite Hz2, Hz1, Hw. destruct (bool_decide (defaultSandbox r = Some name)) eqn:Ew; bools;
      cbn [andb]; [|rewrite decide_False by tauto; done].
    specialize (Hd1 Hw). destruct (Z.eqb_spec z2 (postRemovalDefaultSelectionRevision receipt)) as [->|Hne].
    - assert (z1 = postRemovalDefaultSelectionRevision receipt) as -> by lia. rewrite Z.eqb_refl in Hd1.
      rewrite (Heq eq_refl), Hd1, bool_decide_eq_true_2 by done. by rewrite decide_True.
    - rewrite andb_false_r. case_decide as Hc; [|done]. destruct Hc as [_ Hc]. injection Hc as ->.
      rewrite (Heq eq_refl), Hd1. by destruct (Z.eqb_spec z1 (postRemovalDefaultSelectionRevision receipt)). }
  rewrite He. rewrite <- Hd. destruct (bool_decide (restored_default _ _ _ _ = _)); [|destruct (Z.eqb_spec z2 MAX_SAFE_INTEGER)].
  2: { left. by rewrite Hz2; subst. }
  all: destruct (serializeSandboxEntryForDisk e) as [e'|err]; cbn [mbind result_bind]; [|by right].
  all: split; [done|split; [exists e'; split; [done|]; intros k; apply own_put|done]].
Qed.

(** ** The baseline journal of a row, abstractly

    The exclusions committed for a sandbox as a map by policy key, and the one staged
    transition. *)

Record Journal := mkJournal {
  committed : gmap string BaselineExclusionEntry;
  staged : option BaselineExclusionTransition;
}.

Inductive JournalEvent : Type :=
| JAdd (entry : BaselineExclusionEntry) (now_ : string)
| JRemove (key : string)
| JBegin (t : BaselineExclusionTransition)
| JCommit (id now_ : string)
| JClear (id : string).

(** [None]: refused. An entry is committed as it is normalised, with the time. *)
Definition journal_step (j : Journal) (ev : JournalEvent) : result registry_error (option Journal) :=
  match ev, staged j with
  | JAdd x now_, None =>
      n ← normalizeBaselineExclusionEntry (exclusion_json (acknowledged now_ x));
      Ok (Some (mkJournal (<[x_key n := n]> (committed j)) None))
  | JRemove key, None =>
      Ok (_ ← committed j !! key; Some (mkJournal (delete key (committed j)) None))
  | JBegin t, None =>
      n ← normalizeBaselineExclusionTransition (transition_json t); Ok (Some (mkJournal (committed j) n))
  | JCommit id now_, Some t =>
      if decide (t_id t = id) then
        let x := t_exclusion t in
        match t_operation t with
        | Exclude =>
            n ← normalizeBaselineExclusionEntry (exclusion_json (acknowledged now_ x));
            Ok (Some (mkJournal (<[x_key n := n]> (committed j)) None))
        | RestoreBaseline =>
            Ok (if decide (committed j !! x_key x = Some x)
                then Some (mkJournal (delete (x_key x) (committed j)) None) else None)
        end
      else Ok None
  | JClear id, Some t => Ok (if decide (t_id t = id) then Some (mkJournal (committed j) None) else None)
  | _, _ => Ok None
  end.

Definition journal_of (row : RegistryRow) : Journal :=
  mkJournal (list_to_map ((λ e, (x_key e, e)) <$> exclusions row)) (baselineExclusionTransition row).

Definition journal_operation (inherited : string → option RegistryRow) (name : string) (ev : JournalEvent)
    : RegistryOperation bool :=
  match ev with
  | JAdd x now_ => addBaselineExclusion inherited name x now_
  | JRemove key => removeBaselineExclusion inherited name key
  | JBegin t => beginBaselineExclusionTransition inherited name t
  | JCommit id now_ => commitBaselineExclusionTransition inherited name id now_
  | JClear id => clearBaselineExclusionTransition inherited name id
  end.
Definition journal_change (ev : JournalEvent) : RegistryRow → result registry_error (option RegistryRow) :=
  match ev with
  | JAdd x now_ => add_exclusion x now_
  | JRemove key => remove_exclusion key
  | JBegin t => begin_transition t
  | JCommit id now_ => commit_transition id now_
  | JClear id => clear_transition id
  end.

Lemma by_key_lookup (l : list BaselineExclusionEntry) k :
  (list_to_map ((λ e, (x_key e, e)) <$> l) : gmap string _) !! k = List.find (λ e, x_key e =s k) l.
Proof.
  induction l as [|x l IH]; [done|]. cbn. destruct (String.eqb_spec (x_key x) k) as [->|Hne].
  - by rewrite lookup_insert_eq.
  - by rewrite lookup_insert_ne.
Qed.

Lemma find_without key l k :
  List.find (λ e, x_key e =s k) (without_key key l)
  = if decide (key = k) then None else List.find (λ e, x_key e =s k) l.
Proof.
  unfold without_key. induction l as [|x l IH]; cbn [List.filter List.find].
  - by case_decide.
  - destruct (String.eqb_spec (x_key x) key) as [<-|Hne]; cbn [negb].
    + rewrite IH. case_decide as E; [done|]. by destruct (String.eqb_spec (x_key x) k).
    + cbn [List.find]. destruct (String.eqb_spec (x_key x) k) as [<-|]; [by rewrite decide_False|done].
Qed.

Lemma find_snoc {A} (f : A → bool) l x :
  List.find f (l ++ [x]) = match List.find f l with Some y => Some y | None => if f x then Some x else None end.
Proof. induction l as [|y l IH]; cbn; [done|]. by destruct (f y). Qed.

Lemma by_key_delete key (l : list BaselineExclusionEntry) :
  (list_to_map ((λ e, (x_key e, e)) <$> without_key key l) : gmap string _)
  = delete key (list_to_map ((λ e, (x_key e, e)) <$> l)).
Proof.
  apply map_eq. intros k. rewrite by_key_lookup, find_without. case_decide as E.
  - by rewrite E, lookup_delete_eq.
  - by rewrite lookup_delete_ne, by_key_lookup.
Qed.

Lemma without_length key l :
  (List.length (without_key key l) =? List.length l)%nat = bool_decide (List.find (λ e, x_key e =s key) l = None).
Proof.
  unfold without_key. induction l as [|x l IH]; cbn; [done|].
  destruct (x_key x =s key); cbn; [|by rewrite <- IH].
  replace (bool_decide (Some x = None)) with false by (symmetry; by apply bool_decide_eq_false_2).
  apply Nat.eqb_neq. pose proof (List.filter_length_le (λ e, negb (x_key e =s key)) l). lia.
Qed.

Lemma default_none_if_empty {A} (l : list A) : default [] (none_if_empty l) = l.
Proof. by destruct l. Qed.

(** What a normalised entry is keyed by. *)
Lemma entry_json_key x e : normalizeBaselineExclusionEntry (exclusion_json x) = Ok e → x_key e = js_trim (x_key x).
Proof.
  destruct x as [agent key digest [ack|] v]; unfold exclusion_json, normalizeBaselineExclusionEntry;
    cbn -[js_trim BASELINE_TRANSITION_KEY_PATTERN SHA256_PATTERN isCanonicalIso]; intros H; res_inv H.
  all: by subst e.
Qed.

Lemma list_to_map_put (o : list (string * BaselineExclusionEntry)) k v :
  (list_to_map (put o k v) : gmap string _) = <[k := v]> (list_to_map o).
Proof.
  induction o as [|[k' v'] o IH]; [done|]. cbn [put]. destruct (String.eqb_spec k' k) as [->|Hne]; cbn.
  - by rewrite insert_insert_eq.
  - by rewrite IH, insert_insert_ne.
Qed.

Lemma good_without key l : good_exclusions l → good_exclusions (without_key key l).
Proof.
  unfold without_key. intros [Hn Hf]. induction l as [|e l IH]; [done|]. cbn in Hn. apply NoDup_cons in Hn as [He Hn].
  apply Forall_cons in Hf as [Hfe Hf]. destruct (IH Hn Hf) as [Hn' Hf']. cbn [List.filter].
  destruct (negb (x_key e =s key)); [|done]. split; [|by constructor]. cbn. constructor; [|done].
  intros Hin. apply He. apply list_elem_of_fmap in Hin as (e' & -> & [Hin _]%list_elem_of_In%filter_In).
  by apply list_elem_of_fmap_2, list_elem_of_In.
Qed.

Lemma none_if_empty_normal l : good_exclusions l →
  normalizeBaselineExclusions (exclusions_json (none_if_empty l)) = Ok (none_if_empty l).
Proof. intros Hg. destruct l as [|e l]; [done|]. by apply good_normal. Qed.

(** A fixed row, and what becomes of its new exclusions and transition. *)
Lemma serialize_with row X T : fixed_row row →
  serializeSandboxEntryForDisk (row <| baselineExclusions := X |> <| baselineExclusionTransition := T |>)
  = (X' ← normalizeBaselineExclusions (exclusions_json X); T' ← normalizeBaselineExclusionTransition (staged_json T);
     Ok (row <| baselineExclusions := X' |> <| baselineExclusionTransition := T' |>)).
Proof.
  intros H. unfold fixed_row, serializeSandboxEntryForDisk in H.
  apply result_bind_ok in H as (l & _ & H). apply result_bind_ok in H as (t & _ & H). injection H as H.
  assert (Hd : durable (e_rest row) = e_rest row) by (rewrite <- H at 2; done).
  unfold serializeSandboxEntryForDisk.
  change (baselineExclusions (row <| baselineExclusions := X |> <| baselineExclusionTransition := T |>)) with X.
  change (baselineExclusionTransition (row <| baselineExclusions := X |> <| baselineExclusionTransition := T |>)) with T.
  change (e_rest (row <| baselineExclusions := X |> <| baselineExclusionTransition := T |>)) with (e_rest row).
  rewrite Hd. reflexivity.
Qed.

Lemma fixed_exclusions row : fixed_row row → good_exclusions (exclusions row)
  ∧ normalizeBaselineExclusions (exclusions_json (baselineExclusions row)) = Ok (baselineExclusions row).
Proof.
  intros H. unfold fixed_row, serializeSandboxEntryForDisk in H.
  apply result_bind_ok in H as (l & Hl & H). apply result_bind_ok in H as (t & _ & H). injection H as H.
  assert (El : baselineExclusions row = l) by (by rewrite <- H). rewrite El. unfold exclusions. rewrite El.
  split; [|by rewrite <- El at 1]. destruct l as [l|]; [|by split; constructor].
  by apply exclusions_good in Hl as [_ ?].
Qed.

Lemma fixed_key (l : list BaselineExclusionEntry) k : good_exclusions l →
  is_Some ((list_to_map ((λ e, (x_key e, e)) <$> l) : gmap string BaselineExclusionEntry) !! k) → js_trim k = k.
Proof.
  intros [_ Hf] [x Hx]. rewrite by_key_lookup in Hx. apply List.find_some in Hx as [Hin Hk%String.eqb_eq].
  rewrite Forall_forall in Hf. apply list_elem_of_In in Hin. pose proof (entry_json_key x x (Hf x Hin)). congruence.
Qed.

(** A list with an entry put at its end, or in place of the one of its key. *)
Lemma added_normal l x : good_exclusions l →
  normalizeBaselineExclusions (JArr (map exclusion_json (without_key (x_key x) l ++ [x])))
  = match normalizeBaselineExclusionEntry (exclusion_json x) with
    | Ok n => Ok (Some (map snd (put (keyed (without_key (x_key x) l)) (x_key n) n)))
    | Throw e => Throw e
    end.
Proof.
  intros Hg. destruct (good_without (x_key x) l Hg) as [Hn Hf]. cbn [normalizeBaselineExclusions].
  rewrite map_app, fold_left_app, (collect_fixed _ []) by done. cbn [app map fold_left mbind result_bind].
  destruct (normalizeBaselineExclusionEntry (exclusion_json x)) as [n|e]; [|done]. cbn.
  pose proof (put_not_nil (keyed (without_key (x_key x) l)) (x_key n) n) as Hne.
  by destruct (put (keyed (without_key (x_key x) l)) (x_key n) n).
Qed.

Lemma added_journal l x n : good_exclusions l → normalizeBaselineExclusionEntry (exclusion_json x) = Ok n →
  (list_to_map ((λ e, (x_key e, e)) <$> map snd (put (keyed (without_key (x_key x) l)) (x_key n) n)) : gmap string _)
  = <[x_key n := n]> (list_to_map ((λ e, (x_key e, e)) <$> l)).
Proof.
  intros Hg Hn. destruct (put_keyed (without_key (x_key x) l) n) as (l' & El & _);
    [by apply good_without|exact (entry_norm_rt _ _ Hn)|].
  rewrite El. assert (E : map snd (keyed l') = l') by (unfold keyed; rewrite map_map; apply map_id).
  rewrite E. change ((λ e, (x_key e, e)) <$> l') with (keyed l'). rewrite <- El, list_to_map_put.
  change (keyed (without_key (x_key x) l)) with ((λ e, (x_key e, e)) <$> without_key (x_key x) l). rewrite by_key_delete.
  destruct (decide (x_key n = x_key x)) as [E1|Hne]; [rewrite E1; apply insert_delete_eq|].
  rewrite delete_id; [done|]. destruct (_ !! x_key x) eqn:Ex; [|done].
  destruct Hne. rewrite (entry_json_key _ _ Hn). apply (fixed_key l); [done|by eexists].
Qed.

(** A change of the row, and the row as it is then saved. *)
Definition journal_saved (ev : JournalEvent) (row : RegistryRow) : result registry_error (option RegistryRow) :=
  changed ← journal_change ev row;
  match changed with
  | None => Ok None
  | Some row' => row'' ← serializeSandboxEntryForDisk row'; Ok (Some row'')
  end.
Definition journals (changed : result registry_error (option RegistryRow)) : result registry_error (option Journal) :=
  match changed with Ok row => Ok (option_map journal_of row) | Throw e => Throw e end.

Lemma saved_added row x : fixed_row row →
  journals (row' ← serializeSandboxEntryForDisk (row <| baselineExclusions := Some (without_key (x_key x) (exclusions row) ++ [x]) |>
                                       <| baselineExclusionTransition := None |>); Ok (Some row'))
  = (n ← normalizeBaselineExclusionEntry (exclusion_json x);
     Ok (Some (mkJournal (<[x_key n := n]> (committed (journal_of row))) None))).
Proof.
  intros Hrow. pose proof (fixed_exclusions row Hrow) as [Hg _]. rewrite serialize_with by done.
  cbn [exclusions_json staged_json normalizeBaselineExclusionTransition]. rewrite added_normal by done.
  destruct (normalizeBaselineExclusionEntry (exclusion_json x)) as [n|e] eqn:En; [|done].
  cbn -[list_to_map put without_key]. do 3 f_equal. unfold journal_of. f_equal. exact (added_journal _ _ _ Hg En).
Qed.

Lemma saved_removed row key : fixed_row row →
  journals (row' ← serializeSandboxEntryForDisk (row <| baselineExclusions := none_if_empty (without_key key (exclusions row)) |>
                                       <| baselineExclusionTransition := None |>); Ok (Some row'))
  = Ok (Some (mkJournal (delete key (committed (journal_of row))) None)).
Proof.
  intros Hrow. pose proof (fixed_exclusions row Hrow) as [Hg _]. rewrite serialize_with by done.
  rewrite none_if_empty_normal by by apply good_without. cbn -[list_to_map without_key none_if_empty].
  unfold journal_of at 1, exclusions at 1. cbn -[list_to_map without_key none_if_empty].
  by rewrite default_none_if_empty, by_key_delete.
Qed.

(** Where no transition is staged, setting none changes nothing. *)
Lemma unstaged (row : RegistryRow) X : baselineExclusionTransition row = None →
  row <| baselineExclusions := X |> = row <| baselineExclusions := X |> <| baselineExclusionTransition := None |>.
Proof. destruct row. cbn. by intros ->. Qed.
Lemma same_exclusions (row : RegistryRow) T :
  row <| baselineExclusionTransition := T |>
  = row <| baselineExclusions := baselineExclusions row |> <| baselineExclusionTransition := T |>.
Proof. by destruct row. Qed.

(** The saved changes of a row are the steps of the abstract journal. *)
Lemma journal_saved_refines ev row : fixed_row row → journals (journal_saved ev row) = journal_step (journal_of row) ev.
Proof.
  intros Hrow. unfold journal_step, journal_saved. change (staged (journal_of row)) with (baselineExclusionTransition row).
  destruct ev as [x now_|key|t|id now_|id]; cbn [journal_change].
  - unfold add_exclusion. destruct (baselineExclusionTransition row) eqn:Es; [done|]. cbn [mbind result_bind].
    rewrite (unstaged row _ Es). exact (saved_added row (acknowledged now_ x) Hrow).
  - unfold remove_exclusion. destruct (baselineExclusionTransition row) eqn:Es; [done|]. rewrite without_length.
    cbn [committed journal_of]. rewrite by_key_lookup.
    destruct (List.find _ _) as [e|] eqn:Ef; case_bool_decide; try done. cbn [mbind result_bind].
    rewrite (unstaged row _ Es). by apply saved_removed.
  - unfold begin_transition. destruct (baselineExclusionTransition row) eqn:Es; [done|].
    destruct (normalizeBaselineExclusionTransition _) as [n|] eqn:En; [|done]. cbn [mbind result_bind].
    rewrite same_exclusions, serialize_with, (proj2 (fixed_exclusions row Hrow)), (normal_transition_idem _ _ En) by done.
    by destruct row.
  - unfold commit_transition. destruct (baselineExclusionTransition row) as [t|] eqn:Es; [|done].
    destruct (String.eqb_spec (t_id t) id) as [->|Hne]; [rewrite decide_True by done|by rewrite decide_False].
    cbn [negb]. destruct (t_operation t).
    + exact (saved_added row (acknowledged now_ (t_exclusion t)) Hrow).
    + cbn [committed journal_of]. rewrite by_key_lookup. destruct (List.find _ _) as [e|] eqn:Ef; [|done].
      case_bool_decide as Ee; [rewrite decide_True by congruence|by rewrite decide_False by congruence].
      by apply saved_removed.
  - unfold clear_transition. destruct (baselineExclusionTransition row) as [t|] eqn:Es; cbn [fmap option_fmap option_map].
    + destruct (decide (t_id t = id)) as [<-|Hne]; [rewrite bool_decide_eq_true_2 by done|by rewrite bool_decide_eq_false_2 by congruence].
      cbn [mbind result_bind]. rewrite same_exclusions, serialize_with, (proj2 (fixed_exclusions row Hrow)) by done. by destruct row.
    + by rewrite bool_decide_eq_false_2.
Qed.

(** The change keeps whether the row may be the default. *)
Lemma journal_change_frame ev row row' :
  journal_change ev row = Ok (Some row') → pendingRouteReservation row' = pendingRouteReservation row.
Proof.
  destruct row as [n p s c cp ex tr rest].
  destruct ev as [x now_|key|t|id now_|id]; cbn [journal_change].
  - unfold add_exclusion. cbn [baselineExclusionTransition]. destruct tr; [done|]. by intros [= <-].
  - unfold remove_exclusion. cbn [baselineExclusionTransition]. destruct tr; [done|]. destruct (_ =? _)%nat; [done|].
    by intros [= <-].
  - unfold begin_transition. cbn [baselineExclusionTransition]. destruct tr; [done|].
    destruct (normalizeBaselineExclusionTransition _); [|done]. by intros [= <-].
  - unfold commit_transition. cbn [baselineExclusionTransition]. destruct tr as [t0|]; [|done].
    destruct (negb _); [done|]. destruct (t_operation t0); [by intros [= <-]|].
    destruct (List.find _ _); [|done]. destruct (bool_decide _); [|done]. by intros [= <-].
  - unfold clear_transition. cbn [baselineExclusionTransition]. destruct (bool_decide _); [|done]. by intros [= <-].
Qed.

(** A save of fixed rows with one changed. *)
Lemma retained_put r name row row' :
  retained r → own (sandboxes r) name = Some row → pendingRouteReservation row' = pendingRouteReservation row →
  retained (r <| sandboxes := put (sandboxes r) name row' |>).
Proof.
  intros Hr Ho Hp. unfold retained in *.
  change (retainedDefaultSandbox (defaultSandbox r) (put (sandboxes r) name row') = defaultSandbox r).
  destruct (defaultSandbox r) as [d|]; [|done]. apply retained_inv in Hr as (e & He & Hpe).
  destruct (decide (name = d)) as [->|Hne].
  - eapply retained_some; [rewrite own_put; by rewrite decide_True|]. congruence.
  - eapply retained_some; [rewrite own_put; by rewrite decide_False|done].
Qed.

(** C35: The baseline exclusions of a sandbox are a map by key with one staged
    transition.  Every operation on a registry file as a save leaves it performs exactly
    the step of that abstract journal: while a transition is staged, adding, removing and
    staging are refused; only the staged transition's own id commits or clears it; an entry
    is committed as the registry normalises it, with its time, and a malformed entry or
    transition makes the operation throw; a commit applies the staged exclusion, or undoes
    it when the committed entry is still the one staged against; a clear keeps what is
    committed.  A refused operation writes nothing, and a performed one leaves a file as a
    save leaves it, with neither another row nor the default pointer and its revision
    changed. *)
Theorem baseline_journal_refines inherited name row r ev :
  is_Some (revision r) → retained r → Forall (λ kv, serializeSandboxEntryForDisk kv.2 = Ok kv.2) (sandboxes r) →
  own (sandboxes r) name = Some row →
  match journal_step (journal_of row) ev with
  | Throw e => journal_operation inherited name ev r = Throw e
  | Ok None => journal_operation inherited name ev r = Ok (false, r)
  | Ok (Some j) =>
      ∃ row' r', journal_operation inherited name ev r = Ok (true, r') ∧ journal_of row' = j
        ∧ (∀ k, own (sandboxes r') k = if decide (name = k) then Some row' else own (sandboxes r) k)
        ∧ defaultSandbox r' = defaultSandbox r ∧ revision r' = revision r
        ∧ Forall (λ kv, serializeSandboxEntryForDisk kv.2 = Ok kv.2) (sandboxes r')
  end.
Proof.
  intros [z Hz] Hr Hw Ho. rewrite <- (journal_saved_refines ev row) by by eapply own_fixed.
  assert (Hop : journal_operation inherited name ev r = change_row inherited name (journal_change ev) r)
    by (by destruct ev).
  rewrite Hop. unfold change_row, row_at, journal_saved. rewrite Ho.
  destruct (journal_change ev row) as [[row'|]|e] eqn:Ec; cbn [mbind result_bind journals option_map]; [|done..].
  unfold saved, save. set (r0 := r <| sandboxes := put (sandboxes r) name row' |>).
  change (sandboxes r0) with (put (sandboxes r) name row'). rewrite serialize_put by done.
  destruct (serializeSandboxEntryForDisk row') as [row''|e] eqn:Es; cbn [mbind result_bind journals option_map]; [|done].
  pose proof (serialized_fixed _ _ Es) as (Hfix & Hp & _).
  assert (Hr' : retainedDefaultSandbox (defaultSandbox r0) (put (sandboxes r) name row'') = defaultSandbox r0).
  { apply (retained_put r name row row''); [done..|]. rewrite Hp. by eapply journal_change_frame. }
  rewrite Hr', bool_decide_eq_true_2 by done. change (defaultSelectionRevision r0) with (defaultSelectionRevision r).
  pose proof Hz as Hz'. unfold revision in Hz'. destruct (normalizeDefaultSelectionRevision _) as [z0|] eqn:En; [|done].
  injection Hz' as ->. cbn [mbind result_bind].
  eexists row'', _. split; [done|]. split; [done|]. split; [intros k; apply own_put|]. split; [done|].
  split; [rewrite Hz; apply revision_with_default; by eapply normalize_inv|]. by apply put_fixed.
Qed.

(** ** Names of Object.prototype *)

(** A row of a name that [Object.prototype] has is never restored: the plain object
    [registry.sandboxes] seems to hold it. *)
Lemma prototype_name_not_restored inherited rc r f :
  inherited (e_name (rc_entry rc)) = Some f → restoreSandboxEntryIfMissing inherited rc r = Ok (false, r).
Proof.
  intros H. unfold restoreSandboxEntryIfMissing, restoreSandboxIfMissingInRegistry, present, row_at.
  destruct (own _ _); [by rewrite bool_decide_eq_true_2|]. by rewrite H, bool_decide_eq_true_2.
Qed.

(** ** Concrete registries *)

(** The function [Object.prototype.constructor], as a row: its [name] is Object. *)
Definition object_prototype (k : string) : option RegistryRow :=
  if k =s "constructor" then Some (mkRow "Object" false None None None None None []) else None.

Definition sample_row (name : string) : RegistryRow :=
  mkRow name false None (Some "2026-02-28T23:59:59.999Z") None None None [("model", JStr "m")].
Definition sample_registry : SandboxRegistry :=
  mkRegistry [("alpha", sample_row "alpha"); ("beta", sample_row "beta")] (Some "alpha") (JNum (NInt 3)) None.

Definition sample_removal : option RegistryRemovalReceipt * SandboxRegistry := Eval vm_compute in
  match removeSandboxWithReceipt object_prototype "alpha" sample_registry with
  | Ok x => x | Throw _ => (None, sample_registry) end.

(** A row registered in between keeps the pointer, so the restoration takes it back. *)
Example sample_restore :
  match sample_removal.1 with
  | Some rc =>
      restoreSandboxEntryIfMissing object_prototype rc
        (run_registry_op object_prototype (OpRegister (sample_row "gamma")) sample_removal.2)
  | None => Throw RevisionInvalid
  end = Ok (true, mkRegistry [("beta", sample_row "beta"); ("gamma", sample_row "gamma");
                              ("alpha", sample_row "alpha")] (Some "alpha") (JNum (NInt 5)) None).
Proof. vm_compute. reflexivity. Qed.

(** A choice of default made in between is kept. *)
Example sample_restore_kept :
  match sample_removal.1 with
  | Some rc =>
      restoreSandboxEntryIfMissing object_prototype rc
        (run_registry_op object_prototype (OpSetDefault "beta") sample_removal.2)
  | None => Throw RevisionInvalid
  end = Ok (true, mkRegistry [("beta", sample_row "beta"); ("alpha", sample_row "alpha")]
                    (Some "beta") (JNum (NInt 5)) None).
Proof. vm_compute. reflexivity. Qed.

Definition constructor_registry : SandboxRegistry :=
  mkRegistry [("constructor", sample_row "constructor")] None JUndef None.

(** A sandbox of that name is removed with a receipt, and lost. *)
Example constructor_lost :
  match removeSandboxWithReceipt object_prototype "constructor" constructor_registry with
  | Ok (Some rc, r) => restoreSandboxEntryIfMissing object_prototype rc r
  | _ => Throw RevisionInvalid
  end = Ok (false, mkRegistry [] None (JNum (NInt 0)) None).
Proof. vm_compute. reflexivity. Qed.

Lemma default_restored_by_revision_witness :
  ∃ receipt r1, removeSandboxWithReceipt object_prototype "alpha" sample_registry = Ok (Some receipt, r1)
  ∧ let r2 := run_registry_op object_prototype (OpRegister (sample_row "gamma")) r1 in
    match restoreSandboxEntryIfMissing object_prototype receipt r2 with
    | Throw err => err = RevisionExhausted ∧ revision r2 = Some MAX_SAFE_INTEGER
        ∨ serializeSandboxEntryForDisk (sample_row "alpha") = Throw err
    | Ok (restored, r3) =>
        match own (sandboxes r2) "alpha" with
        | Some _ => restored = false ∧ r3 = r2
        | None =>
            restored = true
            ∧ (∃ e', serializeSandboxEntryForDisk (sample_row "alpha") = Ok e'
                 ∧ ∀ k, own (sandboxes r3) k = if decide ("alpha" = k) then Some e' else own (sandboxes r2) k)
            ∧ defaultSandbox r3 =
                if decide (defaultSandbox sample_registry = Some "alpha" ∧ revision r2 = revision r1)
                then Some "alpha" else Some (default "alpha" (defaultSandbox r2))
        end
    end.
Proof.
  eexists _, _. split; [reflexivity|].
  apply (default_restored_by_revision object_prototype "alpha" (sample_row "alpha")
           [OpRegister (sample_row "gamma")] sample_registry); [by eexists|reflexivity..].
Defined.

Definition sample_exclusion : BaselineExclusionEntry :=
  mkExclusion "openclaw" "npm" "0123456789abcdef0123456789abcdef0123456789abcdef0123456789abcdef" None None.

Lemma baseline_journal_refines_witness :
  ∃ row' r', journal_operation object_prototype "alpha" (JAdd sample_exclusion "2026-03-01T00:00:00.000Z")
      sample_registry = Ok (true, r')
    ∧ journal_of row'
        = mkJournal {[ "npm" := acknowledged "2026-03-01T00:00:00.000Z" sample_exclusion ]} None
    ∧ (∀ k, own (sandboxes r') k = if decide ("alpha" = k) then Some row' else own (sandboxes sample_registry) k)
    ∧ defaultSandbox r' = defaultSandbox sample_registry ∧ revision r' = revision sample_registry
    ∧ Forall (λ kv, serializeSandboxEntryForDisk kv.2 = Ok kv.2) (sandboxes r').
Proof.
  apply (baseline_journal_refines object_prototype "alpha" (sample_row "alpha") sample_registry
           (JAdd sample_exclusion "2026-03-01T00:00:00.000Z")); [by eexists|reflexivity|repeat constructor|reflexivity].
Defined.

(** A malformed entry is refused with an error. *)
Example malformed_exclusion_throws :
  journal_operation object_prototype "alpha"
    (JAdd (mkExclusion "openclaw" "npm" "not a digest" None None) "2026-03-01T00:00:00.000Z") sample_registry
  = Throw InvalidExclusion.
Proof. vm_compute. reflexivity. Qed.
