(* ===== verification/PolicyExclusions.v ===== *)
(** * Excluding and restoring baseline entries of a running sandbox

    The transactions of policy/index.ts that change a sandbox's live policy and its row in
    the registry together: [excludeBaselineEntry], [restoreBaselineEntry] and the
    reconciliation of a transaction a crash interrupted.  They are programs ([ProgOf])
    over a world that holds the live policy and the row's journal, the abstract journal
    that the registry's operations implement ([Registry.baseline_journal_refines]).  A
    call may fail with or without its effect, and the program may be stopped after any. *)

From S2P Require Import Prelude Json Canonical Time Checkpoint Programs Policy PrivateNetworks PolicyMerge Registry.

(** ** Calls *)

(** The registry's operations on the row; a commit and an addition take their own time. *)
Inductive JournalRequest : Type :=
| AddExclusion (entry : BaselineExclusionEntry)
| RemoveExclusion (key : string)
| BeginTransition (t : BaselineExclusionTransition)
| CommitTransition (id : string)
| ClearTransition (id : string).

Inductive ExclusionDep : Type :=
| AssertNoGatewayOverride
| GetSandbox
| GetExclusions
| GetTransition
| PolicyGet
| FindAppliedPolicyOwner (key : string)
| ResolveBaseline
| PushPolicy (policy : string)
| RandomUuid
| NowIso
| RegistryCall (request : JournalRequest).

(** [GetSandbox] answers the row's agent and agent version; [GetExclusions] the committed
    exclusions by key; [PolicyGet] the output of [openshell policy get]; [ResolveBaseline]
    the text of the agent's reviewed baseline. *)
Definition exclusion_answer (d : ExclusionDep) : Type :=
  match d with
  | AssertNoGatewayOverride => unit
  | GetSandbox => option (option string * option string)
  | GetExclusions => gmap string BaselineExclusionEntry
  | GetTransition => option BaselineExclusionTransition
  | PolicyGet => string
  | FindAppliedPolicyOwner _ => option string
  | ResolveBaseline => option string
  | RandomUuid | NowIso => string
  | PushPolicy _ | RegistryCall _ => bool
  end.

Notation Prog := (ProgOf exclusion_answer string string).
Definition call (d : ExclusionDep) : Prog (exclusion_answer d) := Call d Return.

Definition getBaselineExclusions : Prog (gmap string BaselineExclusionEntry) := call GetExclusions.

Inductive LiveBaselineEntryState : Type := LiveAbsent | LivePresent (digest : string) | LiveInvalid.
#[export] Instance live_state_eq_dec : EqDecision LiveBaselineEntryState.
Proof. solve_decision. Defined.

Inductive BaselineTransitionReconciliation : Type :=
| ReconciledNone | ReconciledExcluded | ReconciledRestored | ReconciledResume (t : BaselineExclusionTransition).

Section Transactions.
Context {yaml : Yaml} (sha256 : string → string) (to_number : json → jsnum).

Definition readCurrentSandboxPolicy : Prog (option string) :=
  raw ← prog_catch (call PolicyGet) (λ _, mret "");
  let policy := parseCurrentPolicyOrEmpty raw in
  mret (if truthy policy then Some policy else None).

Definition inspectLiveBaselineEntry (policy key : string) : LiveBaselineEntryState :=
  match yaml_parse policy with
  | Some (JObj document) =>
      match jget document "network_policies" with
      | JUndef | JNull => LiveAbsent
      | JObj policies =>
          if hasOwn policies key then
            match jget policies key with
            | JObj entry => LivePresent (digestBaselineEntry sha256 (JObj entry))
            | _ => LiveInvalid
            end
          else LiveAbsent
      | _ => LiveInvalid
      end
  | _ => LiveInvalid
  end.

Definition registryTransitionStep (action : Prog bool) : Prog bool :=
  prog_catch action (λ _, mret false).

Definition getSandboxBaselineEntry (key : string) : Prog (option (list (string * json))) :=
  baseline ← call ResolveBaseline;
  mret (match baseline with Some content => getBaselineEntry content key | None => None end).
Definition getSandboxBaselineEntryDigest (key : string) : Prog (option string) :=
  entry ← getSandboxBaselineEntry key;
  mret (option_map (λ e, digestBaselineEntry sha256 (JObj e)) entry).

Definition restoreTransitionCanFinalize (transition : BaselineExclusionTransition) : Prog bool :=
  match t_operation transition with
  | Exclude => mret true
  | RestoreBaseline =>
      committed ← getBaselineExclusions;
      if bool_decide (committed !! x_key (t_exclusion transition) = Some (t_exclusion transition)) then
        currentBaselineDigest ← prog_try (getSandboxBaselineEntryDigest (x_key (t_exclusion transition)));
        match currentBaselineDigest with
        | Throw _ => mret false
        | Ok digest => mret (bool_decide (digest = t_targetLiveDigest transition))
        end
      else mret false
  end.

Definition finalizeBaselineExclusionTransition (transition : BaselineExclusionTransition) : Prog bool :=
  can ← restoreTransitionCanFinalize transition;
  if can : bool then registryTransitionStep (call (RegistryCall (CommitTransition (t_id transition)))) else mret false.

Definition compensateBaselineExclusionTransition (transition : BaselineExclusionTransition) : Prog bool :=
  registryTransitionStep (call (RegistryCall (ClearTransition (t_id transition)))).

Definition at_target (transition : BaselineExclusionTransition) (live : LiveBaselineEntryState) : bool :=
  match t_targetLiveDigest transition with
  | None => bool_decide (live = LiveAbsent)
  | Some digest => bool_decide (live = LivePresent digest)
  end.
Definition at_source (transition : BaselineExclusionTransition) (live : LiveBaselineEntryState) : bool :=
  match t_operation transition with
  | Exclude => bool_decide (live = LivePresent (x_digest (t_exclusion transition)))
  | RestoreBaseline => bool_decide (live = LiveAbsent)
  end.

(** [null] is [None]. *)
Definition reconcileBaselineExclusionTransition (requestedKey : string)
    : Prog (option BaselineTransitionReconciliation) :=
  transition ← call GetTransition;
  match transition with
  | None => mret (Some ReconciledNone)
  | Some transition =>
      let key := x_key (t_exclusion transition) in
      if negb (key =s requestedKey) then mret None
      else
        unchanged ← (match t_operation transition with
                     | Exclude => mret true
                     | RestoreBaseline =>
                         committed ← getBaselineExclusions;
                         mret (bool_decide (committed !! key = Some (t_exclusion transition)))
                     end);
        if negb unchanged then mret None
        else
          currentPolicy ← readCurrentSandboxPolicy;
          match currentPolicy with
          | None => mret None
          | Some currentPolicy =>
              let live := inspectLiveBaselineEntry currentPolicy key in
              if at_target transition live then
                finalized ← finalizeBaselineExclusionTransition transition;
                mret (if finalized : bool
                      then Some (match t_operation transition with
                                 | Exclude => ReconciledExcluded | RestoreBaseline => ReconciledRestored
                                 end)
                      else None)
              else if at_source transition live then
                committed ← getBaselineExclusions;
                if bool_decide (t_operation transition = Exclude) && bool_decide (is_Some (committed !! key))
                then mret (Some (ReconciledResume transition))
                else
                  cleared ← registryTransitionStep (call (RegistryCall (ClearTransition (t_id transition))));
                  mret (if cleared : bool
                        then Some (match t_operation transition with
                                   | Exclude => ReconciledRestored | RestoreBaseline => ReconciledExcluded
                                   end)
                        else None)
              else mret None
          end
  end.

Definition beginBaselineExclusionTransition (operation : BaselineExclusionTransitionOperation)
    (exclusion : BaselineExclusionEntry) (targetLiveDigest : option string)
    : Prog (option BaselineExclusionTransition) :=
  id ← call RandomUuid;
  startedAt ← call NowIso;
  let transition := mkTransition id operation exclusion targetLiveDigest startedAt in
  recorded ← registryTransitionStep (call (RegistryCall (BeginTransition transition)));
  mret (if recorded : bool then Some transition else None).

Definition settleBaselineExclusionTransitionAfterPush (transition : BaselineExclusionTransition)
    (pushSucceeded canRollbackAtSource : bool) : Prog bool :=
  currentPolicy ← readCurrentSandboxPolicy;
  match currentPolicy with
  | None => mret false
  | Some currentPolicy =>
      let live := inspectLiveBaselineEntry currentPolicy (x_key (t_exclusion transition)) in
      if at_target transition live then finalizeBaselineExclusionTransition transition
      else if negb pushSucceeded && at_source transition live && canRollbackAtSource then
        compensateBaselineExclusionTransition transition;; mret false
      else mret false
  end.

Definition attemptBaselineTransitionPolicyPush (updatedPolicy : string) : Prog bool :=
  prog_catch (call (PushPolicy updatedPolicy)) (λ _, mret false).

Definition resumed (r : BaselineTransitionReconciliation) : option BaselineExclusionTransition :=
  match r with ReconciledResume t => Some t | _ => None end.

(** The rest of each transaction, with the interrupted transition it resumes, if any. *)
Definition excludeReconciled (key digest : string) (pending : option BaselineExclusionTransition) : Prog bool :=
  if from_option (λ t, bool_decide (t_operation t ≠ Exclude)) false pending then mret false
  else
    appliedOwner ← call (FindAppliedPolicyOwner key);
    if truthy_opt appliedOwner then mret false
    else
      currentPolicy ← readCurrentSandboxPolicy;
      match currentPolicy with
      | None => mret false
      | Some currentPolicy =>
          if match inspectLiveBaselineEntry currentPolicy key with
             | LiveInvalid => true
             | LivePresent liveDigest => negb (liveDigest =s digest)
             | LiveAbsent => false
             end
          then mret false
          else
            let '(updated, removed) := removeBaselineEntryFromPolicy currentPolicy key in
            exclusions ← getBaselineExclusions;
            let previousExclusion := exclusions !! key in
            sandbox ← call GetSandbox;
            acknowledgedAt ← call NowIso;
            let agent := match sandbox with Some (Some a, _) => a | _ => "" end in
            let exclusion :=
              mkExclusion (if truthy agent then agent else "openclaw") key digest (Some acknowledgedAt)
                (Some (match sandbox with Some (_, v) => v | None => None end)) in
            if negb removed then
              match pending with
              | Some transition => finalizeBaselineExclusionTransition transition
              | None => registryTransitionStep (call (RegistryCall (AddExclusion exclusion)))
              end
            else
              transition ← (match pending with
                            | Some transition => mret (Some transition)
                            | None => beginBaselineExclusionTransition Exclude exclusion None
                            end);
              match transition with
              | None => mret false
              | Some transition =>
                  pushSucceeded ← attemptBaselineTransitionPolicyPush updated;
                  settleBaselineExclusionTransitionAfterPush transition pushSucceeded
                    (bool_decide (previousExclusion = None))
              end
      end.
Definition excludeBaselineEntryOnGateway (key digest : string) : Prog bool :=
  reconciled ← reconcileBaselineExclusionTransition key;
  match reconciled with
  | None => mret false
  | Some ReconciledExcluded => mret true
  | Some reconciled => excludeReconciled key digest (resumed reconciled)
  end.

Definition restoreReconciled (key : string) (entry : option (list (string * json)))
    (pending : option BaselineExclusionTransition) : Prog bool :=
  let targetDigest := option_map (λ e, digestBaselineEntry sha256 (JObj e)) entry in
  if from_option (λ t, bool_decide (t_operation t ≠ RestoreBaseline)) false pending then mret false
  else
    exclusions ← getBaselineExclusions;
    match exclusions !! key with
    | None => mret false
    | Some recordedExclusion =>
        currentPolicy ← readCurrentSandboxPolicy;
        match currentPolicy with
        | None => mret false
        | Some currentPolicy =>
            match entry with
            | None => registryTransitionStep (call (RegistryCall (RemoveExclusion key)))
            | Some target =>
                match inspectLiveBaselineEntry currentPolicy key with
                | LiveInvalid => mret false
                | LivePresent liveDigest =>
                    if bool_decide (Some liveDigest = targetDigest) then
                      match pending with
                      | Some transition => finalizeBaselineExclusionTransition transition
                      | None => registryTransitionStep (call (RegistryCall (RemoveExclusion key)))
                      end
                    else mret false
                | LiveAbsent =>
                    transition ← (match pending with
                                  | Some transition => mret (Some transition)
                                  | None => beginBaselineExclusionTransition RestoreBaseline
                                              recordedExclusion targetDigest
                                  end);
                    match transition with
                    | None => mret false
                    | Some transition =>
                        pushSucceeded ← attemptBaselineTransitionPolicyPush
                          (mergeBaselineEntryIntoPolicy to_number currentPolicy key target);
                        settleBaselineExclusionTransitionAfterPush transition pushSucceeded true
                    end
                end
            end
        end
    end.
(** [options.expectedTargetDigest]: the outer [None] when the option is absent. *)
Definition restoreBaselineEntryOnGateway (key : string) (expectedTargetDigest : option (option string))
    : Prog bool :=
  entry ← prog_try (getSandboxBaselineEntry key);
  match entry with
  | Throw _ => mret false
  | Ok entry =>
      let targetDigest := option_map (λ e, digestBaselineEntry sha256 (JObj e)) entry in
      if from_option (λ expected, bool_decide (targetDigest ≠ expected)) false expectedTargetDigest
      then mret false
      else
        reconciled ← reconcileBaselineExclusionTransition key;
        match reconciled with
        | None => mret false
        | Some ReconciledRestored => mret true
        | Some reconciled => restoreReconciled key entry (resumed reconciled)
        end
  end.

(** The transactions run against the gateway the sandbox's row records; an override of the
    gateway's endpoint is refused by an exception. *)
Definition withRecordedSandboxGateway (operation : Prog bool) : Prog bool :=
  call AssertNoGatewayOverride;;
  sandbox ← call GetSandbox;
  match sandbox with Some _ => operation | None => mret false end.
Definition excludeBaselineEntry (key digest : string) : Prog bool :=
  withRecordedSandboxGateway (excludeBaselineEntryOnGateway key digest).
Definition restoreBaselineEntry (key : string) (expectedTargetDigest : option (option string)) : Prog bool :=
  withRecordedSandboxGateway (restoreBaselineEntryOnGateway key expectedTargetDigest).
End Transactions.

(** ** The world: the live policy and the row's journal *)

Record ExclusionWorld := mkExclusionWorld {
  w_journal : Journal;
  w_live : string;
  w_baseline : option string;
}.

(** The step of the journal that an operation of the registry performs at a time. *)
Definition journal_event (request : JournalRequest) (now_ : string) : JournalEvent :=
  match request with
  | AddExclusion x => JAdd x now_
  | RemoveExclusion key => JRemove key
  | BeginTransition t => JBegin t
  | CommitTransition id => JCommit id now_
  | ClearTransition id => JClear id
  end.

Section World.
Context {yaml : Yaml} (sha256 : string → string) (to_number : json → jsnum).

(** What a call may answer, and the world after it.  Any call may throw.  OpenShell's
    output reads as the live policy or as nothing; a push applies its policy or does not,
    whatever it reports; an operation of the registry that throws may have been
    performed. *)
Definition performed (request : JournalRequest) (w w' : ExclusionWorld) : Prop :=
  ∃ now_ j, journal_step (w_journal w) (journal_event request now_) = Ok (Some j)
            ∧ w' = mkExclusionWorld j (w_live w) (w_baseline w).
Definition exclusion_step (w : ExclusionWorld) (d : ExclusionDep)
    : outcome_of exclusion_answer string d → ExclusionWorld → Prop :=
  match d with
  | PolicyGet => λ o w', w' = w ∧
      match o with
      | Ok raw => parseCurrentPolicyOrEmpty raw = ""
                  ∨ yaml_parse (parseCurrentPolicyOrEmpty raw) = yaml_parse (w_live w)
      | Throw _ => True
      end
  | GetExclusions => λ o w', w' = w ∧ match o with Ok m => m = committed (w_journal w) | Throw _ => True end
  | GetTransition => λ o w', w' = w ∧ match o with Ok t => t = staged (w_journal w) | Throw _ => True end
  | ResolveBaseline => λ o w', w' = w ∧ match o with Ok b => b = w_baseline w | Throw _ => True end
  | PushPolicy policy => λ o w',
      w' = w ∨ w' = mkExclusionWorld (w_journal w) policy (w_baseline w)
  | RegistryCall request => λ o w',
      match o with
      | Ok true => performed request w w'
      | Ok false => w' = w
      | Throw _ => w' = w ∨ performed request w w'
      end
  | AssertNoGatewayOverride | GetSandbox | FindAppliedPolicyOwner _ | RandomUuid | NowIso => λ o w', w' = w
  end.

(** A live policy: what [parseOpenShellPolicy] admits, as plain data. *)
Definition live_policy (text : string) : Prop :=
  ∃ d, yaml_parse text = Some (JObj d) ∧ plain_props d ∧ assertValidatedPolicyFields d = Ok tt.
Definition inspect (text key : string) : LiveBaselineEntryState := inspectLiveBaselineEntry sha256 text key.
Definition baseline_entry (baseline : option string) (key : string) : option (list (string * json)) :=
  match baseline with Some content => getBaselineEntry content key | None => None end.

(** The committed exclusion of a key holds in the live policy, unless the journal shows
    that its restore is under way. *)
Definition key_settled (w : ExclusionWorld) (key : string) : Prop :=
  ∀ x, committed (w_journal w) !! key = Some x →
    inspect (w_live w) key = LiveAbsent
    ∨ ∃ t, staged (w_journal w) = Some t ∧ t_operation t = RestoreBaseline ∧ x_key (t_exclusion t) = key.

(** The world with a baseline in which some keys are settled. *)
Record exclusion_inv (baseline : option string) (settled : string → Prop) (w : ExclusionWorld) : Prop := {
  ei_live : live_policy (w_live w);
  ei_baseline : w_baseline w = baseline;
  ei_keys : ∀ key x, committed (w_journal w) !! key = Some x → x_key x = key ∧ js_trim key = key;
  ei_staged : ∀ t, staged (w_journal w) = Some t →
    js_trim (x_key (t_exclusion t)) = x_key (t_exclusion t)
    ∧ (t_targetLiveDigest t = None ↔ t_operation t = Exclude);
  ei_settled : ∀ key, settled key → key_settled w key;
}.

(** What a command that succeeded has reached. *)
Definition excluded (w : ExclusionWorld) (key : string) : Prop :=
  is_Some (committed (w_journal w) !! key) ∧ inspect (w_live w) key = LiveAbsent ∧ staged (w_journal w) = None.
Definition restored (w : ExclusionWorld) (key : string) : Prop :=
  committed (w_journal w) !! key = None ∧ staged (w_journal w) = None
  ∧ ((∃ digest, inspect (w_live w) key = LivePresent digest) ∨ baseline_entry (w_baseline w) key = None).

(** ** Lemmas: one entry of the live policy changes *)

Lemma live_fields d : assertValidatedPolicyFields d = Ok tt →
  (jget d "version" = JUndef ∨ ∃ z, jget d "version" = JNum (NInt z) ∧ (1 <= z)%Z)
  ∧ (jget d "network_policies" = JUndef ∨ ∃ p, jget d "network_policies" = JObj p).
Proof.
  unfold assertValidatedPolicyFields, throw_unless. intros H. split.
  - destruct (jget d "version") as [| | |[z| |]| | |]; try done; [by left|]. right. exists z. split; [done|].
    destruct (1 <=? z)%Z eqn:E; [lia|done].
  - destruct (match jget d "version" with JUndef => _ | _ => _ end); [|done]. cbn in H.
    destruct (jget d "network_policies"); try done; [by left|right; by eexists].
Qed.

Lemma fields_ok d : (jget d "version" = JUndef ∨ ∃ z, jget d "version" = JNum (NInt z) ∧ (1 <= z)%Z) →
  (∃ p, jget d "network_policies" = JObj p) → assertValidatedPolicyFields d = Ok tt.
Proof.
  unfold assertValidatedPolicyFields, throw_unless. intros Hv [p ->]. destruct Hv as [-> |(z & -> & Hz)]; [done|].
  rewrite (proj2 (Z.leb_le 1 z) Hz). done.
Qed.

Definition entry_state (v : option json) : LiveBaselineEntryState :=
  match v with
  | None => LiveAbsent
  | Some (JObj entry) => LivePresent (digestBaselineEntry sha256 (JObj entry))
  | Some _ => LiveInvalid
  end.

Lemma inspect_entry text d key : yaml_parse text = Some (JObj d) → assertValidatedPolicyFields d = Ok tt →
  inspect text key = entry_state (own (policies_of d) key).
Proof.
  intros Hp Hf. apply live_fields in Hf as [_ Hf]. unfold inspect, inspectLiveBaselineEntry, policies_of.
  rewrite Hp. destruct Hf as [-> |[p ->]]; [done|]. rewrite hasOwn_own, jget_own.
  by destruct (own p key) as [[]|].
Qed.

Lemma own_np_jget d p : jget d "network_policies" = JObj p → own d "network_policies" = Some (JObj p).
Proof. rewrite jget_own. destruct (own d "network_policies") as [v|]; cbn; [by intros ->|done]. Qed.

Lemma removal_live text key text' :
  yaml_law yaml → live_policy text →
  removeBaselineEntryFromPolicy text key = (text', true) →
  live_policy text' ∧ (∀ k, inspect text' k = if decide (key = k) then LiveAbsent else inspect text k)
  ∧ inspect text key ≠ LiveAbsent.
Proof.
  intros Hlaw (d & Hp & Hd & Hf) Hr.
  unfold removeBaselineEntryFromPolicy, parsePolicyDocumentOrNull in Hr. rewrite Hp in Hr. cbn in Hr.
  destruct (jget d "network_policies") as [| | | | | |p] eqn:Ej; try done.
  destruct (hasOwn p key) eqn:Eh; [|done]. injection Hr as <-.
  assert (Hpp : plain_props (remove p key)).
  { apply plain_remove, plain_object. eapply plain_own; [exact Hd|by apply own_np_jget]. }
  assert (Hd' : plain_props (set_prop d "network_policies" (JObj (remove p key))))
    by (apply plain_set_prop; [done|by apply plain_object]).
  assert (Hf' : assertValidatedPolicyFields (set_prop d "network_policies" (JObj (remove p key))) = Ok tt).
  { apply fields_ok; [|eexists; by rewrite jget_set_prop, decide_True].
    rewrite jget_set_prop, decide_False by done. by apply live_fields in Hf as [? _]. }
  assert (Hy' : yaml_parse (yaml_stringify (JObj (set_prop d "network_policies" (JObj (remove p key)))))
                = Some (JObj (set_prop d "network_policies" (JObj (remove p key)))))
    by by apply Hlaw, plain_object.
  split; [by eexists|]. split.
  - intros k. rewrite (inspect_entry _ _ k Hy' Hf'), (inspect_entry _ _ k Hp Hf).
    unfold policies_of. rewrite jget_set_prop, decide_True, Ej, own_remove by done. by case_decide.
  - rewrite (inspect_entry _ _ key Hp Hf). unfold policies_of. rewrite Ej.
    rewrite hasOwn_own in Eh. apply bool_decide_eq_true_1 in Eh as [v ->]. by destruct v.
Qed.

Lemma no_removal_live text key text' :
  live_policy text → removeBaselineEntryFromPolicy text key = (text', false) → inspect text key = LiveAbsent.
Proof.
  intros (d & Hp & Hd & Hf) Hr. rewrite (inspect_entry _ _ key Hp Hf).
  unfold removeBaselineEntryFromPolicy, parsePolicyDocumentOrNull in Hr. rewrite Hp in Hr. cbn in Hr.
  unfold policies_of. destruct (jget d "network_policies") as [| | | | | |p] eqn:Ej; try done.
  destruct (hasOwn p key) eqn:Eh; [done|]. rewrite hasOwn_own in Eh. apply bool_decide_eq_false_1 in Eh.
  destruct (own p key) eqn:Eo; [|done]. destruct Eh. by eexists.
Qed.

Lemma version_kept d : assertValidatedPolicyFields d = Ok tt →
  ∃ z, version_or_one to_number (jget d "version") = NInt z ∧ (1 <= z)%Z.
Proof.
  intros Hf. apply live_fields in Hf as [[E|(z & E & Hz)] _]; rewrite E; [by exists 1%Z|].
  exists z. split; [|done]. cbn. destruct z; [lia|done|lia].
Qed.

Lemma merge_live text key entry :
  yaml_law yaml → live_policy text → plain_props entry →
  live_policy (mergeBaselineEntryIntoPolicy to_number text key entry)
  ∧ ∀ k, inspect (mergeBaselineEntryIntoPolicy to_number text key entry) k
         = if decide (key = k) then LivePresent (digestBaselineEntry sha256 (JObj entry)) else inspect text k.
Proof.
  intros Hlaw (d & Hp & Hd & Hf) Hentry. unfold mergeBaselineEntryIntoPolicy, parsePolicyDocumentOrNull.
  rewrite Hp. cbn [mbind option_bind isPolicyDocument isObjectRecord default from_option id].
  set (v := version_or_one _ _). set (np := match jget d "network_policies" with JObj e => e | _ => [] end).
  set (d' := set_prop (set_prop d "version" (JNum v)) "network_policies" (JObj (set_prop np key (JObj entry)))).
  change np with (policies_of d) in *. subst np.
  destruct (version_kept d Hf) as (z & Ev & Hz). fold v in Ev.
  assert (Hd' : plain_props d').
  { apply plain_set_prop; [apply plain_set_prop; [done|by rewrite Ev; apply plain_document_b]|].
    apply plain_object, plain_set_prop; [by apply plain_policies|by apply plain_object]. }
  assert (Hf' : assertValidatedPolicyFields d' = Ok tt).
  { apply fields_ok; subst d'.
    - right. exists z. by rewrite jget_set_prop, decide_False, jget_set_prop, decide_True, Ev by done.
    - eexists. by rewrite jget_set_prop, decide_True. }
  assert (Hy' : yaml_parse (yaml_stringify (JObj d')) = Some (JObj d')) by by apply Hlaw, plain_object.
  split; [by exists d'|]. intros k. rewrite (inspect_entry _ _ k Hy' Hf'), (inspect_entry _ _ k Hp Hf).
  unfold policies_of at 1. subst d'. rewrite jget_set_prop, decide_True, own_set_prop by done. by case_decide.
Qed.

(** ** Lemmas: the steps that keep the world's invariant *)

Context (Hlaw : yaml_law yaml) (baseline : option string) (settled : string → Prop).
Notation inv := (exclusion_inv baseline settled).
Implicit Types (w : ExclusionWorld) (t : BaselineExclusionTransition).

Lemma inv_journal w j live : inv w → live = w_live w →
  (∀ key x, committed j !! key = Some x → x_key x = key ∧ js_trim key = key) →
  (∀ t, staged j = Some t → js_trim (x_key (t_exclusion t)) = x_key (t_exclusion t)
                            ∧ (t_targetLiveDigest t = None ↔ t_operation t = Exclude)) →
  (∀ key, settled key → key_settled w key → key_settled (mkExclusionWorld j (w_live w) (w_baseline w)) key) →
  inv (mkExclusionWorld j live (w_baseline w)).
Proof. intros [] -> ???. split; cbn; eauto. Qed.

Lemma inv_add w x w' : inv w → js_trim (x_key x) = x_key x → inspect (w_live w) (x_key x) = LiveAbsent →
  performed (AddExclusion x) w w' → inv w' ∧ excluded w' (x_key x).
Proof.
  intros Hi Ht Hl (now_ & j & Hj & ->). cbn -[normalizeBaselineExclusionEntry exclusion_json] in Hj. destruct (staged (w_journal w)) eqn:Es; [done|].
  apply result_bind_ok in Hj as (e & Hn & Hj). injection Hj as <-.
  assert (Hkey : x_key e = x_key x) by (pose proof (entry_json_key _ _ Hn) as Ek; cbn in Ek; congruence). rewrite Hkey.
  split; [|split_and!; cbn; [by rewrite lookup_insert_eq|done|done]].
  apply inv_journal; [done|done| |done|].
  - intros key y. cbn. destruct (decide (x_key x = key)) as [<-|Hne];
      [rewrite lookup_insert_eq; intros [= <-]; done|rewrite lookup_insert_ne by done; apply Hi].
  - intros key _ Hk y. cbn. destruct (decide (x_key x = key)) as [<-|Hne]; [by left|].
    rewrite lookup_insert_ne by done. intros Hy. destruct (Hk y Hy) as [?|(t & E & _)]; [by left|by rewrite Es in E].
Qed.

Lemma inv_remove w key w' : inv w → performed (RemoveExclusion key) w w' →
  inv w' ∧ committed (w_journal w') !! key = None ∧ staged (w_journal w') = None
  ∧ w_live w' = w_live w ∧ w_baseline w' = w_baseline w.
Proof.
  intros Hi (now_ & j & Hj & ->). cbn in Hj. destruct (staged (w_journal w)) eqn:Es; [done|].
  destruct (committed (w_journal w) !! key) as [x|] eqn:Ec; [|done]. injection Hj as <-.
  split; [|cbn; by rewrite lookup_delete_eq].
  apply inv_journal; [done|done| |done|]; cbn.
  - intros k y Hy. apply lookup_delete_Some in Hy as [_ Hy]. by apply Hi.
  - intros k _ Hk y Hy. cbn in Hy. apply lookup_delete_Some in Hy as [_ Hy].
    destruct (Hk y Hy) as [?|(t & E & _)]; [by left|by rewrite Es in E].
Qed.

Lemma transition_normal t n : js_trim (x_key (t_exclusion t)) = x_key (t_exclusion t) →
  normalizeBaselineExclusionTransition (transition_json t) = Ok n → ∃ n', n = Some n'
  ∧ t_operation n' = t_operation t ∧ x_key (t_exclusion n') = x_key (t_exclusion t)
  ∧ (t_targetLiveDigest n' = None ↔ t_operation n' = Exclude).
Proof.
  intros Ht H. destruct t as [id op x target at_]. cbn [t_exclusion] in Ht.
  unfold normalizeBaselineExclusionTransition, transition_json in H.
  cbn -[js_trim UUID_PATTERN BASELINE_TRANSITION_KEY_PATTERN SHA256_PATTERN isCanonicalIso exclusion_json
        normalizeBaselineExclusionEntry] in H.
  res_inv H. subst n. eexists. split; [done|]. apply entry_json_key in Ha2. cbn.
  split_and!; [by destruct op; injection Ha0|congruence|].
  by destruct a0, target.
Qed.

(** The staged transition is the one the program holds, as the registry normalized it. *)
Definition staged_as w t : Prop := ∃ n, staged (w_journal w) = Some n
  ∧ t_operation n = t_operation t ∧ x_key (t_exclusion n) = x_key (t_exclusion t).

Lemma inv_begin w t w' : inv w → js_trim (x_key (t_exclusion t)) = x_key (t_exclusion t) →
  performed (BeginTransition t) w w' → inv w' ∧ staged_as w' t ∧ w_live w' = w_live w ∧ w_baseline w' = w_baseline w.
Proof.
  intros Hi Ht (now_ & j & Hj & ->). cbn [journal_event] in Hj. unfold journal_step in Hj.
  destruct (staged (w_journal w)) eqn:Es; [done|]. res_inv Hj. rename a into n, Ha into En. subst j.
  apply transition_normal in En as (n' & -> & Ho & Hk & Htarget); [|done].
  split; [|by split; [exists n'|]]. apply inv_journal; [done|done|apply Hi| |]; cbn.
  - intros ? [= <-]. by rewrite Hk.
  - intros key _ Hs y Hy. destruct (Hs y Hy) as [?|(t' & E & _)]; [by left|by rewrite Es in E].
Qed.

Lemma inv_commit w n id w' : inv w → staged (w_journal w) = Some n →
  (t_operation n = Exclude → inspect (w_live w) (x_key (t_exclusion n)) = LiveAbsent) →
  performed (CommitTransition id) w w' →
  inv w' ∧ staged (w_journal w') = None ∧ w_live w' = w_live w ∧ w_baseline w' = w_baseline w
  ∧ (t_operation n = Exclude → is_Some (committed (w_journal w') !! x_key (t_exclusion n)))
  ∧ (t_operation n = RestoreBaseline → committed (w_journal w') !! x_key (t_exclusion n) = None).
Proof.
  intros Hi Es Hl (now_ & j & Hj & ->). cbn -[normalizeBaselineExclusionEntry exclusion_json] in Hj.
  rewrite Es in Hj. case_decide; [|done].
  destruct (ei_staged _ _ _ Hi n Es) as [Htrim _]. destruct (t_operation n) eqn:Eo.
  - apply result_bind_ok in Hj as (e & Hn & Hj). injection Hj as <-.
    assert (Hkey : x_key e = x_key (t_exclusion n)) by (pose proof (entry_json_key _ _ Hn) as Ek; cbn in Ek; congruence).
    rewrite Hkey. split; [|split_and!; cbn; [done..|by rewrite lookup_insert_eq|done]].
    apply inv_journal; [done|done| |done|]; cbn.
    + intros k x. destruct (decide (x_key (t_exclusion n) = k)) as [<-|Hne];
        [rewrite lookup_insert_eq; intros [= <-]; done|rewrite lookup_insert_ne by done; apply Hi].
    + intros k _ Hs x. cbn. destruct (decide (x_key (t_exclusion n) = k)) as [<-|Hne]; [left; by apply Hl|].
      rewrite lookup_insert_ne by done. intros Hx. destruct (Hs x Hx) as [?|(t & E & Et & _)]; [by left|].
      by rewrite Es in E; injection E as <-; rewrite Eo in Et.
  - case_decide; [|done]. injection Hj as <-. split; [|split_and!; cbn; [done..|by rewrite lookup_delete_eq]].
    apply inv_journal; [done|done| |done|]; cbn.
    + intros k x Hx. apply lookup_delete_Some in Hx as [_ Hx]. by apply Hi.
    + intros k _ Hs x Hx. cbn in Hx. apply lookup_delete_Some in Hx as [Hne Hx].
      destruct (Hs x Hx) as [?|(t & E & _ & Ek)]; [by left|]. rewrite Es in E. by injection E as <-.
Qed.

Lemma inv_clear w n id w' : inv w → staged (w_journal w) = Some n →
  (t_operation n = RestoreBaseline → inspect (w_live w) (x_key (t_exclusion n)) = LiveAbsent) →
  performed (ClearTransition id) w w' →
  inv w' ∧ staged (w_journal w') = None ∧ committed (w_journal w') = committed (w_journal w)
  ∧ w_live w' = w_live w ∧ w_baseline w' = w_baseline w.
Proof.
  intros Hi Es Hl (now_ & j & Hj & ->). cbn in Hj. rewrite Es in Hj. case_decide; [|done]. injection Hj as <-.
  split; [|done]. apply inv_journal; [done|done|apply Hi|done|]; cbn.
  intros k _ Hs x Hx. destruct (Hs x Hx) as [?|(t & E & Et & <-)]; [by left|].
  rewrite Es in E. injection E as <-. left. by apply Hl.
Qed.

Lemma inv_push w text key : inv w → live_policy text →
  (∀ k, key ≠ k → inspect text k = inspect (w_live w) k) →
  (inspect text key = LiveAbsent
   ∨ ∃ t, staged (w_journal w) = Some t ∧ t_operation t = RestoreBaseline ∧ x_key (t_exclusion t) = key) →
  inv (mkExclusionWorld (w_journal w) text (w_baseline w)).
Proof.
  intros Hi Hl Hk Hkey. split; [done|apply Hi..|]. intros k Hs x Hx. cbn in Hx |- *.
  destruct (decide (key = k)) as [<-|Hne]; [done|]. rewrite Hk by done. exact (ei_settled _ _ _ Hi k Hs x Hx).
Qed.

(** ** Lemmas: what each part of a program does *)

Notation safely := (Programs.safely (E := string) exclusion_step inv).

Lemma safely_call d w P : (∀ o w', exclusion_step w d o w' → inv w' ∧ ∀ a, o = Ok a → P w' a) → safely (call d) w P.
Proof. intros H o w' Hs. exact (H o w' Hs). Qed.

(** A call that answers and does not change the world. *)
Lemma safely_answer d w (P : ExclusionWorld → exclusion_answer d → Prop) : inv w →
  (∀ o w', exclusion_step w d o w' → w' = w ∧ ∀ a, o = Ok a → P w a) → safely (call d) w P.
Proof. intros Hi H. apply safely_call. intros o w' Hs. by destruct (H o w' Hs) as [-> ?]. Qed.
Lemma safely_exclusions w P : inv w → P w (committed (w_journal w)) → safely getBaselineExclusions w P.
Proof. intros Hi HP. apply safely_answer; [done|]. intros o w' [-> Ho]. split; [done|]. by intros a ->; subst. Qed.
Lemma safely_transition w P : inv w → P w (staged (w_journal w)) → safely (call GetTransition) w P.
Proof. intros Hi HP. apply safely_answer; [done|]. intros o w' [-> Ho]. split; [done|]. by intros a ->; subst. Qed.

Lemma safely_read w P : inv w → P w None →
  (∀ text, yaml_parse text = yaml_parse (w_live w) → P w (Some text)) → safely readCurrentSandboxPolicy w P.
Proof.
  intros Hi Hn Ht. unfold readCurrentSandboxPolicy. apply safely_bind, safely_catch_const. cbn.
  assert (Hraw : ∀ raw, parseCurrentPolicyOrEmpty raw = "" ∨ yaml_parse (parseCurrentPolicyOrEmpty raw) = yaml_parse (w_live w) →
    safely (mret (if truthy (parseCurrentPolicyOrEmpty raw) then Some (parseCurrentPolicyOrEmpty raw) else None)) w P).
  { intros raw Hraw. apply safely_ret. destruct (truthy _) eqn:E; [|done]. apply Ht.
    destruct Hraw as [Hraw|?]; [by rewrite Hraw in E|done]. }
  intros [raw|e] w' [-> Ho]; (split; [done|]); [by apply Hraw|]. by apply (safely_ret exclusion_step inv (X := string) (E := string)).
Qed.

Lemma safely_registry w request P : inv w → (∀ w', performed request w w' → inv w') →
  (∀ w', performed request w w' → P w' true) → (∀ w', w' = w ∨ performed request w w' → P w' false) →
  safely (registryTransitionStep (call (RegistryCall request))) w P.
Proof.
  intros Hi Hp Ht Hf. apply safely_catch_const. intros [[]|e] w' Hs; cbn in Hs |- *.
  - eauto.
  - subst. eauto.
  - split; [destruct Hs as [-> |?]; eauto|eauto].
Qed.

Lemma safely_push w text P : inv w → inv (mkExclusionWorld (w_journal w) text (w_baseline w)) →
  (∀ w' b, w_journal w' = w_journal w ∧ w_baseline w' = w_baseline w → inv w' → P w' b) →
  safely (attemptBaselineTransitionPolicyPush text) w P.
Proof.
  intros Hi Hi' HP. apply safely_catch_const. intros [b|e] w' [-> | ->]; cbn; eauto.
Qed.

Lemma safely_baseline_entry w key P : inv w → P w (baseline_entry baseline key) →
  safely (getSandboxBaselineEntry key) w P.
Proof.
  intros Hi HP. apply safely_bind, safely_answer; [done|]. intros o w' [-> Ho]. split; [done|].
  intros b ->. subst b. rewrite (ei_baseline _ _ _ Hi). by apply safely_ret.
Qed.

(** The calls that leave the world alone. *)
Definition reads (d : ExclusionDep) : Prop :=
  match d with PushPolicy _ | RegistryCall _ => False | _ => True end.
Lemma safely_reads {A} (p : Prog A) w (P : ExclusionWorld → A → Prop) : inv w → only reads p → (∀ a, P w a) → safely p w P.
Proof.
  intros Hi Hp HP. apply (safely_only exclusion_step inv reads); [|done..].
  intros w0 [] o w' Hd Hs; cbn in Hd, Hs; done || by destruct Hs.
Qed.
Lemma can_finalize_reads t : only reads (restoreTransitionCanFinalize sha256 t).
Proof.
  unfold restoreTransitionCanFinalize. destruct (t_operation t); [done|].
  apply only_bind; [done|]. intros m. destruct (bool_decide _); [|done].
  apply only_bind; [|by intros []]. apply only_try. unfold getSandboxBaselineEntryDigest, getSandboxBaselineEntry.
  repeat (apply only_bind; [|done]). done.
Qed.

(** What the transition's operation has reached when it is finalized. *)
Definition reached w t : Prop :=
  match t_operation t with
  | Exclude => excluded w (x_key (t_exclusion t))
  | RestoreBaseline => restored w (x_key (t_exclusion t))
  end.
Definition target_form t : Prop := t_targetLiveDigest t = None ↔ t_operation t = Exclude.

Lemma at_target_live t live : target_form t → at_target t live = true →
  match t_operation t with Exclude => live = LiveAbsent | RestoreBaseline => ∃ digest, live = LivePresent digest end.
Proof.
  unfold target_form, at_target. intros Hf H.
  destruct (t_targetLiveDigest t) as [digest|], (t_operation t); bools; [|by exists digest|done|].
  - discriminate (proj2 Hf eq_refl).
  - discriminate (proj1 Hf eq_refl).
Qed.

Lemma safely_finalize w t : inv w → staged_as w t → target_form t →
  at_target t (inspect (w_live w) (x_key (t_exclusion t))) = true →
  safely (finalizeBaselineExclusionTransition sha256 t) w (λ w' ok, ok = true → reached w' t).
Proof.
  intros Hi (n & Es & Eo & Ek) Hf Ht. apply at_target_live in Ht; [|done].
  apply safely_bind, safely_reads; [done|apply can_finalize_reads|]. intros [|]; [|by apply safely_ret].
  assert (Hl : t_operation n = Exclude → inspect (w_live w) (x_key (t_exclusion n)) = LiveAbsent).
  { rewrite Eo, Ek. intros E. by rewrite E in Ht. }
  apply safely_registry; [done| | |done].
  - intros w' Hp. by destruct (inv_commit w n _ w' Hi Es Hl Hp).
  - intros w' Hp _. destruct (inv_commit w n _ w' Hi Es Hl Hp) as (_ & E1 & E2 & E3 & Hx & Hr).
    unfold reached, excluded, restored. rewrite Eo, Ek in Hx, Hr. rewrite E1, E2.
    destruct (t_operation t); [by auto|]. split_and!; [by auto|done|by left].
Qed.

Lemma live_text w text : inv w → yaml_parse text = yaml_parse (w_live w) →
  live_policy text ∧ ∀ key, inspect text key = inspect (w_live w) key.
Proof.
  intros Hi E. split; [|intros key; unfold inspect, inspectLiveBaselineEntry; by rewrite E].
  destruct (ei_live _ _ _ Hi) as (d & Hd & ?). exists d. by rewrite E.
Qed.

Lemma at_source_live t live : at_source t live = true → t_operation t = RestoreBaseline → live = LiveAbsent.
Proof. unfold at_source. intros H E. rewrite E in H. by bools. Qed.

Lemma safely_settle w t pushed rollback : inv w → staged_as w t → target_form t →
  safely (settleBaselineExclusionTransitionAfterPush sha256 t pushed rollback) w (λ w' ok, ok = true → reached w' t).
Proof.
  intros Hi Hs Hf. apply safely_bind, safely_read; [done|by apply safely_ret|]. intros text E.
  destruct (live_text w text Hi E) as [_ Hin]. fold (inspect text (x_key (t_exclusion t))). rewrite Hin. cbv zeta.
  destruct (at_target t (inspect (w_live w) (x_key (t_exclusion t)))) eqn:Et; [by apply safely_finalize|].
  destruct (negb pushed && _ && rollback) eqn:Eb; [|by apply safely_ret]. bools.
  destruct Hs as (n & Es & Eo & Ek).
  assert (Hl : t_operation n = RestoreBaseline → inspect (w_live w) (x_key (t_exclusion n)) = LiveAbsent).
  { rewrite Eo, Ek. by apply at_source_live. }
  apply safely_bind, safely_registry; [done| |intros; by apply safely_ret..].
  intros w' Hp. by destruct (inv_clear w n _ w' Hi Es Hl Hp).
Qed.

(** What reconciliation leaves, by what it answers. *)
Definition reconciled_to (key : string) w (r : option BaselineTransitionReconciliation) : Prop :=
  match r with
  | None | Some ReconciledNone => True
  | Some ReconciledExcluded => excluded w key
  | Some ReconciledRestored => restored w key
  | Some (ReconciledResume t) => staged (w_journal w) = Some t ∧ t_operation t = Exclude ∧ x_key (t_exclusion t) = key
  end.

Lemma safely_reconcile w key : inv w →
  safely (reconcileBaselineExclusionTransition sha256 key) w (λ w' r, inv w' ∧ reconciled_to key w' r).
Proof.
  intros Hi. apply safely_keep; [done|]. apply safely_bind, safely_transition; [done|].
  destruct (staged (w_journal w)) as [t|] eqn:Es; [|by apply safely_ret]. cbv zeta.
  destruct (x_key (t_exclusion t) =s key) eqn:Ek; cbn [negb]; [|by apply safely_ret]. bools. subst key.
  apply safely_bind. eapply safely_mono with (P := λ w' b, w' = w ∧ (b = true → t_operation t = RestoreBaseline →
    is_Some (committed (w_journal w) !! x_key (t_exclusion t)))).
  { destruct (t_operation t); [by apply safely_ret|]. apply safely_bind, safely_exclusions; [done|]. apply safely_ret.
    split; [done|]. intros Hb _. bools. by eexists. }
  intros w' unchanged [-> Hu]. destruct unchanged; cbn [negb]; [|by apply safely_ret]. specialize (Hu eq_refl).
  apply safely_bind, safely_read; [done|by apply safely_ret|]. intros text E.
  destruct (live_text w text Hi E) as [_ Hin]. fold (inspect text (x_key (t_exclusion t))). rewrite Hin. cbv zeta.
  assert (Hs : staged_as w t) by by exists t. assert (Hf : target_form t) by apply (ei_staged _ _ _ Hi t Es).
  destruct (at_target t (inspect (w_live w) (x_key (t_exclusion t)))) eqn:Et.
  { apply safely_bind. eapply safely_mono; [by apply safely_finalize|]. intros w' [] Hr; apply safely_ret; [|done].
    specialize (Hr eq_refl). unfold reached in Hr. by destruct (t_operation t). }
  destruct (at_source t (inspect (w_live w) (x_key (t_exclusion t)))) eqn:Esrc; [|by apply safely_ret].
  apply safely_bind, safely_exclusions; [done|].
  destruct (bool_decide (t_operation t = Exclude) && _) eqn:Eb; [bools; by apply safely_ret|].
  assert (Hl : t_operation t = RestoreBaseline → inspect (w_live w) (x_key (t_exclusion t)) = LiveAbsent)
    by by apply at_source_live.
  apply safely_bind, safely_registry; [done| | |intros; by apply safely_ret].
  - intros w' Hp. by destruct (inv_clear w t _ w' Hi Es Hl Hp).
  - intros w' Hp. apply safely_ret. destruct (inv_clear w t _ w' Hi Es Hl Hp) as (_ & E1 & E2 & E3 & _).
    unfold at_source in Esrc. destruct (t_operation t) eqn:Eo; bools; cbn; unfold restored, excluded; rewrite E1, E2, E3.
    + split_and!; [|done|left; by eexists]. rewrite bool_decide_eq_true_2 in Eb by done. cbn in Eb. bools.
      by apply eq_None_not_Some.
    + auto.
Qed.

Lemma safely_neutral d w P : reads d → inv w → (∀ a, P w a) → safely (call d) w P.
Proof. intros Hd Hi HP. apply safely_reads; [done|by split|done]. Qed.

(** The transition that a transaction resumes is the one staged. *)
Definition pends (pending : option BaselineExclusionTransition) (operation : BaselineExclusionTransitionOperation)
    (key : string) w : Prop :=
  ∀ t, pending = Some t → staged (w_journal w) = Some t ∧ t_operation t = operation ∧ x_key (t_exclusion t) = key.

Lemma safely_begin w pending operation x target :
  inv w → js_trim (x_key x) = x_key x → (target = None ↔ operation = Exclude) → pends pending operation (x_key x) w →
  safely (match pending with
        | Some transition => mret (Some transition)
        | None => beginBaselineExclusionTransition operation x target
        end) w
    (λ w' o, inv w' ∧ w_live w' = w_live w ∧ w_baseline w' = w_baseline w ∧ ∀ t, o = Some t →
       staged_as w' t ∧ target_form t ∧ t_operation t = operation ∧ x_key (t_exclusion t) = x_key x).
Proof.
  intros Hi Htrim Hf Hp. destruct pending as [t|].
  { destruct (Hp t eq_refl) as (Es & Eo & Ek). apply safely_ret. split_and!; [done..|]. intros ? [= <-].
    split_and!; [by exists t|by apply (ei_staged _ _ _ Hi t Es)|done..]. }
  apply safely_bind, safely_neutral; [done..|]. intros id. apply safely_bind, safely_neutral; [done..|]. intros at_.
  assert (Hb : ∀ w', performed (BeginTransition (mkTransition id operation x target at_)) w w' →
    inv w' ∧ staged_as w' (mkTransition id operation x target at_) ∧ w_live w' = w_live w ∧ w_baseline w' = w_baseline w)
    by (intros w' Hw; by apply inv_begin).
  apply safely_bind, safely_registry; [done| | |]; [by intros w' [??]%Hb|..].
  - intros w' (? & ? & ? & ?)%Hb. apply safely_ret. split_and!; [done..|]. by intros ? [= <-].
  - intros w' [-> |(? & ? & ? & ?)%Hb]; by apply safely_ret.
Qed.

(** The push and what follows it, for a policy in which only the entry of the transition
    changed. *)
Lemma safely_push_settle w t text rollback : inv w → staged_as w t → target_form t → live_policy text →
  (∀ k, x_key (t_exclusion t) ≠ k → inspect text k = inspect (w_live w) k) →
  (t_operation t = Exclude → inspect text (x_key (t_exclusion t)) = LiveAbsent) →
  safely (pushSucceeded ← attemptBaselineTransitionPolicyPush text;
        settleBaselineExclusionTransitionAfterPush sha256 t pushSucceeded rollback) w
    (λ w' ok, ok = true → reached w' t).
Proof.
  intros Hi Hs Hf Hl Hk Ho. pose proof Hs as (n & Es & Eo & Ek). apply safely_bind, safely_push; [done| |].
  - apply (inv_push w text (x_key (t_exclusion t))); [done..|].
    destruct (t_operation t); [left; by apply Ho|right; by exists n].
  - intros w' b [Ej _] Hi'. apply safely_settle; [done| |done]. unfold staged_as. by rewrite Ej.
Qed.

Lemma safely_exclude w key digest pending : inv w → js_trim key = key → pends pending Exclude key w →
  safely (excludeReconciled sha256 key digest pending) w (λ w' ok, ok = true → excluded w' key).
Proof using Hlaw.
  intros Hi Hkey Hp. unfold excludeReconciled. destruct (from_option _ _ pending); [by apply safely_ret|].
  apply safely_bind, safely_neutral; [done..|]. intros owner. destruct (truthy_opt owner); [by apply safely_ret|].
  apply safely_bind, safely_read; [done|by apply safely_ret|]. intros text E.
  destruct (live_text w text Hi E) as [Hl Hin]. destruct (match inspectLiveBaselineEntry sha256 text key with LiveAbsent => false | _ => _ end);
    [by apply safely_ret|].
  destruct (removeBaselineEntryFromPolicy text key) as [updated removed] eqn:Er.
  apply safely_bind, safely_exclusions; [done|]. cbv zeta.
  apply safely_bind, safely_neutral; [done..|]. intros sandbox. apply safely_bind, safely_neutral; [done..|]. intros at_.
  set (x := mkExclusion _ key _ _ _). destruct removed; cbn [negb].
  - destruct (removal_live text key updated Hlaw Hl Er) as (Hl' & Hk & _).
    apply safely_bind. eapply safely_mono; [by apply safely_begin|]. intros w' [t|] (Hi' & Elive & _ & Ht); [|by apply safely_ret].
    destruct (Ht t eq_refl) as (Hs & Hf & Eo & Ek). eapply safely_mono; [apply safely_push_settle; try done|].
    + intros k Hne. rewrite Ek in Hne. by rewrite Hk, decide_False, Hin, Elive.
    + intros _. by rewrite Ek, Hk, decide_True.
    + intros w'' ok Hr Hok. specialize (Hr Hok). unfold reached in Hr. by rewrite Eo, Ek in Hr.
  - apply no_removal_live in Er; [|done]. rewrite Hin in Er. destruct pending as [t|].
    + destruct (Hp t eq_refl) as (Es & Eo & Ek). eapply safely_mono; [apply safely_finalize; try done|].
      * by exists t.
      * by apply (ei_staged _ _ _ Hi t Es).
      * unfold at_target. rewrite Ek, Er, (proj2 (proj2 (ei_staged _ _ _ Hi t Es)) Eo). by apply bool_decide_eq_true_2.
      * intros w'' ok Hr Hok. specialize (Hr Hok). unfold reached in Hr. by rewrite Eo, Ek in Hr.
    + apply safely_registry; [done| | |done]; intros w' Hw; by destruct (inv_add w x w' Hi Hkey Er Hw).
Qed.

Lemma safely_restore w key pending : inv w → (∀ t, pending = Some t → t_operation t = Exclude) →
  (∀ target, baseline_entry baseline key = Some target → plain_props target) →
  safely (restoreReconciled sha256 to_number key (baseline_entry baseline key) pending) w
    (λ w' ok, ok = true → restored w' key).
Proof using Hlaw.
  intros Hi Hp Hplain. unfold restoreReconciled. cbv zeta.
  destruct pending as [t|]; cbn [from_option].
  { rewrite bool_decide_eq_true_2; [by apply safely_ret|]. by rewrite (Hp t eq_refl). }
  apply safely_bind, safely_exclusions; [done|]. destruct (committed (w_journal w) !! key) as [x|] eqn:Ec; [|by apply safely_ret].
  destruct (ei_keys _ _ _ Hi key x Ec) as [Ek Htrim].
  apply safely_bind, safely_read; [done|by apply safely_ret|]. intros text E.
  destruct (live_text w text Hi E) as [Hl Hin].
  assert (Hremove : ((∃ digest, inspect (w_live w) key = LivePresent digest) ∨ baseline_entry (w_baseline w) key = None) →
    safely (registryTransitionStep (call (RegistryCall (RemoveExclusion key)))) w (λ w' ok, ok = true → restored w' key)).
  { intros Hr. apply safely_registry; [done| | |done]; intros w' Hw;
      destruct (inv_remove w key w' Hi Hw) as (? & ? & ? & El & Eb); [done|]. intros _. unfold restored. by rewrite El, Eb. }
  destruct (baseline_entry baseline key) as [target|] eqn:Eb;
    [|apply Hremove; right; by rewrite (ei_baseline _ _ _ Hi)].
  specialize (Hplain target eq_refl). fold (inspect text key). rewrite Hin.
  destruct (inspect (w_live w) key) as [|digest|] eqn:Elive; [|
    |by apply safely_ret].
  - destruct (merge_live text key target Hlaw Hl Hplain) as [Hl' Hk]. rewrite <- Ek in Htrim. subst key.
    apply safely_bind. eapply safely_mono; [by apply (safely_begin w None)|]. intros w' [t|] (Hi' & El & _ & Ht); [|by apply safely_ret].
    destruct (Ht t eq_refl) as (Hs & Hf & Eo & Ekt). eapply safely_mono; [apply safely_push_settle; try done|].
    + intros k Hne. rewrite Ekt in Hne. by rewrite Hk, decide_False, Hin, El.
    + by rewrite Eo.
    + intros w'' ok Hr Hok. specialize (Hr Hok). unfold reached in Hr. by rewrite Eo, Ekt in Hr.
  - destruct (bool_decide _) eqn:Ed; [|by apply safely_ret]. apply Hremove. left. by eexists.
Qed.

(** The two commands, whatever their first reads find. *)
Lemma safely_gateway w (operation : Prog bool) P : inv w → P w false → safely operation w P →
  safely (withRecordedSandboxGateway operation) w P.
Proof.
  intros Hi Hf Ho. apply safely_bind, safely_neutral; [done..|]. intros []. apply safely_bind, safely_neutral; [done..|].
  intros [row|]; [done|by apply safely_ret].
Qed.

Lemma safely_exclude_command w key digest : inv w → js_trim key = key →
  safely (excludeBaselineEntry sha256 key digest) w (λ w' ok, ok = true → excluded w' key).
Proof using Hlaw.
  intros Hi Hkey. apply safely_gateway; [done..|]. apply safely_bind. eapply safely_mono; [by apply safely_reconcile|].
  intros w' [r|] [Hi' Hr]; [|by apply safely_ret].
  destruct r as [| | |t]; [|by apply safely_ret| |]; apply safely_exclude; try done; intros ? [= <-]; done.
Qed.

Lemma safely_restore_command w key expected : inv w →
  (∀ target, baseline_entry baseline key = Some target → plain_props target) →
  safely (restoreBaselineEntry sha256 to_number key expected) w (λ w' ok, ok = true → restored w' key).
Proof using Hlaw.
  intros Hi Hplain. apply safely_gateway; [done..|]. apply safely_bind, safely_try.
  eapply safe_mono; [apply (safely_baseline_entry w key (λ w' e, w' = w ∧ e = baseline_entry baseline key)); done|].
  intros w0 [entry|e] He; [|by apply safely_ret]. destruct (He entry eq_refl) as [-> ->]. cbv zeta.
  destruct (from_option _ _ expected); [by apply safely_ret|].
  apply safely_bind. eapply safely_mono; [by apply safely_reconcile|]. intros w' [r|] [Hi' Hr]; [|by apply safely_ret].
  destruct r as [| | |t]; [| |by apply safely_ret|]; apply safely_restore; try done; intros ? [= <-]. by destruct Hr as (_ & ? & _).
Qed.

End World.

(** ** Properties *)

(** C3: a transaction on the baseline never loses its meaning.  However its calls fail
    and wherever it is stopped, every committed exclusion that held in the live policy
    still holds there, unless the journal shows that the entry's restore is under way; and
    a command reports success only when it is done: an exclusion is committed, its entry is
    gone from the live policy and nothing is staged; a restored entry is no longer
    excluded, nothing is staged, and the live policy has the entry unless the release's
    baseline dropped it. *)
Theorem exclusion_transactions_safe {yaml : Yaml} sha256 to_number baseline settled w key digest expected :
  yaml_law yaml → js_trim key = key → exclusion_inv sha256 baseline settled w →
  (∀ target, baseline_entry baseline key = Some target → plain_props target) →
  (∀ p w', reaches exclusion_step (excludeBaselineEntry sha256 key digest) w p w' →
     exclusion_inv sha256 baseline settled w' ∧ (p = Return (Ok true) → excluded sha256 w' key))
  ∧ (∀ p w', reaches exclusion_step (restoreBaselineEntry sha256 to_number key expected) w p w' →
     exclusion_inv sha256 baseline settled w' ∧ (p = Return (Ok true) → restored sha256 w' key)).
Proof.
  intros Hlaw Hkey Hi Hplain.
  split; intros p w' Hr.
  - pose proof (safely_exclude_command sha256 Hlaw baseline settled w key digest Hi Hkey) as Hc.
    destruct (safely_reaches _ _ _ _ _ _ _ Hi Hc Hr) as [Hi' HP]. split; [exact Hi'|]. intros E. by apply (HP true).
  - pose proof (safely_restore_command sha256 to_number Hlaw baseline settled w key expected Hi Hplain) as Hc.
    destruct (safely_reaches _ _ _ _ _ _ _ Hi Hc Hr) as [Hi' HP]. split; [exact Hi'|]. intros E. by apply (HP true).
Qed.

(** ** On a concrete sandbox *)

#[local] Existing Instance coded_yaml.

(** Every call is answered without a failure; the registry performs its operations. *)
Definition sample_now : string := "2026-03-01T00:00:00.000Z".
Definition sample_uuid : string := "01234567-89ab-4def-8123-456789abcdef".
Definition reliable (w : ExclusionWorld) (d : ExclusionDep)
    : outcome_of exclusion_answer string d * ExclusionWorld :=
  match d with
  | AssertNoGatewayOverride => (Ok tt, w)
  | GetSandbox => (Ok (Some (Some "openclaw", None)), w)
  | GetExclusions => (Ok (committed (w_journal w)), w)
  | GetTransition => (Ok (staged (w_journal w)), w)
  | PolicyGet => (Ok (if decide (parseCurrentPolicyOrEmpty (w_live w) = w_live w) then w_live w else ""), w)
  | FindAppliedPolicyOwner _ => (Ok None, w)
  | ResolveBaseline => (Ok (w_baseline w), w)
  | PushPolicy policy => (Ok true, mkExclusionWorld (w_journal w) policy (w_baseline w))
  | RandomUuid => (Ok sample_uuid, w)
  | NowIso => (Ok sample_now, w)
  | RegistryCall request =>
      match journal_step (w_journal w) (journal_event request sample_now) with
      | Ok (Some j) => (Ok true, mkExclusionWorld j (w_live w) (w_baseline w))
      | _ => (Ok false, w)
      end
  end.
Definition sample_world : ExclusionWorld :=
  mkExclusionWorld (mkJournal ∅ None) (yaml_stringify (JObj Policy.sample_document)) (Some (yaml_stringify (JObj Policy.sample_document))).
Definition hex_digest (text : string) : string :=
  "0123456789abcdef0123456789abcdef0123456789abcdef0123456789abcdef".
Definition sample_key : string := "pypi".
Definition sample_exclude : Prog bool := excludeBaselineEntry hex_digest sample_key (hex_digest "").
Definition sample_restore : Prog bool := restoreBaselineEntry hex_digest (λ _, NInt 1) sample_key None.

Lemma reliable_steps w d : exclusion_step w d (reliable w d).1 (reliable w d).2.
Proof.
  destruct d as [| | | | | | | | | |request]; cbn; try done.
  - split; [done|]. case_decide as E; [right; by rewrite E|by left].
  - by right.
  - destruct (journal_step _ _) as [[j|]|] eqn:E; cbn; [|done..]. by exists sample_now, j.
Qed.

Lemma sample_inv : exclusion_inv hex_digest (w_baseline sample_world) (λ _, True) sample_world.
Proof.
  split; cbn [w_journal w_live sample_world committed staged]; [|done|by intros ? ?; rewrite lookup_empty|done|].
  - destruct sample_is_policy as (_ & Hp & _ & Hd). exists Policy.sample_document. by split_and!.
  - intros key _ x. cbn. by rewrite lookup_empty.
Qed.

Definition after_exclude : ExclusionWorld := (run_in reliable sample_exclude sample_world).2.
Lemma after_exclude_run : reaches exclusion_step sample_exclude sample_world (Return (Ok true)) after_exclude.
Proof.
  pose proof (run_reaches exclusion_step reliable sample_exclude sample_world reliable_steps) as H.
  by replace (run_in reliable sample_exclude sample_world).1 with (Ok true : result string bool) in H
    by (vm_compute; reflexivity).
Qed.
Definition after_restore : ExclusionWorld := (run_in reliable sample_restore after_exclude).2.
Lemma after_restore_run : reaches exclusion_step sample_restore after_exclude (Return (Ok true)) after_restore.
Proof.
  pose proof (run_reaches exclusion_step reliable sample_restore after_exclude reliable_steps) as H.
  by replace (run_in reliable sample_restore after_exclude).1 with (Ok true : result string bool) in H
    by (vm_compute; reflexivity).
Qed.

Lemma sample_baseline_plain target : baseline_entry (w_baseline sample_world) sample_key = Some target → plain_props target.
Proof.
  cbn [w_baseline sample_world baseline_entry]. rewrite (entry_exact _ _ _ sample_key sample_is_policy). intros [= <-].
  apply plain_object, plain_document_b. reflexivity.
Qed.

(** Excluding the entry and then restoring it, on one sandbox. *)
Lemma exclusion_transactions_safe_witness :
  excluded hex_digest after_exclude sample_key ∧ restored hex_digest after_restore sample_key.
Proof.
  pose proof (exclusion_transactions_safe hex_digest (λ _, NInt 1) (w_baseline sample_world) (λ _, True) sample_world
    sample_key (hex_digest "") None coded_yaml_law eq_refl sample_inv sample_baseline_plain) as [He _].
  destruct (He _ _ after_exclude_run) as [Hi Hx].
  pose proof (exclusion_transactions_safe hex_digest (λ _, NInt 1) (w_baseline sample_world) (λ _, True) after_exclude
    sample_key (hex_digest "") None coded_yaml_law eq_refl Hi sample_baseline_plain) as [_ Hr].
  split; [by apply Hx|]. by apply (Hr _ _ after_restore_run).
Defined.
