(* ===== verification/RegistryLock.v ===== *)
(** * The registry lock (src/lib/state/registry/lock.ts)

    Operations on the registry file run under an advisory lock: a directory made with
    [mkdir], holding a file with the owner's process id.  A waiter that takes the lock
    for an abandoned one removes it.

    Every process runs the code as a program of system calls ([Prog]); a system call is
    atomic, and the processes of a [System] interleave at them, sharing the directory,
    the clock and the process table.  The recursive removal of the directory is one
    call.  As the code assumes, a new directory has a new inode. *)

From S2P Require Import Prelude.

Local Open Scope Z_scope.

(** ** The decision about an existing lock *)

Definition LOCK_STALE_MS : Z := 10000.
Definition LOCK_RETRY_MS : Z := 100.
Definition LOCK_MAX_RETRIES : nat := 120.

Inductive RegistryLockDecision : Type := Break | Wait.
#[export] Instance decision_eq_dec : EqDecision RegistryLockDecision.
Proof. solve_decision. Defined.

Definition classifyExistingLock (ownerPid : option Z) (ownerAlive : bool) (processStartMs : option Z)
    (lockMtimeMs nowMs staleMs : Z) : RegistryLockDecision :=
  let ageMs := nowMs - lockMtimeMs in
  let by_age := if staleMs <? ageMs then Break else Wait in
  match ownerPid with
  | None => by_age
  | Some _ =>
      if negb ownerAlive then Break
      else if from_option (λ start, lockMtimeMs + 1000 <? start) false processStartMs then Break
      else by_age
  end.

(** ** System calls *)

Record LockStat := mkStat { ino : Z; mtimeMs : Z }.
Inductive mkdir_result : Set := MkCreated | MkExists | MkError.

(** The number in the owner file is what [Number.parseInt] reads there: [None] when the
    file is missing, unreadable or not a finite number. *)
Inductive SysCall : Set → Type :=
| MkdirLock : SysCall mkdir_result
| StatLock : SysCall (option LockStat)
| ReadOwner : SysCall (option Z)
| KillZero (pid : Z) : SysCall bool
| ReadStart (pid : Z) : SysCall (option Z)
| DateNow : SysCall Z
| RemoveLock : SysCall unit
| Sleep : SysCall unit
| WriteOwnerTmp : SysCall bool
| RenameOwnerTmp : SysCall bool
| UnlinkOwnerTmp : SysCall unit
| UnlinkOwner : SysCall unit
| RmdirLock : SysCall unit.

Inductive Prog (A : Type) : Type :=
| Return (a : A)
| Do {B : Set} (c : SysCall B) (k : B → Prog A).
Arguments Return {A} a.
Arguments Do {A B} c k.

(** ** [acquireLock] and [releaseLock] *)

Inductive lock_error : Type := MkdirFailed | OwnerFailed | RetriesExhausted.
Definition Acquisition : Type := Prog (result lock_error unit).

Definition rmdir_lock : Acquisition := Do RmdirLock (λ _, Return (Throw OwnerFailed)).
Definition unlink_owner : Acquisition := Do UnlinkOwner (λ _, rmdir_lock).
Definition withdraw : Acquisition := Do UnlinkOwnerTmp (λ _, unlink_owner).
Definition rename_owner : Acquisition :=
  Do RenameOwnerTmp (λ ok, if ok : bool then Return (Ok tt) else withdraw).
Definition publishOwner : Acquisition :=
  Do WriteOwnerTmp (λ ok, if ok : bool then rename_owner else withdraw).

(** One turn of the loop, with [retry] its [continue]. *)
Definition sleep_then (retry : Acquisition) : Acquisition := Do Sleep (λ _, retry).

Definition break_if_same (retry : Acquisition) (lockStat : LockStat) (ownerPid : option Z) : Acquisition :=
  Do StatLock (λ currentStat,
    match currentStat with
    | None => sleep_then retry
    | Some c =>
        if negb ((ino c =? ino lockStat) && (mtimeMs c =? mtimeMs lockStat)) then sleep_then retry
        else match ownerPid with
             | None => Do RemoveLock (λ _, retry)
             | Some pid => Do ReadOwner (λ recheck,
                 if bool_decide (recheck = Some pid) then Do RemoveLock (λ _, retry) else sleep_then retry)
             end
    end).

Definition decide_lock (retry : Acquisition) (lockStat : LockStat) (ownerPid : option Z) (ownerAlive : bool)
    (processStartMs : option Z) : Acquisition :=
  Do DateNow (λ now,
    match classifyExistingLock ownerPid ownerAlive processStartMs (mtimeMs lockStat) now LOCK_STALE_MS with
    | Break => break_if_same retry lockStat ownerPid
    | Wait => sleep_then retry
    end).

Definition probe_start (retry : Acquisition) (lockStat : LockStat) (pid : Z) (ownerAlive : bool) : Acquisition :=
  if ownerAlive then Do (ReadStart pid) (λ start, decide_lock retry lockStat (Some pid) true start)
  else decide_lock retry lockStat (Some pid) false None.

Definition probe_owner (retry : Acquisition) (lockStat : LockStat) : Acquisition :=
  Do ReadOwner (λ parsed,
    match parsed with
    | Some pid =>
        if 0 <? pid then Do (KillZero pid) (λ alive, probe_start retry lockStat pid alive)
        else decide_lock retry lockStat None false None
    | None => decide_lock retry lockStat None false None
    end).

Definition contend (retry : Acquisition) : Acquisition :=
  Do StatLock (λ lockStat, match lockStat with None => retry | Some st => probe_owner retry st end).

Fixpoint acquire_from (retries : nat) : Acquisition :=
  match retries with
  | O => Return (Throw RetriesExhausted)
  | S retries =>
      Do MkdirLock (λ made, match made with
        | MkError => Return (Throw MkdirFailed)
        | MkExists => contend (acquire_from retries)
        | MkCreated => publishOwner
        end)
  end.
Definition acquireLock : Acquisition := acquire_from LOCK_MAX_RETRIES.

Definition remove_lock : Prog unit := Do RemoveLock (λ _, Return tt).
Definition releaseLock : Prog unit := Do UnlinkOwner (λ _, remove_lock).

(** ** The machine *)

(** The lock directory: when it was made, when its entries last changed, its owner file
    and the unpublished owner files in it, by process. *)
Record LockDir := mkLock {
  l_ino : Z;
  l_birth : Z;
  l_mtime : Z;
  l_owner : option (option Z);
  l_tmp : list Z;
}.
#[export] Instance eta_lock : Eta LockDir := λ l,
  mkLock (l_ino l) (l_birth l) (l_mtime l) (l_owner l) (l_tmp l).

(** What a process is doing about the lock; [Holding]: it runs the operation. *)
Inductive Activity : Type :=
| Idle
| Acquiring (rest : Acquisition)
| Holding
| Releasing (rest : Prog unit).

Record Process := mkProcess { p_start : Z; p_does : Activity }.

Record System := mkSystem {
  clock : Z;
  lock : option LockDir;
  next_ino : Z;
  procs : gmap Z Process;
}.
#[export] Instance eta_system : Eta System := λ s, mkSystem (clock s) (lock s) (next_ino s) (procs s).

Definition touch (s : System) (f : LockDir → LockDir) : System :=
  s <| lock := (λ l, f l <| l_mtime := clock s |>) <$> lock s |>.

(** A system call of process [pid]; [fault] makes a call that may fail do so. *)
Definition perform (pid : Z) (fault : bool) {B : Set} (c : SysCall B) (s : System) : B * System :=
  match c in SysCall B return B * System with
  | MkdirLock =>
      if fault then (MkError, s)
      else match lock s with
           | Some _ => (MkExists, s)
           | None => (MkCreated, s <| lock := Some (mkLock (next_ino s) (clock s) (clock s) None []) |>
                                   <| next_ino := next_ino s + 1 |>)
           end
  | StatLock => (if fault then None else (λ l, mkStat (l_ino l) (l_mtime l)) <$> lock s, s)
  | ReadOwner => (if fault then None else l ← lock s; o ← l_owner l; o, s)
  | KillZero p => (bool_decide (is_Some (procs s !! p)), s)
  | ReadStart p => (if fault then None else p_start <$> procs s !! p, s)
  | DateNow => (clock s, s)
  | RemoveLock => (tt, s <| lock := None |>)
  | Sleep => (tt, s)
  | WriteOwnerTmp =>
      if fault || bool_decide (lock s = None) then (false, s)
      else (true, touch s (λ l, l <| l_tmp := pid :: List.filter (λ p, negb (p =? pid)) (l_tmp l) |>))
  | RenameOwnerTmp =>
      match lock s with
      | Some l =>
          if fault || negb (existsb (Z.eqb pid) (l_tmp l)) then (false, s)
          else (true, touch s (λ l, l <| l_owner := Some (Some pid) |>
                                      <| l_tmp := List.filter (λ p, negb (p =? pid)) (l_tmp l) |>))
      | None => (false, s)
      end
  | UnlinkOwnerTmp =>
      (tt, if from_option (λ l, existsb (Z.eqb pid) (l_tmp l)) false (lock s)
           then touch s (λ l, l <| l_tmp := List.filter (λ p, negb (p =? pid)) (l_tmp l) |>) else s)
  | UnlinkOwner =>
      (tt, if bool_decide (is_Some (lock s ≫= l_owner)) then touch s (λ l, l <| l_owner := None |>) else s)
  | RmdirLock =>
      (tt, s <| lock := (l ← lock s;
                         if bool_decide (l_owner l = None) && bool_decide (l_tmp l = []) then None else Some l) |>)
  end.

(** ** Processes interleaved *)

Definition settle_acquisition (p : Acquisition) : Activity :=
  match p with
  | Return (Ok _) => Holding
  | Return (Throw _) => Idle
  | _ => Acquiring p
  end.
Definition settle_release (p : Prog unit) : Activity :=
  match p with Return _ => Idle | _ => Releasing p end.

Inductive Label : Type :=
| Tick (d : nat)
| Begin (pid : Z)
| Run (pid : Z) (fault : bool)
| Finish (pid : Z)
| Spawn (pid : Z)
| Exit (pid : Z)
| Crash (pid : Z).

Definition becomes (s : System) (pid : Z) (start : Z) (a : Activity) : System :=
  s <| procs := <[pid := mkProcess start a]> (procs s) |>.

Definition step (label : Label) (s : System) : option System :=
  match label with
  | Tick d => Some (s <| clock := clock s + Z.of_nat d |>)
  | Begin pid =>
      p ← procs s !! pid;
      match p_does p with Idle => Some (becomes s pid (p_start p) (Acquiring acquireLock)) | _ => None end
  | Run pid fault =>
      p ← procs s !! pid;
      match p_does p with
      | Acquiring (Do c k) =>
          let '(b, s') := perform pid fault c s in Some (becomes s' pid (p_start p) (settle_acquisition (k b)))
      | Releasing (Do c k) =>
          let '(b, s') := perform pid fault c s in Some (becomes s' pid (p_start p) (settle_release (k b)))
      | _ => None
      end
  | Finish pid =>
      p ← procs s !! pid;
      match p_does p with Holding => Some (becomes s pid (p_start p) (Releasing releaseLock)) | _ => None end
  | Spawn pid =>
      match procs s !! pid with None => Some (becomes s pid (clock s) Idle) | Some _ => None end
  | Exit pid =>
      p ← procs s !! pid;
      match p_does p with Idle => Some (s <| procs := delete pid (procs s) |>) | _ => None end
  | Crash pid => p ← procs s !! pid; Some (s <| procs := delete pid (procs s) |>)
  end.

Fixpoint run (labels : list Label) (s : System) : option System :=
  match labels with
  | [] => Some s
  | label :: labels => s ← step label s; run labels s
  end.

Definition holds (s : System) (pid : Z) : bool :=
  match procs s !! pid with Some p => match p_does p with Holding => true | _ => false end | None => false end.

(** No lock directory is older than an operation on the registry may take. *)
Definition timely (s : System) : bool :=
  match lock s with Some l => clock s - l_birth l <=? LOCK_STALE_MS | None => true end.
Definition is_crash (label : Label) : bool := match label with Crash _ => true | _ => false end.

Definition calm_step (s s' : System) : Prop :=
  ∃ label, is_crash label = false ∧ step label s = Some s' ∧ timely s' = true.

Definition quiet (s : System) : Prop :=
  lock s = None ∧ ∀ pid p, procs s !! pid = Some p → p_does p = Idle ∧ p_start p ≤ clock s.

Definition machine_of (pids : list Z) : System :=
  mkSystem 0 None 1 (list_to_map ((λ p, (p, mkProcess 0 Idle)) <$> pids)).

(** Two waiters that both saw the lock of a crashed process. *)
Definition acquire_run (pid : Z) (n : nat) : list Label := Begin pid :: repeat (Run pid false) n.
Definition race : list Label :=
  acquire_run 1 3 ++ [Crash 1; Tick 50] ++ acquire_run 2 7 ++ acquire_run 3 7
  ++ repeat (Run 2 false) 4 ++ repeat (Run 3 false) 4.

Example race_ends : (λ s, (holds s 2, holds s 3, timely s)) <$> run race (machine_of [1; 2; 3]) = Some (true, true, true).
Proof. vm_compute. reflexivity. Qed.

(** ** The invariant of calm runs *)

(** What the owner of the directory [l] is doing, and what the directory then holds. *)
Inductive owner_stage (pid : Z) (l : LockDir) : Activity → Prop :=
| OwnWrite : l_owner l = None → l_tmp l = [] → owner_stage pid l (Acquiring publishOwner)
| OwnRename : l_owner l = None → l_tmp l = [pid] → owner_stage pid l (Acquiring rename_owner)
| OwnWithdraw : l_owner l = None → l_tmp l = [] ∨ l_tmp l = [pid] → owner_stage pid l (Acquiring withdraw)
| OwnUnlink : l_owner l = None → l_tmp l = [] → owner_stage pid l (Acquiring unlink_owner)
| OwnRmdir : l_owner l = None → l_tmp l = [] → owner_stage pid l (Acquiring rmdir_lock)
| OwnHold : l_owner l = Some (Some pid) → l_tmp l = [] → owner_stage pid l Holding
| OwnRelease : l_owner l = Some (Some pid) → l_tmp l = [] → owner_stage pid l (Releasing releaseLock)
| OwnRemove : l_owner l = None → l_tmp l = [] → owner_stage pid l (Releasing remove_lock).

(** [pid] owns the directory that is there. *)
Definition owns (s : System) (pid : Z) : Prop :=
  ∃ l p, lock s = Some l ∧ procs s !! pid = Some p ∧ owner_stage pid l (p_does p) ∧ p_start p ≤ l_birth l.

(** What a waiter knows of the directory it looked at, if that one is still there. *)
Definition still (s : System) (st : LockStat) (P : LockDir → Prop) : Prop :=
  ∀ l, lock s = Some l → l_ino l = ino st → P l.
Definition seen (s : System) (st : LockStat) : Prop :=
  ino st < next_ino s ∧ still s st (λ l, l_birth l ≤ mtimeMs st).

Inductive waiter_stage (s : System) : Activity → Prop :=
| WaitIdle : waiter_stage s Idle
| WaitMkdir n : waiter_stage s (Acquiring (acquire_from (S n)))
| WaitStat n : waiter_stage s (Acquiring (contend (acquire_from n)))
| WaitOwner n st : seen s st → waiter_stage s (Acquiring (probe_owner (acquire_from n) st))
| WaitKill n st pid :
    seen s st → still s st (λ _, owns s pid) →
    waiter_stage s (Acquiring (Do (KillZero pid) (λ alive, probe_start (acquire_from n) st pid alive)))
| WaitStart n st pid :
    seen s st → still s st (λ _, owns s pid) →
    waiter_stage s (Acquiring (probe_start (acquire_from n) st pid true))
| WaitDecide n st ownerPid alive start :
    seen s st →
    still s st (λ _, ∀ now, classifyExistingLock ownerPid alive start (mtimeMs st) now LOCK_STALE_MS = Break →
                            LOCK_STALE_MS < now - mtimeMs st) →
    waiter_stage s (Acquiring (decide_lock (acquire_from n) st ownerPid alive start))
| WaitRecheck n st ownerPid :
    seen s st → still s st (λ _, False) →
    waiter_stage s (Acquiring (break_if_same (acquire_from n) st ownerPid))
| WaitSleep n : waiter_stage s (Acquiring (sleep_then (acquire_from n))).

Record lock_inv (s : System) : Prop := {
  inv_lock : ∀ l, lock s = Some l → l_ino l < next_ino s ∧ l_birth l ≤ l_mtime l ∧ l_mtime l ≤ clock s;
  inv_start : ∀ pid p, procs s !! pid = Some p → p_start p ≤ clock s;
  inv_held : ∀ l, lock s = Some l → ∃ pid, owns s pid;
  inv_others : ∀ pid p, procs s !! pid = Some p → owns s pid ∨ waiter_stage s (p_does p);
  inv_one : ∀ pid pid', owns s pid → owns s pid' → pid = pid';
}.

(** ** What one step leaves of what a waiter knows *)

(** The directory of the later state is the earlier one with its owner, or a new one. *)
Definition frame (s s' : System) : Prop :=
  next_ino s ≤ next_ino s'
  ∧ ∀ l', lock s' = Some l' →
      next_ino s ≤ l_ino l'
      ∨ ∃ l, lock s = Some l ∧ l_ino l = l_ino l' ∧ l_birth l = l_birth l' ∧ ∀ pid, owns s pid → owns s' pid.

Lemma still_frame s s' st (P P' : LockDir → Prop) :
  frame s s' → ino st < next_ino s → still s st P →
  (∀ l l', P l → l_birth l = l_birth l' → (∀ pid, owns s pid → owns s' pid) → P' l') → still s' st P'.
Proof.
  intros [_ Hf] Hi Hs HP l' Hl' E. destruct (Hf l' Hl') as [Hn|(l & Hl & Ei & Eb & Ho)]; [lia|].
  eapply HP; [apply (Hs l Hl); congruence|done|done].
Qed.

Lemma seen_frame s s' st : frame s s' → seen s st → seen s' st.
Proof.
  intros Hf [Hi Hs]. split; [destruct Hf; lia|]. eapply still_frame; [done..|]. cbn. intros. lia.
Qed.

Lemma waiter_frame s s' a : frame s s' → waiter_stage s a → waiter_stage s' a.
Proof.
  intros Hf []; constructor; try (by eapply seen_frame);
    (eapply still_frame; [done|by apply H|done|]; cbn; intros; naive_solver).
Qed.

(** ** One process moves *)

Lemma becomes_lookup s pid start a q :
  procs (becomes s pid start a) !! q = if decide (pid = q) then Some (mkProcess start a) else procs s !! q.
Proof.
  unfold becomes. cbn [procs]. case_decide as E; [subst; apply lookup_insert_eq|by apply lookup_insert_ne].
Qed.

Definition call_id {B : Set} (c : SysCall B) : nat :=
  match c with
  | MkdirLock => 1 | StatLock => 2 | ReadOwner => 3 | KillZero _ => 4 | ReadStart _ => 5 | DateNow => 6
  | RemoveLock => 7 | Sleep => 8 | WriteOwnerTmp => 9 | RenameOwnerTmp => 10 | UnlinkOwnerTmp => 11
  | UnlinkOwner => 12 | RmdirLock => 13
  end.
Definition activity_id (a : Activity) : nat :=
  match a with
  | Idle => 0
  | Acquiring (Do c _) => call_id c
  | Acquiring (Return _) => 14
  | Holding => 15
  | Releasing _ => 16
  end.

Lemma stages_disjoint s pid l a : owner_stage pid l a → waiter_stage s a → False.
Proof.
  intros Ho Hw.
  assert (activity_id a ∈ [9; 10; 11; 12; 13; 15; 16]%nat) as H by (destruct Ho; cbn; set_unfold; tauto).
  destruct Hw; cbn in H; set_unfold; lia.
Qed.

Lemma waiter_not_owner s pid p :
  procs s !! pid = Some p → waiter_stage s (p_does p) → ¬ owns s pid.
Proof. intros Hp Hw (l & p' & _ & Hp' & Ho & _). rewrite Hp in Hp'. injection Hp' as <-. by eapply stages_disjoint. Qed.

(** [pid] does not own the directory and does something else, with nothing shared changed. *)
Lemma frame_becomes s pid start a :
  (∀ l, lock s = Some l → l_ino l < next_ino s) → ¬ owns s pid → frame s (becomes s pid start a).
Proof.
  intros Hl Hn. split; [cbn; lia|]. intros l Hl'. right. exists l. split_and!; [done..|].
  intros q (l0 & p & H0 & Hp & Ho & Hs). exists l0, p. split_and!; [done| |done..].
  rewrite becomes_lookup, decide_False; [done|]. intros ->. apply Hn. by exists l0, p.
Qed.

Lemma owns_becomes s pid start a q :
  waiter_stage s a → owns (becomes s pid start a) q → owns s q ∧ pid ≠ q.
Proof.
  intros Ha (l & p & Hl & Hp & Ho & Hs). rewrite becomes_lookup in Hp. case_decide as E.
  - injection Hp as <-. destruct (stages_disjoint _ _ _ _ Ho Ha).
  - split; [by exists l, p|done].
Qed.

Lemma inv_becomes s pid start a :
  lock_inv s → ¬ owns s pid → start ≤ clock s → waiter_stage s a → lock_inv (becomes s pid start a).
Proof.
  intros Hi Hn Hst Ha.
  assert (Hf : frame s (becomes s pid start a)) by (apply frame_becomes; [by intros; apply Hi|done]).
  split.
  - apply (inv_lock _ Hi).
  - intros q p. rewrite becomes_lookup. case_decide; [intros [= <-]; done|apply (inv_start _ Hi)].
  - intros l Hl. destruct (inv_held _ Hi l Hl) as [q Hq]. exists q.
    destruct Hf as [_ Hf]. destruct (Hf l Hl) as [Hc|(? & _ & _ & _ & H)]; [apply Hi in Hl; lia|by apply H].
  - intros q p. rewrite becomes_lookup. case_decide.
    + intros [= <-]. right. by eapply waiter_frame.
    + intros Hp. destruct (inv_others _ Hi q p Hp) as [Hq|Hw]; [left|right; by eapply waiter_frame].
      destruct Hq as (l & p' & Hl & ? & ? & ?). exists l, p'. rewrite becomes_lookup, decide_False by done.
      split_and!; done.
  - intros q q' Hq Hq'. apply owns_becomes in Hq as [Hq _], Hq' as [Hq' _]; [|done..]. by apply (inv_one _ Hi).
Qed.

Lemma waiter_retry s n : waiter_stage s (settle_acquisition (acquire_from n)).
Proof. destruct n; cbn; constructor. Qed.

(** A waiter never removes the directory of a calm run. *)
Lemma waiter_run s pid fault start a s' :
  lock_inv s → timely s = true → procs s !! pid = Some (mkProcess start a) → waiter_stage s a →
  step (Run pid fault) s = Some s' →
  (∃ a', waiter_stage s a' ∧ s' = becomes s pid start a')
  ∨ (lock s = None
     ∧ s' = becomes (s <| lock := Some (mkLock (next_ino s) (clock s) (clock s) None []) |>
                       <| next_ino := next_ino s + 1 |>) pid start (Acquiring publishOwner)).
Proof.
  intros Hi Ht Hp Hw Hr. cbn [step] in Hr. rewrite Hp in Hr. cbn [mbind option_bind p_does p_start] in Hr.
  destruct Hw as [|n|n|n st Hs|n st q Hs Hq|n st q Hs Hq|n st o al sm Hs Hc|n st o Hs Hc|n].
  - discriminate Hr.
  - cbn [acquire_from perform] in Hr. destruct fault; [|destruct (lock s) eqn:El]; injection Hr as <-.
    + left. eexists. split; [|done]. constructor.
    + left. eexists. split; [|done]. apply WaitStat.
    + by right.
  - cbn [contend perform] in Hr. injection Hr as <-. left. eexists. split; [|done].
    destruct fault; [apply waiter_retry|]. destruct (lock s) as [l|] eqn:El; [|apply waiter_retry].
    apply WaitOwner. pose proof (inv_lock _ Hi l El) as (? & ? & ?). split; [done|].
    intros l' Hl' _. rewrite El in Hl'. injection Hl' as <-. done.
  - cbn [probe_owner perform] in Hr. injection Hr as <-. left. eexists. split; [|done].
    assert (Hnone : waiter_stage s (Acquiring (decide_lock (acquire_from n) st None false None))).
    { apply WaitDecide; [done|]. intros _ _ _ now. cbn. destruct (Z.ltb_spec LOCK_STALE_MS (now - mtimeMs st)); [lia|done]. }
    destruct fault; [done|]. destruct (lock s) as [l|] eqn:El; [|done]. cbn [mbind option_bind].
    destruct (l_owner l) as [[q|]|] eqn:Eo; [|done..]. cbn [mbind option_bind].
    destruct (0 <? q); [|done]. apply WaitKill; [done|]. intros l0 Hl0 _. rewrite El in Hl0. injection Hl0 as <-.
    destruct (inv_held _ Hi l El) as (q' & l' & p' & Hl' & Hp' & Ho & Hst). rewrite El in Hl'. injection Hl' as <-.
    assert (q' = q) as <- by (destruct Ho; congruence). by exists l, p'.
  - cbn [perform] in Hr. injection Hr as <-. left. eexists. split; [|done].
    case_bool_decide as Ha; cbn [probe_start]; [by apply WaitStart|].
    apply WaitDecide; [done|]. intros l Hl E. destruct (Hq l Hl E) as (? & p' & _ & Hp' & _). destruct Ha. by exists p'.
  - cbn [probe_start perform] in Hr. injection Hr as <-. left. eexists. split; [|done].
    apply WaitDecide; [done|]. intros l Hl E now. cbn [classifyExistingLock negb].
    assert (from_option (λ x, mtimeMs st + 1000 <? x) false (if fault then None else p_start <$> procs s !! q) = false) as ->.
    { destruct fault; [done|]. destruct (Hq l Hl E) as (l' & p' & Hl' & Hp' & _ & Hst). rewrite Hp'. cbn.
      destruct Hs as [_ Hs]. pose proof (Hs l Hl E). apply Z.ltb_ge. cbn in *. rewrite Hl in Hl'. injection Hl' as <-. lia. }
    destruct (Z.ltb_spec LOCK_STALE_MS (now - mtimeMs st)); [lia|done].
  - cbn [decide_lock perform] in Hr. injection Hr as <-. left. eexists. split; [|done].
    destruct (classifyExistingLock _ _ _ _ _ _) eqn:Ec; [|apply WaitSleep]. apply WaitRecheck; [done|].
    intros l Hl E. pose proof (Hc l Hl E _ Ec). destruct Hs as [_ Hs]. pose proof (Hs l Hl E). cbn in *.
    unfold timely in Ht. rewrite Hl in Ht. apply Z.leb_le in Ht. lia.
  - cbn [break_if_same perform] in Hr. injection Hr as <-. left. eexists. split; [|done].
    destruct fault; [apply WaitSleep|]. destruct (lock s) as [l|] eqn:El; [|apply WaitSleep].
    cbn [fmap option_fmap option_map ino]. destruct (Z.eqb_spec (l_ino l) (ino st)) as [E|E]; [|apply WaitSleep].
    destruct (Hc l El E).
  - cbn [sleep_then perform] in Hr. injection Hr as <-. left. eexists. split; [apply waiter_retry|done].
Qed.

(** The directory [l] as its owner leaves it. *)
Definition same_dir (s : System) (l l' : LockDir) : Prop :=
  l_ino l' = l_ino l ∧ l_birth l' = l_birth l ∧ (l_mtime l' = l_mtime l ∨ l_mtime l' = clock s).

Lemma same_dir_refl s l : same_dir s l l.
Proof. split_and!; [done..|by left]. Qed.

(** The owner publishes its id, gives up, or removes the directory. *)
Lemma owner_run s pid fault l start a s' :
  lock s = Some l → procs s !! pid = Some (mkProcess start a) → owner_stage pid l a →
  step (Run pid fault) s = Some s' →
  ∃ ol a', s' = becomes (s <| lock := ol |>) pid start a'
    ∧ match ol with Some l' => same_dir s l l' ∧ owner_stage pid l' a' | None => a' = Idle end.
Proof.
  intros Hl Hp Ho Hr. cbn [step] in Hr. rewrite Hp in Hr. cbn [mbind option_bind p_does p_start] in Hr.
  assert (Hs : s = s <| lock := Some l |>) by (destruct s; cbn in *; by subst).
  assert (Hkeep : ∀ a', owner_stage pid l a' → ∃ ol a'', becomes s pid start a' = becomes (s <| lock := ol |>) pid start a''
    ∧ match ol with Some l' => same_dir s l l' ∧ owner_stage pid l' a'' | None => a'' = Idle end).
  { intros a' Ha. exists (Some l), a'. rewrite <- Hs. split; [done|]. split; [apply same_dir_refl|done]. }
  assert (Htouch : ∀ f a', same_dir s l (f l <| l_mtime := clock s |>) → owner_stage pid (f l <| l_mtime := clock s |>) a' →
    ∃ ol a'', becomes (touch s f) pid start a' = becomes (s <| lock := ol |>) pid start a''
    ∧ match ol with Some l' => same_dir s l l' ∧ owner_stage pid l' a'' | None => a'' = Idle end).
  { intros f a' Hd Ha. exists (Some (f l <| l_mtime := clock s |>)), a'. unfold touch. rewrite Hl. split; [done|]. by split. }
  assert (Hsame : ∀ l', l_ino l' = l_ino l → l_birth l' = l_birth l → same_dir s l (l' <| l_mtime := clock s |>))
    by (intros l' ? ?; split_and!; [done..|by right]).
  destruct Ho as [Hw Ht|Hw Ht|Hw Ht|Hw Ht|Hw Ht|Hw Ht|Hw Ht|Hw Ht].
  - cbn [publishOwner perform] in Hr. rewrite Hl in Hr. rewrite bool_decide_eq_false_2 in Hr by done.
    destruct fault; cbn [orb] in Hr; injection Hr as <-.
    + apply Hkeep. apply OwnWithdraw; [done|by left].
    + apply Htouch; [by apply Hsame|]. apply OwnRename; [done|]. cbn. by rewrite Ht.
  - cbn [rename_owner perform] in Hr. rewrite Hl, Ht in Hr. cbn [existsb] in Hr. rewrite Z.eqb_refl in Hr.
    destruct fault; cbn [orb negb] in Hr; injection Hr as <-.
    + apply Hkeep. apply OwnWithdraw; [done|by right].
    + apply Htouch; [by apply Hsame|]. apply OwnHold; [done|]. cbn. rewrite Ht. cbn. by rewrite Z.eqb_refl.
  - cbn [withdraw perform] in Hr. rewrite Hl in Hr. cbn [from_option] in Hr. injection Hr as <-.
    destruct Ht as [Ht|Ht]; rewrite Ht; cbn [existsb].
    + apply Hkeep. by apply OwnUnlink.
    + rewrite Z.eqb_refl. cbn [orb]. apply Htouch; [by apply Hsame|]. apply OwnUnlink; [done|]. cbn. rewrite Ht. cbn.
      by rewrite Z.eqb_refl.
  - cbn [unlink_owner perform] in Hr. rewrite Hl in Hr. cbn [mbind option_bind] in Hr. rewrite Hw in Hr.
    rewrite bool_decide_eq_false_2 in Hr by (by intros []). injection Hr as <-. apply Hkeep. by apply OwnRmdir.
  - cbn [rmdir_lock perform] in Hr. rewrite Hl in Hr. cbn [mbind option_bind] in Hr. rewrite Hw, Ht in Hr.
    cbn in Hr. injection Hr as <-. by exists None, Idle.
  - discriminate Hr.
  - cbn [releaseLock perform] in Hr. rewrite Hl in Hr. cbn [mbind option_bind] in Hr. rewrite Hw in Hr.
    rewrite bool_decide_eq_true_2 in Hr by done. injection Hr as <-. apply Htouch; [by apply Hsame|]. by apply OwnRemove.
  - cbn [remove_lock perform] in Hr. injection Hr as <-. by exists None, Idle.
Qed.

Lemma inv_owner_moves s pid start a l ol a' :
  lock_inv s → lock s = Some l → procs s !! pid = Some (mkProcess start a) → owner_stage pid l a →
  match ol with Some l' => same_dir s l l' ∧ owner_stage pid l' a' | None => a' = Idle end →
  lock_inv (becomes (s <| lock := ol |>) pid start a').
Proof.
  intros Hi Hl Hp Ho Hol. set (s' := becomes _ _ _ _). pose proof (inv_lock _ Hi l Hl) as (Hi1 & Hi2 & Hi3).
  assert (Hst : start ≤ l_birth l).
  { destruct (inv_others _ Hi _ _ Hp) as [(l0 & p0 & H0 & Hp0 & _ & H)|Hw]; [|destruct (stages_disjoint _ _ _ _ Ho Hw)].
    rewrite Hl in H0. injection H0 as <-. rewrite Hp in Hp0. by injection Hp0 as <-. }
  assert (Hown : owns s pid) by (by exists l, (mkProcess start a)).
  assert (Hown' : ∀ l', ol = Some l' → owns s' pid).
  { intros l' ->. destruct Hol as [(_ & Hb & _) Ho']. exists l', (mkProcess start a').
    unfold s'. rewrite becomes_lookup, decide_True by done. split_and!; [done..|cbn; lia]. }
  assert (Hf : frame s s').
  { split; [cbn; lia|]. intros l' Hl'. right. exists l. change (ol = Some l') in Hl'. pose proof (Hown' l' Hl'). subst ol.
    destruct Hol as [(Ei & Eb & _) _]. split_and!; [done..|]. intros q Hq. by rewrite (inv_one _ Hi q pid). }
  assert (Hone : ∀ q, owns s' q → q = pid).
  { intros q (l' & p & Hl' & Hpq & Hoq & _). unfold s' in Hpq. rewrite becomes_lookup in Hpq. case_decide as E; [done|].
    destruct (inv_others _ Hi _ _ Hpq) as [Hq|Hw]; [by apply (inv_one _ Hi)|destruct (stages_disjoint _ _ _ _ Hoq Hw)]. }
  split.
  - intros l' Hl'. change (ol = Some l') in Hl'. subst ol. destruct Hol as [(Ei & Eb & Em) _].
    change (l_ino l' < next_ino s ∧ l_birth l' ≤ l_mtime l' ∧ l_mtime l' ≤ clock s). lia.
  - intros q p. unfold s'. rewrite becomes_lookup. case_decide; [|apply (inv_start _ Hi)].
    intros [= <-]. change (start ≤ clock s). lia.
  - intros l' Hl'. exists pid. by eapply Hown'.
  - intros q p. unfold s'. rewrite becomes_lookup. case_decide as E.
    + intros [= <-]. subst q. destruct ol as [l'|]; [left; by eapply Hown'|right; subst a'; constructor].
    + intros Hq. right. destruct (inv_others _ Hi _ _ Hq) as [Hoq|Hw]; [by destruct E; apply (inv_one _ Hi)|].
      by eapply waiter_frame.
  - intros q q' Hq Hq'. by rewrite (Hone q), (Hone q').
Qed.

Lemma inv_create s pid start a :
  lock_inv s → lock s = None → procs s !! pid = Some (mkProcess start a) →
  lock_inv (becomes (s <| lock := Some (mkLock (next_ino s) (clock s) (clock s) None []) |>
                       <| next_ino := next_ino s + 1 |>) pid start (Acquiring publishOwner)).
Proof.
  intros Hi Hl Hp. set (s' := becomes _ _ _ _).
  assert (Hf : frame s s').
  { split; [cbn; lia|]. intros l' [= <-]. left. cbn. lia. }
  assert (Hn : ∀ q, ¬ owns s q) by (intros q (l & _ & H & _); congruence).
  assert (Hw : ∀ q p, procs s !! q = Some p → waiter_stage s (p_does p)).
  { intros q p Hq. destruct (inv_others _ Hi _ _ Hq) as [H|H]; [destruct (Hn _ H)|done]. }
  assert (Hone : ∀ q, owns s' q → q = pid).
  { intros q (l' & p & Hl' & Hpq & Hoq & _). unfold s' in Hpq. rewrite becomes_lookup in Hpq. case_decide as E; [done|].
    destruct (stages_disjoint _ _ _ _ Hoq (Hw _ _ Hpq)). }
  assert (Hown : owns s' pid).
  { eexists _, (mkProcess start (Acquiring publishOwner)). unfold s'. rewrite becomes_lookup, decide_True by done.
    split_and!; [done..|by apply OwnWrite|]. exact (inv_start _ Hi _ _ Hp). }
  split.
  - intros l' [= <-]. cbn. lia.
  - intros q p. unfold s'. rewrite becomes_lookup. case_decide; [intros [= <-]; exact (inv_start _ Hi _ _ Hp)|apply (inv_start _ Hi)].
  - intros l' _. by exists pid.
  - intros q p. unfold s'. rewrite becomes_lookup. case_decide as E; [intros [= <-]; subst q; by left|].
    intros Hq. right. eapply waiter_frame; [exact Hf|by eapply Hw].
  - intros q q' Hq Hq'. by rewrite (Hone q), (Hone q').
Qed.

Lemma inv_run s pid fault s' :
  lock_inv s → timely s = true → step (Run pid fault) s = Some s' → lock_inv s'.
Proof.
  intros Hi Ht Hr. destruct (procs s !! pid) as [[start a]|] eqn:Hp; [|cbn in Hr; by rewrite Hp in Hr].
  destruct (inv_others _ Hi _ _ Hp) as [Ho|Hw]; cbn [p_does] in *.
  - destruct Ho as (l & p & Hl & Hp' & Ho & _). rewrite Hp in Hp'. injection Hp' as <-.
    destruct (owner_run _ _ _ _ _ _ _ Hl Hp Ho Hr) as (ol & a' & -> & Hol). by eapply inv_owner_moves.
  - destruct (waiter_run _ _ _ _ _ _ Hi Ht Hp Hw Hr) as [(a' & Ha' & ->)|[Hl ->]]; [|by eapply inv_create].
    apply inv_becomes; [done| |exact (inv_start _ Hi _ _ Hp)|done]. by eapply waiter_not_owner.
Qed.

(** Time passes and idle processes come and go. *)
Lemma inv_later s s' :
  lock_inv s → lock s' = lock s → next_ino s' = next_ino s → clock s ≤ clock s' →
  (∀ q p, procs s' !! q = Some p → p_start p ≤ clock s' ∧ (procs s !! q = Some p ∨ p_does p = Idle)) →
  (∀ q p, procs s !! q = Some p → procs s' !! q = Some p ∨ p_does p = Idle) → lock_inv s'.
Proof.
  intros Hi Hl Hn Hc Hnew Hold.
  assert (Ho : ∀ q, owns s q → owns s' q).
  { intros q (l & p & Hl' & Hp & Hs & ?). destruct (Hold _ _ Hp) as [E|E]; [exists l, p; by rewrite Hl|].
    rewrite E in Hs. inversion Hs. }
  assert (Ho' : ∀ q, owns s' q → owns s q).
  { intros q (l & p & Hl' & Hp & Hs & ?). rewrite Hl in Hl'. destruct (Hnew _ _ Hp) as [_ [E|E]]; [by exists l, p|].
    rewrite E in Hs. inversion Hs. }
  assert (Hf : frame s s').
  { split; [lia|]. intros l. rewrite Hl. intros H. right. by exists l. }
  split.
  - intros l. rewrite Hl, Hn. intros H. apply (inv_lock _ Hi) in H. lia.
  - intros q p Hp. by apply Hnew in Hp as [? _].
  - intros l. rewrite Hl. intros H. destruct (inv_held _ Hi l H) as [q Hq]. exists q. by apply Ho.
  - intros q p Hp. destruct (Hnew _ _ Hp) as [_ [H|H]]; [|right; rewrite H; constructor].
    destruct (inv_others _ Hi _ _ H); [left; by apply Ho|right; by eapply waiter_frame].
  - intros q q' Hq Hq'. by apply (inv_one _ Hi); apply Ho'.
Qed.

Lemma inv_step label s s' :
  lock_inv s → timely s = true → is_crash label = false → step label s = Some s' → lock_inv s'.
Proof.
  intros Hi Ht Hc Hs. destruct label as [d|pid|pid fault|pid|pid|pid|pid]; [| |by eapply inv_run| | | |done]; cbn [step] in Hs.
  - injection Hs as <-. eapply inv_later; [exact Hi|done|done|cbn; lia| |by left].
    intros q p Hp. split; [|by left]. pose proof (inv_start _ Hi _ _ Hp). cbn. lia.
  - destruct (procs s !! pid) as [[start a]|] eqn:Hp; [|done]. cbn [mbind option_bind p_does p_start] in Hs.
    destruct a; try done. injection Hs as <-.
    apply inv_becomes; [done|eapply waiter_not_owner; [done|constructor]|exact (inv_start _ Hi _ _ Hp)|].
    apply (waiter_retry s LOCK_MAX_RETRIES).
  - destruct (procs s !! pid) as [[start a]|] eqn:Hp; [|done]. cbn [mbind option_bind p_does p_start] in Hs.
    destruct a; try done. injection Hs as <-.
    destruct (inv_others _ Hi _ _ Hp) as [(l & p & Hl & Hp' & Ho & _)|Hw]; [|inversion Hw].
    rewrite Hp in Hp'. injection Hp' as <-.
    assert (s = s <| lock := Some l |>) as E by (destruct s; cbn in *; by subst). rewrite E.
    apply (inv_owner_moves s pid start Holding l (Some l)); [done..|]. split; [apply same_dir_refl|].
    inversion Ho. by apply OwnRelease.
  - destruct (procs s !! pid) as [p|] eqn:Hp; [done|]. injection Hs as <-.
    eapply inv_later; [exact Hi|done|done|cbn; lia| |].
    + intros q p. rewrite becomes_lookup. case_decide; [intros [= <-]; cbn; split; [lia|by right]|].
      intros Hq. split; [exact (inv_start _ Hi _ _ Hq)|by left].
    + intros q p Hq. rewrite becomes_lookup. case_decide; [congruence|by left].
  - destruct (procs s !! pid) as [[start a]|] eqn:Hp; [|done]. cbn [mbind option_bind p_does p_start] in Hs.
    destruct a; try done. injection Hs as <-. eapply inv_later; [exact Hi|done|done|cbn; lia| |].
    + intros q p Hq. cbn [procs] in Hq. apply lookup_delete_Some in Hq as [_ Hq].
      split; [exact (inv_start _ Hi _ _ Hq)|by left].
    + intros q p Hq. cbn. destruct (decide (pid = q)) as [<-|Hne]; [right; by rewrite Hp in Hq; injection Hq as <-|].
      left. by rewrite lookup_delete_ne.
Qed.

Lemma inv_quiet s : quiet s → lock_inv s.
Proof.
  intros [Hl Hp]. assert (Hn : ∀ q, ¬ owns s q) by (intros q (l & _ & H & _); congruence). split.
  - intros l H. congruence.
  - intros pid p H. by apply Hp in H as [_ ?].
  - intros l H. congruence.
  - intros pid p H. right. apply Hp in H as [-> _]. constructor.
  - intros q q' H. destruct (Hn _ H).
Qed.

Lemma inv_reachable s0 s : quiet s0 → rtc calm_step s0 s → lock_inv s ∧ timely s = true.
Proof.
  intros Hq. apply (rtc_ind_r (λ s, lock_inv s ∧ timely s = true)).
  - split; [by apply inv_quiet|]. unfold timely. destruct Hq as [-> _]. done.
  - intros s1 s2 _ (label & Hc & Hs & Ht) [Hi Ht1]. split; [by eapply inv_step|done].
Qed.

Lemma holds_owns s pid :
  lock_inv s → holds s pid = true → ∃ l, lock s = Some l ∧ l_owner l = Some (Some pid) ∧ owns s pid.
Proof.
  intros Hi. unfold holds. destruct (procs s !! pid) as [[start a]|] eqn:Hp; [|done]. cbn [p_does].
  destruct a; try done. intros _. destruct (inv_others _ Hi _ _ Hp) as [Ho|Hw]; [|inversion Hw].
  pose proof Ho as (l & p & Hl & Hp' & Hs & _). rewrite Hp in Hp'. injection Hp' as <-. exists l.
  split_and!; [done| |done]. by inversion Hs.
Qed.

(** C25: Mutual exclusion of the registry lock: however any number of processes
    interleave, with failing system calls, slow waiters, processes that start and exit
    and process ids that are used again, at most one process at a time runs an operation
    on the registry, and the lock directory then names it.  The condition is that no
    process dies inside the lock and that no lock directory gets older than
    [LOCK_STALE_MS]. *)
Theorem registry_lock_exclusive s0 s pid pid' :
  quiet s0 → rtc calm_step s0 s → holds s pid = true →
  (∃ l, lock s = Some l ∧ l_owner l = Some (Some pid)) ∧ (holds s pid' = true → pid' = pid).
Proof.
  intros Hq Hr Hh. destruct (inv_reachable _ _ Hq Hr) as [Hi _].
  destruct (holds_owns _ _ Hi Hh) as (l & Hl & Ho & Hown). split; [by exists l|].
  intros Hh'. destruct (holds_owns _ _ Hi Hh') as (_ & _ & _ & Hown'). by apply (inv_one _ Hi).
Qed.

(** A sequence of labels as a calm run. *)
Fixpoint calm_run (labels : list Label) (s : System) : option System :=
  match labels with
  | [] => Some s
  | label :: labels =>
      s' ← step label s; if negb (is_crash label) && timely s' then calm_run labels s' else None
  end.

Lemma calm_run_rtc labels s s' : calm_run labels s = Some s' → rtc calm_step s s'.
Proof.
  revert s. induction labels as [|label labels IH]; intros s; cbn [calm_run]; [by intros [= <-]|].
  destruct (step label s) as [s1|] eqn:Es; [|done]. cbn [mbind option_bind].
  destruct (_ && _) eqn:Eb; [|done]. intros H. bools. eapply rtc_l; [|by apply IH]. by exists label.
Qed.

Lemma quiet_machine pids : quiet (machine_of pids).
Proof.
  split; [done|]. intros pid p. unfold machine_of. cbn [procs]. intros H.
  apply elem_of_list_to_map_2, list_elem_of_fmap in H as (q & [= -> ->] & _). cbn. split; [done|lia].
Qed.

(** Process 2 waits for 1, and takes the lock when it is released. *)
Definition handover : list Label :=
  acquire_run 1 3 ++ [Tick 9000] ++ acquire_run 2 7 ++ [Finish 1; Run 1 false; Run 1 false] ++ repeat (Run 2 false) 3.

Lemma registry_lock_exclusive_witness :
  ∃ s, calm_run handover (machine_of [1; 2]) = Some s ∧ holds s 2 = true
    ∧ (∃ l, lock s = Some l ∧ l_owner l = Some (Some 2)) ∧ (holds s 1 = true → 1 = 2).
Proof.
  destruct (calm_run handover (machine_of [1; 2])) as [s|] eqn:E; [|vm_compute in E; discriminate E].
  assert (holds s 2 = true) as H by (vm_compute in E; injection E as <-; reflexivity).
  exists s. split; [reflexivity|]. split; [exact H|].
  apply (registry_lock_exclusive (machine_of [1; 2]) s 2 1); [apply quiet_machine|by eapply calm_run_rtc|exact H].
Defined.

(** C30: A process that dies inside the lock can cost mutual exclusion: two waiters that
    found the same dead owner both prove that the lock is the one they classified, and the
    second removes the lock the first has taken meanwhile.  Both then run an operation on
    the registry, within milliseconds of the crash. *)
Theorem stale_lock_break_race :
  ∃ s, run race (machine_of [1; 2; 3]) = Some s ∧ holds s 2 = true ∧ holds s 3 = true
    ∧ clock s ≤ 50 ∧ List.filter is_crash race = [Crash 1].
Proof.
  destruct (run race (machine_of [1; 2; 3])) as [s|] eqn:E; [|vm_compute in E; discriminate E].
  exists s. split; [done|]. vm_compute in E. injection E as <-. vm_compute. split_and!; done.
Qed.

(** ** A process alone *)

Section Alone.
(** How much longer than asked a wait takes. *)
Context (late : Z → Z) (late_nonneg : ∀ t, 0 ≤ late t).

Definition awake {B : Set} (c : SysCall B) (s : System) : System :=
  match c with Sleep => s <| clock := clock s + LOCK_RETRY_MS + late (clock s) |> | _ => s end.

(** [pid] runs to the end with nobody else moving and no call failing. *)
Fixpoint alone {A} (pid : Z) (p : Prog A) (s : System) : A * System :=
  match p with
  | Return a => (a, s)
  | Do c k => let '(b, s') := perform pid false c s in alone pid (k b) (awake c s')
  end.

Definition at_time (s : System) (t : Z) : System := s <| clock := t |>.

(** A turn either waits or removes the directory; the old directory it removes. *)
Lemma alone_contend pid retry s l :
  lock s = Some l →
  (∃ t, clock s + LOCK_RETRY_MS ≤ t ∧ alone pid (contend retry) s = alone pid retry (at_time s t)
        ∧ clock s - l_mtime l ≤ LOCK_STALE_MS)
  ∨ alone pid (contend retry) s = alone pid retry (s <| lock := None |>).
Proof using late_nonneg.
  intros Hl.
  assert (Hsleep : ∃ t, clock s + LOCK_RETRY_MS ≤ t ∧ alone pid (sleep_then retry) s = alone pid retry (at_time s t)).
  { eexists. split; [|reflexivity]. pose proof (late_nonneg (clock s)). lia. }
  assert (Hsame : ∀ o, match o with Some q => ∃ w, l_owner l = Some w ∧ w = Some q | None => True end →
     alone pid (break_if_same retry (mkStat (l_ino l) (l_mtime l)) o) s = alone pid retry (s <| lock := None |>)).
  { intros o Ho. cbn [break_if_same alone perform awake]. rewrite Hl. cbn [fmap option_fmap option_map ino mtimeMs].
    rewrite !Z.eqb_refl. cbn [andb negb]. destruct o as [q|]; [|done]. cbn [alone perform awake]. rewrite Hl.
    destruct Ho as (w & Hw & ->). cbn [mbind option_bind]. rewrite Hw. cbn [mbind option_bind].
    by rewrite bool_decide_eq_true_2. }
  assert (Hdecide : ∀ o alive start, match o with Some q => ∃ w, l_owner l = Some w ∧ w = Some q | None => True end →
     (∃ t, clock s + LOCK_RETRY_MS ≤ t
        ∧ alone pid (decide_lock retry (mkStat (l_ino l) (l_mtime l)) o alive start) s = alone pid retry (at_time s t)
        ∧ clock s - l_mtime l ≤ LOCK_STALE_MS)
     ∨ alone pid (decide_lock retry (mkStat (l_ino l) (l_mtime l)) o alive start) s = alone pid retry (s <| lock := None |>)).
  { intros o alive start Ho. cbn [decide_lock alone perform awake mtimeMs].
    destruct (classifyExistingLock _ _ _ _ _ _) eqn:Ec; [right; by apply Hsame|]. left.
    destruct Hsleep as (t & Ht & Hs). exists t. split_and!; [done|done|].
    destruct (Z.ltb_spec LOCK_STALE_MS (clock s - l_mtime l)) as [Hlt|]; [exfalso|done].
    apply Z.ltb_lt in Hlt. unfold classifyExistingLock in Ec. rewrite Hlt in Ec.
    destruct o; [destruct (negb alive); [done|]; destruct (from_option _ _ _)|]; done. }
  cbn [contend alone perform awake]. rewrite Hl. cbn [fmap option_fmap option_map].
  cbn [probe_owner alone perform awake]. rewrite Hl. cbn [mbind option_bind].
  destruct (l_owner l) as [[q|]|] eqn:Eo; cbn [mbind option_bind]; [|by apply Hdecide..].
  destruct (0 <? q); [|by apply Hdecide]. cbn [alone perform awake].
  destruct (bool_decide _); cbn [probe_start alone perform awake]; apply Hdecide; by eexists.
Qed.

Lemma alone_mkdir pid n s :
  lock s = None → ∃ s', alone pid (acquire_from (S n)) s = (Ok tt, s') ∧ clock s' = clock s ∧ procs s' = procs s
    ∧ ∃ l, lock s' = Some l ∧ l_owner l = Some (Some pid) ∧ l_ino l = next_ino s.
Proof.
  intros Hl. cbn [acquire_from alone perform awake]. rewrite Hl. cbn [publishOwner alone perform awake orb].
  rewrite bool_decide_eq_false_2 by done. cbn -[Z.eqb]. rewrite Z.eqb_refl. cbn.
  eexists. split; [done|]. split_and!; [done..|]. by eexists.
Qed.

Lemma alone_turn pid k s l :
  lock s = Some l →
  (∃ t, clock s + LOCK_RETRY_MS ≤ t
        ∧ alone pid (acquire_from (S k)) s = alone pid (acquire_from k) (at_time s t)
        ∧ clock s - l_mtime l ≤ LOCK_STALE_MS)
  ∨ alone pid (acquire_from (S k)) s = alone pid (acquire_from k) (s <| lock := None |>).
Proof using late_nonneg.
  intros Hl.
  assert (alone pid (acquire_from (S k)) s = alone pid (contend (acquire_from k)) s) as ->;
    [|by apply alone_contend].
  change (acquire_from (S k)) with (Do MkdirLock (λ made, match made with
    MkError => Return (Throw MkdirFailed) | MkExists => contend (acquire_from k) | MkCreated => publishOwner end)).
  cbn [alone perform awake]. by rewrite Hl.
Qed.

(** Each turn that waits makes the directory at least [LOCK_RETRY_MS] older. *)
Lemma alone_acquire pid l n : ∀ s,
  lock s = Some l → LOCK_STALE_MS < clock s - l_mtime l + LOCK_RETRY_MS * Z.of_nat n →
  ∃ s', alone pid (acquire_from (S (S n))) s = (Ok tt, s') ∧ procs s' = procs s
    ∧ ∃ l', lock s' = Some l' ∧ l_owner l' = Some (Some pid) ∧ l_ino l' = next_ino s.
Proof using late_nonneg.
  assert (Hbreak : ∀ n s, lock s = Some l →
    alone pid (acquire_from (S (S n))) s = alone pid (acquire_from (S n)) (s <| lock := None |>) →
    ∃ s', alone pid (acquire_from (S (S n))) s = (Ok tt, s') ∧ procs s' = procs s
      ∧ ∃ l', lock s' = Some l' ∧ l_owner l' = Some (Some pid) ∧ l_ino l' = next_ino s).
  { intros m s _ ->. destruct (alone_mkdir pid m (s <| lock := None |>)) as (s' & ? & _ & ? & ?); [done|]. by exists s'. }
  induction n as [|n IH]; intros s Hl Ha.
  - destruct (alone_turn pid 1 s l Hl) as [(t & _ & _ & Hage)|Hs]; [exfalso; lia|by apply Hbreak].
  - destruct (alone_turn pid (S (S n)) s l Hl) as [(t & Ht & Hs & Hage)|Hs]; [|by apply Hbreak].
    rewrite Hs. destruct (IH (at_time s t)) as (s' & Hs' & Hp & Hl'); [done|cbn; lia|]. by exists s'.
Qed.

(** C26: No crash wedges the registry: whatever lock a dead process left, with or without
    an owner file and with its process id free, reused or even the waiter's own, a process
    that then runs alone acquires the lock within its retries, as a new directory with its
    own id.  The only assumption is that the directory does not come from the future. *)
Theorem abandoned_lock_recovered pid s :
  (∀ l, lock s = Some l → l_mtime l ≤ clock s) →
  ∃ s', alone pid acquireLock s = (Ok tt, s') ∧ procs s' = procs s
    ∧ ∃ l, lock s' = Some l ∧ l_owner l = Some (Some pid) ∧ l_ino l = next_ino s.
Proof using late_nonneg.
  intros Hm. unfold acquireLock, LOCK_MAX_RETRIES. destruct (lock s) as [l|] eqn:Hl.
  - specialize (Hm l eq_refl). apply (alone_acquire pid l); [done|]. unfold LOCK_STALE_MS, LOCK_RETRY_MS. lia.
  - destruct (alone_mkdir pid 119 s Hl) as (s' & ? & _ & ? & ?). by exists s'.
Qed.
End Alone.

(** The lock of a dead process whose id now belongs to another one. *)
Definition abandoned : System :=
  mkSystem 5000 (Some (mkLock 7 4000 4000 (Some (Some 9)) [])) 8
    (<[9 := mkProcess 4500 Idle]> (<[2 := mkProcess 4800 Idle]> ∅)).

Example abandoned_waits :
  (λ s, clock s) <$> Some (alone (λ _, 0) 2 acquireLock abandoned).2 = Some 14100.
Proof. vm_compute. reflexivity. Qed.

Lemma abandoned_lock_recovered_witness :
  ∃ s', alone (λ _, 0) 2 acquireLock abandoned = (Ok tt, s') ∧ procs s' = procs abandoned
    ∧ ∃ l, lock s' = Some l ∧ l_owner l = Some (Some 2) ∧ l_ino l = next_ino abandoned.
Proof.
  apply (abandoned_lock_recovered (λ _, 0)); [intros; reflexivity|].
  intros l [= <-]. vm_compute. discriminate.
Defined.
