(* ===== verification/Bootstrap.v ===== *)
(** * Starting a run (src/lib/onboard/session-bootstrap.ts)

    A fresh start replaces the session file; a resumed one checks the session, its
    checkpoint and the requested configuration, and re-opens the session.  The file and
    the recovery are those of the session store and of [Recovery]; what the resume asks
    of the rest of the program (which requested settings conflict with the recorded
    ones, and absolute paths) are the injected dependencies of the source. *)

From S2P Require Import Prelude Json Machine Choices Time Station Checkpoint SessionData SessionParse Events SessionStore.
From S2P Require Import Recovery Runtime Recreate CheckpointRecord.

(** ** Input, result and the reasons a run exits for *)

Record OnboardSessionBootstrapInput := mkInput {
  resume : bool;
  fresh : bool;
  requestedFromDockerfile : option string;
  requestedSandboxName : option string;
  cannotPrompt : bool;
  nonInteractive : bool;
  requestedToolDisclosure : option ToolDisclosure;
  requestedObservabilityEnabled : option bool;
  in_stationExpressIntent : option StationExpressResumeIntent;
  in_servingProfileProvenance : option json;
}.

Record OnboardSessionBootstrapResult := mkBootstrap {
  b_session : option Session;
  b_fromDockerfile : option string;
}.

(** [deps.error(...)] and [deps.exitProcess(1)]. *)
Inductive exit_reason : Type :=
| NoResumableSession
| CheckpointFromNewer (foundVersion : Z)
| CheckpointUnreadable
| ResumeConflicts (conflicts : list ResumeConfigConflict)
| SandboxNameUnknown.

Section Bootstrap.
Context {host : Host} {receipts : ReceiptStore}.
(** [getResumeConfigConflicts] and [resolvePath]. *)
Context (getResumeConfigConflicts : Session → OnboardSessionBootstrapInput → list ResumeConfigConflict).
Context (resolvePath : string → string).

(** A program that may exit. *)
Abbreviation Boot A := (M (result exit_reason A)).
Definition exit {A} (reason : exit_reason) : Boot A := mret (Throw reason).
Definition boot_bind {A B} (m : Boot A) (f : A → Boot B) : Boot B :=
  mbind (M := M) (λ r, match r with Ok a => f a | Throw e => exit e end) m.

(** ** Sandbox names *)

Definition isDecisionSelected {A} (d : CheckpointDecision A) : option A :=
  match d with Selected v => Some v | _ => None end.

(** The agent is given by its name. *)
Definition is_openclaw (agent : option string) : bool :=
  negb (truthy_opt agent) || bool_decide (agent = Some "openclaw").

Definition checkpointSandboxName (name : string) (agent_ : option string) : M unit :=
  if negb (is_openclaw agent_) then mret tt
  else
    updateSession (λ current,
      let current := current <| sandboxName := Some name |>
        <| sandboxPromptProgress := sandboxPromptProgress current <| pp_sandboxName := true |> |> in
      at_ ← read_clock;
      mret (recordCheckpointSandboxIdentity current name
              (default "openclaw" (or_else (agent current) agent_)) at_));;
    mret tt.

Definition getCheckpointedSandboxName (resumed : bool) (agent_ : option string) (session : option Session)
    : option string :=
  if negb resumed then None
  else
    s ← session;
    match checkpoint s with
    | Some c => id_name <$> isDecisionSelected (cp_sandboxIdentity c)
    | None => if is_openclaw agent_ && pp_sandboxName (sandboxPromptProgress s) then sandboxName s else None
    end.

Definition mode_of (nonInteractive : bool) : string :=
  if nonInteractive then "non-interactive" else "interactive".

(** ** Resuming *)

Definition resolveResumeCheckpoint : M CheckpointLoadResult :=
  w ← st_get; t ← take_ticks; mret (loadResumeCheckpoint t (w_disk w)).

Definition guardResumeCheckpoint : Boot unit :=
  loaded ← resolveResumeCheckpoint;
  match loaded with
  | UnsupportedFuture v => exit (CheckpointFromNewer v)
  | Corrupt => exit CheckpointUnreadable
  | Migrated c _ => updateSession (λ current, mret (current <| checkpoint := Some c |>));; mret (Ok tt)
  | Loaded _ | LoadNone => mret (Ok tt)
  end.

(** A failing diagnostic write does not hide the exit. *)
Definition best_effort {A} (m : M A) : M unit := λ w, (Ok tt, (m w).2).

Definition exitForResumeConflicts {A} (conflicts : list ResumeConfigConflict) : Boot A :=
  foldr (λ c rest, best_effort (emitResumeConflict c);; rest) (exit (ResumeConflicts conflicts)) conflicts.

Definition recoveredSandboxName (session : option Session) (input : OnboardSessionBootstrapInput)
    : option string :=
  let checkpoint_ := session ≫= checkpoint in
  let selected := c ← checkpoint_; isDecisionSelected (cp_sandboxIdentity c) in
  let nameRecoverable :=
    match checkpoint_ with
    | Some _ => checkpointProvesSandboxStepComplete session || bool_decide (is_Some selected)
    | None =>
        from_option (λ s, step_complete (steps s) "sandbox") false session
        || (is_openclaw (session ≫= agent)
            && from_option (λ s, pp_sandboxName (sandboxPromptProgress s)) false session)
    end in
  let or_null o := if truthy_opt o then o else None in
  or_else (or_null (requestedSandboxName input))
    (if nameRecoverable
     then or_else (or_null (id_name <$> selected)) (or_null (session ≫= sandboxName))
     else None).

Definition assertRecoverableResumeSandboxName (session : option Session) (input : OnboardSessionBootstrapInput)
    : Boot unit :=
  if cannotPrompt input && bool_decide (recoveredSandboxName session input = None)
  then exit SandboxNameUnknown else mret (Ok tt).

(** The mutator that re-opens the session. *)
Definition reopen (input : OnboardSessionBootstrapInput) (current : Session) : M Session :=
  at_ ← read_clock;
  recovered ← st_lift (match applySessionRecovery current at_ with
                       | Ok x => Ok x.2 | Throw e => Throw (RecoveryRefused e) end);
  let observed := match requestedObservabilityEnabled input with
    | Some b => recovered <| observabilityEnabled := b |> <| observabilityRequestedExplicitly := true |>
    | None => recovered end in
  mret (observed <| mode := mode_of (nonInteractive input) |> <| failure := None |>
                 <| status := "in_progress" |>).

Definition resolve_or (requested recorded : option string) : option string :=
  let path o := if truthy_opt o then resolvePath <$> o else None in
  or_else (path requested) (path recorded).

Definition prepareResumeSession (input : OnboardSessionBootstrapInput) : Boot OnboardSessionBootstrapResult :=
  loaded ← loadSession;
  match loaded with
  | None => exit NoResumableSession
  | Some session =>
      if negb (resumable session) then exit NoResumableSession
      else
        boot_bind guardResumeCheckpoint (λ _,
        let fromDockerfile := resolve_or (requestedFromDockerfile input) (fromDockerfile (metadata session)) in
        let resumeConflicts := getResumeConfigConflicts session input in
        boot_bind (if bool_decide (resumeConflicts = []) then mret (Ok tt)
                   else exitForResumeConflicts resumeConflicts) (λ _,
        updateSession (reopen input);;
        session ← loadSession;
        boot_bind (assertRecoverableResumeSandboxName session input) (λ _,
        mret (Ok (mkBootstrap session fromDockerfile)))))
  end.

(** ** Starting afresh *)

Definition fresh_overrides (input : OnboardSessionBootstrapInput) (fromDockerfile : option string)
    : SessionOverrides :=
  no_overrides
    <| o_mode := Some (mode_of (nonInteractive input)) |>
    <| o_toolDisclosure := Some (default DEFAULT_TOOL_DISCLOSURE (requestedToolDisclosure input)) |>
    <| o_observabilityEnabled := bool_decide (requestedObservabilityEnabled input = Some true) |>
    <| o_observabilityRequestedExplicitly := bool_decide (is_Some (requestedObservabilityEnabled input)) |>
    <| o_stationExpressIntent := in_stationExpressIntent input |>
    <| o_servingProfileProvenance := in_servingProfileProvenance input |>
    <| o_metadata := Some (mkMeta "nemoclaw" (if truthy_opt fromDockerfile then fromDockerfile else None)) |>.

Definition prepareFreshSession (input : OnboardSessionBootstrapInput) : Boot OnboardSessionBootstrapResult :=
  (if fresh input then clearSession else mret tt);;
  let fromDockerfile := resolve_or (requestedFromDockerfile input) None in
  t ← take_ticks;
  session ← saveSession (createSession t (fresh_overrides input fromDockerfile));
  mret (Ok (mkBootstrap (Some session) fromDockerfile)).

Definition prepareOnboardSession (input : OnboardSessionBootstrapInput) : Boot OnboardSessionBootstrapResult :=
  if resume input then prepareResumeSession input else prepareFreshSession input.

(** ** Lemmas *)

(** The file as it is, at a later clock reading. *)
Lemma holds_tick w s n : holds w s → holds (w <| w_tick := n |>) s.
Proof. intros []. by split. Qed.

Definition foreign_checkpoint (s : Session) : bool :=
  from_option (λ c, negb (cp_sessionId c =s sessionId s)) false (checkpoint s).

(** The session with the checkpoint a resume works from. *)
Definition checked (s : Session) : Session :=
  match checkpoint s with Some _ => s | None => s <| checkpoint := Some (deriveCheckpointFromSession s) |> end.

Lemma resolve_holds t w s :
  url_origin_law parseURL → holds w s → isCanonicalIso (updatedAt s) = true →
  loadResumeCheckpoint t (w_disk w) =
    match checkpoint s with
    | None => Migrated (deriveCheckpointFromSession s) 0
    | Some c => if foreign_checkpoint s then Corrupt else Loaded c
    end.
Proof.
  intros Hurl [Hd Hok _ [Hst Hc] Hf] Hu. rewrite Hd, json_disk_clean by by apply clean_session.
  cbn [loadResumeCheckpoint]. pose proof (normalize_rt t false _ s Hurl Hok Hst) as Hn.
  rewrite <- Hf, flag_eta, Hf in Hn. unfold serializeSessionForDisk, foreign_checkpoint. cbn [resolveCheckpointForResume].
  replace (jget (session_obj _ _ s) "checkpoint") with (jnull serializeCheckpoint (checkpoint s)) by reflexivity.
  pose proof (ok_checkpoint s Hok) as Hcp. destruct (checkpoint s) as [c|] eqn:Ec; cbn [jnull from_option] in *.
  - destruct Hcp as (o & a & t' & Hp). rewrite (schema_rt _ Hurl _ _ _ _ Hp), Hn. done.
  - cbn [inspectCheckpoint]. by rewrite Hn.
Qed.

Lemma checked_keeps s :
  session_ok s → mem_stable s → persist_stable s → invalidDisclosure s = false → isCanonicalIso (updatedAt s) = true →
  session_ok (checked s) ∧ mem_stable (checked s) ∧ persist_stable (checked s) ∧ invalidDisclosure (checked s) = false.
Proof.
  intros Hok Hm Hp Hf Hu. unfold checked. destruct (checkpoint s); [done|].
  destruct (with_checkpoint_stable s (Some (deriveCheckpointFromSession s))).
  split_and!; [apply with_checkpoint_ok; [done|by apply derived_parts]|auto..].
Qed.

(** The session [checked s], perhaps saved later. *)
Definition checked_at (at_ : string) (s : Session) : Session :=
  match checkpoint s with Some _ => s | None => checked s <| updatedAt := at_ |> end.

Lemma guard_outcome w s :
  url_origin_law parseURL → clock_law → holds w s → isCanonicalIso (updatedAt s) = true →
  ∃ w', if foreign_checkpoint s
        then runs guardResumeCheckpoint w (Ok (Throw CheckpointUnreadable)) w' ∧ w_disk w' = w_disk w
        else ∃ at_, isCanonicalIso at_ = true
             ∧ runs guardResumeCheckpoint w (Ok (Ok tt)) w' ∧ holds w' (checked_at at_ s).
Proof.
  intros Hurl Hclock Hh Hu. pose proof (resolve_holds (w_tick w) w s Hurl Hh Hu) as Hr.
  set (w1 := w <| w_tick := S (S (w_tick w)) |>). pose proof (holds_tick w s (S (S (w_tick w))) Hh) as Hh1. fold w1 in Hh1.
  unfold runs, guardResumeCheckpoint, resolveResumeCheckpoint, mbind, ST_bind, st_get, take_ticks, mret, ST_ret.
  rewrite Hr. unfold foreign_checkpoint, checked_at in *. destruct (checkpoint s) as [c|] eqn:Ec; cbn [from_option].
  - exists w1. destruct (negb _); [done|]. exists (now 0). by split_and!.
  - pose proof Hh as [_ Hok Hm Hp Hf]. destruct (checked_keeps s) as (Hok' & Hm' & Hp' & Hf'); [done..|].
    set (w2 := w1 <| w_tick := S (S (w_tick w1)) |>).
    assert (E : checked s = s <| checkpoint := Some (deriveCheckpointFromSession s) |>) by (unfold checked; by rewrite Ec).
    exists (after_save w2 (saved_at w2 (checked s))), (now (S (S (w_tick w2)))).
    split; [apply Hclock|]. split; [|by apply after_save_holds].
    assert (Hup : runs (updateSession (λ current, mret (current <| checkpoint := Some (deriveCheckpointFromSession s) |>))) w1
                    (Ok (saved_at w2 (checked s))) (after_save w2 (saved_at w2 (checked s)))).
    { apply (updateSession_exact _ w1 w2 s); [done|done| |done|done]. by rewrite E. }
    unfold runs, mret, ST_ret in Hup. fold w1. by rewrite Hup.
Qed.

(** Reporting conflicts leaves the file. *)
Lemma conflict_disk w s c :
  url_origin_law parseURL → holds w s → w_disk (best_effort (emitResumeConflict c) w).2 = w_disk w.
Proof.
  intros Hurl Hh. unfold best_effort, emitResumeConflict, mbind, ST_bind. cbn [snd].
  rewrite (ensure_holds w s Hurl Hh). done.
Qed.

Lemma conflicts_outcome {A} w s cs :
  url_origin_law parseURL → holds w s →
  ∃ w', runs (exitForResumeConflicts (A := A) cs) w (Ok (Throw (ResumeConflicts cs))) w' ∧ w_disk w' = w_disk w.
Proof.
  intros Hurl. unfold exitForResumeConflicts, runs. generalize (ResumeConflicts cs). intros reason.
  revert w. induction cs as [|c cs IH]; intros w Hh; cbn [foldr]; [by exists w|].
  pose proof (conflict_disk w s c Hurl Hh) as Hd.
  destruct (IH (best_effort (emitResumeConflict c) w).2) as (w' & Hr & Hd'); [by apply (holds_disk w)|].
  exists w'. split; [|congruence]. unfold best_effort in *. cbn [snd] in *. exact Hr.
Qed.

(** ** Re-opening *)

Lemma with_mode_ok s m :
  session_ok s → (is_Some (stationExpressIntent s) → m = "non-interactive") → session_ok (s <| mode := m |>).
Proof.
  intros Hok Hm. pose proof (ok_intent_gate s Hok) as Hg. destruct Hok. split; try done.
  unfold intent_gate in *. change (stationExpressIntent (s <| mode := m |>)) with (stationExpressIntent s).
  destruct (stationExpressIntent s); [|done]. apply andb_true_iff in Hg as [[Hr _]%andb_true_iff Hs].
  change (mode (s <| mode := m |>)) with m.
  change (resumable (s <| mode := m |>)) with (resumable s). change (status (s <| mode := m |>)) with (status s).
  rewrite Hr, Hs, Hm; done.
Qed.

Lemma with_observability_ok s a b :
  session_ok s → session_ok (s <| observabilityEnabled := a |> <| observabilityRequestedExplicitly := b |>).
Proof. intros []. by split. Qed.

Lemma stable_rest s m a b :
  (mem_stable s → mem_stable (s <| mode := m |> <| observabilityEnabled := a |> <| observabilityRequestedExplicitly := b |>))
  ∧ (persist_stable s → persist_stable (s <| mode := m |> <| observabilityEnabled := a |> <| observabilityRequestedExplicitly := b |>)).
Proof. split; [intros []; by split|intros [[] ?]; split; [by split|done]]. Qed.

Lemma resumable_not_retiring s :
  session_ok s → resumable s = true → stationExpressReceiptRetirement s = None.
Proof.
  intros Hok Hr. pose proof (ok_retirement_gate s Hok) as Hg. pose proof (ok_retirement s Hok) as Hv.
  unfold retirement_gate in Hg. destruct (stationExpressReceiptRetirement s) as [g|]; [exfalso|done].
  cbn [from_option] in Hv. rewrite (generation_truthy g Hv), Hr in Hg. cbn in Hg. by rewrite andb_false_r in Hg.
Qed.

(** What a re-opened session is, of the session it was. *)
Record reopened (input : OnboardSessionBootstrapInput) (s s' : Session) : Prop := {
  re_running : isTerminalOnboardMachineState (m_state (machine s')) = false;
  re_kept : isTerminalOnboardMachineState (m_state (machine s)) = false → machine s' = machine s;
  re_status : status s' = "in_progress";
  re_failure : failure s' = None;
  re_mode : mode s' = mode_of (nonInteractive input);
  re_observability : observabilityEnabled s'
                     = default (observabilityEnabled s) (requestedObservabilityEnabled input);
  re_frame : s' = s <| machine := machine s' |> <| status := "in_progress" |> <| failure := None |>
                    <| mode := mode s' |> <| observabilityEnabled := observabilityEnabled s' |>
                    <| observabilityRequestedExplicitly := observabilityRequestedExplicitly s' |>
                    <| updatedAt := updatedAt s' |>;
}.

Lemma reopen_runs input w s :
  (∀ x, is_hex_digest 64 (sha256_hex x) = true) → clock_law → session_ok s → mem_stable s → persist_stable s →
  resumable s = true → (is_Some (stationExpressIntent s) → nonInteractive input = true) →
  ∃ s' w', runs (reopen input s) w (Ok s') w' ∧ session_ok s' ∧ mem_stable s' ∧ persist_stable s'
    ∧ invalidDisclosure s' = invalidDisclosure s ∧ reopened input s s' ∧ updatedAt s' = updatedAt s.
Proof.
  intros Hsha Hclock Hok Hm Hp Hres Hint.
  destruct (recovery_spec s (now (w_tick w)) Hsha (Hclock _) Hok) as (plan & s1 & Hr & Hok1 & Hs1 & Hplan & _).
  set (a := default (observabilityEnabled s) (requestedObservabilityEnabled input)).
  set (b := match requestedObservabilityEnabled input with Some _ => true | None => observabilityRequestedExplicitly s end).
  set (s' := s1 <| mode := mode_of (nonInteractive input) |> <| observabilityEnabled := a |>
                <| observabilityRequestedExplicitly := b |> <| failure := None |> <| status := "in_progress" |>).
  assert (Hrun : runs (reopen input s) w (Ok s') (w <| w_tick := S (w_tick w) |>)).
  { unfold runs, reopen, mbind, ST_bind, read_clock, st_lift, mret, ST_ret. rewrite Hr. cbn [snd]. unfold s', a, b.
    rewrite Hs1. by destruct (requestedObservabilityEnabled input), s. }
  assert (Hfields : resumable s1 = resumable s ∧ stationExpressIntent s1 = stationExpressIntent s
    ∧ invalidDisclosure s1 = invalidDisclosure s ∧ updatedAt s1 = updatedAt s) by (rewrite Hs1; done).
  destruct Hfields as (Hres1 & Hint1 & Hflag1 & Hup1).
  exists s', (w <| w_tick := S (w_tick w) |>). split; [exact Hrun|].
  assert (Hok2 : session_ok (s1 <| mode := mode_of (nonInteractive input) |>)).
  { apply with_mode_ok; [done|]. rewrite Hint1. intros H. by rewrite Hint. }
  apply (with_observability_ok _ a b), (with_failure_ok _ None) in Hok2; [|done].
  destruct (with_machine_stable s (machine s1)) as [Hm1 Hp1]. rewrite <- Hs1 in Hm1, Hp1.
  destruct (stable_rest s1 (mode_of (nonInteractive input)) a b) as [Hm2 Hp2].
  edestruct (with_failure_stable (s1 <| mode := mode_of (nonInteractive input) |> <| observabilityEnabled := a |>
                <| observabilityRequestedExplicitly := b |>) None I) as [Hm3 Hp3].
  destruct (with_status_stable (s1 <| mode := mode_of (nonInteractive input) |> <| observabilityEnabled := a |>
                <| observabilityRequestedExplicitly := b |> <| failure := None |>) "in_progress") as [Hm4 Hp4].
  split. { apply with_status_ok; [done| |by left]. apply (resumable_not_retiring _ Hok2). exact (eq_trans Hres1 Hres). }
  split; [by auto|]. split; [by auto|]. split; [exact Hflag1|]. split; [|exact Hup1].
  assert (Hrunning : isTerminalOnboardMachineState (m_state (machine s1)) = false).
  { destruct plan as [reason entry|[]]; [by destruct Hplan as (_ & ? & <- & _)|by destruct Hplan as [-> ?]|].
    destruct Hplan as (_ & _ & _ & H). congruence. }
  split; try done.
  - intros H. change (machine s1 = machine s). destruct plan as [reason entry|[]]; [|by destruct Hplan as [-> _]..].
    destruct Hplan as [H' _]. congruence.
  - unfold s'. rewrite Hs1. by destruct s.
Qed.

(** A checked session owns its checkpoint. *)
Lemma checked_owns at_ s :
  foreign_checkpoint s = false → ∃ c, checkpoint (checked_at at_ s) = Some c ∧ cp_sessionId c = sessionId (checked_at at_ s).
Proof.
  unfold foreign_checkpoint, checked_at, checked. destruct (checkpoint s) as [c|] eqn:E; cbn [from_option].
  - intros H. exists c. bools. by split.
  - intros _. by eexists.
Qed.

Lemma checked_at_fields at_ s :
  resumable (checked_at at_ s) = resumable s ∧ stationExpressIntent (checked_at at_ s) = stationExpressIntent s.
Proof. unfold checked_at, checked. by destruct (checkpoint s). Qed.

Lemma reopened_saved input s s' at_ : reopened input s s' → reopened input s (s' <| updatedAt := at_ |>).
Proof. intros [? ? ? ? ? ? Hs]. split; try done. exact (f_equal (λ x, x <| updatedAt := at_ |>) Hs). Qed.

(** The part of a resume that changes the session. *)
Lemma reopen_outcome input w s :
  url_origin_law parseURL → (∀ x, is_hex_digest 64 (sha256_hex x) = true) → clock_law → holds w s →
  resumable s = true → (is_Some (stationExpressIntent s) → nonInteractive input = true) →
  ∃ s' w', runs (updateSession (reopen input)) w (Ok s') w' ∧ holds w' s' ∧ reopened input s s'.
Proof.
  intros Hurl Hsha Hclock Hh Hres Hint. pose proof Hh as [_ Hok Hm Hp Hf].
  destruct (reopen_runs input (w <| w_tick := S (S (w_tick w)) |>) s) as (s' & w' & Hr & Hok' & Hm' & Hp' & Hf' & Hre & _); [done..|].
  exists (saved_at w' s'), (after_save w' (saved_at w' s')).
  split; [by apply (updateSession_exact _ w w' s s')|]. split; [|by apply reopened_saved].
  apply after_save_holds; try done. congruence.
Qed.
End Bootstrap.

(** ** Properties *)

(** The checkpoint in the file, as its schema says. *)
Definition stored_checkpoint {host : Host} (raw : json) : CheckpointLoadResult :=
  match raw with JObj o => inspectCheckpoint parseURL (jget o "checkpoint") | _ => LoadNone end.

(** A file that no resume may work from: why it is refused. *)
Inductive unfit {host : Host} (t : nat) : Disk → exit_reason → Prop :=
| unfit_missing : unfit t NoFile NoResumableSession
| unfit_unparsable : unfit t Unparsable NoResumableSession
| unfit_session raw : normalizeSession t false raw = None → unfit t (Stored raw) NoResumableSession
| unfit_finished raw s : normalizeSession t false raw = Some s → resumable s = false →
    unfit t (Stored raw) NoResumableSession
| unfit_newer raw s v : normalizeSession t false raw = Some s → resumable s = true →
    stored_checkpoint raw = UnsupportedFuture v → unfit t (Stored raw) (CheckpointFromNewer v)
| unfit_corrupt raw s : normalizeSession t false raw = Some s → resumable s = true →
    stored_checkpoint raw = Corrupt → unfit t (Stored raw) CheckpointUnreadable
| unfit_foreign raw s s2 c v : normalizeSession t false raw = Some s → resumable s = true →
    stored_checkpoint raw = Loaded c ∨ stored_checkpoint raw = Migrated c v →
    normalizeSession (S (S t)) false raw = Some s2 → cp_sessionId c ≠ sessionId s2 →
    unfit t (Stored raw) CheckpointUnreadable.

Lemma unfit_refused {host : Host} {receipts : ReceiptStore} conflicts_of resolvePath input w reason :
  unfit (w_tick w) (w_disk w) reason →
  ∃ w', prepareResumeSession conflicts_of resolvePath input w = (Ok (Throw reason), w') ∧ w_disk w' = w_disk w.
Proof.
  remember (w_disk w) as d eqn:Ed. intros H.
  unfold prepareResumeSession, loadSession, guardResumeCheckpoint, resolveResumeCheckpoint, boot_bind, mbind, ST_bind, st_get,
    take_ticks, exit, mret, ST_ret.
  destruct H as [| |raw H|raw s H Hr|raw s v H Hr Hc|raw s H Hr Hc|raw s s2 c v H Hr Hc H2 Hne];
    rewrite <- Ed; cbn [w_disk w_tick]; rewrite ?H, ?Hr; cbn [negb]; try by eexists.
  all: destruct raw as [| | | | | |o]; try done; cbn [stored_checkpoint] in Hc.
  all: change (w_disk (w <| w_tick := S (S (w_tick w)) |>)) with (w_disk w); rewrite <- Ed.
  all: cbn [loadResumeCheckpoint resolveCheckpointForResume].
  - rewrite Hc. by eexists.
  - rewrite Hc. by eexists.
  - change (w_tick (w <| w_tick := S (S (w_tick w)) |>)) with (S (S (w_tick w))).
    apply String.eqb_neq in Hne. destruct Hc as [Hc|Hc]; rewrite Hc, H2, Hne; by eexists.
Qed.

(** C10: What a resumed start does to the session file.  A file that is missing, is not
    parsable, is no session, or whose session cannot be resumed is refused, and so is a
    checkpoint of a newer version, one that is corrupt, and one of another session; the
    file is left as it is.  Of a file that holds a session which the program has written
    and can resume: a conflict with the requested settings leaves the session, but for the
    checkpoint a session without one is given.  Otherwise the file holds the session
    re-opened: in progress, with no failure, in the requested mode, its machine at a
    state it can advance from (moved only if the run had ended), its checkpoint its own,
    and everything else as it was; and that session is what the run gets, unless no
    sandbox name can be known without a prompt. *)
Theorem resume_reopens_session {host : Host} {receipts : ReceiptStore} conflicts_of resolvePath input w :
  url_origin_law parseURL → (∀ x, is_hex_digest 64 (sha256_hex x) = true) → clock_law →
  let '(r, w') := prepareResumeSession conflicts_of resolvePath input w in
  (∀ reason, unfit (w_tick w) (w_disk w) reason → r = Ok (Throw reason) ∧ w_disk w' = w_disk w)
  ∧ ∀ s, holds w s → isCanonicalIso (updatedAt s) = true →
    (is_Some (stationExpressIntent s) → nonInteractive input = true) →
    if negb (resumable s) then r = Ok (Throw NoResumableSession) ∧ w_disk w' = w_disk w
    else if foreign_checkpoint s
    then r = Ok (Throw CheckpointUnreadable) ∧ w_disk w' = w_disk w
    else if decide (conflicts_of s input = []) then
      ∃ at_ s', holds w' s' ∧ reopened input (checked_at at_ s) s'
        ∧ (∃ c, checkpoint s' = Some c ∧ cp_sessionId c = sessionId s')
        ∧ r = Ok (if cannotPrompt input && bool_decide (recoveredSandboxName (Some s') input = None)
                          then Throw SandboxNameUnknown
                          else Ok (mkBootstrap (Some s') (resolve_or resolvePath (requestedFromDockerfile input)
                                                            (fromDockerfile (metadata s)))))
    else r = Ok (Throw (ResumeConflicts (conflicts_of s input)))
         ∧ ∃ at_, holds w' (checked_at at_ s).
Proof.
  intros Hurl Hsha Hclock. destruct (prepareResumeSession conflicts_of resolvePath input w) as [r w'] eqn:E. split.
  { intros reason H. destruct (unfit_refused conflicts_of resolvePath input w reason H) as (w'' & Hw & Hd).
    rewrite E in Hw. by injection Hw as -> ->. }
  intros s Hh Hu Hint.
  unfold prepareResumeSession in E. unfold mbind at 1, ST_bind at 1 in E. rewrite (holds_loads _ _ Hurl Hh) in E.
  destruct (resumable s) eqn:Er; cbn [negb] in *; [|by injection E as <- <-].
  set (w1 := w <| w_tick := S (S (w_tick w)) |>) in E.
  pose proof (holds_tick w s (S (S (w_tick w))) Hh) as Hh1. fold w1 in Hh1.
  destruct (guard_outcome w1 s Hurl Hclock Hh1 Hu) as (w2 & Hg). unfold boot_bind at 1, mbind at 1, ST_bind at 1 in E.
  destruct (foreign_checkpoint s) eqn:Ef; [destruct Hg as [Hg Hd]; rewrite Hg in E; by injection E as <- <-|].
  destruct Hg as (at_ & _ & Hg & Hh2). rewrite Hg in E. destruct (checked_at_fields at_ s) as [Er2 Ei2].
  unfold boot_bind at 1, mbind at 1, ST_bind at 1 in E. case_decide as Hc.
  - rewrite bool_decide_eq_true_2 in E by done.
    destruct (reopen_outcome input w2 (checked_at at_ s)) as (s' & w3 & Hr & Hh3 & Hre); [done..|by rewrite Er2|by rewrite Ei2|].
    unfold mret at 1, ST_ret at 1 in E. unfold mbind at 1, ST_bind at 1 in E. rewrite Hr in E.
    unfold mbind at 1, ST_bind at 1 in E. rewrite (holds_loads _ _ Hurl Hh3) in E.
    assert (Hown : ∃ c, checkpoint s' = Some c ∧ cp_sessionId c = sessionId s').
    { destruct (checked_owns at_ s Ef) as (c & Hc1 & Hc2). exists c. by rewrite (re_frame _ _ _ Hre). }
    exists at_, s'. unfold boot_bind, mbind, ST_bind, assertRecoverableResumeSandboxName in E.
    destruct (cannotPrompt input && _); injection E as <- <-; (split; [by apply holds_tick|]); by split_and!.
  - rewrite bool_decide_eq_false_2 in E by done.
    destruct (conflicts_outcome (A := unit) w2 (checked_at at_ s) (conflicts_of s input) Hurl Hh2) as (w3 & Hr & Hd).
    rewrite Hr in E. injection E as <- <-. split; [done|]. exists at_. by apply (holds_disk w2).
Qed.

(** ** Concrete starts *)

Definition resume_input : OnboardSessionBootstrapInput :=
  mkInput true false None None true true None (Some true) None None.

Definition no_conflicts (_ : Session) (_ : OnboardSessionBootstrapInput) : list ResumeConfigConflict := [].

(** The sample with a checkpoint of a later version. *)
Definition newer_world : World (receipts := one_receipt) :=
  sample_world <| w_disk := match w_disk sample_world with
                            | Stored (JObj o) => Stored (JObj (set_prop o "checkpoint" (JObj [("schemaVersion", JNum (NInt 99))])))
                            | d => d
                            end |>.

Lemma resume_reopens_session_witness :
  (let '(r, w') := prepareResumeSession (host := sample_host) no_conflicts id resume_input sample_world in
   ∃ at_ s', holds (host := sample_host) w' s'
     ∧ reopened resume_input (checked_at at_ sample_session) s'
     ∧ (∃ c, checkpoint s' = Some c ∧ cp_sessionId c = sessionId s')
     ∧ r = Ok (if cannotPrompt resume_input && bool_decide (recoveredSandboxName (Some s') resume_input = None)
               then Throw SandboxNameUnknown
               else Ok (mkBootstrap (Some s') (resolve_or id None (fromDockerfile (metadata sample_session))))))
  ∧ (prepareResumeSession (host := sample_host) no_conflicts id resume_input newer_world).1
    = Ok (Throw (CheckpointFromNewer 99)).
Proof.
  split.
  - pose proof (resume_reopens_session (host := sample_host) no_conflicts id resume_input sample_world
      one_url_law (λ x, eq_refl) (λ n, eq_refl)) as H.
    destruct (prepareResumeSession (host := sample_host) no_conflicts id resume_input sample_world) as [r w'].
    exact (proj2 H sample_session sample_holds eq_refl (λ _, eq_refl)).
  - pose proof (resume_reopens_session (host := sample_host) no_conflicts id resume_input newer_world
      one_url_law (λ x, eq_refl) (λ n, eq_refl)) as H.
    destruct (prepareResumeSession (host := sample_host) no_conflicts id resume_input newer_world) as [r w'].
    refine (proj1 (proj1 H (CheckpointFromNewer 99) _)). vm_compute.
    eapply unfit_newer; vm_compute; reflexivity.
Defined.

(** A fresh start replaces what the file held. *)
Example fresh_start :
  match (prepareFreshSession (host := sample_host) id
           (mkInput false true None None false false None None None None) sample_world).1 with
  | Ok (Ok b) =>
      match b_session b with
      | Some s => (mode s, status s, sandboxName s, bool_decide (m_state (machine s) = StInit), checkpoint s)
      | None => ("", "", None, false, None)
      end
  | _ => ("", "", None, false, None)
  end = ("interactive", "in_progress", None, true, None).
Proof. vm_compute. reflexivity. Qed.
