(* ===== verification/ConfigMerge.v ===== *)
(** * Restoring OpenClaw's configuration

    src/lib/state/openclaw-config-merge.ts: the merge of the backed-up openclaw.json into
    the one a rebuild has just generated, by ownership.  Both are values of [JSON.parse];
    an object is its properties in enumeration order.  [__proto__] is not a property name
    of the model: assigning it does not create a property.  The other names that
    [Object.prototype] has are functions there, which no branch below takes for an
    object, a string or an array, so only own properties matter.

    The code never shares structure between its inputs and its output, since it clones
    whatever it takes, so its in-place updates are functional here. *)

From S2P Require Import Prelude Json.

(** ** The ownership contract *)

(** messaging/channels/metadata.ts over the built-in manifests, which are reduced to what
    the selection reads. *)
Record ChannelManifest := mkManifest {
  supportedAgents : list string;
  openclawChannelName : option string;
}.
Definition telegramManifest := mkManifest ["openclaw"; "hermes"] (Some "telegram").
Definition discordManifest := mkManifest ["openclaw"; "hermes"] (Some "discord").
Definition wechatManifest := mkManifest ["openclaw"; "hermes"] (Some "openclaw-weixin").
Definition slackManifest := mkManifest ["openclaw"; "hermes"] (Some "slack").
Definition whatsappManifest := mkManifest ["openclaw"; "hermes"] (Some "whatsapp").
Definition teamsManifest := mkManifest ["openclaw"; "hermes"] (Some "msteams").
Definition googlechatManifest := mkManifest ["openclaw"] (Some "googlechat").
Definition BUILT_IN_CHANNEL_MANIFESTS : list ChannelManifest :=
  [telegramManifest; discordManifest; wechatManifest; slackManifest; whatsappManifest;
   teamsManifest; googlechatManifest].

(** [[...new Set(values)]]. *)
Definition uniqueStrings (values : list string) : list string :=
  fold_left (λ set v, if includes set v then set else set ++ [v]) values [].

Definition selectManifests (agent : string) (manifests : list ChannelManifest) : list ChannelManifest :=
  List.filter (λ m, includes (supportedAgents m) agent) manifests.
Definition listOpenClawManagedChannelNames (manifests : list ChannelManifest) : list string :=
  uniqueStrings (flat_map (λ m, match openclawChannelName m with
                                | Some name => if truthy name then [name] else []
                                | None => []
                                end) (selectManifests "openclaw" manifests)).

Definition runtimeSections : list string := ["gateway"; "proxy"; "diagnostics"].
Definition MANAGED_OPENCLAW_CHANNELS : list string :=
  listOpenClawManagedChannelNames BUILT_IN_CHANNEL_MANIFESTS.
Definition MANAGED_WEB_SEARCH_PLUGIN_ENTRIES : list string := ["brave"; "tavily"].
Definition PROVIDER_RUNTIME_OWNED_FIELDS : list string := ["baseUrl"; "api"; "apiKey"].
Definition MODEL_RUNTIME_OWNED_FIELDS : list string := ["id"; "name"].
Definition currentGeneratedToolFields : list string := ["toolSearch"].

(** ** The deep merge *)

Definition cloneJson (value : json) : json := json_disk value.
(** [cloneJson] of an object. *)
Definition clone_props (o : list (string * json)) : list (string * json) :=
  match cloneJson (JObj o) with JObj o' => o' | _ => [] end.

(** A property of the overlay over the one that is there: objects are merged, anything
    else is replaced. *)
Fixpoint merge_entry (existing value : json) {struct value} : json :=
  match existing, value with
  | JObj base, JObj overlay =>
      JObj ((fix over (overlay merged : list (string * json)) {struct overlay} :=
               match overlay with
               | [] => merged
               | (key, value) :: overlay' =>
                   over overlay' (set_prop merged key (merge_entry (jget merged key) value))
               end) overlay (clone_props base))
  | _, _ => cloneJson value
  end.

Definition mergeJsonObjects (base overlay : list (string * json)) : list (string * json) :=
  fold_left (λ merged '(key, value), set_prop merged key (merge_entry (jget merged key) value))
    overlay (clone_props base).

(** [isPlainObject(value) ? value : {}]. *)
Definition props_of (value : json) : list (string * json) :=
  match value with JObj o => o | _ => [] end.
(** [set?.has(value)]. *)
Definition set_has (set : option (list string)) (value : string) : bool :=
  from_option (λ l, includes l value) false set.
(** [if (value) record[key] = value; else delete record[key]]. *)
Definition set_or_delete (record : list (string * json)) (key : string) (value : option json) :=
  match value with Some v => set_prop record key v | None => remove record key end.
(** [Object.assign(target, source)]. *)
Definition object_assign (target source : list (string * json)) : list (string * json) :=
  fold_left (λ o '(key, value), set_prop o key value) source target.

(** ** Channels *)

Definition channel_entry (previousImagePluginIds : option (list string))
    (merged : list (string * json)) (entry : string * json) : list (string * json) :=
  let '(key, value) := entry in
  if key =s "defaults" then set_prop merged key (merge_entry (jget merged key) value)
  else if includes MANAGED_OPENCLAW_CHANNELS key || set_has previousImagePluginIds key then merged
  else set_prop merged key (merge_entry (jget merged key) value).

Definition mergeOpenClawChannels (backupChannels currentChannels : json)
    (previousImagePluginIds : option (list string)) : json :=
  match backupChannels with
  | JObj backup =>
      JObj (fold_left (channel_entry previousImagePluginIds) backup
              (clone_props (props_of currentChannels)))
  | _ => cloneJson currentChannels
  end.

(** ** Plugins *)

Definition backup_entry (previousImagePluginIds : option (list string))
    (merged : list (string * json)) (entry : string * json) : list (string * json) :=
  let '(key, value) := entry in
  if set_has previousImagePluginIds key then merged
  else if includes MANAGED_WEB_SEARCH_PLUGIN_ENTRIES key then merged
  else set_prop merged key (cloneJson value).

Definition mergeOpenClawEntryMap (backupEntries currentEntries : json)
    (previousImagePluginIds : option (list string)) : option json :=
  match backupEntries, currentEntries with
  | JObj _, _ | _, JObj _ =>
      Some (JObj (object_assign
                    (fold_left (backup_entry previousImagePluginIds) (props_of backupEntries) [])
                    (clone_props (props_of currentEntries))))
  | _, _ => None
  end.

(** [Array.isArray(value) ? value.filter(isString) : undefined]. *)
Definition stringArray (value : json) : option (list string) :=
  match value with JArr l => Some (only_strings l) | _ => None end.

(** [Object.keys(merged).length > 0 ? merged : undefined]. *)
Definition unless_empty (merged : list (string * json)) : option json :=
  match merged with [] => None | _ => Some (JObj merged) end.

Definition mergeOpenClawPluginLoad (backupLoad currentLoad : json)
    (previousImagePluginLoadPaths : option (list string)) : option json :=
  let backup := props_of backupLoad in
  let current := props_of currentLoad in
  let merged := mergeJsonObjects current backup in
  let currentPaths := default [] (stringArray (jget current "paths")) in
  let backupPaths := List.filter (λ entry, negb (set_has previousImagePluginLoadPaths entry))
                       (default [] (stringArray (jget backup "paths"))) in
  let paths := uniqueStrings (currentPaths ++ backupPaths) in
  unless_empty
    (match jget current "paths", jget backup "paths" with
     | JArr _, _ | _, JArr _ => set_prop merged "paths" (jstrs paths)
     | _, _ => remove merged "paths"
     end).

Definition mergeOpenClawPluginIdList (backupValue currentValue : json)
    (previousImagePluginIds : option (list string)) (currentOppositeIds : list string)
    : option (list string) :=
  let backup := stringArray backupValue in
  let current := stringArray currentValue in
  match backup, current with
  | None, None => None
  | _, _ =>
      Some (uniqueStrings
              (default [] current
               ++ List.filter (λ id, negb (set_has previousImagePluginIds id)
                                     && negb (includes currentOppositeIds id))
                    (default [] backup)))
  end.

Definition backup_slot (previousImagePluginIds : option (list string))
    (merged : list (string * json)) (entry : string * json) : list (string * json) :=
  let '(key, value) := entry in
  match value with
  | JStr id => if set_has previousImagePluginIds id then merged
               else set_prop merged key (cloneJson value)
  | _ => set_prop merged key (cloneJson value)
  end.

Definition mergeOpenClawPluginSlots (backupSlots currentSlots : json)
    (previousImagePluginIds : option (list string)) : option json :=
  match backupSlots, currentSlots with
  | JObj _, _ | _, JObj _ =>
      unless_empty (object_assign
                      (fold_left (backup_slot previousImagePluginIds) (props_of backupSlots) [])
                      (clone_props (props_of currentSlots)))
  | _, _ => None
  end.

Record OpenClawImagePluginInstall := mkInstall {
  id : string;
  installPath : string;
  loadPaths : option (list string);
}.
Record OpenClawImagePluginOwnership := mkOwnership {
  ids : option (list string);
  o_loadPaths : option (list string);
}.
#[export] Instance eta_ownership : Eta OpenClawImagePluginOwnership :=
  λ o, mkOwnership (ids o) (o_loadPaths o).

Inductive merge_error : Type := NotObjects | OneSidedProvenance | MissingLoadPaths.

(** The sets grow with the installs; nothing else sees them when one has no paths. *)
Definition add_install (acc : result merge_error OpenClawImagePluginOwnership)
    (install : OpenClawImagePluginInstall) : result merge_error OpenClawImagePluginOwnership :=
  owned ← acc;
  paths ← of_option MissingLoadPaths (loadPaths install);
  Ok (mkOwnership (Some (uniqueStrings (default [] (ids owned) ++ [id install])))
        (Some (uniqueStrings (default [] (o_loadPaths owned) ++ paths)))).

Definition imagePluginOwnership (installs : option (list OpenClawImagePluginInstall))
    : result merge_error OpenClawImagePluginOwnership :=
  match installs with
  | None => Ok (mkOwnership None None)
  | Some l => fold_left add_install l (Ok (mkOwnership (Some []) (Some [])))
  end.

Definition removedImagePluginIds (previous fresh : OpenClawImagePluginOwnership)
    : option (list string) :=
  match ids previous with
  | None => None
  | Some l => Some (uniqueStrings (List.filter (λ id, negb (set_has (ids fresh) id)) l))
  end.

(** [allow && allow.length > 0 ? allow : undefined]. *)
Definition some_ids (l : option (list string)) : option json :=
  match l with Some ((_ :: _) as l) => Some (jstrs l) | _ => None end.

Definition mergeOpenClawPlugins (backupPlugins currentPlugins : json)
    (previousOwnership freshOwnership : OpenClawImagePluginOwnership) : json :=
  match backupPlugins, currentPlugins with
  | JObj _, _ | _, JObj _ =>
      let backup := props_of backupPlugins in
      let current := props_of currentPlugins in
      let merged := remove (mergeJsonObjects current backup) "installs" in
      let merged := set_or_delete merged "entries"
        (mergeOpenClawEntryMap (jget backup "entries") (jget current "entries")
           (ids previousOwnership)) in
      let currentAllow := stringArray (jget current "allow") in
      let currentDeny := stringArray (jget current "deny") in
      let removedIds := removedImagePluginIds previousOwnership freshOwnership in
      let backupAllowOwnedIds := if currentAllow then ids previousOwnership else removedIds in
      let backupDenyOwnedIds := if currentDeny then ids previousOwnership else removedIds in
      let merged := set_or_delete merged "allow"
        (some_ids (mergeOpenClawPluginIdList (jget backup "allow") (jget current "allow")
           backupAllowOwnedIds (default [] currentDeny))) in
      let merged := set_or_delete merged "deny"
        (some_ids (mergeOpenClawPluginIdList (jget backup "deny") (jget current "deny")
           backupDenyOwnedIds (default [] currentAllow))) in
      let merged := set_or_delete merged "slots"
        (mergeOpenClawPluginSlots (jget backup "slots") (jget current "slots")
           (ids previousOwnership)) in
      let merged := set_or_delete merged "load"
        (mergeOpenClawPluginLoad (jget backup "load") (jget current "load")
           (o_loadPaths previousOwnership)) in
      default JUndef (unless_empty merged)
  | _, _ => JUndef
  end.

(** ** Tools *)

(** Restores the owned fields of [current], their absence included. *)
Definition restoreRuntimeOwnedFields (merged current : list (string * json))
    (ownedFields : list string) : list (string * json) :=
  fold_left (λ merged field,
    if hasOwn current field then set_prop merged field (cloneJson (jget current field))
    else remove merged field) ownedFields merged.

Definition mergeOpenClawTools (backupTools currentTools : json) : json :=
  match backupTools with
  | JObj backup =>
      match currentTools with
      | JObj _ | JUndef | JNull =>
          let current := props_of currentTools in
          let merged := mergeJsonObjects current backup in
          let currentWeb := props_of (jget current "web") in
          let mergedWeb := mergeJsonObjects currentWeb (props_of (jget backup "web")) in
          let mergedWeb :=
            if hasOwn currentWeb "search"
            then set_prop mergedWeb "search" (cloneJson (jget currentWeb "search"))
            else remove mergedWeb "search" in
          let merged := set_or_delete merged "web" (unless_empty mergedWeb) in
          JObj (restoreRuntimeOwnedFields merged current currentGeneratedToolFields)
      | _ => cloneJson currentTools
      end
  | _ => cloneJson currentTools
  end.

(** ** Models *)

Definition modelEntryId (entry : json) : option string :=
  match entry with JObj o => readString (jget o "id") | _ => None end.

Definition mergeOpenClawModelEntry (backupModel currentModel : list (string * json))
    : list (string * json) :=
  restoreRuntimeOwnedFields (mergeJsonObjects currentModel backupModel) currentModel
    MODEL_RUNTIME_OWNED_FIELDS.

(** The first entry of each id, in a Map. *)
Definition index_models (backupModels : json) : list (string * list (string * json)) :=
  match backupModels with
  | JArr l =>
      fold_left (λ backupById entry,
        match modelEntryId entry, entry with
        | Some id, JObj o =>
            if truthy id && negb (bool_decide (is_Some (own backupById id)))
            then put backupById id o else backupById
        | _, _ => backupById
        end) l []
  | _ => []
  end.

Definition merge_model (backupById : list (string * list (string * json))) (entry : json) : json :=
  let backupMatch :=
    match modelEntryId entry with
    | Some id => if truthy id then own backupById id else None
    | None => None
    end in
  match backupMatch, entry with
  | Some backup, JObj current => JObj (mergeOpenClawModelEntry backup current)
  | _, _ => cloneJson entry
  end.

Definition mergeOpenClawModelArray (backupModels currentModels : json) : json :=
  match currentModels with
  | JArr current => JArr (map (merge_model (index_models backupModels)) current)
  | _ => cloneJson (match backupModels with JNull | JUndef => currentModels | _ => backupModels end)
  end.

Definition mergeOpenClawProviderEntry (backupProvider currentProvider : list (string * json))
    : list (string * json) :=
  let merged := restoreRuntimeOwnedFields (mergeJsonObjects currentProvider backupProvider)
    currentProvider PROVIDER_RUNTIME_OWNED_FIELDS in
  if hasOwn currentProvider "models" || hasOwn backupProvider "models" then
    set_prop merged "models"
      (mergeOpenClawModelArray (jget backupProvider "models") (jget currentProvider "models"))
  else merged.

Definition provider_entry (backup merged : list (string * json)) (entry : string * json)
    : list (string * json) :=
  let '(key, value) := entry in
  set_prop merged key
    (match jget backup key, value with
     | JObj backupEntry, JObj current => JObj (mergeOpenClawProviderEntry backupEntry current)
     | _, _ => cloneJson value
     end).

Definition mergeOpenClawProviderMap (backupProviders currentProviders : json) : option json :=
  match backupProviders, currentProviders with
  | JObj _, _ | _, JObj _ =>
      let backup := props_of backupProviders in
      let merged := fold_left (λ o '(key, value), set_prop o key (cloneJson value)) backup [] in
      Some (JObj (fold_left (provider_entry backup) (props_of currentProviders) merged))
  | _, _ => None
  end.

Definition mergeOpenClawModels (backupModels currentModels : json) : json :=
  match backupModels, currentModels with
  | JObj backup, JObj current =>
      let merged := mergeJsonObjects current backup in
      JObj (match mergeOpenClawProviderMap (jget backup "providers") (jget current "providers") with
            | Some providers => set_prop merged "providers" providers
            | None => merged
            end)
  | JObj _, _ => cloneJson backupModels
  | _, _ => cloneJson currentModels
  end.

(** ** The agent's primary model *)

(** The object at [key], which the code creates when there is none; the caller writes it
    back, where the code updates it in place. *)
Definition ensureMergedObject (record : list (string * json)) (key : string) : list (string * json) :=
  props_of (jget record key).

Definition readAgentPrimaryModelRef (config : list (string * json)) : option string :=
  match jget config "agents" with
  | JObj agents =>
      match jget agents "defaults" with
      | JObj defaults =>
          match jget defaults "model" with
          | JObj model => readString (jget model "primary")
          | _ => None
          end
      | _ => None
      end
  | _ => None
  end.

Definition has_model (o : list (string * json)) : bool :=
  match jget o "model" with JStr _ => true | _ => false end.
Definition is_default_agent (entry : json) : bool :=
  match entry with
  | JObj o => is_true_json (jget o "default") && has_model o
  | _ => false
  end.

(** The first default agent among the entries. *)
Fixpoint update_default_entry (entries : list (string * json)) (ref : string) : list (string * json) :=
  match entries with
  | [] => []
  | (key, entry) :: entries' =>
      if is_default_agent entry
      then (key, JObj (set_prop (props_of entry) "model" (JStr ref))) :: entries'
      else (key, entry) :: update_default_entry entries' ref
  end.

(** The place of the agent whose model follows: the scan stops at [main], which is taken
    only when it has a model, and remembers the first default agent before it. *)
Fixpoint list_target (i : nat) (defaultAgent : option nat) (l : list json) : option nat :=
  match l with
  | [] => defaultAgent
  | entry :: l' =>
      match entry with
      | JObj o =>
          if is_str "main" (jget o "id") then (if has_model o then Some i else None)
          else list_target (S i)
                 (match defaultAgent with
                  | None => if is_default_agent entry then Some i else None
                  | Some _ => defaultAgent
                  end) l'
      | _ => list_target (S i) defaultAgent l'
      end
  end.

Definition updateMainAgentListModel (agents : list (string * json)) (primaryModelRef : string)
    : list (string * json) :=
  let point entry := JObj (set_prop (props_of entry) "model" (JStr primaryModelRef)) in
  match jget agents "entries" with
  | JObj entries =>
      let main := jget entries "main" in
      set_prop agents "entries"
        (JObj (if match main with JObj o => has_model o | _ => false end
               then set_prop entries "main" (point main)
               else update_default_entry entries primaryModelRef))
  | _ =>
      match jget agents "list" with
      | JArr l =>
          match list_target 0 None l with
          | Some i => set_prop agents "list" (JArr (alter point i l))
          | None => agents
          end
      | _ => agents
      end
  end.

Definition reconcileAgentPrimaryModel (merged currentConfig : list (string * json))
    : list (string * json) :=
  match readAgentPrimaryModelRef currentConfig with
  | None => merged
  | Some freshPrimary =>
      let agents := ensureMergedObject merged "agents" in
      let defaults := ensureMergedObject agents "defaults" in
      let model := ensureMergedObject defaults "model" in
      let model := set_prop model "primary" (JStr freshPrimary) in
      let defaults := set_prop defaults "model" (JObj model) in
      let agents := set_prop agents "defaults" (JObj defaults) in
      set_prop merged "agents" (JObj (updateMainAgentListModel agents freshPrimary))
  end.

(** ** The merge *)

Record OpenClawConfigMergeOptions := mkOptions {
  freshImagePluginInstalls : option (list OpenClawImagePluginInstall);
  previousImagePluginInstalls : option (list OpenClawImagePluginInstall);
}.

Definition mergeOpenClawRestoredConfig (backedUpConfig currentConfig : json)
    (options : OpenClawConfigMergeOptions) : result merge_error (list (string * json)) :=
  match backedUpConfig, currentConfig with
  | JObj backup, JObj current =>
      match previousImagePluginInstalls options, freshImagePluginInstalls options with
      | None, Some _ | Some _, None => Throw OneSidedProvenance
      | previous, fresh =>
          previousOwnership ← imagePluginOwnership previous;
          freshOwnership ← imagePluginOwnership fresh;
          let merged := restoreRuntimeOwnedFields (mergeJsonObjects current backup) current
            runtimeSections in
          let merged := set_prop merged "channels"
            (mergeOpenClawChannels (jget backup "channels") (jget current "channels")
               (ids previousOwnership)) in
          let merged := set_prop merged "models"
            (mergeOpenClawModels (jget backup "models") (jget current "models")) in
          let merged := set_prop merged "plugins"
            (mergeOpenClawPlugins (jget backup "plugins") (jget current "plugins")
               previousOwnership freshOwnership) in
          let merged := set_prop merged "tools"
            (mergeOpenClawTools (jget backup "tools") (jget current "tools")) in
          Ok (reconcileAgentPrimaryModel merged current)
      end
  | _, _ => Throw NotObjects
  end.

(** ** Reading by path *)

(** [value?.[key]], undefined when there is no such property. *)
Definition prop (value : json) (key : string) : json := jget (props_of value) key.
Definition at_path (value : json) (path : list string) : json := fold_left prop path value.

(** What [JSON.parse] returns: no undefined value, no duplicate property.  A property
    read is such a value or undefined. *)
Fixpoint keyed (value : json) : bool :=
  match value with
  | JArr l => forallb keyed l
  | JObj o => no_dup_b (map fst o) && forallb (λ kv, keyed kv.2) o
  | _ => true
  end.
Definition parsed (value : json) : bool := json_clean value && keyed value.
Definition readable (value : json) : bool := is_undefined value || parsed value.

Lemma readable_obj o :
  readable (JObj o) = true ↔ NoDup (map fst o) ∧ ∀ k v, (k, v) ∈ o → parsed v = true.
Proof.
  unfold readable, parsed. cbn. rewrite !andb_true_iff, !forallb_forall. unfold no_dup_b.
  rewrite bool_decide_eq_true. split.
  - intros (Hc & Hn & Hk). split; [done|]. intros k v Hin. apply list_elem_of_In in Hin.
    unfold parsed. rewrite (Hc _ Hin : json_clean v = true). apply (Hk _ Hin).
  - intros [Hn H]. assert (H' : ∀ kv, In kv o → parsed kv.2 = true).
    { intros [k v] Hin. apply (H k). by apply list_elem_of_In. }
    split_and!; [|done|]; intros kv Hin; specialize (H' kv Hin); unfold parsed in H'; by bools.
Qed.

Lemma own_elem {A} (o : list (string * A)) k v : own o k = Some v → (k, v) ∈ o.
Proof.
  induction o as [|[k0 v0] o IH]; [done|]. cbn. destruct (String.eqb_spec k0 k) as [->|].
  - intros [= ->]. left.
  - intros H. right. by apply IH.
Qed.

Lemma parsed_readable v : parsed v = true → readable v = true.
Proof. unfold readable. intros ->. by destruct v. Qed.
Lemma readable_jget o k : readable (JObj o) = true → readable (jget o k) = true.
Proof.
  intros [_ H]%readable_obj. rewrite jget_own. destruct (own o k) as [v|] eqn:E; [|done].
  by eapply parsed_readable, H, own_elem.
Qed.
Lemma readable_props v : readable v = true → readable (JObj (props_of v)) = true.
Proof. by destruct v. Qed.
Lemma readable_prop v k : readable v = true → readable (prop v k) = true.
Proof. intros. by apply readable_jget, readable_props. Qed.
Lemma readable_tail kv o : readable (JObj (kv :: o)) = true → readable (JObj o) = true.
Proof.
  rewrite !readable_obj. cbn. intros [[_ Hn]%NoDup_cons H]. split; [done|].
  intros k v Hin. apply (H k). by right.
Qed.
Lemma clone_readable v : readable v = true → cloneJson v = v.
Proof.
  unfold readable, parsed. destruct (is_undefined v) eqn:E; [by destruct v|].
  cbn [orb]. intros H. bools. by apply json_disk_clean.
Qed.
Lemma clone_props_readable o : readable (JObj o) = true → clone_props o = o.
Proof. intros. unfold clone_props. by rewrite clone_readable. Qed.
#[local] Hint Resolve parsed_readable readable_jget readable_props readable_prop readable_tail : nemo.

(** Rewrites the clones of readable values away. *)
Ltac unclone := repeat first
  [ rewrite clone_props_readable by eauto 6 with nemo
  | rewrite clone_readable by eauto 6 with nemo ].

(** A loop that changes, at each property of the source, only that property. *)
Lemma fold_props (step : list (string * json) → string * json → list (string * json))
    (G : string → json → json → json) o m k :
  (∀ m k v k', jget (step m (k, v)) k' = if decide (k = k') then G k (jget m k) v else jget m k') →
  readable (JObj o) = true →
  jget (fold_left step o m) k
  = match jget o k with JUndef => jget m k | v => G k (jget m k) v end.
Proof.
  intros Hstep. revert m. induction o as [|[k0 v0] o IH]; intros m Ho; [done|].
  cbn [fold_left]. rewrite IH by eauto with nemo. cbn [jget]. rewrite Hstep.
  apply readable_obj in Ho as [Hn Hp]. cbn in Hn. apply NoDup_cons in Hn as [Hk0 _].
  destruct (String.eqb_spec k0 k) as [->|Hne]; [|by rewrite decide_False].
  rewrite decide_True by done.
  assert (jget o k = JUndef) as ->.
  { rewrite jget_own. destruct (own o k) eqn:E; [|done]. destruct Hk0.
    apply own_elem in E. apply list_elem_of_fmap. by eexists (_, _). }
  specialize (Hp k v0 ltac:(left)). by destruct v0.
Qed.

(** ** The deep merge, property by property *)

(** A value of the backup over one of the fresh configuration. *)
Definition overlay (existing value : json) : json :=
  match value with JUndef => existing | _ => merge_entry existing value end.

Lemma merge_entry_eq existing value :
  merge_entry existing value =
  match existing, value with
  | JObj base, JObj o => JObj (mergeJsonObjects base o)
  | _, _ => cloneJson value
  end.
Proof.
  destruct existing, value; try done. cbn [merge_entry]. f_equal. unfold mergeJsonObjects.
  generalize (clone_props o) as merged. induction o0 as [|[k v] o0 IH]; [done|].
  intros merged. cbn [fold_left]. by rewrite <- IH.
Qed.

Lemma jget_merge base o k :
  readable (JObj base) = true → readable (JObj o) = true →
  jget (mergeJsonObjects base o) k = overlay (jget base k) (jget o k).
Proof.
  intros Hb Ho. unfold mergeJsonObjects. unclone.
  rewrite (fold_props _ (λ _, merge_entry)); [|intros; apply jget_set_prop|done].
  unfold overlay. by destruct (jget o k).
Qed.

Lemma overlay_undef_l b : readable b = true → overlay JUndef b = b.
Proof. intros. unfold overlay. rewrite merge_entry_eq. destruct b; try done; by apply clone_readable. Qed.

(** An object of the backup is laid over property by property, whatever is under it. *)
Lemma prop_overlay c b k :
  readable c = true → readable (JObj b) = true →
  prop (overlay c (JObj b)) k = overlay (prop c k) (jget b k).
Proof.
  intros Hc Hb. unfold overlay at 1. rewrite merge_entry_eq.
  destruct c as [| | | | | |c]; [..|unfold prop; cbn [props_of]; by apply jget_merge];
    rewrite clone_readable by done; unfold prop; cbn [props_of jget];
    by rewrite overlay_undef_l by eauto with nemo.
Qed.

Lemma overlay_undef_r c : overlay c JUndef = c.
Proof. done. Qed.

Lemma prop_obj o k : prop (JObj o) k = jget o k.
Proof. done. Qed.

(** The backup's own leaves survive, and where it is silent the fresh value does. *)
Definition leaf (value : json) : bool :=
  match value with JUndef | JObj _ => false | _ => true end.
Fixpoint silent (backup : json) (path : list string) : bool :=
  match backup, path with
  | JUndef, _ => true
  | JObj o, key :: path' => silent (jget o key) path'
  | _, _ => false
  end.

Lemma silent_undef path : silent JUndef path = true.
Proof. by destruct path. Qed.

(** An object, or something without properties. *)
Lemma no_props v k : isObjectRecord v = None → prop v k = JUndef.
Proof. by destruct v. Qed.
Lemma object_or_not v : (∃ o, v = JObj o) ∨ isObjectRecord v = None.
Proof. destruct v; eauto. Qed.

Lemma overlay_no_object c b :
  isObjectRecord b = None → isObjectRecord c = None → isObjectRecord (overlay c b) = None.
Proof. unfold overlay. rewrite merge_entry_eq. by destruct b as [| | |[]| | |], c. Qed.

Lemma at_path_undef p : at_path JUndef p = JUndef.
Proof. by induction p. Qed.

Lemma at_path_cons v k p : at_path v (k :: p) = at_path (prop v k) p.
Proof. done. Qed.

Lemma overlay_leaf c b p :
  readable c = true → readable b = true → leaf (at_path b p) = true →
  at_path (overlay c b) p = at_path b p.
Proof.
  revert c b. induction p as [|k p IH]; intros c b Hc Hb Hl.
  - cbn in *. unfold overlay. rewrite merge_entry_eq. destruct b; try done; destruct c; try done;
      by rewrite clone_readable.
  - rewrite !at_path_cons in *. destruct b as [| | | | | |b];
      try (unfold prop in Hl; cbn in Hl; by rewrite at_path_undef in Hl).
    rewrite prop_overlay by done. apply IH; eauto with nemo.
Qed.

Lemma overlay_silent c b p :
  readable c = true → readable b = true → silent b p = true →
  at_path (overlay c b) p = at_path c p.
Proof.
  revert c b. induction p as [|k p IH]; intros c b Hc Hb Hs; [by destruct b|].
  rewrite !at_path_cons. destruct b as [| | | | | |b]; try done.
  rewrite prop_overlay by done. apply IH; eauto with nemo.
Qed.

(** ** What each merger leaves at each property *)

Lemma jget_hasOwn_false o k : hasOwn o k = false → jget o k = JUndef.
Proof. rewrite hasOwn_own, jget_own. intros H. bools. by apply eq_None_not_Some in H as ->. Qed.

Lemma jget_restore merged current fields k :
  readable (JObj current) = true →
  jget (restoreRuntimeOwnedFields merged current fields) k
  = if includes fields k then jget current k else jget merged k.
Proof.
  intros Hc. unfold restoreRuntimeOwnedFields. revert merged.
  induction fields as [|f fields IH]; intros merged; [done|].
  cbn [fold_left]. rewrite IH. unfold includes at 2. cbn [existsb]. fold (includes fields k).
  destruct (includes fields k); [by rewrite orb_true_r|]. rewrite orb_false_r.
  destruct (hasOwn current f) eqn:E.
  - rewrite jget_set_prop. unclone. rewrite String.eqb_sym.
    by destruct (String.eqb_spec f k) as [->|]; case_decide.
  - rewrite jget_remove, String.eqb_sym.
    destruct (String.eqb_spec f k) as [->|]; case_decide; try done. by rewrite jget_hasOwn_false.
Qed.

Lemma prop_unless_empty o k : prop (default JUndef (unless_empty o)) k = jget o k.
Proof. by destruct o. Qed.

Lemma jget_set_or_delete o k v k' :
  jget (set_or_delete o k v) k' = if decide (k = k') then default JUndef v else jget o k'.
Proof. destruct v; [apply jget_set_prop|apply jget_remove]. Qed.

Lemma jget_object_assign o m k :
  readable (JObj o) = true →
  jget (object_assign m o) k = match jget o k with JUndef => jget m k | v => v end.
Proof. intros. unfold object_assign. by rewrite (fold_props _ (λ _ _ v, v)) by (done || intros; apply jget_set_prop). Qed.

Lemma prop_channels b c ids k :
  readable b = true → readable c = true →
  prop (mergeOpenClawChannels b c ids) k
  = if negb (k =s "defaults") && (includes MANAGED_OPENCLAW_CHANNELS k || set_has ids k)
    then prop c k else overlay (prop c k) (prop b k).
Proof.
  intros Hb Hc. destruct (object_or_not b) as [[o ->]|E].
  2:{ rewrite (no_props b), overlay_undef_r by done.
      destruct b; cbn [mergeOpenClawChannels]; try done; unclone; by case_match. }
  cbn [mergeOpenClawChannels]. rewrite !prop_obj. unclone.
  rewrite (fold_props _ (λ k c v,
    if negb (k =s "defaults") && (includes MANAGED_OPENCLAW_CHANNELS k || set_has ids k)
    then c else merge_entry c v)); [| |done].
  - fold (prop c k). unfold overlay. destruct (_ && _); by destruct (jget o k).
  - clear. intros m k v k'. unfold channel_entry. destruct (k =s "defaults"); cbn [negb andb].
    + apply jget_set_prop.
    + case_match; [|apply jget_set_prop]. by case_decide; subst.
Qed.

Lemma prop_entry_map b c ids k :
  readable b = true → readable c = true →
  prop (default JUndef (mergeOpenClawEntryMap b c ids)) k
  = match prop c k with
    | JUndef => if set_has ids k || includes MANAGED_WEB_SEARCH_PLUGIN_ENTRIES k then JUndef
                else prop b k
    | v => v
    end.
Proof.
  intros Hb Hc.
  assert (Hmap : prop (JObj (object_assign (fold_left (backup_entry ids) (props_of b) [])
                               (clone_props (props_of c)))) k
    = match prop c k with
      | JUndef => if set_has ids k || includes MANAGED_WEB_SEARCH_PLUGIN_ENTRIES k then JUndef
                  else prop b k
      | v => v
      end).
  { unclone. rewrite prop_obj, jget_object_assign by eauto with nemo. fold (prop c k).
    rewrite (fold_props _ (λ k c v,
      if set_has ids k || includes MANAGED_WEB_SEARCH_PLUGIN_ENTRIES k then c else cloneJson v));
      [| |by eauto with nemo].
    - fold (prop b k). pose proof (readable_prop b k Hb) as Hk.
      destruct (prop c k); try done. destruct (_ || _); destruct (prop b k); try done; by unclone.
    - clear. intros m k v k'. unfold backup_entry.
      destruct (set_has ids k); [by case_decide; subst|]. cbn [orb].
      case_match; [by case_decide; subst|]. apply jget_set_prop. }
  unfold mergeOpenClawEntryMap. destruct b, c; try (cbn [default from_option id]; exact Hmap);
    unfold prop; cbn; by destruct (_ || _).
Qed.

(** A fresh [tools] or nothing, as opposed to a scalar or an array. *)
Definition settings_object (value : json) : bool :=
  match value with JObj _ | JUndef | JNull => true | _ => false end.

(** The web settings, around the fresh [search]. *)
Definition merged_web (backup current : json) : list (string * json) :=
  let currentWeb := props_of current in
  let mergedWeb := mergeJsonObjects currentWeb (props_of backup) in
  if hasOwn currentWeb "search"
  then set_prop mergedWeb "search" (cloneJson (jget currentWeb "search"))
  else remove mergedWeb "search".

Lemma jget_merged_web b c k :
  readable b = true → readable c = true →
  jget (merged_web b c) k = if k =s "search" then prop c k else overlay (prop c k) (prop b k).
Proof.
  intros Hb Hc. unfold merged_web. pose proof (readable_props c Hc) as Hc'.
  rewrite (String.eqb_sym k). destruct (hasOwn (props_of c) "search") eqn:E;
    rewrite ?jget_set_prop, ?jget_remove; destruct (String.eqb_spec "search" k) as [<-|];
    case_decide; try done; unclone; try done.
  - by apply jget_merge; eauto with nemo.
  - symmetry. by apply jget_hasOwn_false.
  - by apply jget_merge; eauto with nemo.
Qed.

Lemma mergeOpenClawTools_eq b c :
  mergeOpenClawTools (JObj b) c =
  if settings_object c then
    JObj (restoreRuntimeOwnedFields
            (set_or_delete (mergeJsonObjects (props_of c) b) "web"
               (unless_empty (merged_web (jget b "web") (prop c "web"))))
            (props_of c) currentGeneratedToolFields)
  else cloneJson c.
Proof. by destruct c. Qed.

Lemma tools_no_backup b c : isObjectRecord b = None → readable c = true → mergeOpenClawTools b c = c.
Proof. intros. destruct b; try done; by apply clone_readable. Qed.

Lemma prop_tools b c k :
  readable b = true → readable c = true →
  isObjectRecord b = None ∨ settings_object c = true →
  prop (mergeOpenClawTools b c) k
  = if includes currentGeneratedToolFields k then prop c k
    else if k =s "web" then prop (mergeOpenClawTools b c) "web"
    else overlay (prop c k) (prop b k).
Proof.
  intros Hb Hc Hs. destruct (object_or_not b) as [[o ->]|E].
  2:{ rewrite tools_no_backup, (no_props b), overlay_undef_r by done.
      destruct (String.eqb_spec k "web") as [->|]; by case_match. }
  destruct Hs as [|Hs]; [done|]. rewrite mergeOpenClawTools_eq, Hs, !prop_obj.
  rewrite !jget_restore by eauto with nemo. destruct (includes _ k) eqn:Ek; [done|].
  rewrite !jget_set_or_delete. destruct (String.eqb_spec k "web") as [->|].
  - by rewrite decide_True by done.
  - rewrite decide_False by done. by rewrite jget_merge by eauto with nemo.
Qed.

Lemma prop_tools_fresh b c k :
  readable b = true → readable c = true → includes currentGeneratedToolFields k = true →
  prop (mergeOpenClawTools b c) k = prop c k.
Proof.
  intros Hb Hc Hk. destruct (object_or_not b) as [[o ->]|E]; [|by rewrite tools_no_backup].
  rewrite mergeOpenClawTools_eq. destruct (settings_object c); [|by unclone].
  rewrite prop_obj, jget_restore by eauto with nemo. by rewrite Hk.
Qed.

Lemma prop_web b c k :
  readable b = true → readable c = true →
  (k =s "search") || settings_object c = true ∨ isObjectRecord b = None →
  prop (prop (mergeOpenClawTools b c) "web") k
  = if k =s "search" then prop (prop c "web") k
    else overlay (prop (prop c "web") k) (prop (prop b "web") k).
Proof.
  intros Hb Hc Hs. destruct (object_or_not b) as [[o ->]|E].
  2:{ rewrite tools_no_backup, (no_props b), (no_props JUndef), overlay_undef_r by done. by case_match. }
  destruct Hs as [Hs|]; [|done]. rewrite mergeOpenClawTools_eq.
  destruct (settings_object c) eqn:Ec.
  - rewrite prop_obj, jget_restore by eauto with nemo. cbn [includes].
    change (includes currentGeneratedToolFields "web") with false. cbv iota.
    rewrite jget_set_or_delete, decide_True by done.
    by rewrite prop_unless_empty, jget_merged_web by eauto with nemo.
  - rewrite orb_false_r in Hs. rewrite Hs. by unclone.
Qed.

(** *** Providers *)

Definition reconciled_provider (current backup : json) : json :=
  match current, backup with
  | JObj c, JObj b => JObj (mergeOpenClawProviderEntry b c)
  | JUndef, _ => backup
  | _, _ => current
  end.

Lemma prop_provider_map b c k :
  readable b = true → readable c = true →
  prop (default JUndef (mergeOpenClawProviderMap b c)) k = reconciled_provider (prop c k) (prop b k).
Proof.
  intros Hb Hc.
  assert (Hmap : prop (JObj (fold_left (provider_entry (props_of b)) (props_of c)
                   (fold_left (λ o '(key, value), set_prop o key (cloneJson value)) (props_of b) []))) k
     = reconciled_provider (prop c k) (prop b k)).
  { rewrite prop_obj.
    rewrite (fold_props _ (λ k _ v, match prop b k, v with
       | JObj backupEntry, JObj current => JObj (mergeOpenClawProviderEntry backupEntry current)
       | _, _ => cloneJson v end)); [| |by eauto with nemo].
    2:{ intros. apply jget_set_prop. }
    rewrite (fold_props _ (λ _ _ v, cloneJson v)); [| |by eauto with nemo].
    2:{ intros. apply jget_set_prop. }
    fold (prop c k) (prop b k).
    assert (Eb : cloneJson (prop b k) = prop b k) by (apply clone_readable; eauto with nemo).
    assert (Ec : cloneJson (prop c k) = prop c k) by (apply clone_readable; eauto with nemo).
    destruct (prop c k), (prop b k); cbn [reconciled_provider]; by rewrite ?Eb, ?Ec. }
  unfold mergeOpenClawProviderMap. destruct b, c; try exact Hmap; done.
Qed.

Lemma models_no_backup b c : isObjectRecord b = None → readable c = true → mergeOpenClawModels b c = c.
Proof. intros. destruct b, c; try done; by apply clone_readable. Qed.
Lemma models_no_current b c :
  readable (JObj b) = true → isObjectRecord c = None → mergeOpenClawModels (JObj b) c = JObj b.
Proof. intros. destruct c; try done; by apply clone_readable. Qed.

Lemma prop_models b c k :
  readable b = true → readable c = true → k ≠ "providers" →
  prop (mergeOpenClawModels b c) k = overlay (prop c k) (prop b k).
Proof.
  intros Hb Hc Hk. destruct (object_or_not b) as [[ob ->]|E].
  2:{ by rewrite models_no_backup, (no_props b). }
  destruct (object_or_not c) as [[oc ->]|E].
  2:{ rewrite models_no_current, (no_props c), overlay_undef_l by eauto with nemo. done. }
  cbn [mergeOpenClawModels]. rewrite !prop_obj, <- jget_merge by done.
  case_match; [|done]. by rewrite jget_set_prop, decide_False.
Qed.

Lemma prop_providers b c k :
  readable b = true → readable c = true →
  prop (prop (mergeOpenClawModels b c) "providers") k
  = reconciled_provider (prop (prop c "providers") k) (prop (prop b "providers") k).
Proof.
  intros Hb Hc. destruct (object_or_not b) as [[ob ->]|E].
  2:{ rewrite models_no_backup, (no_props b), (no_props JUndef) by done. by destruct (prop _ k). }
  destruct (object_or_not c) as [[oc ->]|E].
  2:{ rewrite models_no_current, (no_props c), (no_props JUndef) by done. done. }
  cbn [mergeOpenClawModels]. rewrite !prop_obj.
  rewrite <- prop_provider_map by eauto with nemo.
  destruct (mergeOpenClawProviderMap _ _) eqn:E.
  - by rewrite jget_set_prop, decide_True.
  - rewrite jget_merge by done. cbn [default from_option]. unfold mergeOpenClawProviderMap in E.
    apply no_props, overlay_no_object.
    + by destruct (jget ob "providers").
    + by destruct (jget ob "providers"), (jget oc "providers").
Qed.

Lemma prop_provider_entry b c k :
  readable (JObj b) = true → readable (JObj c) = true →
  jget (mergeOpenClawProviderEntry b c) k
  = if k =s "models" then mergeOpenClawModelArray (jget b "models") (jget c "models")
    else if includes PROVIDER_RUNTIME_OWNED_FIELDS k then jget c k
    else overlay (jget c k) (jget b k).
Proof.
  intros Hb Hc. unfold mergeOpenClawProviderEntry. rewrite (String.eqb_sym k).
  destruct (hasOwn c "models" || hasOwn b "models") eqn:E.
  - rewrite jget_set_prop, jget_restore, jget_merge by done.
    destruct (String.eqb_spec "models" k); by case_decide.
  - bools. rewrite jget_restore, jget_merge by done.
    destruct (String.eqb_spec "models" k) as [<-|]; [|done].
    by rewrite !jget_hasOwn_false by done.
Qed.

(** *** Plugins *)

Lemma only_strings_JArr l : stringArray (jstrs l) = Some l.
Proof. unfold stringArray, jstrs. by rewrite only_strings_jstrs. Qed.

Definition allowOwnedIds (opposite : option (list string)) (po fo : OpenClawImagePluginOwnership) :=
  if opposite then ids po else removedImagePluginIds po fo.

(** The five sections the merge builds itself, by name. *)
Definition plugin_section (b c : json) (po fo : OpenClawImagePluginOwnership) (key : string) : option json :=
  let allow := stringArray (prop c "allow") in
  let deny := stringArray (prop c "deny") in
  if key =s "installs" then None
  else if key =s "entries" then mergeOpenClawEntryMap (prop b key) (prop c key) (ids po)
  else if key =s "allow" then
    some_ids (mergeOpenClawPluginIdList (prop b key) (prop c key)
                (allowOwnedIds allow po fo) (default [] deny))
  else if key =s "deny" then
    some_ids (mergeOpenClawPluginIdList (prop b key) (prop c key)
                (allowOwnedIds deny po fo) (default [] allow))
  else if key =s "slots" then mergeOpenClawPluginSlots (prop b key) (prop c key) (ids po)
  else mergeOpenClawPluginLoad (prop b key) (prop c key) (o_loadPaths po).
Definition plugin_sections : list string := ["installs"; "entries"; "allow"; "deny"; "slots"; "load"].

Definition plugin_chain (b c : json) (po fo : OpenClawImagePluginOwnership) : list (string * json) :=
  fold_left (λ o key, set_or_delete o key (plugin_section b c po fo key)) plugin_sections
    (mergeJsonObjects (props_of c) (props_of b)).

Lemma mergeOpenClawPlugins_eq b c po fo :
  mergeOpenClawPlugins b c po fo =
  match b, c with
  | JObj _, _ | _, JObj _ => default JUndef (unless_empty (plugin_chain b c po fo))
  | _, _ => JUndef
  end.
Proof. by destruct b, c. Qed.

Lemma jget_set_all o f keys k :
  jget (fold_left (λ o key, set_or_delete o key (f key)) keys o) k
  = if includes keys k then default JUndef (f k) else jget o k.
Proof.
  revert o. induction keys as [|key keys IH]; intros o; [done|].
  cbn [fold_left]. rewrite IH, jget_set_or_delete. unfold includes at 2. cbn [existsb].
  fold (includes keys k). destruct (includes keys k); [by rewrite orb_true_r|].
  rewrite orb_false_r, String.eqb_sym. by destruct (String.eqb_spec key k) as [->|]; case_decide.
Qed.

Lemma prop_plugins b c po fo k :
  readable b = true → readable c = true →
  prop (mergeOpenClawPlugins b c po fo) k
  = if includes plugin_sections k then default JUndef (plugin_section b c po fo k)
    else overlay (prop c k) (prop b k).
Proof.
  intros Hb Hc. rewrite mergeOpenClawPlugins_eq.
  destruct (match b, c with JObj _, _ | _, JObj _ => true | _, _ => false end) eqn:E.
  - transitivity (jget (plugin_chain b c po fo) k).
    { rewrite <- prop_unless_empty. by destruct b, c. }
    unfold plugin_chain. rewrite jget_set_all. by rewrite jget_merge by eauto with nemo.
  - assert (Hp : ∀ k, prop b k = JUndef ∧ prop c k = JUndef) by by destruct b, c.
    transitivity JUndef; [by destruct b, c|]. unfold plugin_section.
    rewrite !(proj1 (Hp _)), !(proj2 (Hp _)). by repeat case_match.
Qed.

(** ** Model entries *)

(** The backup's entry for a model of the fresh list: the first object of that id. *)
Definition backup_model (backupModels : list json) (entry : json) : json :=
  match modelEntryId entry with
  | Some id => if truthy id
               then default JUndef (List.find (λ e, bool_decide (modelEntryId e = Some id)) backupModels)
               else JUndef
  | None => JUndef
  end.

Lemma own_index_models l id :
  truthy id = true →
  own (index_models (JArr l)) id
  = props_of <$> List.find (λ e, bool_decide (modelEntryId e = Some id)) l.
Proof.
  intros Hid. cbn [index_models].
  match goal with |- own (fold_left ?f l []) _ = _ =>
    assert (H : ∀ acc, own (fold_left f l acc) id = match own acc id with Some v => Some v
      | None => props_of <$> List.find (λ e, bool_decide (modelEntryId e = Some id)) l end) end.
  2:{ by rewrite H. }
  induction l as [|e l IH]; intros acc; [cbn; by destruct (own acc id)|].
  cbn [fold_left List.find]. rewrite IH.
  destruct (modelEntryId e) as [id'|] eqn:Ee; [|by rewrite bool_decide_eq_false_2 by done].
  destruct e as [| | | | | |o]; try done. destruct (decide (id' = id)) as [->|Hne].
  - rewrite Hid, (bool_decide_eq_true_2 (Some id = _)) by done.
    destruct (own acc id) eqn:Ea; cbn [andb negb bool_decide].
    + rewrite bool_decide_eq_true_2 by eauto. cbn. by rewrite Ea.
    + rewrite bool_decide_eq_false_2 by (intros [? ?]; done). cbn [negb]. by rewrite own_put, decide_True.
  - rewrite (bool_decide_eq_false_2 (Some id' = _)) by congruence.
    destruct (truthy id' && _); [|done]. by rewrite own_put, decide_False.
Qed.

Lemma merge_model_eq l e :
  merge_model (index_models (JArr l)) e =
  match backup_model l e, e with
  | JObj b, JObj c => JObj (mergeOpenClawModelEntry b c)
  | _, _ => cloneJson e
  end.
Proof.
  unfold merge_model, backup_model. destruct (modelEntryId e) as [id|]; [|done].
  destruct (truthy id) eqn:Hid; [|done]. rewrite own_index_models by done.
  destruct (List.find _ _) as [x|] eqn:E; [|done]. apply List.find_some in E as [_ E]. bools.
  cbn. by destruct x.
Qed.

(** A model keeps its place and its routing identity; the backup's tuning is laid over it. *)
Definition reconciled_model (backupModels : list json) (entry entry' : json) : Prop :=
  ∀ k, prop entry' k = if includes MODEL_RUNTIME_OWNED_FIELDS k then prop entry k
                       else overlay (prop entry k) (prop (backup_model backupModels entry) k).

Lemma readable_elem l e : readable (JArr l) = true → e ∈ l → readable e = true.
Proof.
  unfold readable, parsed. cbn. intros H He. bools.
  match goal with H1 : forallb json_clean l = true, H2 : forallb keyed l = true |- _ =>
    rewrite forallb_forall in H1, H2; apply list_elem_of_In in He;
    by rewrite (H1 _ He), (H2 _ He), orb_true_r end.
Qed.

Lemma find_readable l p e : readable (JArr l) = true → List.find p l = Some e → readable e = true.
Proof. intros Hl [Hin _]%List.find_some. eapply readable_elem; [done|]. by apply list_elem_of_In. Qed.

Lemma backup_model_readable l e : readable (JArr l) = true → readable (backup_model l e) = true.
Proof.
  intros Hl. unfold backup_model. repeat case_match; try done.
  destruct (List.find _ l) eqn:E; [|done]. by eapply find_readable.
Qed.

Lemma merge_model_reconciled l e :
  readable (JArr l) = true → readable e = true → reconciled_model l e (merge_model (index_models (JArr l)) e).
Proof.
  intros Hl He k. rewrite merge_model_eq. pose proof (backup_model_readable l e Hl) as Hb.
  destruct (object_or_not (backup_model l e)) as [[b E]|E].
  2:{ rewrite (no_props (backup_model l e)), overlay_undef_r by done.
      transitivity (prop e k); [|by case_match]. by destruct (backup_model l e), e; try done; unclone. }
  rewrite E in *. destruct (object_or_not e) as [[c ->]|Ee].
  - rewrite !prop_obj. unfold mergeOpenClawModelEntry. by rewrite jget_restore, jget_merge.
  - assert (Hn : modelEntryId e = None) by by destruct e.
    unfold backup_model in E. by rewrite Hn in E.
Qed.

(** ** The whole merge *)

Lemma elem_of_unique s l acc :
  s ∈ fold_left (λ set v, if includes set v then set else set ++ [v]) l acc ↔ s ∈ acc ∨ s ∈ l.
Proof.
  revert acc. induction l as [|v l IH]; intros acc; cbn [fold_left].
  - rewrite elem_of_nil. tauto.
  - rewrite IH, elem_of_cons. destruct (includes acc v) eqn:E.
    + apply includes_spec in E. split; [tauto|]. intros [|[->|]]; tauto.
    + rewrite elem_of_app, list_elem_of_singleton. tauto.
Qed.
Lemma elem_of_uniqueStrings s l : s ∈ uniqueStrings l ↔ s ∈ l.
Proof. unfold uniqueStrings. rewrite elem_of_unique, elem_of_nil. tauto. Qed.

Lemma set_has_spec l k : set_has (Some l) k = true ↔ k ∈ l.
Proof. apply includes_spec. Qed.

(** The plugin ids the image's installs name; absent when there is no provenance. *)
Definition plugin_ids (installs : option (list OpenClawImagePluginInstall)) : option (list string) :=
  map id <$> installs.
Definition complete_provenance (installs : option (list OpenClawImagePluginInstall)) : bool :=
  match installs with
  | Some l => forallb (λ i, match loadPaths i with Some _ => true | None => false end) l
  | None => true
  end.

Lemma add_install_throw e l : fold_left add_install l (Throw e) = Throw e.
Proof. by induction l. Qed.

Lemma add_installs l owned :
  match fold_left add_install l (Ok owned) with
  | Ok o => complete_provenance (Some l) = true
            ∧ (∀ k, k ∈ default [] (ids o) ↔ k ∈ default [] (ids owned) ∨ k ∈ map id l)
            ∧ (is_Some (ids owned) → is_Some (ids o))
  | Throw e => e = MissingLoadPaths ∧ complete_provenance (Some l) = false
  end.
Proof.
  cbn [complete_provenance]. revert owned. induction l as [|i l IH]; intros owned.
  { cbn. split_and!; try done. intros k. rewrite elem_of_nil. tauto. }
  cbn [fold_left forallb map]. unfold add_install at 2. cbn [mbind result_bind].
  destruct (loadPaths i) as [paths|]; cbn [of_option mbind result_bind].
  2:{ by rewrite add_install_throw. }
  cbn [andb].
  match goal with |- context [Ok ?o] => specialize (IH o) end.
  destruct (fold_left _ _ _); [|done]. destruct IH as (? & Hk & Hs). split_and!; [done| |eauto].
  intros k. rewrite Hk. cbn [ids default from_option Datatypes.id].
  rewrite elem_of_uniqueStrings, elem_of_app, list_elem_of_singleton, elem_of_cons. tauto.
Qed.

Lemma imagePluginOwnership_spec installs :
  match imagePluginOwnership installs with
  | Ok o => complete_provenance installs = true
            ∧ ∀ k, set_has (ids o) k = set_has (plugin_ids installs) k
  | Throw e => e = MissingLoadPaths ∧ complete_provenance installs = false
  end.
Proof.
  destruct installs as [l|]; [|done]. unfold imagePluginOwnership.
  pose proof (add_installs l (mkOwnership (Some []) (Some []))) as H.
  destruct (fold_left _ _ _) as [o|]; [|done]. destruct H as (Hc & Hk & [l' Hs]); [done|].
  split; [done|]. intros k. specialize (Hk k). rewrite Hs in *.
  cbn [ids default from_option Datatypes.id] in Hk. rewrite elem_of_nil in Hk.
  apply eq_true_iff_eq. unfold plugin_ids. cbn [fmap option_fmap option_map].
  rewrite !set_has_spec, Hk. tauto.
Qed.

(** The sections the merge writes before it looks at the agents. *)
Definition merged_sections (b c : list (string * json)) (po fo : OpenClawImagePluginOwnership)
    : list (string * json) :=
  let merged := restoreRuntimeOwnedFields (mergeJsonObjects c b) c runtimeSections in
  let merged := set_prop merged "channels"
    (mergeOpenClawChannels (jget b "channels") (jget c "channels") (ids po)) in
  let merged := set_prop merged "models" (mergeOpenClawModels (jget b "models") (jget c "models")) in
  let merged := set_prop merged "plugins"
    (mergeOpenClawPlugins (jget b "plugins") (jget c "plugins") po fo) in
  set_prop merged "tools" (mergeOpenClawTools (jget b "tools") (jget c "tools")).

Lemma bind_Ok {E A B} (x : result E A) (f : A → result E B) y :
  x ≫= f = Ok y → ∃ a, x = Ok a ∧ f a = Ok y.
Proof. destruct x; [eauto|done]. Qed.

Lemma merge_ok bak cur options m :
  mergeOpenClawRestoredConfig bak cur options = Ok m →
  ∃ b c po fo, bak = JObj b ∧ cur = JObj c
    ∧ imagePluginOwnership (previousImagePluginInstalls options) = Ok po
    ∧ imagePluginOwnership (freshImagePluginInstalls options) = Ok fo
    ∧ m = reconcileAgentPrimaryModel (merged_sections b c po fo) c.
Proof.
  intros H. destruct bak as [| | | | | |b], cur as [| | | | | |c]; try done.
  unfold mergeOpenClawRestoredConfig in H.
  destruct (previousImagePluginInstalls options), (freshImagePluginInstalls options); try done.
  all: apply bind_Ok in H as (po & Ep & H); apply bind_Ok in H as (fo & Ef & H);
    injection H as <-; eauto 12.
Qed.

Lemma jget_sections b c po fo k :
  readable (JObj b) = true → readable (JObj c) = true →
  jget (merged_sections b c po fo) k
  = if k =s "tools" then mergeOpenClawTools (jget b k) (jget c k)
    else if k =s "plugins" then mergeOpenClawPlugins (jget b k) (jget c k) po fo
    else if k =s "models" then mergeOpenClawModels (jget b k) (jget c k)
    else if k =s "channels" then mergeOpenClawChannels (jget b k) (jget c k) (ids po)
    else if includes runtimeSections k then jget c k
    else overlay (jget c k) (jget b k).
Proof.
  intros Hb Hc. unfold merged_sections. rewrite !jget_set_prop, jget_restore, jget_merge by done.
  rewrite !(String.eqb_sym k).
  repeat match goal with |- context [?s =s k] =>
    destruct (String.eqb_spec s k) as [<-|]; [by rewrite decide_True|rewrite decide_False by done] end.
  done.
Qed.

(** *** The agents *)

Lemma jget_updateMain agents ref k :
  k ≠ "entries" → k ≠ "list" → jget (updateMainAgentListModel agents ref) k = jget agents k.
Proof.
  intros He Hl. unfold updateMainAgentListModel.
  repeat case_match; rewrite ?jget_set_prop, ?decide_False by done; done.
Qed.

Lemma jget_reconcile m c k :
  jget (reconcileAgentPrimaryModel m c) k
  = match readAgentPrimaryModelRef c with
    | Some ref => if k =s "agents"
        then let agents := props_of (jget m k) in
             let defaults := props_of (jget agents "defaults") in
             JObj (updateMainAgentListModel
               (set_prop agents "defaults" (JObj (set_prop defaults "model"
                  (JObj (set_prop (props_of (jget defaults "model")) "primary" (JStr ref)))))) ref)
        else jget m k
    | None => jget m k
    end.
Proof.
  unfold reconcileAgentPrimaryModel. destruct (readAgentPrimaryModelRef c); [|done].
  rewrite jget_set_prop, (String.eqb_sym k).
  destruct (String.eqb_spec "agents" k) as [<-|]; by case_decide.
Qed.

Lemma readAgentPrimaryModelRef_path c :
  readAgentPrimaryModelRef c = readString (at_path (JObj c) ["agents"; "defaults"; "model"; "primary"]).
Proof.
  unfold readAgentPrimaryModelRef. rewrite !at_path_cons, prop_obj.
  destruct (object_or_not (jget c "agents")) as [[a ->]|E].
  2:{ rewrite (no_props (jget c "agents")), !(no_props JUndef) by done. by destruct (jget c "agents"). }
  rewrite prop_obj. destruct (object_or_not (jget a "defaults")) as [[d ->]|E].
  2:{ rewrite (no_props (jget a _)), !(no_props JUndef) by done. by destruct (jget a "defaults"). }
  rewrite prop_obj. destruct (object_or_not (jget d "model")) as [[q ->]|E]; [done|].
  rewrite (no_props (jget d _)) by done. by destruct (jget d "model").
Qed.

(** ** What the fresh configuration owns *)

(** The paths on which the fresh configuration decides, absence included: the runtime
    sections; the managed channels and those of the previous image's plugins; web search
    and tool search; the entries of search plugins, of the previous image's plugins and of
    every plugin it configures; the routing of every provider it configures; and the
    agents' primary model when it names one. *)
Definition tools_owned (path : list string) : bool :=
  match path with
  | field :: path =>
      includes currentGeneratedToolFields field
      || (field =s "web") && match path with key :: _ => key =s "search" | [] => false end
  | [] => false
  end.
Definition plugins_owned (current : json) (previous : option (list string)) (path : list string) : bool :=
  match path with
  | sub :: id :: _ =>
      (sub =s "entries")
      && (set_has previous id || includes MANAGED_WEB_SEARCH_PLUGIN_ENTRIES id
          || negb (is_undefined (prop (prop current "entries") id)))
  | _ => false
  end.
Definition models_owned (current : json) (path : list string) : bool :=
  match path with
  | sub :: provider :: field :: _ =>
      (sub =s "providers") && includes PROVIDER_RUNTIME_OWNED_FIELDS field
      && negb (is_undefined (prop (prop current "providers") provider))
  | _ => false
  end.
Definition channels_owned (previous : option (list string)) (path : list string) : bool :=
  match path with
  | channel :: _ => negb (channel =s "defaults")
                    && (includes MANAGED_OPENCLAW_CHANNELS channel || set_has previous channel)
  | [] => false
  end.
Definition agents_owned (current : json) (path : list string) : bool :=
  bool_decide (path = ["defaults"; "model"; "primary"])
  && match at_path current path with JStr _ => true | _ => false end.

Definition fresh_owned (current : json) (previous : option (list string)) (path : list string) : bool :=
  match path with
  | [] => false
  | section :: path =>
      let fresh := prop current section in
      if section =s "tools" then tools_owned path
      else if section =s "plugins" then plugins_owned fresh previous path
      else if section =s "models" then models_owned fresh path
      else if section =s "channels" then channels_owned previous path
      else if section =s "agents" then agents_owned fresh path
      else includes runtimeSections section
  end.

Lemma tools_fresh b c path :
  readable b = true → readable c = true → tools_owned path = true →
  at_path (mergeOpenClawTools b c) path = at_path c path.
Proof.
  intros Hb Hc H. destruct path as [|f path]; [done|]. cbn [tools_owned] in H.
  apply orb_true_iff in H as [H|H].
  - by rewrite !at_path_cons, prop_tools_fresh.
  - destruct path as [|key path]; bools; [done|]. bools. subst.
    rewrite !at_path_cons, prop_web; [done..|]. by left.
Qed.

Lemma plugins_fresh b c po fo previous path :
  readable b = true → readable c = true → (∀ k, set_has (ids po) k = set_has previous k) →
  plugins_owned c previous path = true →
  at_path (mergeOpenClawPlugins b c po fo) path = at_path c path.
Proof.
  intros Hb Hc Hids H. destruct path as [|sub [|key path]]; [done..|].
  cbn [plugins_owned] in H. bools. subst.
  rewrite !at_path_cons, prop_plugins by done.
  change (includes plugin_sections "entries") with true. cbv iota.
  change (plugin_section b c po fo "entries")
    with (mergeOpenClawEntryMap (prop b "entries") (prop c "entries") (ids po)).
  rewrite prop_entry_map, Hids by eauto with nemo. f_equal.
  destruct (prop (prop c "entries") key); try done. cbn [is_undefined negb] in *.
  rewrite orb_false_r in *. match goal with H : _ || _ = true |- _ => by rewrite H end.
Qed.

Lemma models_fresh b c path :
  readable b = true → readable c = true → models_owned c path = true →
  at_path (mergeOpenClawModels b c) path = at_path c path.
Proof.
  intros Hb Hc H. destruct path as [|sub [|pr [|field path]]]; [done..|].
  cbn [models_owned] in H. bools. subst.
  rewrite !at_path_cons, prop_providers by done. f_equal.
  assert (Hm : field =s "models" = false).
  { destruct (String.eqb_spec field "models") as [->|]; [|done].
    match goal with H : _ ∈ PROVIDER_RUNTIME_OWNED_FIELDS |- _ => by apply includes_spec in H end. }
  assert (readable (prop (prop b "providers") pr) = true) by eauto with nemo.
  assert (readable (prop (prop c "providers") pr) = true) by eauto with nemo.
  destruct (prop (prop c "providers") pr), (prop (prop b "providers") pr);
    cbn [reconciled_provider]; try done.
  rewrite !prop_obj, prop_provider_entry, Hm by done.
  match goal with H : _ ∈ PROVIDER_RUNTIME_OWNED_FIELDS |- _ => by apply includes_spec in H as -> end.
Qed.

Lemma channels_fresh b c ids previous path :
  readable b = true → readable c = true → (∀ k, set_has ids k = set_has previous k) →
  channels_owned previous path = true →
  at_path (mergeOpenClawChannels b c ids) path = at_path c path.
Proof.
  intros Hb Hc Hids H. destruct path as [|channel path]; [done|]. cbn [channels_owned] in H.
  rewrite !at_path_cons, prop_channels, Hids by done. by rewrite H.
Qed.

Lemma at_merged b c po fo m k path :
  m = reconcileAgentPrimaryModel (merged_sections b c po fo) c → k ≠ "agents" →
  at_path (JObj m) (k :: path) = at_path (jget (merged_sections b c po fo) k) path.
Proof.
  intros -> Hk. rewrite at_path_cons, prop_obj, jget_reconcile. apply String.eqb_neq in Hk as ->.
  by destruct (readAgentPrimaryModelRef c).
Qed.

Lemma primary_fresh m c path :
  agents_owned (jget c "agents") path = true →
  at_path (JObj (reconcileAgentPrimaryModel m c)) ("agents" :: path) = at_path (JObj c) ("agents" :: path).
Proof.
  unfold agents_owned. intros H. bools. subst path.
  rewrite at_path_cons, prop_obj, jget_reconcile, readAgentPrimaryModelRef_path.
  change (at_path (JObj c) ("agents" :: ?p)) with (at_path (jget c "agents") p).
  destruct (at_path (jget c "agents") _) as [| | | |s| |]; try done.
  cbn [readString]. rewrite String.eqb_refl. cbv zeta.
  rewrite !at_path_cons, prop_obj, jget_updateMain by done.
  by rewrite jget_set_prop, decide_True, prop_obj, jget_set_prop, decide_True, prop_obj, jget_set_prop, decide_True.
Qed.

(** C36: a restored configuration agrees with the freshly generated one on every path
    that the rebuild owns (runtime sections, managed channels, web and tool search, the
    entries of managed, retired and freshly configured plugins, provider routing and
    credentials, the primary model), on what is below it and on absence; the synthetic
    record of installs is never written. *)
Theorem restore_respects_ownership bak cur options m path :
  parsed bak = true → parsed cur = true →
  mergeOpenClawRestoredConfig bak cur options = Ok m →
  fresh_owned cur (plugin_ids (previousImagePluginInstalls options)) path = true →
  at_path (JObj m) path = at_path cur path ∧ at_path (JObj m) ["plugins"; "installs"] = JUndef.
Proof.
  intros Hb%parsed_readable Hc%parsed_readable (b & c & po & fo & -> & -> & Ep & _ & Em)%merge_ok H.
  pose proof (imagePluginOwnership_spec (previousImagePluginInstalls options)) as Hpo.
  rewrite Ep in Hpo. destruct Hpo as [_ Hids]. split.
  2:{ rewrite (at_merged _ _ _ _ _ _ _ Em), jget_sections by done. cbn [String.eqb Ascii.eqb Bool.eqb].
      rewrite at_path_cons, prop_plugins by eauto with nemo. done. }
  destruct path as [|k path]; [done|]. cbn [fresh_owned] in H. rewrite prop_obj in H.
  destruct (String.eqb_spec k "agents") as [->|Hk].
  { subst m. by apply primary_fresh. }
  rewrite (at_merged _ _ _ _ _ _ _ Em), jget_sections by done. rewrite at_path_cons, prop_obj.
  destruct (k =s "tools"); [by apply tools_fresh; eauto with nemo|].
  destruct (k =s "plugins"); [by eapply plugins_fresh; eauto with nemo|].
  destruct (k =s "models"); [by apply models_fresh; eauto with nemo|].
  destruct (k =s "channels"); [by eapply channels_fresh; eauto with nemo|].
  by rewrite H.
Qed.

(** ** What the backup keeps *)

(** The paths at which the two configurations are merged: a leaf of the backup survives,
    and where the backup has nothing the fresh value does. *)
Definition tools_kept (current : json) (path : list string) : bool :=
  settings_object current &&
  match path with
  | field :: path =>
      negb (includes currentGeneratedToolFields field) &&
      (if field =s "web" then match path with key :: _ => negb (key =s "search") | [] => false end else true)
  | [] => false
  end.
Definition plugins_kept (current : json) (previous : option (list string)) (path : list string) : bool :=
  match path with
  | sub :: path =>
      if sub =s "entries" then
        match path with
        | id :: _ => negb (set_has previous id || includes MANAGED_WEB_SEARCH_PLUGIN_ENTRIES id)
                     && is_undefined (prop (prop current "entries") id)
        | [] => false
        end
      else negb (includes plugin_sections sub)
  | [] => false
  end.
Definition models_kept (current : json) (path : list string) : bool :=
  match path with
  | sub :: path =>
      if sub =s "providers" then
        match path with
        | provider :: path =>
            match prop (prop current "providers") provider, path with
            | JUndef, _ => true
            | JObj _, field :: _ =>
                negb ((field =s "models") || includes PROVIDER_RUNTIME_OWNED_FIELDS field)
            | _, _ => false
            end
        | [] => false
        end
      else true
  | [] => false
  end.
Definition channels_kept (previous : option (list string)) (path : list string) : bool :=
  match path with
  | channel :: _ => (channel =s "defaults")
                    || negb (includes MANAGED_OPENCLAW_CHANNELS channel || set_has previous channel)
  | [] => false
  end.
(** Around the primary model and the models of the single agents. *)
Definition agents_kept (current : json) (path : list string) : bool :=
  match readString (at_path current ["defaults"; "model"; "primary"]), path with
  | None, _ => true
  | Some _, key :: path =>
      if key =s "defaults" then
        match path with
        | key :: path => if key =s "model" then match path with key :: _ => negb (key =s "primary") | [] => false end
                         else true
        | [] => false
        end
      else if key =s "entries" then match path with _ :: field :: _ => negb (field =s "model") | _ => false end
      else negb (key =s "list")
  | Some _, [] => false
  end.

Definition user_owned (current : json) (previous : option (list string)) (path : list string) : bool :=
  match path with
  | [] => false
  | section :: path =>
      let fresh := prop current section in
      if section =s "tools" then tools_kept fresh path
      else if section =s "plugins" then plugins_kept fresh previous path
      else if section =s "models" then models_kept fresh path
      else if section =s "channels" then channels_kept previous path
      else if section =s "agents" then agents_kept fresh path
      else negb (includes runtimeSections section)
  end.

Definition keeps (backup current merged : json) (path : list string) : Prop :=
  (leaf (at_path backup path) = true → at_path merged path = at_path backup path)
  ∧ (silent backup path = true → at_path merged path = at_path current path).

Lemma keeps_overlay b c path :
  readable b = true → readable c = true → keeps b c (overlay c b) path.
Proof. intros. split; intros; [by apply overlay_leaf|by apply overlay_silent]. Qed.

Lemma keeps_prop b c m k path :
  keeps (prop b k) (prop c k) (prop m k) path → keeps b c m (k :: path).
Proof.
  intros [Hl Hs]. split; [done|]. intros H. apply Hs. destruct b; try done. by apply silent_undef.
Qed.

Lemma keeps_merged b c m k path :
  readable b = true → readable c = true → prop m k = overlay (prop c k) (prop b k) →
  keeps b c m (k :: path).
Proof. intros ? ? H. apply keeps_prop. rewrite H. apply keeps_overlay; eauto with nemo. Qed.

(** A backup that has it, where the fresh configuration has nothing. *)
Lemma keeps_alone b path : keeps b JUndef b path.
Proof.
  split; [done|]. intros Hs. rewrite at_path_undef. revert b Hs.
  induction path as [|k path IH]; intros b Hs; [by destruct b|].
  destruct b; try done; [by rewrite at_path_undef|]. rewrite at_path_cons, prop_obj. by apply IH.
Qed.

Lemma tools_keep b c path :
  readable b = true → readable c = true → tools_kept c path = true →
  keeps b c (mergeOpenClawTools b c) path.
Proof.
  intros Hb Hc H. destruct path as [|f path]; unfold tools_kept in H; bools; [done|]. bools.
  destruct (String.eqb_spec f "web") as [->|Hf].
  - destruct path as [|key path]; [done|]. bools. do 2 apply keeps_prop.
    rewrite prop_web by (done || by left; apply orb_true_iff; right).
    rewrite (proj2 (String.eqb_neq _ _)) by done. apply keeps_overlay; eauto with nemo.
  - apply keeps_merged; [done..|]. rewrite prop_tools by auto. rewrite_bools.
    by rewrite (proj2 (String.eqb_neq _ _)).
Qed.

Lemma plugins_keep b c po fo previous path :
  readable b = true → readable c = true → (∀ k, set_has (ids po) k = set_has previous k) →
  plugins_kept c previous path = true →
  keeps b c (mergeOpenClawPlugins b c po fo) path.
Proof.
  intros Hb Hc Hids H. destruct path as [|sub path]; [done|]. cbn [plugins_kept] in H.
  destruct (String.eqb_spec sub "entries") as [->|Hne].
  - destruct path as [|key path]; [done|]. bools. do 2 apply keeps_prop.
    rewrite prop_plugins by done.
    change (includes plugin_sections "entries") with true. cbv iota.
    change (plugin_section b c po fo "entries")
      with (mergeOpenClawEntryMap (prop b "entries") (prop c "entries") (ids po)).
    rewrite prop_entry_map, Hids by eauto with nemo.
    destruct (prop (prop c "entries") key); try done. rewrite_bools. apply keeps_alone.
  - bools. apply keeps_merged; [done..|]. rewrite prop_plugins by done. by rewrite_bools.
Qed.

Lemma models_keep b c path :
  readable b = true → readable c = true → models_kept c path = true →
  keeps b c (mergeOpenClawModels b c) path.
Proof.
  intros Hb Hc H. destruct path as [|sub path]; [done|]. cbn [models_kept] in H.
  destruct (String.eqb_spec sub "providers") as [->|Hne].
  2:{ apply keeps_merged; [done..|]. by apply prop_models. }
  destruct path as [|pr path]; [done|]. do 2 apply keeps_prop. rewrite prop_providers by done.
  assert (Hrb : readable (prop (prop b "providers") pr) = true) by eauto with nemo.
  assert (Hrc : readable (prop (prop c "providers") pr) = true) by eauto with nemo.
  destruct (prop (prop c "providers") pr) as [| | | | | |oc]; try done; [apply keeps_alone|].
  destruct path as [|field path]; [done|]. bools.
  apply keeps_merged; [done..|].
  destruct (object_or_not (prop (prop b "providers") pr)) as [[ob Eo]|Eo].
  - rewrite Eo in *. cbn [reconciled_provider]. rewrite !prop_obj, prop_provider_entry by done.
    rewrite (proj2 (String.eqb_neq _ _)) by done. by rewrite_bools.
  - rewrite (no_props (prop (prop b _) _)) by done. by destruct (prop (prop b "providers") pr).
Qed.

Lemma channels_keep b c ids previous path :
  readable b = true → readable c = true → (∀ k, set_has ids k = set_has previous k) →
  channels_kept previous path = true →
  keeps b c (mergeOpenClawChannels b c ids) path.
Proof.
  intros Hb Hc Hids H. destruct path as [|channel path]; [done|]. cbn [channels_kept] in H.
  apply keeps_merged; [done..|]. rewrite prop_channels, Hids by done.
  destruct (channel =s "defaults"); [done|]. cbn [orb negb andb] in *. bools. by rewrite_bools.
Qed.

Lemma prop_default_entry entries ref id f :
  f ≠ "model" → prop (jget (update_default_entry entries ref) id) f = prop (jget entries id) f.
Proof.
  intros Hf. induction entries as [|[k e] entries IH]; [done|]. cbn [update_default_entry].
  destruct (is_default_agent e) eqn:E; cbn [jget].
  - destruct (k =s id); [|done]. rewrite prop_obj, jget_set_prop, decide_False by done. done.
  - by destruct (k =s id).
Qed.

Lemma prop_updateMain_entry agents ref id f :
  f ≠ "model" →
  prop (prop (jget (updateMainAgentListModel agents ref) "entries") id) f
  = prop (prop (jget agents "entries") id) f.
Proof.
  intros Hf. unfold updateMainAgentListModel. destruct (jget agents "entries") eqn:E;
    try (repeat case_match; rewrite ?jget_set_prop, ?decide_False, ?E by done; done).
  rewrite jget_set_prop, decide_True, !prop_obj by done. case_match.
  - rewrite jget_set_prop. case_decide; [|done]. subst.
    by rewrite prop_obj, jget_set_prop, decide_False by done.
  - by apply prop_default_entry.
Qed.

Lemma agents_keep b c po fo path :
  readable (JObj b) = true → readable (JObj c) = true → agents_kept (jget c "agents") path = true →
  keeps (jget b "agents") (jget c "agents")
    (jget (reconcileAgentPrimaryModel (merged_sections b c po fo) c) "agents") path.
Proof.
  intros Hb Hc H. rewrite jget_reconcile, readAgentPrimaryModelRef_path.
  change (at_path (JObj c) ("agents" :: ?p)) with (at_path (jget c "agents") p).
  unfold agents_kept in H. rewrite String.eqb_refl, jget_sections by done.
  cbn [String.eqb Ascii.eqb Bool.eqb]. change (includes runtimeSections "agents") with false. cbv iota.
  assert (Hrb : readable (jget b "agents") = true) by eauto with nemo.
  assert (Hrc : readable (jget c "agents") = true) by eauto with nemo.
  set (merged := overlay _ _). pose proof (keeps_overlay _ _ path Hrb Hrc) as Hk. fold merged in Hk.
  destruct (readString _) as [ref|]; [|done]. cbv zeta.
  assert (Hkeep : ∀ m, at_path m path = at_path merged path → keeps (jget b "agents") (jget c "agents") m path).
  { intros m Em. unfold keeps. by rewrite Em. }
  apply Hkeep. destruct path as [|k path]; [done|].
  rewrite !at_path_cons, prop_obj. fold (prop merged "defaults").
  destruct (String.eqb_spec k "defaults") as [->|Hd].
  - destruct path as [|k2 path]; [done|].
    rewrite jget_updateMain, jget_set_prop, decide_True, !at_path_cons, prop_obj, jget_set_prop by done.
    destruct (String.eqb_spec k2 "model") as [->|Hm]; [|by rewrite decide_False].
    destruct path as [|k3 path]; [done|]. bools.
    by rewrite decide_True, !at_path_cons, prop_obj, jget_set_prop, decide_False by done.
  - destruct (String.eqb_spec k "entries") as [->|He].
    + destruct path as [|id [|f path]]; [done..|]. bools. rewrite !at_path_cons.
      by rewrite prop_updateMain_entry, jget_set_prop, decide_False by done.
    + bools. by rewrite jget_updateMain, jget_set_prop, decide_False by done.
Qed.

(** *** The models of the single agents

    One agent at most follows the fresh primary model: [main], or else a default agent. *)

Lemma update_default_spec entries ref :
  ∃ lead : option string,
    (∀ id, lead ≠ Some id → jget (update_default_entry entries ref) id = jget entries id)
    ∧ ∀ id, lead = Some id → ∃ o, jget entries id = JObj o ∧ is_default_agent (JObj o) = true
        ∧ jget (update_default_entry entries ref) id = JObj (set_prop o "model" (JStr ref)).
Proof.
  induction entries as [|[k e] entries (lead & Hk & Hl)]; [by exists None|]. cbn [update_default_entry].
  destruct (is_default_agent e) eqn:E.
  - exists (Some k). destruct e as [| | | | | |o]; try done. split; cbn [jget].
    + intros id Hne. destruct (String.eqb_spec k id) as [->|]; [by destruct Hne|done].
    + intros id [= <-]. rewrite String.eqb_refl. by exists o.
  - exists (if decide (lead = Some k) then None else lead). split; intros id Hid; cbn [jget].
    + destruct (String.eqb_spec k id) as [->|Hne]; [done|]. apply Hk. case_decide; [congruence|done].
    + case_decide as Hd; [done|]. destruct (String.eqb_spec k id) as [->|]; [by destruct Hd|]. by apply Hl.
Qed.

(** The agent of [entries] whose model follows, if any. *)
Lemma update_entries_spec agents entries ref : jget agents "entries" = JObj entries →
  ∃ entries' lead, jget (updateMainAgentListModel agents ref) "entries" = JObj entries'
    ∧ (∀ id, lead ≠ Some id → jget entries' id = jget entries id)
    ∧ (∀ id, lead = Some id → ∃ o, jget entries id = JObj o ∧ has_model o = true
         ∧ (id = "main" ∨ jget o "default" = JBool true) ∧ jget entries' id = JObj (set_prop o "model" (JStr ref)))
    ∧ (∀ o, jget entries "main" = JObj o → has_model o = true → lead = Some "main").
Proof.
  intros Ee. unfold updateMainAgentListModel. rewrite Ee, jget_set_prop, decide_True by done.
  destruct (match jget entries "main" with JObj o => has_model o | _ => false end) eqn:Em.
  - destruct (jget entries "main") as [| | | | | |o] eqn:Emain; try done. exists (set_prop entries "main" (JObj (set_prop o "model" (JStr ref)))), (Some "main").
    split_and!; [done| | |done].
    + intros id Hne. rewrite jget_set_prop, decide_False; [done|congruence].
    + intros id [= <-]. exists o. rewrite jget_set_prop, decide_True by done. split_and!; [done..|by left|done].
  - destruct (update_default_spec entries ref) as (lead & Hk & Hl). exists (update_default_entry entries ref), lead.
    split_and!; [done|done| |].
    + intros id (o & Ho & Hd & Hu)%Hl. exists o. cbn in Hd. bools. split_and!; [done..| |done].
      right. by destruct (jget o "default") as [| |[]| | | |].
    + intros o Ho Hm. rewrite Ho in Em. congruence.
Qed.

(** The agent of [list] whose model follows: the first [main], or else a default agent. *)
Definition main_agent (entry : json) : Prop := ∃ o, entry = JObj o ∧ jget o "id" = JStr "main".
Definition list_follows (ref : string) (l l' : list json) : Prop :=
  l' = l ∨ ∃ i o, l !! i = Some (JObj o) ∧ has_model o = true ∧ l' = <[i := JObj (set_prop o "model" (JStr ref))]> l
    ∧ (jget o "id" = JStr "main" ∨ (jget o "default" = JBool true ∧ Forall (λ entry, ¬ main_agent entry) l)).

Lemma list_target_spec l : ∀ i d j, list_target i d l = Some j →
  (∃ k o, j = i + k ∧ l !! k = Some (JObj o) ∧ has_model o = true ∧ jget o "id" = JStr "main")
  ∨ (Forall (λ entry, ¬ main_agent entry) l
     ∧ (d = Some j ∨ ∃ k o, j = i + k ∧ l !! k = Some (JObj o) ∧ has_model o = true ∧ jget o "default" = JBool true)).
Proof.
  induction l as [|e l IH]; intros i d j; cbn [list_target]; [intros ->; right; split; [constructor|by left]|].
  assert (Hnext : ¬ main_agent e → ∀ d', list_target (S i) d' l = Some j →
    (d' = d ∨ (d = None ∧ d' = (if is_default_agent e then Some i else None))) →
    (∃ k o, j = i + k ∧ (e :: l) !! k = Some (JObj o) ∧ has_model o = true ∧ jget o "id" = JStr "main")
    ∨ (Forall (λ entry, ¬ main_agent entry) (e :: l)
       ∧ (d = Some j ∨ ∃ k o, j = i + k ∧ (e :: l) !! k = Some (JObj o) ∧ has_model o = true ∧ jget o "default" = JBool true))).
  { intros Hm d' Ht Hd. destruct (IH _ _ _ Ht) as [(k & o & -> & Hk & H)|[Hf H]].
    - left. exists (S k), o. split_and!; [lia|done|apply H..].
    - right. split; [by constructor|]. destruct H as [->|(k & o & -> & Hk & H)].
      + destruct Hd as [->|[-> Hd]]; [by left|]. destruct (is_default_agent e) eqn:E; [|done]. injection Hd as ->. right.
        destruct e as [| | | | | |o]; try done. cbn in E. bools. exists 0, o. split_and!; [lia|done|done|].
        by destruct (jget o "default") as [| |[]| | | |].
      + right. exists (S k), o. split_and!; [lia|done|apply H..]. }
  destruct e as [| | | | | |o]; try (intros Ht; apply (Hnext ltac:(by intros (? & ? & _)) _ Ht); by left).
  destruct (is_str "main" (jget o "id")) eqn:E.
  - destruct (has_model o) eqn:Em; [|done]. intros [= <-]. left. exists 0, o. split_and!; [lia|done|done|].
    destruct (jget o "id"); try done. cbn in E. bools. congruence.
  - intros Ht. apply (Hnext ltac:(intros (o' & [= <-] & E'); by rewrite E' in E) _ Ht). destruct d; [by left|by right].
Qed.

Lemma update_list_spec agents l ref : jget agents "list" = JArr l →
  ∃ l', jget (updateMainAgentListModel agents ref) "list" = JArr l' ∧ list_follows ref l l'.
Proof.
  intros El. unfold updateMainAgentListModel. destruct (jget agents "entries");
    try (exists l; rewrite jget_set_prop, decide_False by done; split; [exact El|by left]).
  all: rewrite El; destruct (list_target 0 None l) as [i|] eqn:Et; [|exists l; split; [exact El|by left]].
  all: rewrite jget_set_prop, decide_True by done; eexists; split; [reflexivity|right].
  all: destruct (list_target_spec _ _ _ _ Et) as [(k & o & -> & Hk & Hm & Hmain)|[Hf [|(k & o & -> & Hk & Hm & Hd)]]]; [|done|].
  all: exists k, o; split_and!; [done|done| |by auto]; apply list_eq; intros j; cbn [Nat.add].
  all: destruct (decide (k = j)) as [<-|Hne]; [rewrite list_lookup_alter_eq, list_lookup_insert_eq, Hk by (by eapply lookup_lt_Some); done
    |by rewrite list_lookup_alter_ne, list_lookup_insert_ne by done].
Qed.

(** The agents where the fresh configuration sets a primary model. *)
Lemma agents_follow b c po fo ref :
  readable (JObj b) = true → readable (JObj c) = true →
  readString (at_path (JObj c) ["agents"; "defaults"; "model"; "primary"]) = Some ref →
  let m := JObj (reconcileAgentPrimaryModel (merged_sections b c po fo) c) in
  (∃ lead, (∀ id, lead ≠ Some id → keeps (JObj b) (JObj c) m ["agents"; "entries"; id; "model"])
     ∧ (∀ id, lead = Some id → at_path m ["agents"; "entries"; id; "model"] = JStr ref
          ∧ (id = "main" ∨ at_path m ["agents"; "entries"; id; "default"] = JBool true))
     ∧ (∀ s, at_path (JObj b) ["agents"; "entries"; "main"; "model"] = JStr s → lead = Some "main"))
  ∧ ∀ l, at_path (JObj b) ["agents"; "list"] = JArr l
         ∨ (silent (JObj b) ["agents"; "list"] = true ∧ at_path (JObj c) ["agents"; "list"] = JArr l) →
      ∃ l', at_path m ["agents"; "list"] = JArr l' ∧ list_follows ref l l'.
Proof.
  intros Hb Hc Href m.
  assert (Hrb : readable (jget b "agents") = true) by eauto with nemo.
  assert (Hrc : readable (jget c "agents") = true) by eauto with nemo.
  set (merged := overlay (jget c "agents") (jget b "agents")).
  assert (Hk : ∀ path, keeps (jget b "agents") (jget c "agents") merged path) by (intros; by apply keeps_overlay).
  assert (Em : ∃ agents, prop m "agents" = JObj (updateMainAgentListModel agents ref)
                         ∧ (∀ k, k ≠ "defaults" → jget agents k = prop merged k)).
  { unfold m. rewrite prop_obj, jget_reconcile, readAgentPrimaryModelRef_path, Href, String.eqb_refl, jget_sections by done.
    cbn [String.eqb Ascii.eqb Bool.eqb]. change (includes runtimeSections "agents") with false. cbv iota zeta.
    eexists. split; [reflexivity|]. intros k Hne. by rewrite jget_set_prop, decide_False by congruence. }
  destruct Em as (agents & Em & Ha). split.
  - destruct (object_or_not (prop merged "entries")) as [[entries Ee]|Enot].
    + destruct (update_entries_spec agents entries ref) as (entries' & lead & Ee' & Hrest & Hlead & Hmain); [by rewrite Ha|].
      assert (Hat : ∀ id path, at_path m ("agents" :: "entries" :: id :: path) = at_path (jget entries' id) path)
        by (intros; rewrite !at_path_cons, Em, prop_obj, Ee', prop_obj; done).
      assert (Hat' : ∀ id path, at_path merged ("entries" :: id :: path) = at_path (jget entries id) path)
        by (intros; rewrite !at_path_cons, Ee, prop_obj; done).
      exists lead. split_and!.
      * intros id Hne. apply (keeps_prop (JObj b)). rewrite !prop_obj. destruct (Hk ["entries"; id; "model"]) as [H1 H2].
        unfold keeps. rewrite <- (at_path_cons m "agents"), Hat, Hrest, <- Hat' by done. by split.
      * intros id (o & Ho & Hm & Hd & Hu)%Hlead. rewrite !Hat, Hu, !at_path_cons, !prop_obj, !jget_set_prop.
        rewrite decide_True, decide_False by done. split; [done|]. destruct Hd; [by left|by right].
      * intros s Hs. destruct (Hk ["entries"; "main"; "model"]) as [Hl _].
        change (at_path (JObj b) ("agents" :: ?p)) with (at_path (jget b "agents") p) in Hs.
        rewrite Hs in Hl. specialize (Hl eq_refl). rewrite Hat', at_path_cons in Hl. cbn in Hl.
        destruct (jget entries "main") as [| | | | | |o] eqn:Eo; try done. apply (Hmain o eq_refl).
        unfold has_model. rewrite prop_obj in Hl. by rewrite Hl.
    + exists None. split_and!; [|done|].
      * intros id _. apply (keeps_prop (JObj b)). rewrite !prop_obj. destruct (Hk ["entries"; id; "model"]) as [H1 H2].
        assert (E : at_path (prop m "agents") ["entries"; id; "model"] = at_path merged ["entries"; id; "model"]).
        { rewrite Em, !at_path_cons, prop_obj. rewrite <- Ha in Enot |- * by done. clear -Enot.
          unfold updateMainAgentListModel. destruct (jget agents "entries") eqn:E; try done;
            repeat case_match; rewrite ?jget_set_prop, ?decide_False, ?E by done; done. }
        unfold keeps. by rewrite E.
      * intros s Hs. exfalso. destruct (Hk ["entries"; "main"; "model"]) as [Hl _].
        change (at_path (JObj b) ("agents" :: ?p)) with (at_path (jget b "agents") p) in Hs.
        rewrite Hs in Hl. specialize (Hl eq_refl). rewrite !at_path_cons in Hl.
        by rewrite (no_props (prop merged "entries")), !(no_props JUndef) in Hl by done.
  - intros l Hl. assert (El : jget agents "list" = JArr l).
    { rewrite Ha by done. destruct (Hk ["list"]) as [H1 H2].
      change (at_path (JObj b) ["agents"; "list"]) with (at_path (jget b "agents") ["list"]) in Hl.
      change (at_path (JObj c) ["agents"; "list"]) with (at_path (jget c "agents") ["list"]) in Hl.
      destruct Hl as [Hl|[Hs Hl]]; [refine (eq_trans (H1 _) Hl); by rewrite Hl|exact (eq_trans (H2 Hs) Hl)]. }
    destruct (update_list_spec agents l ref El) as (l' & El' & Hf). exists l'. split; [|done].
    by rewrite !at_path_cons, Em, prop_obj.
Qed.

(** C37: outside what the rebuild owns, restoring keeps the user's settings: a setting
    of the backup survives as it is, whatever the fresh configuration says there, and
    where the backup has nothing the fresh configuration stays.  This covers the other
    top-level sections, the user's channels and channel defaults, plugin entries that
    only the backup has, tool and web-tool settings around search, the tuning of
    providers, providers only the backup has, and the agents around their models.  When
    the fresh configuration has a primary model, the model of one agent at most is set to
    it, that of [main] or of a default agent, and of [main] if the backup gives it one;
    every other agent keeps its model.  An old list of agents stays as it was but for such
    a model. *)
Theorem restore_keeps_user_settings bak cur options m :
  parsed bak = true → parsed cur = true →
  mergeOpenClawRestoredConfig bak cur options = Ok m →
  (∀ path, user_owned cur (plugin_ids (previousImagePluginInstalls options)) path = true → keeps bak cur (JObj m) path)
  ∧ ∀ ref, readString (at_path cur ["agents"; "defaults"; "model"; "primary"]) = Some ref →
      (∃ lead, (∀ id, lead ≠ Some id → keeps bak cur (JObj m) ["agents"; "entries"; id; "model"])
         ∧ (∀ id, lead = Some id → at_path (JObj m) ["agents"; "entries"; id; "model"] = JStr ref
              ∧ (id = "main" ∨ at_path (JObj m) ["agents"; "entries"; id; "default"] = JBool true))
         ∧ (∀ s, at_path bak ["agents"; "entries"; "main"; "model"] = JStr s → lead = Some "main"))
      ∧ ∀ l, at_path bak ["agents"; "list"] = JArr l
             ∨ (silent bak ["agents"; "list"] = true ∧ at_path cur ["agents"; "list"] = JArr l) →
          ∃ l', at_path (JObj m) ["agents"; "list"] = JArr l' ∧ list_follows ref l l'.
Proof.
  intros Hb%parsed_readable Hc%parsed_readable (b & c & po & fo & -> & -> & Ep & _ & Em)%merge_ok.
  split; [|intros ref Href; subst m; by apply agents_follow]. intros path H.
  pose proof (imagePluginOwnership_spec (previousImagePluginInstalls options)) as Hpo.
  rewrite Ep in Hpo. destruct Hpo as [_ Hids].
  destruct path as [|k path]; [done|]. cbn [user_owned] in H. rewrite prop_obj in H.
  apply keeps_prop. rewrite !prop_obj.
  destruct (String.eqb_spec k "agents") as [->|Hk].
  { subst m. by apply agents_keep. }
  assert (jget m k = jget (merged_sections b c po fo) k) as ->.
  { subst m. rewrite jget_reconcile, (proj2 (String.eqb_neq _ _)) by done.
    by destruct (readAgentPrimaryModelRef c). }
  rewrite jget_sections by done.
  destruct (k =s "tools"); [by apply tools_keep; eauto with nemo|].
  destruct (k =s "plugins"); [by eapply plugins_keep; eauto with nemo|].
  destruct (k =s "models"); [by apply models_keep; eauto with nemo|].
  destruct (k =s "channels"); [by eapply channels_keep; eauto with nemo|].
  bools. rewrite_bools. apply keeps_overlay; eauto with nemo.
Qed.

(** ** The model lists *)

Definition elements (value : json) : list json := match value with JArr l => l | _ => [] end.

Lemma model_array_reconciled b l :
  readable b = true → readable (JArr l) = true →
  ∃ l', mergeOpenClawModelArray b (JArr l) = JArr l' ∧ Forall2 (reconciled_model (elements b)) l l'.
Proof.
  intros Hb Hl. cbn [mergeOpenClawModelArray]. eexists. split; [done|].
  apply Forall2_fmap_r, Forall_Forall2_diag, Forall_forall. intros e He.
  assert (index_models b = index_models (JArr (elements b))) as -> by by destruct b.
  apply merge_model_reconciled; [by destruct b|]. by eapply readable_elem.
Qed.

Lemma reconciled_alone e : reconciled_model [] e e.
Proof.
  intros k. assert (backup_model [] e = JUndef) as ->.
  { unfold backup_model. destruct (modelEntryId e); [by case_match|done]. }
  by case_match.
Qed.

(** The model list of every provider the fresh configuration lists keeps its
    models, their order and their routing identity (id and name); the tuning of a model
    is the backup's, from its first entry of that id, laid over the fresh one.  Models
    only the backup has are not resurrected. *)
Theorem restored_models_reconciled bak cur options m provider l :
  let path := ["models"; "providers"; provider; "models"] in
  parsed bak = true → parsed cur = true →
  mergeOpenClawRestoredConfig bak cur options = Ok m →
  at_path cur path = JArr l →
  ∃ l', at_path (JObj m) path = JArr l'
        ∧ Forall2 (reconciled_model (elements (at_path bak path))) l l'.
Proof.
  intros path Hb%parsed_readable Hc%parsed_readable (b & c & po & fo & -> & -> & _ & _ & Em)%merge_ok Hl.
  unfold path in *. rewrite (at_merged _ _ _ _ _ _ _ Em), jget_sections by done.
  cbn [String.eqb Ascii.eqb Bool.eqb].
  rewrite !at_path_cons in Hl |- *. rewrite !prop_obj in *. rewrite prop_providers by eauto with nemo.
  assert (Hrb : readable (prop (prop (jget b "models") "providers") provider) = true) by eauto with nemo.
  assert (Hrc : readable (prop (prop (jget c "models") "providers") provider) = true) by eauto with nemo.
  destruct (prop (prop (jget c "models") "providers") provider) as [| | | | | |oc]; try done.
  destruct (object_or_not (prop (prop (jget b "models") "providers") provider)) as [[ob Eo]|Eo].
  - cbn [reconciled_provider at_path fold_left] in *. rewrite Eo in *. rewrite !prop_obj in *.
    rewrite prop_provider_entry by done. rewrite String.eqb_refl, Hl.
    apply model_array_reconciled; [eauto with nemo|]. rewrite <- Hl. eauto with nemo.
  - cbn [at_path fold_left] in *. rewrite (no_props (prop (prop (jget b _) _) _)) by done. exists l. split.
    + by destruct (prop (prop (jget b "models") "providers") provider).
    + apply Forall_Forall2_diag, Forall_forall. intros. apply reconciled_alone.
Qed.

(** ** The plugin lists *)

Definition ids_at (value : json) (path : list string) : list string :=
  default [] (stringArray (at_path value path)).

(** An id of the backup that the image owned: the previous image's, or, where the fresh
    configuration has no such list, only those that the fresh image lost. *)
Definition image_owned (options : OpenClawConfigMergeOptions) (fresh : json) (id : string) : bool :=
  set_has (plugin_ids (previousImagePluginInstalls options)) id
  && match stringArray fresh with
     | Some _ => true
     | None => negb (set_has (plugin_ids (freshImagePluginInstalls options)) id)
     end.

Lemma some_ids_default l : default [] (stringArray (default JUndef (some_ids l))) = default [] l.
Proof.
  destruct l as [[|s l]|]; [done| |done].
  change (default [] (stringArray (jstrs (s :: l))) = s :: l). by rewrite only_strings_JArr.
Qed.

Lemma elem_of_id_list b c owned opposite id :
  id ∈ default [] (mergeOpenClawPluginIdList b c owned opposite)
  ↔ id ∈ default [] (stringArray c)
    ∨ id ∈ default [] (stringArray b) ∧ set_has owned id = false ∧ id ∉ opposite.
Proof.
  unfold mergeOpenClawPluginIdList.
  assert (Hu : ∀ cur bak : list string,
    id ∈ uniqueStrings (cur ++ List.filter (λ id, negb (set_has owned id) && negb (includes opposite id)) bak)
    ↔ id ∈ cur ∨ id ∈ bak ∧ set_has owned id = false ∧ id ∉ opposite).
  { intros cur bak. rewrite elem_of_uniqueStrings, elem_of_app, !list_elem_of_In, filter_In.
    rewrite andb_true_iff, !negb_true_iff, <- !list_elem_of_In.
    rewrite <- (includes_spec opposite). by rewrite not_true_iff_false. }
  destruct (stringArray b), (stringArray c); cbn [default from_option Datatypes.id]; rewrite ?Hu;
    rewrite ?elem_of_nil; tauto.
Qed.

Lemma allowOwnedIds_spec options po fo list id :
  imagePluginOwnership (previousImagePluginInstalls options) = Ok po →
  imagePluginOwnership (freshImagePluginInstalls options) = Ok fo →
  set_has (allowOwnedIds (stringArray list) po fo) id = image_owned options list id.
Proof.
  intros Hp Hf. unfold image_owned, allowOwnedIds.
  pose proof (imagePluginOwnership_spec (previousImagePluginInstalls options)) as Sp. rewrite Hp in Sp.
  pose proof (imagePluginOwnership_spec (freshImagePluginInstalls options)) as Sf. rewrite Hf in Sf.
  rewrite <- (proj2 Sp), <- (proj2 Sf). destruct (stringArray list); [by rewrite andb_true_r|].
  unfold removedImagePluginIds. destruct (ids po) as [l|]; [|done].
  apply eq_true_iff_eq. rewrite andb_true_iff, !set_has_spec, elem_of_uniqueStrings.
  by rewrite !list_elem_of_In, filter_In.
Qed.

(** After a restore a plugin is allowed exactly when the fresh configuration
    allows it, or the backup did and neither the image owned it nor the fresh
    configuration denies it; the same holds of denials.  So no plugin is both allowed and
    denied unless one of the two configurations said so. *)
Theorem restored_plugin_lists bak cur options m id :
  parsed bak = true → parsed cur = true →
  mergeOpenClawRestoredConfig bak cur options = Ok m →
  let allow := ["plugins"; "allow"] in
  let deny := ["plugins"; "deny"] in
  (id ∈ ids_at (JObj m) allow ↔
     id ∈ ids_at cur allow
     ∨ id ∈ ids_at bak allow ∧ image_owned options (at_path cur allow) id = false ∧ id ∉ ids_at cur deny)
  ∧ (id ∈ ids_at (JObj m) deny ↔
     id ∈ ids_at cur deny
     ∨ id ∈ ids_at bak deny ∧ image_owned options (at_path cur deny) id = false ∧ id ∉ ids_at cur allow)
  ∧ (¬ (id ∈ ids_at cur allow ∧ id ∈ ids_at cur deny) →
     ¬ (id ∈ ids_at bak allow ∧ id ∈ ids_at bak deny) →
     ¬ (id ∈ ids_at (JObj m) allow ∧ id ∈ ids_at (JObj m) deny)).
Proof.
  intros Hb%parsed_readable Hc%parsed_readable (b & c & po & fo & -> & -> & Ep & Ef & Em)%merge_ok allow deny.
  unfold allow, deny, ids_at. rewrite !(at_merged _ _ _ _ _ _ _ Em), jget_sections by done.
  cbn [String.eqb Ascii.eqb Bool.eqb].
  rewrite !at_path_cons, !prop_obj, !prop_plugins by eauto with nemo.
  change (includes plugin_sections "allow") with true.
  change (includes plugin_sections "deny") with true. cbv iota.
  cbn [at_path fold_left plugin_section String.eqb Ascii.eqb Bool.eqb].
  unfold plugin_section. cbn [String.eqb Ascii.eqb Bool.eqb].
  rewrite !some_ids_default, !elem_of_id_list, !(allowOwnedIds_spec options) by done.
  split_and!; tauto.
Qed.

(** ** Refusals *)

(** The merge is defined exactly on objects with complete provenance on both sides or on
    none. *)
Lemma merge_defined bak cur options :
  match mergeOpenClawRestoredConfig bak cur options with
  | Ok _ => isObjectRecord bak ≠ None ∧ isObjectRecord cur ≠ None
            ∧ (previousImagePluginInstalls options = None ↔ freshImagePluginInstalls options = None)
            ∧ complete_provenance (previousImagePluginInstalls options) = true
            ∧ complete_provenance (freshImagePluginInstalls options) = true
  | Throw NotObjects => isObjectRecord bak = None ∨ isObjectRecord cur = None
  | Throw OneSidedProvenance =>
      ¬ (previousImagePluginInstalls options = None ↔ freshImagePluginInstalls options = None)
  | Throw MissingLoadPaths =>
      complete_provenance (previousImagePluginInstalls options) = false
      ∨ complete_provenance (freshImagePluginInstalls options) = false
  end.
Proof.
  pose proof (imagePluginOwnership_spec (previousImagePluginInstalls options)) as Hp.
  pose proof (imagePluginOwnership_spec (freshImagePluginInstalls options)) as Hf.
  unfold mergeOpenClawRestoredConfig.
  destruct (object_or_not bak) as [[b ->]|Eb]; [|destruct bak; try done; by left].
  destruct (object_or_not cur) as [[c ->]|Ec]; [|destruct cur; try done; by right].
  destruct (previousImagePluginInstalls options) as [p|], (freshImagePluginInstalls options) as [f|];
    [|naive_solver..|done].
  destruct (imagePluginOwnership (Some p)); cbn [mbind result_bind]; [|destruct Hp as [-> ?]; by left].
  destruct (imagePluginOwnership (Some f)); cbn [mbind result_bind]; [|destruct Hf as [-> ?]; by right].
  split_and!; naive_solver.
Qed.

(** ** Samples *)

Definition sample_backup : json := JObj
  [("models", JObj [("providers", JObj
      [("inference", JObj [("baseUrl", JStr "http://127.0.0.1:8789/v1");
         ("models", JArr [JObj [("id", JStr "kimi"); ("name", JStr "stale"); ("maxTokens", JNum (NInt 32768))];
                          JObj [("id", JStr "stale-model")]])]);
       ("custom", JObj [("models", JArr [JObj [("id", JStr "custom-model")]])])])]);
   ("channels", JObj [("discord", JObj [("token", JStr "v111")]); ("slack", JObj [("token", JStr "stripped")]);
                      ("matrix", JObj [("room", JStr "ops")])]);
   ("plugins", JObj [("entries", JObj [("discord", JObj [("enabled", JBool false)]);
                                       ("weather", JObj [("enabled", JBool true)]);
                                       ("custom", JObj [("enabled", JBool true)])]);
                     ("installs", JObj [("weather", JNull)]);
                     ("allow", jstrs ["weather"; "custom"; "brave"])]);
   ("tools", JObj [("web", JObj [("search", JObj [("provider", JStr "brave")]); ("fetch", JBool true)])]);
   ("agents", JObj [("defaults", JObj [("model", JObj [("primary", JStr "nano")]); ("thinking", JStr "off")]);
                    ("entries", JObj [("main", JObj [("model", JStr "nano"); ("default", JBool true)]);
                                      ("researcher", JObj [("model", JStr "pinned")])])]);
   ("mcpServers", JObj [("filesystem", JObj [("command", JStr "npx")])])].
Definition sample_fresh : json := JObj
  [("gateway", JObj [("token", JStr "fresh-token")]);
   ("models", JObj [("providers", JObj
      [("inference", JObj [("baseUrl", JStr "http://127.0.0.1:9999/v1");
         ("models", JArr [JObj [("id", JStr "kimi"); ("name", JStr "fresh"); ("maxTokens", JNum (NInt 4096))]])])])]);
   ("channels", JObj [("discord", JObj [("token", JStr "v222")])]);
   ("plugins", JObj [("entries", JObj [("discord", JObj [("enabled", JBool true)])]);
                     ("deny", jstrs ["brave"])]);
   ("agents", JObj [("defaults", JObj [("model", JObj [("primary", JStr "qwen")])])])].
Definition sample_options : OpenClawConfigMergeOptions :=
  mkOptions (Some []) (Some [mkInstall "weather" "/ext/weather" (Some ["/ext/weather"])]).
Definition sample_merged : list (string * json) :=
  match mergeOpenClawRestoredConfig sample_backup sample_fresh sample_options with
  | Ok m => m
  | Throw _ => []
  end.

Example sample_restored :
  JObj sample_merged = JObj
  [("gateway", JObj [("token", JStr "fresh-token")]);
   ("models", JObj [("providers", JObj
      [("inference", JObj [("baseUrl", JStr "http://127.0.0.1:9999/v1");
         ("models", JArr [JObj [("id", JStr "kimi"); ("name", JStr "fresh"); ("maxTokens", JNum (NInt 32768))]])]);
       ("custom", JObj [("models", JArr [JObj [("id", JStr "custom-model")]])])])]);
   ("channels", JObj [("discord", JObj [("token", JStr "v222")]); ("matrix", JObj [("room", JStr "ops")])]);
   ("plugins", JObj [("entries", JObj [("discord", JObj [("enabled", JBool true)]);
                                       ("custom", JObj [("enabled", JBool true)])]);
                     ("deny", jstrs ["brave"]); ("allow", jstrs ["custom"])]);
   ("agents", JObj [("defaults", JObj [("model", JObj [("primary", JStr "qwen")]); ("thinking", JStr "off")]);
                    ("entries", JObj [("main", JObj [("model", JStr "qwen"); ("default", JBool true)]);
                                      ("researcher", JObj [("model", JStr "pinned")])])]);
   ("tools", JObj [("web", JObj [("fetch", JBool true)])]);
   ("mcpServers", JObj [("filesystem", JObj [("command", JStr "npx")])])].
Proof. vm_compute. reflexivity. Qed.

(** A [main] agent without a model of its own: among the entries the next default agent
    follows the fresh model, in the list no agent does. *)
Example main_without_model :
  let main := [("id", JStr "main")] in
  let other := [("id", JStr "other"); ("default", JBool true); ("model", JStr "stale")] in
  updateMainAgentListModel [("entries", JObj [("main", JObj main); ("other", JObj other)])] "fresh"
  = [("entries", JObj [("main", JObj main); ("other", JObj (put other "model" (JStr "fresh")))])]
  ∧ updateMainAgentListModel [("list", JArr [JObj main; JObj other])] "fresh"
    = [("list", JArr [JObj main; JObj other])].
Proof. by vm_compute. Qed.

Lemma restore_respects_ownership_witness :
  let path := ["tools"; "web"; "search"] in
  fresh_owned sample_fresh (plugin_ids (previousImagePluginInstalls sample_options)) path = true
  ∧ at_path (JObj sample_merged) path = at_path sample_fresh path
  ∧ at_path (JObj sample_merged) ["plugins"; "installs"] = JUndef.
Proof.
  split; [reflexivity|].
  apply (restore_respects_ownership sample_backup sample_fresh sample_options sample_merged
           ["tools"; "web"; "search"]); vm_compute; reflexivity.
Defined.

Lemma restore_keeps_user_settings_witness :
  (let path := ["agents"; "defaults"; "thinking"] in
   leaf (at_path sample_backup path) = true ∧ keeps sample_backup sample_fresh (JObj sample_merged) path)
  ∧ at_path (JObj sample_merged) ["agents"; "entries"; "main"; "model"] = JStr "qwen".
Proof.
  assert (Hm : mergeOpenClawRestoredConfig sample_backup sample_fresh sample_options = Ok sample_merged)
    by (vm_compute; reflexivity).
  destruct (restore_keeps_user_settings sample_backup sample_fresh sample_options sample_merged eq_refl eq_refl Hm)
    as [Hkeep Hagents]. split.
  - split; [reflexivity|]. apply Hkeep. vm_compute. reflexivity.
  - destruct (Hagents "qwen" eq_refl) as [(lead & _ & Hlead & Hmain) _].
    exact (proj1 (Hlead "main" (Hmain "nano" eq_refl))).
Defined.

Lemma restored_models_reconciled_witness :
  let path := ["models"; "providers"; "inference"; "models"] in
  ∃ l', at_path (JObj sample_merged) path = JArr l'
        ∧ Forall2 (reconciled_model (elements (at_path sample_backup path)))
            (elements (at_path sample_fresh path)) l'.
Proof.
  apply (restored_models_reconciled sample_backup sample_fresh sample_options sample_merged "inference"
           (elements (at_path sample_fresh ["models"; "providers"; "inference"; "models"])));
    vm_compute; reflexivity.
Defined.

Lemma restored_plugin_lists_witness :
  "brave" ∈ ids_at sample_backup ["plugins"; "allow"]
  ∧ ¬ ("brave" ∈ ids_at (JObj sample_merged) ["plugins"; "allow"]
       ∧ "brave" ∈ ids_at (JObj sample_merged) ["plugins"; "deny"]).
Proof.
  split; [vm_compute; right; right; left|].
  apply (restored_plugin_lists sample_backup sample_fresh sample_options sample_merged "brave");
    [vm_compute; reflexivity..| |].
  - intros [H _]. vm_compute in H. inversion H.
  - intros [_ H]. vm_compute in H. inversion H.
Defined.
